(** * PStream: per-path reliability engine, packet packer, path manager
      and bandwidth estimator, embedded from the Go sources.

    Layout of the development:
    - machine integers, time and durations;
    - [Wire]: the frames the core handles;
    - [Congestion]: the bandwidth estimator of [congestion/bdw_stats.go]
      and the interface of the send algorithm;
    - [AckHandler]: the sent-packet handler of
      [ackhandler/sent_packet_handler.go] and its stop-waiting manager;
    - [Packer]: the packet packer;
    - [PathManager]: path identifiers and path creation;
    - [Version]: the version numbers of [internal/protocol];
    - [FrameCodec]: the BLOCKED and CONNECTION_CLOSE frames on the wire;
    - [StopWaiting] and [PackerPaths]: the calls on the stop-waiting
      manager, and the path a call on the packer is made for;
    - [OpenPaths] and [PathsFrame]: the open paths of the session, and the
      paths a PATHS frame of the peer announces;
    - [Scheduler]: the path selection of [scheduler.go];
    - [Retransmissions]: the packets a handler holds for retransmission;
    - the theorems, module by module. *)

From Stdlib Require Import ZArith List Bool Lia Ascii String Sorted.
From Stdlib.Strings Require Byte.
From stdpp Require Import base option list sorting gmap strings.

Local Open Scope Z_scope.

(** ** Machine integers

    Go's fixed-width integers are kept as [Z] with the wrap-around written
    at every operation that can leave the range. *)

Definition wrapU (w x : Z) : Z := x mod 2 ^ w.
Definition wrapS (w x : Z) : Z := (x + 2 ^ (w - 1)) mod 2 ^ w - 2 ^ (w - 1).

Definition uint8 (x : Z) : Z := wrapU 8 x.
Definition uint32 (x : Z) : Z := wrapU 32 x.
Definition uint64 (x : Z) : Z := wrapU 64 x.
Definition int64 (x : Z) : Z := wrapS 64 x.

Definition maxInt64 : Z := 2 ^ 63 - 1.
Definition minInt64 : Z := - 2 ^ 63.

(** ** [time.Time] and [time.Duration]

    A [Duration] is an int64 count of nanoseconds.  A [Time] is an instant
    in nanoseconds on the integer line; the zero [Time] is the instant 0. *)

Definition Duration := Z.
Definition Time := Z.

Definition Nanosecond : Duration := 1.
Definition Millisecond : Duration := 1000000.
Definition Second : Duration := 1000000000.

Definition zeroTime : Time := 0.
Definition IsZero (t : Time) : bool := t =? 0.
Definition Add (t : Time) (d : Duration) : Time := t + d.

(** [Time.Sub] saturates at the ends of the int64 range. *)
Definition Sub (t u : Time) : Duration :=
  Z.max minInt64 (Z.min maxInt64 (t - u)).

Definition MaxDuration (a b : Duration) : Duration := if a >? b then a else b.
Definition MinDuration (a b : Duration) : Duration := if a >? b then b else a.

(** [d << n] on an int64 with an unsigned shift count: the bits shifted
    out are dropped, a count of 64 or more leaves 0. *)
Definition shl64 (d : Duration) (n : Z) : Duration :=
  if n >=? 64 then 0 else int64 (Z.shiftl d n).

(** ** Wire frames *)

Module Wire.

(** [internal/wire/ack_range.go] *)
Record AckRange := { First : Z; Last : Z }.

Record AckFrame := {
  PathID : Z;
  LargestAcked : Z;
  LowestAcked : Z;
  DelayTime : Duration;
  AckRanges : list AckRange
}.

(** Modelled from the spec: [AckFrame.HasMissingRanges], whose file is not
    among the sources; the data model gives
    [HasMissingRanges = len(AckRanges) > 1]. *)
Definition HasMissingRanges (f : AckFrame) : bool :=
  (Z.of_nat (length (AckRanges f)) >? 1).

Definition inRange (p : Z) (r : AckRange) : bool :=
  (First r <=? p) && (p <=? Last r).

(** Modelled from the spec: [AckFrame.AcksPacket], whose file is not among
    the sources.  A packet number is covered by the frame when it lies in
    [LowestAcked, LargestAcked] and, if the frame declares missing ranges,
    in one of its closed intervals. *)
Definition AcksPacket (f : AckFrame) (p : Z) : bool :=
  if (p <? LowestAcked f) || (p >? LargestAcked f) then false
  else if HasMissingRanges f then existsb (inRange p) (AckRanges f)
  else true.

(** A CLOSE_PATH frame carries the acknowledgement fields of an ACK. *)
Record ClosePathFrame := {
  cpPathID : Z;
  cpLargestAcked : Z;
  cpLowestAcked : Z;
  cpAckRanges : list AckRange
}.

Definition cpAsAck (f : ClosePathFrame) : AckFrame :=
  {| PathID := cpPathID f; LargestAcked := cpLargestAcked f;
     LowestAcked := cpLowestAcked f; DelayTime := 0;
     AckRanges := cpAckRanges f |}.

Definition cpHasMissingRanges (f : ClosePathFrame) : bool :=
  HasMissingRanges (cpAsAck f).
Definition cpAcksPacket (f : ClosePathFrame) (p : Z) : bool :=
  AcksPacket (cpAsAck f) p.

Record StopWaitingFrame := {
  LeastUnacked : Z;
  PacketNumber : Z;
  PacketNumberLen : Z
}.

Record StreamFrame := {
  StreamID : Z;
  Offset : Z;
  FinBit : bool;
  DataLenPresent : bool;
  Data : list Z
}.

(** [internal/wire/blocked_frame.go] *)
Record BlockedFrame := { blockedStreamID : Z }.

(** The union of frames ([wire.Frame]), one case per frame kind. *)
Inductive Frame :=
| StopWaiting (f : StopWaitingFrame)
| Ack (f : AckFrame)
| Ping
| Stream (f : StreamFrame)
| Blocked (f : BlockedFrame)
| WindowUpdate (streamID byteOffset : Z)
| RstStream (streamID errorCode byteOffset : Z)
| ConnectionClose (errorCode : Z) (reasonPhrase : string)
| ClosePath (f : ClosePathFrame)
| AddAddress (ipVersion : Z) (addr : string)
| Paths (pathIDs : list Z) (remoteAddrsIP remoteAddrsPort : list string).

Definition isStopWaiting (f : Frame) : bool :=
  match f with StopWaiting _ => true | _ => false end.
Definition isPing (f : Frame) : bool :=
  match f with Ping => true | _ => false end.

Inductive EncryptionLevel :=
| EncryptionUnspecified
| EncryptionUnencrypted
| EncryptionSecure
| EncryptionForwardSecure.

Definition encLevelRank (l : EncryptionLevel) : Z :=
  match l with
  | EncryptionUnspecified => 0
  | EncryptionUnencrypted => 1
  | EncryptionSecure => 2
  | EncryptionForwardSecure => 3
  end.

End Wire.

(** ** Congestion: bandwidth estimator and send algorithm *)

Module Congestion.

(** [Bandwidth] is a uint64 count of bits per second. *)
Definition BitsPerSecond : Z := 1.
Definition BytesPerSecond : Z := 8 * BitsPerSecond.

Definition compareWindowSize : Z := 10.

(** [congestion/bdw_stats.go] *)
Record BDWStats := {
  bandwidth : Z;
  compareWindow : list Z;
  roundRobinIndex : Z
}.

Definition NewBDWStats (bw : Z) : BDWStats :=
  {| bandwidth := bw;
     compareWindow := replicate (Z.to_nat compareWindowSize) 0;
     roundRobinIndex := 0 |}.

Definition GetBandwidth (b : BDWStats) : Z := bandwidth b / 1048576.

(** The final loop of the update: raise [bandwidth] to every window entry
    that exceeds it. *)
Definition raiseToWindow (bw : Z) (window : list Z) : Z :=
  fold_left (fun acc x => if acc <? x then x else acc) window bw.

(** The block of [UpdateBDW] behind the [disable] flag.  The division is
    Go's integer division; a zero divisor is a run-time panic, [None]. *)
Definition updateBlock (b : BDWStats) (sentDelta : Z) (sentDelay : Duration)
  : option BDWStats :=
  if uint64 sentDelay =? 0 then None
  else
    let bdw :=
      uint64 (uint64 (uint64 sentDelta * uint64 Second) / uint64 sentDelay
              * BytesPerSecond) in
    let size := uint8 (Z.of_nat (length (compareWindow b))) in
    let startIndex := roundRobinIndex b in
    let window := <[Z.to_nat (startIndex mod size) := bdw]> (compareWindow b) in
    Some {| bandwidth := raiseToWindow (bandwidth b) window;
            compareWindow := window;
            roundRobinIndex := uint8 (roundRobinIndex b + 1) mod size |}.

Definition UpdateBDW (b : BDWStats) (sentDelta : Z) (sentDelay : Duration)
  : option BDWStats :=
  let disable := true in
  if negb disable then updateBlock b sentDelta sentDelay else Some b.

(** [congestion.SendAlgorithm] is an interface; the RTT statistics it
    shares with the handler (one [*RTTStats] behind both) live in the same
    state [C], so an RTT update is seen by the algorithm. *)
Class SendAlgorithm (C : Type) := {
  OnPacketSent : C -> Time -> Z -> Z -> Z -> bool -> C;
  OnPacketAcked : C -> Z -> Z -> Z -> C;
  OnPacketLost : C -> Z -> Z -> Z -> C;
  MaybeExitSlowStart : C -> C;
  OnRetransmissionTimeout : C -> bool -> C;
  RetransmissionDelay : C -> Duration;
  SmoothedRTT : C -> Duration;
  GetCongestionWindow : C -> Z;
  (* the shared RTTStats *)
  UpdateRTT : C -> Duration -> Duration -> Time -> C;
  rttSmoothedRTT : C -> Duration;
  rttLatestRTT : C -> Duration
}.

End Congestion.

(** ** Protocol constants

    [internal/protocol]'s constants are not among the sources; they are
    taken as parameters of the development. *)

Class Protocol := {
  MaxTrackedSentPackets : Z;
  MaxTrackedSkippedPackets : Z;
  MaxNonRetransmittablePackets : Z;
  MaxPacketSize : Z;
  NonForwardSecurePacketSizeReduction : Z
}.

(** ** The sent-packet handler *)

Module AckHandler.

Import Congestion.

Inductive Error :=
| errPacketNumberNotIncreasing
| ErrTooManyTrackedSentPackets
| ErrAckForSkippedPacket
| errAckForUnsentPacket
| ErrDuplicateOrOutOfOrderAck
| errBUG (packetNumber first last : Z)
| panicDivideByZero.

(** Timing constants of the handler, in nanoseconds. *)
Definition defaultRTOTimeout : Duration := 500 * Millisecond.
Definition minRTOTimeout : Duration := 200 * Millisecond.
Definition maxRTOTimeout : Duration := 60 * Second.
Definition maxTailLossProbes : Z := 2.
Definition minRetransmissionTime : Duration := 200 * Millisecond.
Definition minTailLossProbeTimeout : Duration := 10 * Millisecond.

(** The in-flight record. *)
Record Packet := {
  PacketNumber : Z;
  Frames : list Wire.Frame;
  Length : Z;
  EncryptionLevel : Wire.EncryptionLevel;
  SendTime : Time
}.

(** Modelled from the spec: [stripNonRetransmittableFrames] and
    [Packet.IsRetransmittable], whose file is not among the sources; the
    non-retransmittable frames are the pure ACK and STOP_WAITING frames. *)
Definition IsFrameRetransmittable (f : Wire.Frame) : bool :=
  match f with
  | Wire.StopWaiting _ => false
  | Wire.Ack _ => false
  | _ => true
  end.

Definition stripNonRetransmittableFrames (fs : list Wire.Frame)
  : list Wire.Frame :=
  List.filter IsFrameRetransmittable fs.

Definition IsRetransmittable (p : Packet) : bool :=
  existsb IsFrameRetransmittable (Frames p).

(** Modelled from the spec: the [PacketList] of the history, a doubly
    linked list whose file is not among the sources.  Its elements are
    heap cells: two elements holding equal packets are still two elements.
    The address of a cell is kept as a serial number [eid], handed out by
    the list when the cell is allocated, and removal is by that identity. *)
Record PacketElement := { eid : nat; Value : Packet }.

Record PacketList := { elems : list PacketElement; nextId : nat }.

Definition NewPacketList : PacketList := {| elems := []; nextId := 0%nat |}.
Definition Front (l : PacketList) : option PacketElement := head (elems l).
Definition Back (l : PacketList) : option PacketElement := last (elems l).
Definition Len (l : PacketList) : Z := Z.of_nat (length (elems l)).
Definition PushBack (l : PacketList) (p : Packet) : PacketList :=
  {| elems := elems l ++ [ {| eid := nextId l; Value := p |} ];
     nextId := S (nextId l) |}.
Definition Remove (l : PacketList) (e : PacketElement) : PacketList :=
  {| elems := List.filter (fun x => negb (Nat.eqb (eid x) (eid e))) (elems l);
     nextId := nextId l |}.

(** *** The stop-waiting manager *)

Record stopWaitingManager := {
  largestLeastUnackedSent : Z;
  nextLeastUnacked : Z;
  lastStopWaitingFrame : option Wire.StopWaitingFrame
}.

Definition newStopWaitingFrame (leastUnacked : Z) : Wire.StopWaitingFrame :=
  {| Wire.LeastUnacked := leastUnacked;
     Wire.PacketNumber := 0; Wire.PacketNumberLen := 0 |}.

Definition swmGetStopWaitingFrame (s : stopWaitingManager) (force : bool)
  : option Wire.StopWaitingFrame * stopWaitingManager :=
  if nextLeastUnacked s <=? largestLeastUnackedSent s then
    if force then
      match lastStopWaitingFrame s with
      | None =>
        if largestLeastUnackedSent s >? 0 then
          let swf := newStopWaitingFrame (nextLeastUnacked s) in
          (Some swf,
           {| largestLeastUnackedSent := largestLeastUnackedSent s;
              nextLeastUnacked := nextLeastUnacked s;
              lastStopWaitingFrame := Some swf |})
        else (None, s)
      | Some swf => (Some swf, s)
      end
    else (None, s)
  else
    let swf := newStopWaitingFrame (nextLeastUnacked s) in
    (Some swf,
     {| largestLeastUnackedSent := nextLeastUnacked s;
        nextLeastUnacked := nextLeastUnacked s;
        lastStopWaitingFrame := Some swf |}).

Definition swmReceivedAck (s : stopWaitingManager) (ack : Wire.AckFrame)
  : stopWaitingManager :=
  if Wire.LargestAcked ack >=? nextLeastUnacked s then
    {| largestLeastUnackedSent := largestLeastUnackedSent s;
       nextLeastUnacked := uint64 (Wire.LargestAcked ack + 1);
       lastStopWaitingFrame := lastStopWaitingFrame s |}
  else s.

Definition QueuedRetransmissionForPacketNumber (s : stopWaitingManager)
  (p : Z) : stopWaitingManager :=
  if p >=? nextLeastUnacked s then
    {| largestLeastUnackedSent := largestLeastUnackedSent s;
       nextLeastUnacked := uint64 (p + 1);
       lastStopWaitingFrame := lastStopWaitingFrame s |}
  else s.

(** *** The handler state

    [swm] is the [stopWaitingManager] field; the callback [onRTOCallback]
    is a parameter of [OnAlarm]. *)

#[local] Set Implicit Arguments.

Record sentPacketHandler (C : Type) := {
  lastSentPacketNumber : Z;
  skippedPackets : list Z;
  pathID : Z;
  numNonRetransmittablePackets : Z;
  LargestAcked : Z;
  largestReceivedPacketWithAck : Z;
  packetHistory : PacketList;
  swm : stopWaitingManager;
  retransmissionQueue : list Packet;
  bytesInFlight : Z;
  congestion : C;
  bdwStats : BDWStats;
  rtoCount : Z;
  tlpCount : Z;
  lossTime : Time;
  lastSentTime : Time;
  alarm : Time;
  packets : Z;
  retransmissions : Z;
  losses : Z
}.

#[local] Unset Implicit Arguments.

Section Handler.

Context {C : Type} `{SendAlgorithm C} `{Protocol}.

Implicit Types h : sentPacketHandler C.

(** Field updates, one per assigned field. *)
Definition set_lastSentPacketNumber h (v : Z) : sentPacketHandler C :=
  {| lastSentPacketNumber := v;
     skippedPackets := skippedPackets h;
     pathID := pathID h;
     numNonRetransmittablePackets := numNonRetransmittablePackets h;
     LargestAcked := LargestAcked h;
     largestReceivedPacketWithAck := largestReceivedPacketWithAck h;
     packetHistory := packetHistory h;
     swm := swm h;
     retransmissionQueue := retransmissionQueue h;
     bytesInFlight := bytesInFlight h;
     congestion := congestion h;
     bdwStats := bdwStats h;
     rtoCount := rtoCount h;
     tlpCount := tlpCount h;
     lossTime := lossTime h;
     lastSentTime := lastSentTime h;
     alarm := alarm h;
     packets := packets h;
     retransmissions := retransmissions h;
     losses := losses h |}.

Definition set_skippedPackets h (v : list Z) : sentPacketHandler C :=
  {| lastSentPacketNumber := lastSentPacketNumber h;
     skippedPackets := v;
     pathID := pathID h;
     numNonRetransmittablePackets := numNonRetransmittablePackets h;
     LargestAcked := LargestAcked h;
     largestReceivedPacketWithAck := largestReceivedPacketWithAck h;
     packetHistory := packetHistory h;
     swm := swm h;
     retransmissionQueue := retransmissionQueue h;
     bytesInFlight := bytesInFlight h;
     congestion := congestion h;
     bdwStats := bdwStats h;
     rtoCount := rtoCount h;
     tlpCount := tlpCount h;
     lossTime := lossTime h;
     lastSentTime := lastSentTime h;
     alarm := alarm h;
     packets := packets h;
     retransmissions := retransmissions h;
     losses := losses h |}.

Definition set_numNonRetransmittablePackets h (v : Z) : sentPacketHandler C :=
  {| lastSentPacketNumber := lastSentPacketNumber h;
     skippedPackets := skippedPackets h;
     pathID := pathID h;
     numNonRetransmittablePackets := v;
     LargestAcked := LargestAcked h;
     largestReceivedPacketWithAck := largestReceivedPacketWithAck h;
     packetHistory := packetHistory h;
     swm := swm h;
     retransmissionQueue := retransmissionQueue h;
     bytesInFlight := bytesInFlight h;
     congestion := congestion h;
     bdwStats := bdwStats h;
     rtoCount := rtoCount h;
     tlpCount := tlpCount h;
     lossTime := lossTime h;
     lastSentTime := lastSentTime h;
     alarm := alarm h;
     packets := packets h;
     retransmissions := retransmissions h;
     losses := losses h |}.

Definition set_LargestAcked h (v : Z) : sentPacketHandler C :=
  {| lastSentPacketNumber := lastSentPacketNumber h;
     skippedPackets := skippedPackets h;
     pathID := pathID h;
     numNonRetransmittablePackets := numNonRetransmittablePackets h;
     LargestAcked := v;
     largestReceivedPacketWithAck := largestReceivedPacketWithAck h;
     packetHistory := packetHistory h;
     swm := swm h;
     retransmissionQueue := retransmissionQueue h;
     bytesInFlight := bytesInFlight h;
     congestion := congestion h;
     bdwStats := bdwStats h;
     rtoCount := rtoCount h;
     tlpCount := tlpCount h;
     lossTime := lossTime h;
     lastSentTime := lastSentTime h;
     alarm := alarm h;
     packets := packets h;
     retransmissions := retransmissions h;
     losses := losses h |}.

Definition set_largestReceivedPacketWithAck h (v : Z) : sentPacketHandler C :=
  {| lastSentPacketNumber := lastSentPacketNumber h;
     skippedPackets := skippedPackets h;
     pathID := pathID h;
     numNonRetransmittablePackets := numNonRetransmittablePackets h;
     LargestAcked := LargestAcked h;
     largestReceivedPacketWithAck := v;
     packetHistory := packetHistory h;
     swm := swm h;
     retransmissionQueue := retransmissionQueue h;
     bytesInFlight := bytesInFlight h;
     congestion := congestion h;
     bdwStats := bdwStats h;
     rtoCount := rtoCount h;
     tlpCount := tlpCount h;
     lossTime := lossTime h;
     lastSentTime := lastSentTime h;
     alarm := alarm h;
     packets := packets h;
     retransmissions := retransmissions h;
     losses := losses h |}.

Definition set_packetHistory h (v : PacketList) : sentPacketHandler C :=
  {| lastSentPacketNumber := lastSentPacketNumber h;
     skippedPackets := skippedPackets h;
     pathID := pathID h;
     numNonRetransmittablePackets := numNonRetransmittablePackets h;
     LargestAcked := LargestAcked h;
     largestReceivedPacketWithAck := largestReceivedPacketWithAck h;
     packetHistory := v;
     swm := swm h;
     retransmissionQueue := retransmissionQueue h;
     bytesInFlight := bytesInFlight h;
     congestion := congestion h;
     bdwStats := bdwStats h;
     rtoCount := rtoCount h;
     tlpCount := tlpCount h;
     lossTime := lossTime h;
     lastSentTime := lastSentTime h;
     alarm := alarm h;
     packets := packets h;
     retransmissions := retransmissions h;
     losses := losses h |}.

Definition set_swm h (v : stopWaitingManager) : sentPacketHandler C :=
  {| lastSentPacketNumber := lastSentPacketNumber h;
     skippedPackets := skippedPackets h;
     pathID := pathID h;
     numNonRetransmittablePackets := numNonRetransmittablePackets h;
     LargestAcked := LargestAcked h;
     largestReceivedPacketWithAck := largestReceivedPacketWithAck h;
     packetHistory := packetHistory h;
     swm := v;
     retransmissionQueue := retransmissionQueue h;
     bytesInFlight := bytesInFlight h;
     congestion := congestion h;
     bdwStats := bdwStats h;
     rtoCount := rtoCount h;
     tlpCount := tlpCount h;
     lossTime := lossTime h;
     lastSentTime := lastSentTime h;
     alarm := alarm h;
     packets := packets h;
     retransmissions := retransmissions h;
     losses := losses h |}.

Definition set_retransmissionQueue h (v : list Packet) : sentPacketHandler C :=
  {| lastSentPacketNumber := lastSentPacketNumber h;
     skippedPackets := skippedPackets h;
     pathID := pathID h;
     numNonRetransmittablePackets := numNonRetransmittablePackets h;
     LargestAcked := LargestAcked h;
     largestReceivedPacketWithAck := largestReceivedPacketWithAck h;
     packetHistory := packetHistory h;
     swm := swm h;
     retransmissionQueue := v;
     bytesInFlight := bytesInFlight h;
     congestion := congestion h;
     bdwStats := bdwStats h;
     rtoCount := rtoCount h;
     tlpCount := tlpCount h;
     lossTime := lossTime h;
     lastSentTime := lastSentTime h;
     alarm := alarm h;
     packets := packets h;
     retransmissions := retransmissions h;
     losses := losses h |}.

Definition set_bytesInFlight h (v : Z) : sentPacketHandler C :=
  {| lastSentPacketNumber := lastSentPacketNumber h;
     skippedPackets := skippedPackets h;
     pathID := pathID h;
     numNonRetransmittablePackets := numNonRetransmittablePackets h;
     LargestAcked := LargestAcked h;
     largestReceivedPacketWithAck := largestReceivedPacketWithAck h;
     packetHistory := packetHistory h;
     swm := swm h;
     retransmissionQueue := retransmissionQueue h;
     bytesInFlight := v;
     congestion := congestion h;
     bdwStats := bdwStats h;
     rtoCount := rtoCount h;
     tlpCount := tlpCount h;
     lossTime := lossTime h;
     lastSentTime := lastSentTime h;
     alarm := alarm h;
     packets := packets h;
     retransmissions := retransmissions h;
     losses := losses h |}.

Definition set_congestion h (v : C) : sentPacketHandler C :=
  {| lastSentPacketNumber := lastSentPacketNumber h;
     skippedPackets := skippedPackets h;
     pathID := pathID h;
     numNonRetransmittablePackets := numNonRetransmittablePackets h;
     LargestAcked := LargestAcked h;
     largestReceivedPacketWithAck := largestReceivedPacketWithAck h;
     packetHistory := packetHistory h;
     swm := swm h;
     retransmissionQueue := retransmissionQueue h;
     bytesInFlight := bytesInFlight h;
     congestion := v;
     bdwStats := bdwStats h;
     rtoCount := rtoCount h;
     tlpCount := tlpCount h;
     lossTime := lossTime h;
     lastSentTime := lastSentTime h;
     alarm := alarm h;
     packets := packets h;
     retransmissions := retransmissions h;
     losses := losses h |}.

Definition set_bdwStats h (v : BDWStats) : sentPacketHandler C :=
  {| lastSentPacketNumber := lastSentPacketNumber h;
     skippedPackets := skippedPackets h;
     pathID := pathID h;
     numNonRetransmittablePackets := numNonRetransmittablePackets h;
     LargestAcked := LargestAcked h;
     largestReceivedPacketWithAck := largestReceivedPacketWithAck h;
     packetHistory := packetHistory h;
     swm := swm h;
     retransmissionQueue := retransmissionQueue h;
     bytesInFlight := bytesInFlight h;
     congestion := congestion h;
     bdwStats := v;
     rtoCount := rtoCount h;
     tlpCount := tlpCount h;
     lossTime := lossTime h;
     lastSentTime := lastSentTime h;
     alarm := alarm h;
     packets := packets h;
     retransmissions := retransmissions h;
     losses := losses h |}.

Definition set_rtoCount h (v : Z) : sentPacketHandler C :=
  {| lastSentPacketNumber := lastSentPacketNumber h;
     skippedPackets := skippedPackets h;
     pathID := pathID h;
     numNonRetransmittablePackets := numNonRetransmittablePackets h;
     LargestAcked := LargestAcked h;
     largestReceivedPacketWithAck := largestReceivedPacketWithAck h;
     packetHistory := packetHistory h;
     swm := swm h;
     retransmissionQueue := retransmissionQueue h;
     bytesInFlight := bytesInFlight h;
     congestion := congestion h;
     bdwStats := bdwStats h;
     rtoCount := v;
     tlpCount := tlpCount h;
     lossTime := lossTime h;
     lastSentTime := lastSentTime h;
     alarm := alarm h;
     packets := packets h;
     retransmissions := retransmissions h;
     losses := losses h |}.

Definition set_tlpCount h (v : Z) : sentPacketHandler C :=
  {| lastSentPacketNumber := lastSentPacketNumber h;
     skippedPackets := skippedPackets h;
     pathID := pathID h;
     numNonRetransmittablePackets := numNonRetransmittablePackets h;
     LargestAcked := LargestAcked h;
     largestReceivedPacketWithAck := largestReceivedPacketWithAck h;
     packetHistory := packetHistory h;
     swm := swm h;
     retransmissionQueue := retransmissionQueue h;
     bytesInFlight := bytesInFlight h;
     congestion := congestion h;
     bdwStats := bdwStats h;
     rtoCount := rtoCount h;
     tlpCount := v;
     lossTime := lossTime h;
     lastSentTime := lastSentTime h;
     alarm := alarm h;
     packets := packets h;
     retransmissions := retransmissions h;
     losses := losses h |}.

Definition set_lossTime h (v : Time) : sentPacketHandler C :=
  {| lastSentPacketNumber := lastSentPacketNumber h;
     skippedPackets := skippedPackets h;
     pathID := pathID h;
     numNonRetransmittablePackets := numNonRetransmittablePackets h;
     LargestAcked := LargestAcked h;
     largestReceivedPacketWithAck := largestReceivedPacketWithAck h;
     packetHistory := packetHistory h;
     swm := swm h;
     retransmissionQueue := retransmissionQueue h;
     bytesInFlight := bytesInFlight h;
     congestion := congestion h;
     bdwStats := bdwStats h;
     rtoCount := rtoCount h;
     tlpCount := tlpCount h;
     lossTime := v;
     lastSentTime := lastSentTime h;
     alarm := alarm h;
     packets := packets h;
     retransmissions := retransmissions h;
     losses := losses h |}.

Definition set_lastSentTime h (v : Time) : sentPacketHandler C :=
  {| lastSentPacketNumber := lastSentPacketNumber h;
     skippedPackets := skippedPackets h;
     pathID := pathID h;
     numNonRetransmittablePackets := numNonRetransmittablePackets h;
     LargestAcked := LargestAcked h;
     largestReceivedPacketWithAck := largestReceivedPacketWithAck h;
     packetHistory := packetHistory h;
     swm := swm h;
     retransmissionQueue := retransmissionQueue h;
     bytesInFlight := bytesInFlight h;
     congestion := congestion h;
     bdwStats := bdwStats h;
     rtoCount := rtoCount h;
     tlpCount := tlpCount h;
     lossTime := lossTime h;
     lastSentTime := v;
     alarm := alarm h;
     packets := packets h;
     retransmissions := retransmissions h;
     losses := losses h |}.

Definition set_alarm h (v : Time) : sentPacketHandler C :=
  {| lastSentPacketNumber := lastSentPacketNumber h;
     skippedPackets := skippedPackets h;
     pathID := pathID h;
     numNonRetransmittablePackets := numNonRetransmittablePackets h;
     LargestAcked := LargestAcked h;
     largestReceivedPacketWithAck := largestReceivedPacketWithAck h;
     packetHistory := packetHistory h;
     swm := swm h;
     retransmissionQueue := retransmissionQueue h;
     bytesInFlight := bytesInFlight h;
     congestion := congestion h;
     bdwStats := bdwStats h;
     rtoCount := rtoCount h;
     tlpCount := tlpCount h;
     lossTime := lossTime h;
     lastSentTime := lastSentTime h;
     alarm := v;
     packets := packets h;
     retransmissions := retransmissions h;
     losses := losses h |}.

Definition set_packets h (v : Z) : sentPacketHandler C :=
  {| lastSentPacketNumber := lastSentPacketNumber h;
     skippedPackets := skippedPackets h;
     pathID := pathID h;
     numNonRetransmittablePackets := numNonRetransmittablePackets h;
     LargestAcked := LargestAcked h;
     largestReceivedPacketWithAck := largestReceivedPacketWithAck h;
     packetHistory := packetHistory h;
     swm := swm h;
     retransmissionQueue := retransmissionQueue h;
     bytesInFlight := bytesInFlight h;
     congestion := congestion h;
     bdwStats := bdwStats h;
     rtoCount := rtoCount h;
     tlpCount := tlpCount h;
     lossTime := lossTime h;
     lastSentTime := lastSentTime h;
     alarm := alarm h;
     packets := v;
     retransmissions := retransmissions h;
     losses := losses h |}.

Definition set_retransmissions h (v : Z) : sentPacketHandler C :=
  {| lastSentPacketNumber := lastSentPacketNumber h;
     skippedPackets := skippedPackets h;
     pathID := pathID h;
     numNonRetransmittablePackets := numNonRetransmittablePackets h;
     LargestAcked := LargestAcked h;
     largestReceivedPacketWithAck := largestReceivedPacketWithAck h;
     packetHistory := packetHistory h;
     swm := swm h;
     retransmissionQueue := retransmissionQueue h;
     bytesInFlight := bytesInFlight h;
     congestion := congestion h;
     bdwStats := bdwStats h;
     rtoCount := rtoCount h;
     tlpCount := tlpCount h;
     lossTime := lossTime h;
     lastSentTime := lastSentTime h;
     alarm := alarm h;
     packets := packets h;
     retransmissions := v;
     losses := losses h |}.

Definition set_losses h (v : Z) : sentPacketHandler C :=
  {| lastSentPacketNumber := lastSentPacketNumber h;
     skippedPackets := skippedPackets h;
     pathID := pathID h;
     numNonRetransmittablePackets := numNonRetransmittablePackets h;
     LargestAcked := LargestAcked h;
     largestReceivedPacketWithAck := largestReceivedPacketWithAck h;
     packetHistory := packetHistory h;
     swm := swm h;
     retransmissionQueue := retransmissionQueue h;
     bytesInFlight := bytesInFlight h;
     congestion := congestion h;
     bdwStats := bdwStats h;
     rtoCount := rtoCount h;
     tlpCount := tlpCount h;
     lossTime := lossTime h;
     lastSentTime := lastSentTime h;
     alarm := alarm h;
     packets := packets h;
     retransmissions := retransmissions h;
     losses := v |}.

Definition NewSentPacketHandler (pid : Z) (bdw : BDWStats) (cong : C)
  : sentPacketHandler C :=
  {| lastSentPacketNumber := 0; skippedPackets := []; pathID := pid;
     numNonRetransmittablePackets := 0; LargestAcked := 0;
     largestReceivedPacketWithAck := 0; packetHistory := NewPacketList;
     swm := {| largestLeastUnackedSent := 0; nextLeastUnacked := 0;
               lastStopWaitingFrame := None |};
     retransmissionQueue := []; bytesInFlight := 0; congestion := cong;
     bdwStats := bdw; rtoCount := 0; tlpCount := 0; lossTime := zeroTime;
     lastSentTime := zeroTime; alarm := zeroTime;
     packets := 0; retransmissions := 0; losses := 0 |}.

Definition GetStatistics h : Z * Z * Z :=
  (packets h, retransmissions h, losses h).

Definition largestInOrderAcked h : Z :=
  match Front (packetHistory h) with
  | Some f => uint64 (PacketNumber (Value f) - 1)
  | None => LargestAcked h
  end.

Definition ShouldSendRetransmittablePacket h : bool :=
  numNonRetransmittablePackets h >=? MaxNonRetransmittablePackets.

(** *** Timers *)

Definition hasMultipleOutstandingRetransmittablePackets h : bool :=
  match elems (packetHistory h) with
  | _ :: _ :: _ => true
  | _ => false
  end.

Definition computeTLPTimeout h : Duration :=
  let rtt := SmoothedRTT (congestion h) in
  if hasMultipleOutstandingRetransmittablePackets h then
    MaxDuration (int64 (2 * rtt))
      (int64 (Z.quot (int64 (rtt * 3)) 2 + Z.quot minRetransmissionTime 2))
  else MaxDuration (int64 (2 * rtt)) minTailLossProbeTimeout.

Definition computeRTOTimeout h : Duration :=
  let rto := RetransmissionDelay (congestion h) in
  let rto := if rto =? 0 then defaultRTOTimeout else rto in
  let rto := MaxDuration rto minRTOTimeout in
  (* exponential backoff *)
  let rto := shl64 rto (rtoCount h) in
  MinDuration rto maxRTOTimeout.

(** Every branch of [updateLossDetectionAlarm] assigns [h.alarm]. *)
Definition updateLossDetectionAlarm h : sentPacketHandler C :=
  set_alarm h
    (if Len (packetHistory h) =? 0 then zeroTime
     else if negb (IsZero (lossTime h)) then lossTime h
     else if negb (rttSmoothedRTT (congestion h) =? 0)
             && (tlpCount h <? maxTailLossProbes)
     then Add (lastSentTime h) (computeTLPTimeout h)
     else Add (lastSentTime h)
              (MaxDuration (computeRTOTimeout h) minRetransmissionTime)).

Definition GetAlarmTimeout h : Time := alarm h.

(** *** Removal from the history *)

Definition onPacketAcked h (packetElement : PacketElement)
  : sentPacketHandler C :=
  let h := set_bytesInFlight h
             (uint64 (bytesInFlight h - Length (Value packetElement))) in
  let h := set_rtoCount h 0 in
  let h := set_tlpCount h 0 in
  set_packetHistory h (Remove (packetHistory h) packetElement).

Definition queuePacketForRetransmission h (packetElement : PacketElement)
  : sentPacketHandler C :=
  let packet := Value packetElement in
  let h := set_bytesInFlight h (uint64 (bytesInFlight h - Length packet)) in
  let h := set_retransmissionQueue h (retransmissionQueue h ++ [packet]) in
  let h := set_packetHistory h (Remove (packetHistory h) packetElement) in
  set_swm h (QueuedRetransmissionForPacketNumber (swm h) (PacketNumber packet)).

Definition DuplicatePacket h (packet : Packet) : sentPacketHandler C :=
  set_retransmissionQueue h (retransmissionQueue h ++ [packet]).

Definition queueRTO h (el : PacketElement) : sentPacketHandler C :=
  let packet := Value el in
  let h := queuePacketForRetransmission h el in
  let h := set_losses h (uint64 (losses h + 1)) in
  set_congestion h
    (OnPacketLost (congestion h) (PacketNumber packet) (Length packet)
       (bytesInFlight h)).

(** The loop of [detectLostPackets] and of [SetInflightAsLost]: queue each
    collected element and tell the congestion controller. *)
Definition queueLost h (lostPackets : list PacketElement)
  : sentPacketHandler C :=
  fold_left
    (fun h p =>
       let h := queuePacketForRetransmission h p in
       set_congestion h
         (OnPacketLost (congestion h) (PacketNumber (Value p))
            (Length (Value p)) (bytesInFlight h)))
    lostPackets h.

(** [time.Duration((1.0 + timeReorderingFraction) * maxRTT)]: nine eighths
    of [maxRTT], truncated towards zero (exact in float64 for every
    duration below 2^49 ns). *)
Definition delayUntilLostOf (maxRTT : Duration) : Duration :=
  Z.quot (9 * maxRTT) 8.

Fixpoint detectLost_walk (now : Time) (delayUntilLost : Duration)
  (els : list PacketElement) h (lostPackets : list PacketElement)
  : sentPacketHandler C * list PacketElement :=
  match els with
  | [] => (h, lostPackets)
  | el :: els' =>
    let packet := Value el in
    if PacketNumber packet >? LargestAcked h then (h, lostPackets)
    else
      let timeSinceSent := Sub now (SendTime packet) in
      if timeSinceSent >? delayUntilLost then
        detectLost_walk now delayUntilLost els'
          (set_losses h (uint64 (losses h + 1))) (lostPackets ++ [el])
      else if IsZero (lossTime h) then
        detectLost_walk now delayUntilLost els'
          (set_lossTime h (Add now (int64 (delayUntilLost - timeSinceSent))))
          lostPackets
      else detectLost_walk now delayUntilLost els' h lostPackets
  end.

Definition detectLostPackets h (now : Time) : sentPacketHandler C :=
  let h := set_lossTime h zeroTime in
  let maxRTT :=
    MaxDuration (rttLatestRTT (congestion h)) (rttSmoothedRTT (congestion h)) in
  let delayUntilLost := delayUntilLostOf maxRTT in
  let '(h, lostPackets) :=
    detectLost_walk now delayUntilLost (elems (packetHistory h)) h [] in
  queueLost h lostPackets.

Fixpoint inflightLost_walk (els : list PacketElement) h
  (lostPackets : list PacketElement)
  : sentPacketHandler C * list PacketElement :=
  match els with
  | [] => (h, lostPackets)
  | el :: els' =>
    if PacketNumber (Value el) >? LargestAcked h then (h, lostPackets)
    else inflightLost_walk els' (set_losses h (uint64 (losses h + 1)))
           (lostPackets ++ [el])
  end.

Definition SetInflightAsLost h : sentPacketHandler C :=
  let '(h, lostPackets) :=
    inflightLost_walk (elems (packetHistory h)) h [] in
  queueLost h lostPackets.

(** *** Retransmission on alarm *)

Definition hasOutstandingRetransmittablePacket h : bool :=
  existsb (fun el => IsRetransmittable (Value el)) (elems (packetHistory h)).

Definition retransmitTLP h : sentPacketHandler C :=
  match Back (packetHistory h) with
  | Some p => queuePacketForRetransmission h p
  | None => h
  end.

(** [for h.packetHistory.Len() > 0 { h.queueRTO(h.packetHistory.Front()) }]:
    each round removes the front element, so the length of the history
    bounds the number of rounds. *)
Fixpoint retransmitAll_loop (rounds : nat) h : sentPacketHandler C :=
  match rounds with
  | O => h
  | S n =>
    match Front (packetHistory h) with
    | Some el => retransmitAll_loop n (queueRTO h el)
    | None => h
    end
  end.

Definition retransmitAllPackets h : sentPacketHandler C :=
  let h := retransmitAll_loop (length (elems (packetHistory h))) h in
  set_congestion h (OnRetransmissionTimeout (congestion h) true).

Definition retransmitOldestPacket h : sentPacketHandler C :=
  match Front (packetHistory h) with
  | Some p => queueRTO h p
  | None => h
  end.

Definition retransmitOldestTwoPackets h : sentPacketHandler C :=
  let h := retransmitOldestPacket h in
  let h := retransmitOldestPacket h in
  set_congestion h (OnRetransmissionTimeout (congestion h) true).

Definition OnAlarm (onRTOCallback : option (Time -> bool)) h (now : Time)
  : sentPacketHandler C :=
  if negb (hasOutstandingRetransmittablePacket h) then set_alarm h zeroTime
  else
    let h :=
      if negb (IsZero (lossTime h)) then detectLostPackets h now
      else if tlpCount h <? maxTailLossProbes then
        let h := retransmitTLP h in
        set_tlpCount h (uint32 (tlpCount h + 1))
      else
        let potentiallyFailed :=
          match onRTOCallback with
          | Some cb => cb (lastSentTime h)
          | None => false
          end in
        let h := if potentiallyFailed then retransmitAllPackets h
                 else retransmitOldestTwoPackets h in
        set_rtoCount h (uint32 (rtoCount h + 1)) in
    updateLossDetectionAlarm h.

Definition DequeuePacketForRetransmission h
  : option Packet * sentPacketHandler C :=
  match retransmissionQueue h with
  | [] => (None, h)
  | packet :: rest =>
    let h := set_retransmissionQueue h rest in
    (Some packet, set_retransmissions h (uint64 (retransmissions h + 1)))
  end.

Definition GetLeastUnacked h : Z := uint64 (largestInOrderAcked h + 1).

Definition GetStopWaitingFrame h (force : bool)
  : option Wire.StopWaitingFrame * sentPacketHandler C :=
  let '(f, s) := swmGetStopWaitingFrame (swm h) force in
  (f, set_swm h s).

Definition SendingAllowed h : bool :=
  let congestionLimited :=
    bytesInFlight h >? GetCongestionWindow (congestion h) in
  let maxTrackedLimited :=
    Z.of_nat (length (retransmissionQueue h)) + Len (packetHistory h)
    >=? MaxTrackedSentPackets in
  let haveRetransmissions :=
    Z.of_nat (length (retransmissionQueue h)) >? 0 in
  negb maxTrackedLimited && (negb congestionLimited || haveRetransmissions).

(** *** Skipped packet numbers *)

(** [for p := h.lastSentPacketNumber + 1; p < packet.PacketNumber; p++]:
    [rounds] is the number of values [p] takes; [p] stays below
    [packet.PacketNumber], so the increment does not wrap. *)
Fixpoint recordSkipped (rounds : nat) (p : Z) (skipped : list Z) : list Z :=
  match rounds with
  | O => skipped
  | S n =>
    let skipped := skipped ++ [p] in
    let skipped :=
      if Z.of_nat (length skipped) >? MaxTrackedSkippedPackets
      then tail skipped else skipped in
    recordSkipped n (p + 1) skipped
  end.

Definition skippedPacketsAcked h (ackFrame : Wire.AckFrame) : bool :=
  existsb (Wire.AcksPacket ackFrame) (skippedPackets h).

Definition skippedPacketsAckedClosePath h (f : Wire.ClosePathFrame) : bool :=
  existsb (Wire.cpAcksPacket f) (skippedPackets h).

Fixpoint gcDeleteIndex (lioa : Z) (skipped : list Z) (i deleteIndex : nat)
  : nat :=
  match skipped with
  | [] => deleteIndex
  | p :: rest =>
    gcDeleteIndex lioa rest (S i) (if p <=? lioa then S i else deleteIndex)
  end.

Definition garbageCollectSkippedPackets h : sentPacketHandler C :=
  let lioa := largestInOrderAcked h in
  let deleteIndex := gcDeleteIndex lioa (skippedPackets h) 0 0 in
  set_skippedPackets h (drop deleteIndex (skippedPackets h)).

(** *** SentPacket

    [now] is the reading of the clock during the call.  [recordSent] is the
    body of [SentPacket] after its two guards; the result of [SentPacket]
    pairs the returned error ([None] for nil) with the handler after the
    call. *)
Definition recordSent h (packet : Packet) (now : Time) : sentPacketHandler C :=
  let h := set_skippedPackets h
             (recordSkipped
                (Z.to_nat (PacketNumber packet - (lastSentPacketNumber h + 1)))
                (lastSentPacketNumber h + 1) (skippedPackets h)) in
  let h := set_lastSentPacketNumber h (PacketNumber packet) in
  (* update some statistics *)
  let h := set_packets h (uint64 (packets h + 1)) in
  let h := set_lastSentTime h now in
  let frames := stripNonRetransmittableFrames (Frames packet) in
  let isRetransmittable := negb (Z.of_nat (length frames) =? 0) in
  let h :=
    if isRetransmittable then
      let packet :=
        {| PacketNumber := PacketNumber packet; Frames := frames;
           Length := Length packet;
           EncryptionLevel := EncryptionLevel packet; SendTime := now |} in
      let h := set_bytesInFlight h (uint64 (bytesInFlight h + Length packet)) in
      let h := set_packetHistory h (PushBack (packetHistory h) packet) in
      set_numNonRetransmittablePackets h 0
    else
      set_numNonRetransmittablePackets h
        (int64 (numNonRetransmittablePackets h + 1)) in
  let h := set_congestion h
             (OnPacketSent (congestion h) now (bytesInFlight h)
                (PacketNumber packet) (Length packet) isRetransmittable) in
  updateLossDetectionAlarm h.

Definition SentPacket h (packet : Packet) (now : Time)
  : option Error * sentPacketHandler C :=
  if PacketNumber packet <=? lastSentPacketNumber h then
    (Some errPacketNumberNotIncreasing, h)
  else if Z.of_nat (length (retransmissionQueue h)) + Len (packetHistory h) + 1
          >? MaxTrackedSentPackets then
    (Some ErrTooManyTrackedSentPackets, h)
  else (None, recordSent h packet now).

(** *** Acknowledgement processing *)

(** [ackFrame.AckRanges[len(ackFrame.AckRanges)-1-ackRangeIndex]].  The
    index is in range whenever the frame has missing ranges and
    [ackRangeIndex] is below the number of ranges, which the walk keeps. *)
Definition rangeAt (ranges : list Wire.AckRange) (ackRangeIndex : nat)
  : Wire.AckRange :=
  nth (length ranges - 1 - ackRangeIndex)%nat ranges
      {| Wire.First := 0; Wire.Last := 0 |}.

(** The inner loop
    [for packetNumber > ackRange.Last && ackRangeIndex < len-1]; [k] is
    [len - 1 - ackRangeIndex], so [k = 0] is the failure of the second
    test. *)
Fixpoint advanceRange (k : nat) (ranges : list Wire.AckRange)
  (packetNumber : Z) (ackRangeIndex : nat) (ackRange : Wire.AckRange)
  : nat * Wire.AckRange :=
  if packetNumber >? Wire.Last ackRange then
    match k with
    | O => (ackRangeIndex, ackRange)
    | S k' =>
      advanceRange k' ranges packetNumber (S ackRangeIndex)
        (rangeAt ranges (S ackRangeIndex))
    end
  else (ackRangeIndex, ackRange).

Fixpoint newlyAcked_walk (lowest largest : Z) (hasMissingRanges : bool)
  (ranges : list Wire.AckRange) (els : list PacketElement)
  (ackRangeIndex : nat) (ackedPackets : list PacketElement)
  : Error + list PacketElement :=
  match els with
  | [] => inr ackedPackets
  | el :: els' =>
    let packetNumber := PacketNumber (Value el) in
    (* ignore packets below the LowestAcked *)
    if packetNumber <? lowest then
      newlyAcked_walk lowest largest hasMissingRanges ranges els'
        ackRangeIndex ackedPackets
    (* break after LargestAcked is reached *)
    else if packetNumber >? largest then inr ackedPackets
    else if hasMissingRanges then
      let '(ackRangeIndex, ackRange) :=
        advanceRange (length ranges - 1 - ackRangeIndex)%nat ranges
          packetNumber ackRangeIndex (rangeAt ranges ackRangeIndex) in
      if packetNumber >=? Wire.First ackRange then
        if packetNumber >? Wire.Last ackRange then
          inl (errBUG packetNumber (Wire.First ackRange) (Wire.Last ackRange))
        else
          newlyAcked_walk lowest largest hasMissingRanges ranges els'
            ackRangeIndex (ackedPackets ++ [el])
      else
        newlyAcked_walk lowest largest hasMissingRanges ranges els'
          ackRangeIndex ackedPackets
    else
      newlyAcked_walk lowest largest hasMissingRanges ranges els'
        ackRangeIndex (ackedPackets ++ [el])
  end.

Definition determineNewlyAckedPackets h (ackFrame : Wire.AckFrame)
  : Error + list PacketElement :=
  newlyAcked_walk (Wire.LowestAcked ackFrame) (Wire.LargestAcked ackFrame)
    (Wire.HasMissingRanges ackFrame) (Wire.AckRanges ackFrame)
    (elems (packetHistory h)) 0 [].

Definition determineNewlyAckedPacketsClosePath h (f : Wire.ClosePathFrame)
  : Error + list PacketElement :=
  newlyAcked_walk (Wire.cpLowestAcked f) (Wire.cpLargestAcked f)
    (Wire.cpHasMissingRanges f) (Wire.cpAckRanges f)
    (elems (packetHistory h)) 0 [].

Fixpoint maybeUpdateRTT_walk (largestAcked : Z) (ackDelay : Duration)
  (rcvTime now : Time) (els : list PacketElement) (c : C) : bool * C :=
  match els with
  | [] => (false, c)
  | el :: els' =>
    let packet := Value el in
    if PacketNumber packet =? largestAcked then
      (true, UpdateRTT c (Sub rcvTime (SendTime packet)) ackDelay now)
    (* packets are sorted by number, so we can stop searching *)
    else if PacketNumber packet >? largestAcked then (false, c)
    else maybeUpdateRTT_walk largestAcked ackDelay rcvTime now els' c
  end.

Definition maybeUpdateRTT h (largestAcked : Z) (ackDelay : Duration)
  (rcvTime now : Time) : bool * sentPacketHandler C :=
  let '(updated, c) :=
    maybeUpdateRTT_walk largestAcked ackDelay rcvTime now
      (elems (packetHistory h)) (congestion h) in
  (updated, set_congestion h c).

(** The loop over the newly acked packets in [ReceivedAck]; the state is
    the handler with [flag] and [sentDelay]. *)
Definition ackedStep (ackFrame : Wire.AckFrame) (rcvTime : Time)
  (st : sentPacketHandler C * bool * Duration) (p : PacketElement)
  : sentPacketHandler C * bool * Duration :=
  let '(h, flag, sentDelay) := st in
  let packet := Value p in
  let '(flag, sentDelay) :=
    if PacketNumber packet =? Wire.LargestAcked ackFrame then
      let sentDelay := Sub rcvTime (SendTime packet) in
      (true,
       if sentDelay >? Wire.DelayTime ackFrame
       then int64 (sentDelay - Wire.DelayTime ackFrame) else sentDelay)
    else (flag, sentDelay) in
  let h := onPacketAcked h p in
  let h := set_congestion h
             (OnPacketAcked (congestion h) (PacketNumber packet)
                (Length packet) (bytesInFlight h)) in
  (h, flag, sentDelay).

(** [processAck] is the body of [ReceivedAck] after its guards, from the
    RTT update on.  The guard [len(ackedPackets) > 0] around the loop is
    left out: over no packets the loop does nothing and [flag] stays 0. *)
Definition processAck h (ackFrame : Wire.AckFrame) (rcvTime now : Time)
  : option Error * sentPacketHandler C :=
  let '(rttUpdated, h) :=
    maybeUpdateRTT h (Wire.LargestAcked ackFrame)
      (Wire.DelayTime ackFrame) rcvTime now in
  let h := if rttUpdated
           then set_congestion h (MaybeExitSlowStart (congestion h))
           else h in
  match determineNewlyAckedPackets h ackFrame with
  | inl err => (Some err, h)
  | inr ackedPackets =>
    let preInflight := bytesInFlight h in
    let '(h, flag, sentDelay) :=
      fold_left (ackedStep ackFrame rcvTime) ackedPackets (h, false, 0) in
    let changeInflight := uint64 (preInflight - bytesInFlight h) in
    let updated :=
      if flag then UpdateBDW (bdwStats h) changeInflight sentDelay
      else Some (bdwStats h) in
    match updated with
    | None => (Some panicDivideByZero, h)
    | Some bdw =>
      let h := set_bdwStats h bdw in
      let h := detectLostPackets h now in
      let h := updateLossDetectionAlarm h in
      let h := garbageCollectSkippedPackets h in
      (None, set_swm h (swmReceivedAck (swm h) ackFrame))
    end
  end.

Definition ReceivedAck h (ackFrame : Wire.AckFrame) (withPacketNumber : Z)
  (rcvTime now : Time) : option Error * sentPacketHandler C :=
  if Wire.LargestAcked ackFrame >? lastSentPacketNumber h then
    (Some errAckForUnsentPacket, h)
  (* duplicate or out-of-order ACK *)
  else if withPacketNumber <=? largestReceivedPacketWithAck h then
    (Some ErrDuplicateOrOutOfOrderAck, h)
  else
    let h := set_largestReceivedPacketWithAck h withPacketNumber in
    (* ignore repeated ACK *)
    if Wire.LargestAcked ackFrame <=? largestInOrderAcked h then (None, h)
    else
      let h := set_LargestAcked h (Wire.LargestAcked ackFrame) in
      if skippedPacketsAcked h ackFrame then (Some ErrAckForSkippedPacket, h)
      else processAck h ackFrame rcvTime now.

Definition closePathStep h (p : PacketElement) : sentPacketHandler C :=
  let h := onPacketAcked h p in
  set_congestion h
    (OnPacketAcked (congestion h) (PacketNumber (Value p))
       (Length (Value p)) (bytesInFlight h)).

(** [processClosePath] is the body of [ReceivedClosePath] after its guards;
    there is no RTT estimation, and no update of [h.LargestAcked]. *)
Definition processClosePath h (f : Wire.ClosePathFrame)
  : option Error * sentPacketHandler C :=
  match determineNewlyAckedPacketsClosePath h f with
  | inl err => (Some err, h)
  | inr ackedPackets =>
    let h := fold_left closePathStep ackedPackets h in
    let h := SetInflightAsLost h in
    (None, garbageCollectSkippedPackets h)
  end.

Definition ReceivedClosePath h (f : Wire.ClosePathFrame)
  (withPacketNumber : Z) (rcvTime : Time)
  : option Error * sentPacketHandler C :=
  if Wire.cpLargestAcked f >? lastSentPacketNumber h then
    (Some errAckForUnsentPacket, h)
  else if withPacketNumber <=? largestReceivedPacketWithAck h then
    (Some ErrDuplicateOrOutOfOrderAck, h)
  else
    let h := set_largestReceivedPacketWithAck h withPacketNumber in
    (* compared to ACK frames, a duplicate LargestAcked is not ignored *)
    if skippedPacketsAckedClosePath h f then (Some ErrAckForSkippedPacket, h)
    else processClosePath h f.

(** *** Calls, runs and the invariants of the history *)

(** The calls a path makes on its handler. *)
Inductive Call :=
| CallSentPacket (packet : Packet) (now : Time)
| CallReceivedAck (ackFrame : Wire.AckFrame) (withPacketNumber : Z)
                  (rcvTime now : Time)
| CallReceivedClosePath (f : Wire.ClosePathFrame) (withPacketNumber : Z)
                        (rcvTime : Time)
| CallOnAlarm (now : Time)
| CallDequeuePacketForRetransmission
| CallDuplicatePacket (packet : Packet)
| CallSetInflightAsLost.

Definition call (onRTOCallback : option (Time -> bool)) h (c : Call)
  : sentPacketHandler C :=
  match c with
  | CallSentPacket packet now => (SentPacket h packet now).2
  | CallReceivedAck f pn rcvTime now => (ReceivedAck h f pn rcvTime now).2
  | CallReceivedClosePath f pn rcvTime => (ReceivedClosePath h f pn rcvTime).2
  | CallOnAlarm now => OnAlarm onRTOCallback h now
  | CallDequeuePacketForRetransmission => (DequeuePacketForRetransmission h).2
  | CallDuplicatePacket packet => DuplicatePacket h packet
  | CallSetInflightAsLost => SetInflightAsLost h
  end.

Definition run (onRTOCallback : option (Time -> bool)) h (cs : list Call)
  : sentPacketHandler C :=
  fold_left (call onRTOCallback) cs h.

(** The exact sum of the [Length] fields of a list of elements, and the
    history of a handler as packets. *)
Definition sumLength (els : list PacketElement) : Z :=
  foldr (fun e s => Length (Value e) + s) 0 els.

Definition history h : list Packet := Value <$> elems (packetHistory h).

Definition historyLength h : Z := sumLength (elems (packetHistory h)).

Definition packetNumberOf (e : PacketElement) : Z := PacketNumber (Value e).

(** The cells of the history are distinct and were handed out by the list. *)
Definition cellsDistinct (l : PacketList) : Prop :=
  NoDup (eid <$> elems l) /\ Forall (fun e => (eid e < nextId l)%nat) (elems l).

(** [bytesInFlight] is the sum of the lengths in ByteCount arithmetic. *)
Definition bytesAccounted h : Prop :=
  bytesInFlight h = uint64 (historyLength h).

(** The history is in ascending packet-number order, below the last sent
    packet number. *)
Definition historySorted h : Prop :=
  StronglySorted (fun a b => packetNumberOf a < packetNumberOf b)
                 (elems (packetHistory h))
  /\ Forall (fun e => packetNumberOf e <= lastSentPacketNumber h)
            (elems (packetHistory h)).

Definition invariant h : Prop :=
  cellsDistinct (packetHistory h) /\ bytesAccounted h /\ historySorted h.

(** A step of a loop that removes one cell from the history and subtracts
    its length from [bytesInFlight]. *)
Definition removing
  (step : sentPacketHandler C -> PacketElement -> sentPacketHandler C) : Prop :=
  forall h e,
    packetHistory (step h e) = Remove (packetHistory h) e
    /\ bytesInFlight (step h e) = uint64 (bytesInFlight h - Length (Value e))
    /\ lastSentPacketNumber (step h e) = lastSentPacketNumber h.

(** What the scanning walks of the history leave untouched. *)
Definition scanKeeps h h' : Prop :=
  packetHistory h' = packetHistory h
  /\ bytesInFlight h' = bytesInFlight h
  /\ lastSentPacketNumber h' = lastSentPacketNumber h
  /\ LargestAcked h' = LargestAcked h
  /\ retransmissionQueue h' = retransmissionQueue h
  /\ largestReceivedPacketWithAck h' = largestReceivedPacketWithAck h.

(** The cells at the front of a list whose packet numbers do not exceed
    [largest]: what the walk of [SetInflightAsLost] collects. *)
Fixpoint prefixUpTo (largest : Z) (els : list PacketElement)
  : list PacketElement :=
  match els with
  | [] => []
  | e :: rest =>
    if packetNumberOf e >? largest then [] else e :: prefixUpTo largest rest
  end.

(** The cells of [els] that are not among [removed]. *)
Definition without (removed els : list PacketElement) : list PacketElement :=
  List.filter (fun x => negb (bool_decide (eid x ∈ eid <$> removed))) els.

End Handler.

End AckHandler.

(** ** The packet packer *)

Module Packer.

Import Wire.

Inductive Perspective := PerspectiveServer | PerspectiveClient.

Definition VersionMP : Z := 512.

Inductive PackError :=
| errNoAckFrameQueued
| errForwardSecureHandshakeRetransmission
| errHandshakeRetransmissionMissingStopWaiting
| errPayloadTooLarge (payloadLength maxFrameSize : Z)
| errPacketTooLarge
| errPeekPopMismatch
| errCollaborator (what : string).

Record PublicHeader := {
  ConnectionID : Z;
  phPacketNumber : Z;
  phPacketNumberLen : Z;
  TruncateConnectionID : bool;
  DiversificationNonce : list Z;
  VersionFlag : bool;
  VersionNumber : Z;
  MultipathFlag : bool;
  phPathID : Z
}.

(** A sealer is used through its overhead and its sealing function. *)
Record Sealer := {
  Overhead : Z;
  Seal : list Z -> Z -> list Z -> list Z
}.

(** [handshake.CryptoSetup], as far as the packer consumes it. *)
Record CryptoSetup := {
  GetSealer : EncryptionLevel * Sealer;
  GetSealerForCryptoStream : EncryptionLevel * Sealer;
  GetSealerWithEncryptionLevel : EncryptionLevel -> PackError + Sealer;
  csDiversificationNonce : list Z
}.

(** The wire encoding of headers and frames is outside the core; the
    packer sees lengths, written bytes and possible errors. *)
Class WireCodec := {
  GetLength : PublicHeader -> Perspective -> PackError + Z;
  writeHeader : PublicHeader -> Z -> Perspective -> PackError + list Z;
  MinLength : Frame -> Z -> PackError + Z;
  writeFrame : Frame -> Z -> PackError + list Z;
  GetPacketNumberLengthForPublicHeader : Z -> Z -> Z
}.

(** The per-path packet-number generator: [Peek] and [Pop]. *)
Class PacketNumberGenerator (G : Type) := {
  Peek : G -> Z;
  Pop : G -> Z * G
}.

(** The path as the packer reads it; [handshakeComplete] is [None] when the
    path has no session ([pth.sess == nil]).  [streamIDs] are the streams
    assigned to the path. *)
Record path (G : Type) := {
  pathID : Z;
  packetNumberGenerator : G;
  leastUnacked : Z;
  handshakeComplete : option bool;
  streamIDs : list Z
}.
Arguments pathID {G} _.
Arguments packetNumberGenerator {G} _.
Arguments leastUnacked {G} _.
Arguments handshakeComplete {G} _.
Arguments streamIDs {G} _.

(** The stream framer, whose file is not among the sources, through the
    calls the packer makes.  [PopBlockedFrames] stands for the loop
    [for b := PopBlockedFrame(); b != nil; b = PopBlockedFrame()], which
    drains the framer's queue of BLOCKED frames.  Stream frames and
    BLOCKED frames come back at their own types. *)
Class StreamFramer (SF : Type) := {
  HasCryptoStreamFrame : SF -> bool;
  PopCryptoStreamFrame : SF -> Z -> StreamFrame * SF;
  PopStreamFrames : SF -> Z -> list StreamFrame * SF;
  PopStreamFramesOfOneStream : SF -> Z -> Z -> list StreamFrame * SF;
  PopStreamFramesOfPath : SF -> Z -> Z -> list Z -> list StreamFrame * SF;
  PopBlockedFrames : SF -> list BlockedFrame * SF
}.

Record packedPacket := {
  number : Z;
  raw : list Z;
  frames : list Frame;
  encryptionLevel : EncryptionLevel
}.

#[local] Set Implicit Arguments.
Record packetPacker (SF : Type) := {
  connectionID : Z;
  perspective : Perspective;
  version : Z;
  cryptoSetup : CryptoSetup;
  truncateConnectionID : bool;
  streamFramer : SF;
  controlFrames : list Frame;
  stopWaiting : gmap Z StopWaitingFrame;
  ackFrame : gmap Z AckFrame
}.
#[local] Unset Implicit Arguments.

Section Entry.

Context {SF G : Type} `{StreamFramer SF} `{PacketNumberGenerator G}
        `{WireCodec} `{Protocol}.

Implicit Types p : packetPacker SF.
Implicit Types pth : path G.

Definition newPacketPacker (cid : Z) (cs : CryptoSetup) (truncate : bool)
  (sf : SF) (persp : Perspective) (ver : Z) : packetPacker SF :=
  {| connectionID := cid; perspective := persp; version := ver;
     cryptoSetup := cs; truncateConnectionID := truncate; streamFramer := sf;
     controlFrames := []; stopWaiting := ∅; ackFrame := ∅ |}.

Definition set_streamFramer p (sf : SF) : packetPacker SF :=
  {| connectionID := connectionID p; perspective := perspective p;
     version := version p; cryptoSetup := cryptoSetup p;
     truncateConnectionID := truncateConnectionID p; streamFramer := sf;
     controlFrames := controlFrames p; stopWaiting := stopWaiting p;
     ackFrame := ackFrame p |}.

Definition set_controlFrames p (fs : list Frame) : packetPacker SF :=
  {| connectionID := connectionID p; perspective := perspective p;
     version := version p; cryptoSetup := cryptoSetup p;
     truncateConnectionID := truncateConnectionID p;
     streamFramer := streamFramer p;
     controlFrames := fs; stopWaiting := stopWaiting p;
     ackFrame := ackFrame p |}.

Definition set_stopWaiting p (m : gmap Z StopWaitingFrame) : packetPacker SF :=
  {| connectionID := connectionID p; perspective := perspective p;
     version := version p; cryptoSetup := cryptoSetup p;
     truncateConnectionID := truncateConnectionID p;
     streamFramer := streamFramer p;
     controlFrames := controlFrames p; stopWaiting := m;
     ackFrame := ackFrame p |}.

Definition set_ackFrame p (m : gmap Z AckFrame) : packetPacker SF :=
  {| connectionID := connectionID p; perspective := perspective p;
     version := version p; cryptoSetup := cryptoSetup p;
     truncateConnectionID := truncateConnectionID p;
     streamFramer := streamFramer p;
     controlFrames := controlFrames p; stopWaiting := stopWaiting p;
     ackFrame := m |}.

Definition set_generator pth (g : G) : path G :=
  {| pathID := pathID pth; packetNumberGenerator := g;
     leastUnacked := leastUnacked pth;
     handshakeComplete := handshakeComplete pth;
     streamIDs := streamIDs pth |}.

Definition SetLeastUnacked pth (lu : Z) : path G :=
  {| pathID := pathID pth; packetNumberGenerator := packetNumberGenerator pth;
     leastUnacked := lu; handshakeComplete := handshakeComplete pth;
     streamIDs := streamIDs pth |}.

(** [QueueControlFrame]: the type switch on the frame. *)
Definition QueueControlFrame p (frame : Frame) pth : packetPacker SF :=
  match frame with
  | StopWaiting f => set_stopWaiting p (<[pathID pth := f]> (stopWaiting p))
  | Ack f => set_ackFrame p (<[pathID pth := f]> (ackFrame p))
  | f => set_controlFrames p (controlFrames p ++ [f])
  end.

Definition canSendData p (encLevel : EncryptionLevel) : bool :=
  match perspective p with
  | PerspectiveClient => encLevelRank encLevel >=? encLevelRank EncryptionSecure
  | PerspectiveServer =>
    match encLevel with EncryptionForwardSecure => true | _ => false end
  end.

Definition encLevel_eqb (a b : EncryptionLevel) : bool :=
  encLevelRank a =? encLevelRank b.

Definition getPublicHeader p (encLevel : EncryptionLevel) pth : PublicHeader :=
  let pnum := Peek (packetNumberGenerator pth) in
  let packetNumberLen :=
    GetPacketNumberLengthForPublicHeader pnum (leastUnacked pth) in
  let isServer :=
    match perspective p with PerspectiveServer => true | _ => false end in
  let nonce :=
    if isServer && encLevel_eqb encLevel EncryptionSecure
    then csDiversificationNonce (cryptoSetup p) else [] in
  let versionFlag :=
    negb isServer && negb (encLevel_eqb encLevel EncryptionForwardSecure) in
  let multipath :=
    match handshakeComplete pth with
    | Some true => version p >=? VersionMP
    | _ => false
    end in
  {| ConnectionID := connectionID p;
     phPacketNumber := pnum;
     phPacketNumberLen := packetNumberLen;
     TruncateConnectionID :=
       if multipath then false else truncateConnectionID p;
     DiversificationNonce := nonce;
     VersionFlag := versionFlag;
     VersionNumber := if versionFlag then version p else 0;
     MultipathFlag := multipath;
     phPathID := if multipath then pathID pth else 0 |}.

(** Writing the frames into the buffer, one after the other. *)
Fixpoint writeFrames (fs : list Frame) (ver : Z) : PackError + list Z :=
  match fs with
  | [] => inr []
  | f :: rest =>
    match writeFrame f ver with
    | inl e => inl e
    | inr bytes =>
      match writeFrames rest ver with
      | inl e => inl e
      | inr more => inr (bytes ++ more)
      end
    end
  end.

(** [writeAndSealPacket]: the sealed bytes or an error, with the path whose
    packet number has been popped on the way. *)
Definition writeAndSealPacket p (publicHeader : PublicHeader)
  (payloadFrames : list Frame) (sealer : Sealer) pth
  : (PackError + list Z) * path G :=
  match writeHeader publicHeader (version p) (perspective p) with
  | inl e => (inl e, pth)
  | inr header =>
    match writeFrames payloadFrames (version p) with
    | inl e => (inl e, pth)
    | inr payload =>
      if Z.of_nat (length (header ++ payload)) + Overhead sealer >? MaxPacketSize
      then (inl errPacketTooLarge, pth)
      else
        let sealed := header ++ Seal sealer payload (phPacketNumber publicHeader) header in
        let '(num, g) := Pop (packetNumberGenerator pth) in
        let pth := set_generator pth g in
        if negb (num =? phPacketNumber publicHeader)
        then (inl errPeekPopMismatch, pth)
        else (inr sealed, pth)
    end
  end.

(** The result of an entry point: the packet pointer, the error, and the
    packer and path after the call. *)
Record result := {
  packet : option packedPacket;
  err : option PackError;
  packerAfter : packetPacker SF;
  pathAfter : path G
}.

Definition noPacket p pth : result :=
  {| packet := None; err := None; packerAfter := p; pathAfter := pth |}.
Definition failed (e : PackError) p pth : result :=
  {| packet := None; err := Some e; packerAfter := p; pathAfter := pth |}.

(** The tail shared by [PackConnectionClose], [PackAckPacket] and
    [PackHandshakeRetransmission]: they return
    [&packedPacket{...}, err], a packet pointer even beside an error. *)
Definition sealAndReturn p (ph : PublicHeader) (fs : list Frame)
  (sealer : Sealer) (encLevel : EncryptionLevel) pth : result :=
  let '(r, pth) := writeAndSealPacket p ph fs sealer pth in
  {| packet :=
       Some {| number := phPacketNumber ph;
               raw := match r with inr bytes => bytes | inl _ => [] end;
               frames := fs; encryptionLevel := encLevel |};
     err := match r with inl e => Some e | inr _ => None end;
     packerAfter := p; pathAfter := pth |}.

Definition PackConnectionClose p (errorCode : Z) (reasonPhrase : string) pth
  : result :=
  let fs := [ConnectionClose errorCode reasonPhrase] in
  let '(encLevel, sealer) := GetSealer (cryptoSetup p) in
  let ph := getPublicHeader p encLevel pth in
  sealAndReturn p ph fs sealer encLevel pth.

Definition stampStopWaiting (swf : StopWaitingFrame) (ph : PublicHeader)
  : StopWaitingFrame :=
  {| LeastUnacked := LeastUnacked swf;
     PacketNumber := phPacketNumber ph;
     PacketNumberLen := phPacketNumberLen ph |}.

Definition PackAckPacket p pth : result :=
  match ackFrame p !! pathID pth with
  | None => failed errNoAckFrameQueued p pth
  | Some ack =>
    let '(encLevel, sealer) := GetSealer (cryptoSetup p) in
    let ph := getPublicHeader p encLevel pth in
    let fs := [Ack ack] in
    let '(fs, p) :=
      match stopWaiting p !! pathID pth with
      | Some swf =>
        (fs ++ [StopWaiting (stampStopWaiting swf ph)],
         set_stopWaiting p (delete (pathID pth) (stopWaiting p)))
      | None => (fs, p)
      end in
    let p := set_ackFrame p (delete (pathID pth) (ackFrame p)) in
    sealAndReturn p ph fs sealer encLevel pth
  end.

Definition PackHandshakeRetransmission p (pkt : AckHandler.Packet) pth
  : result :=
  match AckHandler.EncryptionLevel pkt with
  | EncryptionForwardSecure =>
    failed errForwardSecureHandshakeRetransmission p pth
  | level =>
    match GetSealerWithEncryptionLevel (cryptoSetup p) level with
    | inl e => failed e p pth
    | inr sealer =>
      match stopWaiting p !! pathID pth with
      | None => failed errHandshakeRetransmissionMissingStopWaiting p pth
      | Some swf =>
        let ph := getPublicHeader p level pth in
        let fs := StopWaiting (stampStopWaiting swf ph)
                  :: AckHandler.Frames pkt in
        let p := set_stopWaiting p (delete (pathID pth) (stopWaiting p)) in
        sealAndReturn p ph fs sealer level pth
      end
    end
  end.

(** The loop popping control frames from the tail of [p.controlFrames];
    [queue] is the slice read from its end.  It stops at the first frame
    that does not fit, or at an error of [MinLength], and gives back what
    is left of the queue. *)
Fixpoint popControlFrames (ver maxFrameSize : Z) (queue : list Frame)
  (payloadLength : Z) (payloadFrames : list Frame)
  : option PackError * list Frame * Z * list Frame :=
  match queue with
  | [] => (None, [], payloadLength, payloadFrames)
  | frame :: rest =>
    match MinLength frame ver with
    | inl e => (Some e, queue, payloadLength, payloadFrames)
    | inr minLength =>
      if uint64 (payloadLength + minLength) >? maxFrameSize
      then (None, queue, payloadLength, payloadFrames)
      else popControlFrames ver maxFrameSize rest
             (uint64 (payloadLength + minLength)) (payloadFrames ++ [frame])
    end
  end.

(** [fs[len(fs)-1].DataLenPresent = false] *)
Fixpoint clearLastDataLen (fs : list StreamFrame) : list StreamFrame :=
  match fs with
  | [] => []
  | [f] => [ {| StreamID := StreamID f; Offset := Offset f; FinBit := FinBit f;
                DataLenPresent := false; Data := Data f |} ]
  | f :: rest => f :: clearLastDataLen rest
  end.

(** The body shared by [composeNextPacket], [composeNextPacketOfStream]
    and [composeNextPacketOfPath], which differ in the call that pops the
    stream frames. *)
Definition composeWith (popStream : SF -> Z -> list StreamFrame * SF)
  p (maxFrameSize : Z) (canSendStreamFrames : bool) pth
  : (PackError + list Frame) * packetPacker SF :=
  (* STOP_WAITING and ACK will always fit *)
  let first :=
    match stopWaiting p !! pathID pth with
    | Some swf =>
      match MinLength (StopWaiting swf) (version p) with
      | inl e => inl e
      | inr l => inr ([StopWaiting swf], uint64 (0 + l))
      end
    | None => inr ([], 0)
    end in
  match first with
  | inl e => (inl e, p)
  | inr (payloadFrames, payloadLength) =>
    let second :=
      match ackFrame p !! pathID pth with
      | Some ack =>
        match MinLength (Ack ack) (version p) with
        | inl e => inl e
        | inr l => inr (payloadFrames ++ [Ack ack], uint64 (payloadLength + l))
        end
      | None => inr (payloadFrames, payloadLength)
      end in
    match second with
    | inl e => (inl e, p)
    | inr (payloadFrames, payloadLength) =>
      let '(e, queue, payloadLength, payloadFrames) :=
        popControlFrames (version p) maxFrameSize (rev (controlFrames p))
          payloadLength payloadFrames in
      let p := set_controlFrames p (rev queue) in
      match e with
      | Some e => (inl e, p)
      | None =>
        if payloadLength >? maxFrameSize then
          (inl (errPayloadTooLarge payloadLength maxFrameSize), p)
        else if negb canSendStreamFrames then (inr payloadFrames, p)
        else
          (* the last stream frame omits its data length: two bytes more *)
          let maxFrameSize := uint64 (maxFrameSize + 2) in
          let '(fs, sf) :=
            popStream (streamFramer p) (uint64 (maxFrameSize - payloadLength)) in
          let fs := clearLastDataLen fs in
          let payloadFrames := payloadFrames ++ map Stream fs in
          let '(bs, sf) := PopBlockedFrames sf in
          let p := set_streamFramer p sf in
          let p := set_controlFrames p (controlFrames p ++ map Blocked bs) in
          (inr payloadFrames, p)
      end
    end
  end.

Definition composeNextPacket p (maxFrameSize : Z) (canSend : bool) pth :=
  composeWith PopStreamFrames p maxFrameSize canSend pth.

Definition composeNextPacketOfStream p (maxFrameSize : Z) (canSend : bool)
  pth (streamID : Z) :=
  composeWith (fun sf n => PopStreamFramesOfOneStream sf n streamID)
    p maxFrameSize canSend pth.

Definition composeNextPacketOfPath p (maxFrameSize : Z) (canSend : bool) pth :=
  composeWith (fun sf n => PopStreamFramesOfPath sf n (pathID pth) (streamIDs pth))
    p maxFrameSize canSend pth.

Definition packCryptoPacket p pth : result :=
  let '(encLevel, sealer) := GetSealerForCryptoStream (cryptoSetup p) in
  let publicHeader := getPublicHeader p encLevel pth in
  match GetLength publicHeader (perspective p) with
  | inl e => failed e p pth
  | inr publicHeaderLength =>
    let maxLen :=
      uint64 (uint64 (uint64 (MaxPacketSize - Overhead sealer)
                      - NonForwardSecurePacketSizeReduction)
              - publicHeaderLength) in
    let '(f, sf) := PopCryptoStreamFrame (streamFramer p) maxLen in
    let p := set_streamFramer p sf in
    let fs := [Stream f] in
    let '(r, pth) := writeAndSealPacket p publicHeader fs sealer pth in
    match r with
    | inl e => failed e p pth
    | inr bytes =>
      {| packet := Some {| number := phPacketNumber publicHeader; raw := bytes;
                           frames := fs; encryptionLevel := encLevel |};
         err := None; packerAfter := p; pathAfter := pth |}
    end
  end.

(** The end of the packing entry points, from the check that there are
    enough frames to send. *)
Definition finishPacket p (publicHeader : PublicHeader)
  (payloadFrames : list Frame) (sealer : Sealer) (encLevel : EncryptionLevel)
  pth : result :=
  (* check if we have enough frames to send *)
  if Z.of_nat (length payloadFrames) =? 0 then noPacket p pth
  (* don't send out packets that only contain a StopWaitingFrame *)
  else if (Z.of_nat (length payloadFrames) =? 1)
          && bool_decide (is_Some (stopWaiting p !! pathID pth))
  then noPacket p pth
  else
    let p := set_stopWaiting p (delete (pathID pth) (stopWaiting p)) in
    let p := set_ackFrame p (delete (pathID pth) (ackFrame p)) in
    let '(r, pth) :=
      writeAndSealPacket p publicHeader payloadFrames sealer pth in
    match r with
    | inl e => failed e p pth
    | inr bytes =>
      {| packet := Some {| number := phPacketNumber publicHeader;
                           raw := bytes; frames := payloadFrames;
                           encryptionLevel := encLevel |};
         err := None; packerAfter := p; pathAfter := pth |}
    end.

(** The body shared by [PackPacket], [PackPacketOfPath] and
    [PackPacketOfStream], which differ in the composing function. *)
Definition packWith
  (compose : packetPacker SF -> Z -> bool -> path G
             -> (PackError + list Frame) * packetPacker SF)
  p pth : result :=
  if HasCryptoStreamFrame (streamFramer p) then packCryptoPacket p pth
  else
    let '(encLevel, sealer) := GetSealer (cryptoSetup p) in
    let publicHeader := getPublicHeader p encLevel pth in
    match GetLength publicHeader (perspective p) with
    | inl e => failed e p pth
    | inr publicHeaderLength =>
      let p :=
        match stopWaiting p !! pathID pth with
        | Some swf =>
          set_stopWaiting p
            (<[pathID pth := stampStopWaiting swf publicHeader]> (stopWaiting p))
        | None => p
        end in
      let ping :=
        match controlFrames p with
        | f :: _ => isPing f
        | [] => false
        end in
      let '(composed, p) :=
        if ping then
          (inr (take 1 (controlFrames p)),
           set_controlFrames p (drop 1 (controlFrames p)))
        else
          let maxSize :=
            uint64 (uint64 (MaxPacketSize - Overhead sealer)
                    - publicHeaderLength) in
          compose p maxSize (canSendData p encLevel) pth in
      match composed with
      | inl e => failed e p pth
      | inr payloadFrames =>
        finishPacket p publicHeader payloadFrames sealer encLevel pth
      end
    end.

Definition PackPacket p pth : result := packWith composeNextPacket p pth.

Definition PackPacketOfPath p pth : result :=
  packWith composeNextPacketOfPath p pth.

Definition PackPacketOfStream p pth (streamID : Z) : result :=
  packWith (fun p m c pth => composeNextPacketOfStream p m c pth streamID) p pth.

(** [PackPing]: [lu] is the least unacked packet number the path's handler
    reports. *)
Definition PackPing p pth (lu : Z) : result :=
  let pth := SetLeastUnacked pth lu in
  let p := set_controlFrames p (Ping :: controlFrames p) in
  PackPacket p pth.

(** *** Calls, runs and the frames that make a packet worth sending *)

(** The calls the session makes on its packer. *)
Inductive Call :=
| CallQueueControlFrame (frame : Frame) (pth : path G)
| CallPackPacket (pth : path G)
| CallPackPacketOfPath (pth : path G)
| CallPackPacketOfStream (pth : path G) (streamID : Z)
| CallPackAckPacket (pth : path G)
| CallPackHandshakeRetransmission (pkt : AckHandler.Packet) (pth : path G)
| CallPackConnectionClose (errorCode : Z) (reasonPhrase : string) (pth : path G)
| CallPackPing (pth : path G) (lu : Z).

Definition call p (c : Call) : packetPacker SF :=
  match c with
  | CallQueueControlFrame frame pth => QueueControlFrame p frame pth
  | CallPackPacket pth => packerAfter (PackPacket p pth)
  | CallPackPacketOfPath pth => packerAfter (PackPacketOfPath p pth)
  | CallPackPacketOfStream pth sid => packerAfter (PackPacketOfStream p pth sid)
  | CallPackAckPacket pth => packerAfter (PackAckPacket p pth)
  | CallPackHandshakeRetransmission pkt pth =>
    packerAfter (PackHandshakeRetransmission p pkt pth)
  | CallPackConnectionClose code reason pth =>
    packerAfter (PackConnectionClose p code reason pth)
  | CallPackPing pth lu => packerAfter (PackPing p pth lu)
  end.

Definition run p (cs : list Call) : packetPacker SF := fold_left call cs p.

(** A frame list that is neither empty nor a single STOP_WAITING frame. *)
Definition sendable (fs : list Frame) : Prop :=
  fs <> [] /\ forall swf, fs <> [StopWaiting swf].

(** No STOP_WAITING frame sits among the queued control frames: they are
    kept per path in [stopWaiting]. *)
Definition controlClean p : Prop :=
  Forall (fun f => isStopWaiting f = false) (controlFrames p).

End Entry.

End Packer.

(** ** The path manager *)

Module PathManager.

Inductive Perspective := PerspectiveServer | PerspectiveClient.

Inductive Error :=
| errPathExists
| errOddFromServer
| errEvenFromClient
| errUnknownIPVersion
| errSendPing.

(** Modelled from the spec: [protocol.PathID], whose file is not among the
    sources; the public header carries the path ID in one byte, so path
    IDs are unsigned 8-bit integers and [InitialPathID] is 0. *)
Definition PathID (x : Z) : Z := uint8 x.
Definition InitialPathID : Z := 0.

(** A UDP address: the IP in text, whether it is an IPv4 address, and the
    port. *)
Record UDPAddr := { IP : string; isIPv4 : bool; Port : string }.

Definition addrString (a : UDPAddr) : string := IP a ++ ":" ++ Port a.

Definition getIPVersion (a : UDPAddr) : Z := if isIPv4 a then 4 else 6.

(** [strings.Split(addr, ":")[0]] *)
Fixpoint beforeColon (s : string) : string :=
  match s with
  | EmptyString => EmptyString
  | String c rest =>
    if Ascii.eqb c ":"%char then EmptyString else String c (beforeColon rest)
  end.

Definition parseIP (remoteAddr : UDPAddr) : string :=
  beforeColon (addrString remoteAddr).

(** The path as the manager builds it: identifier, connection addresses,
    and the statistics it is set up with. *)
Record path := {
  pathID : Z;
  localAddr : string;
  remoteAddr : string;
  initialRTT : Duration;
  initialBandwidth : Z
}.

(** The manager with the fields of the session it works on
    ([perspective], [createPaths], [paths], [openPaths]) and the local
    addresses of the connection manager. *)
Record pathManager := {
  perspective : Perspective;
  createPathsAllowed : bool;
  nxtPathID : Z;
  nbPaths : Z;
  remoteAddrs4 : list UDPAddr;
  remoteAddrs6 : list UDPAddr;
  localAddrs : list UDPAddr;
  advertisedLocAddrs : gset string;
  paths : gmap Z path;
  openPaths : list Z
}.

Definition set_paths (pm : pathManager) (nxt : Z) (ps : gmap Z path)
  (open : list Z) : pathManager :=
  {| perspective := perspective pm;
     createPathsAllowed := createPathsAllowed pm;
     nxtPathID := nxt; nbPaths := nbPaths pm;
     remoteAddrs4 := remoteAddrs4 pm; remoteAddrs6 := remoteAddrs6 pm;
     localAddrs := localAddrs pm;
     advertisedLocAddrs := advertisedLocAddrs pm;
     paths := ps; openPaths := open |}.

Definition set_remoteAddrs (pm : pathManager) (r4 r6 : list UDPAddr)
  : pathManager :=
  {| perspective := perspective pm;
     createPathsAllowed := createPathsAllowed pm;
     nxtPathID := nxtPathID pm; nbPaths := nbPaths pm;
     remoteAddrs4 := r4; remoteAddrs6 := r6;
     localAddrs := localAddrs pm;
     advertisedLocAddrs := advertisedLocAddrs pm;
     paths := paths pm; openPaths := openPaths pm |}.

Definition set_advertised (pm : pathManager) (adv : gset string)
  : pathManager :=
  {| perspective := perspective pm;
     createPathsAllowed := createPathsAllowed pm;
     nxtPathID := nxtPathID pm; nbPaths := nbPaths pm;
     remoteAddrs4 := remoteAddrs4 pm; remoteAddrs6 := remoteAddrs6 pm;
     localAddrs := localAddrs pm;
     advertisedLocAddrs := adv;
     paths := paths pm; openPaths := openPaths pm |}.

(** [setup]: the session's perspective and flag, the local addresses, and
    the connection of the initial path with its remote address (if any). *)
Definition setup (persp : Perspective) (allowed : bool)
  (locals : list UDPAddr) (connLocal : string) (connRemote : option UDPAddr)
  : pathManager :=
  let initial :=
    {| pathID := InitialPathID; localAddr := connLocal;
       remoteAddr := match connRemote with
                     | Some a => addrString a
                     | None => EmptyString
                     end;
       initialRTT := 0; initialBandwidth := 0 |} in
  {| perspective := persp;
     createPathsAllowed := allowed;
     (* initial PathID is 0 *)
     nxtPathID := match persp with PerspectiveClient => 1 | _ => 2 end;
     nbPaths := 0;
     remoteAddrs4 := match connRemote with
                     | Some a => if isIPv4 a then [a] else []
                     | None => []
                     end;
     remoteAddrs6 := match connRemote with
                     | Some a => if isIPv4 a then [] else [a]
                     | None => []
                     end;
     localAddrs := locals;
     advertisedLocAddrs := ∅;
     paths := {[ InitialPathID := initial ]};
     openPaths := [InitialPathID] |}.

(** The static lookup of the initial RTT and bandwidth by IP. *)
Definition statisticsFor (ip : string) : Duration * Z :=
  if String.eqb ip "10.0.0.1" then (1 * Millisecond, uint64 (1 * 1048576))
  else if String.eqb ip "10.0.1.1" then (1 * Millisecond, uint64 (20 * 1048576))
  else (0, 0).

Definition pathExists (pm : pathManager) (loc rem : string) : bool :=
  existsb (fun kv => String.eqb loc (localAddr kv.2)
                     && String.eqb rem (remoteAddr kv.2))
          (map_to_list (paths pm)).

(** [createPath]; [sendPing] is the session's probe of the new path, whose
    error, if any, is the result. *)
Definition createPath (sendPing : path -> option Error) (pm : pathManager)
  (locAddr remAddr : UDPAddr) : option Error * pathManager :=
  if pathExists pm (addrString locAddr) (addrString remAddr) then
    (* path already exists, so don't create it again *)
    (None, pm)
  else
    let '(rtt, bandwidth) := statisticsFor (IP locAddr) in
    let pth :=
      {| pathID := nxtPathID pm; localAddr := addrString locAddr;
         remoteAddr := addrString remAddr;
         initialRTT := rtt; initialBandwidth := bandwidth |} in
    let pm :=
      set_paths pm (PathID (nxtPathID pm + 2))
        (<[nxtPathID pm := pth]> (paths pm))
        (openPaths pm ++ [nxtPathID pm]) in
    (sendPing pth, pm).

Definition advertiseAddresses (pm : pathManager) : pathManager :=
  set_advertised pm
    (fold_left (fun adv a => {[ addrString a ]} ∪ adv) (localAddrs pm)
       (advertisedLocAddrs pm)).

(** The inner loops of [createPaths]: one [createPath] per remote address,
    stopping at the first error. *)
Fixpoint createPathsTo (sendPing : path -> option Error) (pm : pathManager)
  (locAddr : UDPAddr) (remotes : list UDPAddr) : option Error * pathManager :=
  match remotes with
  | [] => (None, pm)
  | remAddr :: rest =>
    match createPath sendPing pm locAddr remAddr with
    | (Some e, pm) => (Some e, pm)
    | (None, pm) => createPathsTo sendPing pm locAddr rest
    end
  end.

Fixpoint createPathsFrom (sendPing : path -> option Error) (pm : pathManager)
  (locals : list UDPAddr) : option Error * pathManager :=
  match locals with
  | [] => (None, pm)
  | locAddr :: rest =>
    let remotes := if getIPVersion locAddr =? 4 then remoteAddrs4 pm
                   else remoteAddrs6 pm in
    match createPathsTo sendPing pm locAddr remotes with
    | (Some e, pm) => (Some e, pm)
    | (None, pm) => createPathsFrom sendPing pm rest
    end
  end.

Definition createPaths (sendPing : path -> option Error) (pm : pathManager)
  : option Error * pathManager :=
  match perspective pm with
  | PerspectiveServer =>
    (* don't let the server create paths for now *)
    (None, advertiseAddresses pm)
  | PerspectiveClient => createPathsFrom sendPing pm (localAddrs pm)
  end.

(** [createPathFromRemote]: the packet gives the receiving connection, the
    remote address and the path ID of its public header. *)
Definition createPathFromRemote (pm : pathManager) (rcvLocal : string)
  (remoteAddr : UDPAddr) (pathID : Z) : (Error + path) * pathManager :=
  (* sanity check: pathID should not exist yet *)
  match paths pm !! pathID with
  | Some _ => (inl errPathExists, pm)
  | None =>
    match perspective pm with
    | PerspectiveClient =>
      if negb (pathID mod 2 =? 0) then (inl errOddFromServer, pm)
      else
        let '(rtt, bandwidth) := statisticsFor (parseIP remoteAddr) in
        let pth := {| pathID := pathID; localAddr := rcvLocal;
                      remoteAddr := addrString remoteAddr;
                      initialRTT := rtt; initialBandwidth := bandwidth |} in
        (inr pth,
         set_paths pm (nxtPathID pm) (<[pathID := pth]> (paths pm))
           (openPaths pm ++ [pathID]))
    | PerspectiveServer =>
      if pathID mod 2 =? 0 then (inl errEvenFromClient, pm)
      else
        let '(rtt, bandwidth) := statisticsFor (parseIP remoteAddr) in
        let pth := {| pathID := pathID; localAddr := rcvLocal;
                      remoteAddr := addrString remoteAddr;
                      initialRTT := rtt; initialBandwidth := bandwidth |} in
        (inr pth,
         set_paths pm (nxtPathID pm) (<[pathID := pth]> (paths pm))
           (openPaths pm ++ [pathID]))
    end
  end.

Definition handleAddAddressFrame (sendPing : path -> option Error)
  (pm : pathManager) (ipVersion : Z) (addr : UDPAddr)
  : option Error * pathManager :=
  let added :=
    if ipVersion =? 4 then
      inr (set_remoteAddrs pm (remoteAddrs4 pm ++ [addr]) (remoteAddrs6 pm))
    else if ipVersion =? 6 then
      inr (set_remoteAddrs pm (remoteAddrs4 pm) (remoteAddrs6 pm ++ [addr]))
    else inl errUnknownIPVersion in
  match added with
  | inl e => (Some e, pm)
  | inr pm =>
    if createPathsAllowed pm then createPaths sendPing pm else (None, pm)
  end.

(** *** Calls and runs *)

Inductive Call :=
| CallCreatePath (locAddr remAddr : UDPAddr)
| CallCreatePaths
| CallCreatePathFromRemote (rcvLocal : string) (remoteAddr : UDPAddr)
                           (pathID : Z)
| CallHandleAddAddressFrame (ipVersion : Z) (addr : UDPAddr).

Definition call (sendPing : path -> option Error) (pm : pathManager)
  (c : Call) : pathManager :=
  match c with
  | CallCreatePath locAddr remAddr => (createPath sendPing pm locAddr remAddr).2
  | CallCreatePaths => (createPaths sendPing pm).2
  | CallCreatePathFromRemote rcvLocal remoteAddr pathID =>
    (createPathFromRemote pm rcvLocal remoteAddr pathID).2
  | CallHandleAddAddressFrame ipVersion addr =>
    (handleAddAddressFrame sendPing pm ipVersion addr).2
  end.

Definition run (sendPing : path -> option Error) (pm : pathManager)
  (cs : list Call) : pathManager :=
  fold_left (call sendPing) cs pm.

(** The counter of local path IDs has the parity of the perspective: odd
    on a client, even on a server. *)
Definition counterParity (pm : pathManager) : Prop :=
  nxtPathID pm mod 2
  = match perspective pm with PerspectiveClient => 1 | PerspectiveServer => 0 end.

(** What every call keeps: the perspective, the parity of the counter, and
    on a client the path at ID 0. *)
Definition kept (pm pm' : pathManager) : Prop :=
  perspective pm' = perspective pm
  /\ (counterParity pm -> counterParity pm')
  /\ (counterParity pm -> perspective pm = PerspectiveClient ->
      forall pth, paths pm !! 0 = Some pth -> paths pm' !! 0 = Some pth).

End PathManager.


(** ** Protocol versions

    [internal/protocol]'s version numbers.  A [VersionNumber] is an [int];
    a version tag is a [uint32]. *)

Module Version.

Definition Version37 : Z := 37.
Definition Version38 : Z := 38.
Definition Version39 : Z := 39.
Definition VersionTLS : Z := 101.
Definition VersionWhatever : Z := 0.
Definition VersionUnsupported : Z := -1.
Definition VersionUnknown : Z := -2.
Definition VersionMP : Z := 512.

(** The versions the server supports, in descending order of preference. *)
Definition SupportedVersions : list Z :=
  [VersionMP; Version39; Version38; Version37].

Definition UsesTLS (vn : Z) : bool := vn =? VersionTLS.

(** [x << n] on a [uint32] *)
Definition shl32 (x n : Z) : Z := uint32 (Z.shiftl x n).

(** [VersionNumberToTag]: ['Q'] is 81 and ['0'] is 48; a shift binds
    tighter than a sum, and every operation is one of [uint32]. *)
Definition VersionNumberToTag (vn : Z) : Z :=
  let v := uint32 vn in
  uint32 (uint32 (uint32 (81 + shl32 (uint32 (v / 100 mod 10 + 48)) 8)
                  + shl32 (uint32 (v / 10 mod 10 + 48)) 16)
          + shl32 (uint32 (v mod 10 + 48)) 24).

(** [VersionTagToNumber]: [&] binds tighter than [-]. *)
Definition VersionTagToNumber (v : Z) : Z :=
  uint32 (uint32 (uint32 (uint32 (Z.land (Z.shiftr v 8) 255 - 48) * 100)
                  + uint32 (uint32 (Z.land (Z.shiftr v 16) 255 - 48) * 10))
          + uint32 (Z.land (Z.shiftr v 24) 255 - 48)).

Fixpoint IsSupportedVersion (supported : list Z) (v : Z) : bool :=
  match supported with
  | [] => false
  | t :: rest => if t =? v then true else IsSupportedVersion rest v
  end.

(** The inner loop of [ChooseSupportedVersion], over the versions the
    peer offers. *)
Fixpoint offeredBy (theirs : list Z) (ourVer : Z) : option Z :=
  match theirs with
  | [] => None
  | theirVer :: rest =>
    if ourVer =? theirVer then Some ourVer else offeredBy rest ourVer
  end.

Fixpoint ChooseSupportedVersion (ours theirs : list Z) : Z :=
  match ours with
  | [] => VersionUnsupported
  | ourVer :: rest =>
    match offeredBy theirs ourVer with
    | Some v => v
    | None => ChooseSupportedVersion rest theirs
    end
  end.

End Version.

(** ** Frames on the wire

    [internal/wire]'s BLOCKED and CONNECTION_CLOSE frames.  A
    [*bytes.Reader] is the list of the bytes it has left, and a write to a
    [*bytes.Buffer] is the list of the bytes it appends. *)

Module FrameCodec.

Inductive Error :=
| EOF
| ErrUnexpectedEOF
| InvalidConnectionCloseData
| errReasonPhraseTooLong.

(** [utils.ByteOrder] is an interface, and its implementations are not
    among the sources; the frames use it through these four calls. *)
Class ByteOrder := {
  ReadUint32 : list Byte.byte -> Error + Z * list Byte.byte;
  ReadUint16 : list Byte.byte -> Error + Z * list Byte.byte;
  WriteUint32 : Z -> list Byte.byte;
  WriteUint16 : Z -> list Byte.byte
}.

(** What a byte order owes its users: a value written is read back, with
    the reader left after it; a [uint32] takes four bytes and a [uint16]
    two; reading from fewer bytes fails. *)
Record lawful (o : ByteOrder) : Prop := {
  read_write_32 : forall x rest,
    0 <= x < 2 ^ 32 -> ReadUint32 (WriteUint32 x ++ rest) = inr (x, rest);
  read_write_16 : forall x rest,
    0 <= x < 2 ^ 16 -> ReadUint16 (WriteUint16 x ++ rest) = inr (x, rest);
  length_32 : forall x, length (WriteUint32 x) = 4%nat;
  length_16 : forall x, length (WriteUint16 x) = 2%nat;
  short_32 : forall r, (length r < 4)%nat -> exists e, ReadUint32 r = inl e;
  short_16 : forall r, (length r < 2)%nat -> exists e, ReadUint16 r = inl e
}.

(** [r.ReadByte()] *)
Definition ReadByte (r : list Byte.byte) : Error + Byte.byte * list Byte.byte :=
  match r with
  | [] => inl EOF
  | b :: rest => inr (b, rest)
  end.

(** [io.ReadFull(r, buf)] for a buffer of [n] bytes: nothing is read for an
    empty buffer; an exhausted reader gives [io.EOF], and one that runs out
    on the way [io.ErrUnexpectedEOF]. *)
Definition ReadFull (r : list Byte.byte) (n : nat)
  : Error + list Byte.byte * list Byte.byte :=
  if (n =? 0)%nat then inr ([], r)
  else if (length r =? 0)%nat then inl EOF
  else if (length r <? n)%nat then inl ErrUnexpectedEOF
  else inr (take n r, drop n r).

Record ConnectionCloseFrame := {
  ErrorCode : Z;
  ReasonPhrase : string
}.

Definition MaxUint16 : Z := 65535.

Section Codec.

(** [utils.GetByteOrder]: the byte order of a version. *)
Variable GetByteOrder : Z -> ByteOrder.

Context `{Protocol}.

(** *** BLOCKED *)

Definition WriteBlockedFrame (f : Wire.BlockedFrame) (version : Z)
  : option Error * list Byte.byte :=
  (None,
   [Byte.x05]
   ++ @WriteUint32 (GetByteOrder version) (uint32 (Wire.blockedStreamID f))).

Definition BlockedFrameMinLength (f : Wire.BlockedFrame) (version : Z)
  : Z * option Error := (1 + 4, None).

Definition ParseBlockedFrame (r : list Byte.byte) (version : Z)
  : Error + Wire.BlockedFrame * list Byte.byte :=
  (* read the TypeByte *)
  match ReadByte r with
  | inl e => inl e
  | inr (_, r) =>
    match @ReadUint32 (GetByteOrder version) r with
    | inl e => inl e
    | inr (sid, r) => inr ({| Wire.blockedStreamID := sid |}, r)
    end
  end.

(** *** CONNECTION_CLOSE *)

Definition ParseConnectionCloseFrame (r : list Byte.byte) (version : Z)
  : Error + ConnectionCloseFrame * list Byte.byte :=
  (* read the TypeByte *)
  match ReadByte r with
  | inl e => inl e
  | inr (_, r) =>
    match @ReadUint32 (GetByteOrder version) r with
    | inl e => inl e
    | inr (errorCode, r) =>
      match @ReadUint16 (GetByteOrder version) r with
      | inl e => inl e
      | inr (reasonPhraseLen, r) =>
        if reasonPhraseLen >? wrapU 16 MaxPacketSize
        then inl InvalidConnectionCloseData
        else
          match ReadFull r (Z.to_nat reasonPhraseLen) with
          | inl e => inl e
          | inr (reasonPhrase, r) =>
            inr ({| ErrorCode := errorCode;
                    ReasonPhrase := string_of_list_byte reasonPhrase |}, r)
          end
      end
    end
  end.

Definition ConnectionCloseMinLength (f : ConnectionCloseFrame) (version : Z)
  : Z * option Error :=
  (uint64 (1 + 4 + 2
           + Z.of_nat (length (list_byte_of_string (ReasonPhrase f)))), None).

(** [Write]: the error comes after the type byte and the error code went
    into the buffer. *)
Definition WriteConnectionCloseFrame (f : ConnectionCloseFrame) (version : Z)
  : option Error * list Byte.byte :=
  let b := [Byte.x02]
           ++ @WriteUint32 (GetByteOrder version) (uint32 (ErrorCode f)) in
  let phrase := list_byte_of_string (ReasonPhrase f) in
  if Z.of_nat (length phrase) >? MaxUint16 then (Some errReasonPhraseTooLong, b)
  else
    let reasonPhraseLen := wrapU 16 (Z.of_nat (length phrase)) in
    (None,
     b ++ @WriteUint16 (GetByteOrder version) reasonPhraseLen ++ phrase).

End Codec.

End FrameCodec.

(** ** The stop-waiting manager on its own

    The calls the handler and the session make on the
    [stopWaitingManager], and the packet number each call names. *)

Module StopWaiting.

Import AckHandler.

Inductive Call :=
| CallGetStopWaitingFrame (force : bool)
| CallReceivedAck (ack : Wire.AckFrame)
| CallQueuedRetransmissionForPacketNumber (p : Z).

Definition call (s : stopWaitingManager) (c : Call) : stopWaitingManager :=
  match c with
  | CallGetStopWaitingFrame force => (swmGetStopWaitingFrame s force).2
  | CallReceivedAck ack => swmReceivedAck s ack
  | CallQueuedRetransmissionForPacketNumber p =>
    QueuedRetransmissionForPacketNumber s p
  end.

Definition run (s : stopWaitingManager) (cs : list Call) : stopWaitingManager :=
  fold_left call cs s.

(** The zero value of the struct, as [NewSentPacketHandler] leaves it. *)
Definition zero : stopWaitingManager :=
  {| largestLeastUnackedSent := 0; nextLeastUnacked := 0;
     lastStopWaitingFrame := None |}.

(** The packet number after the one a call names: the largest acked of an
    ACK, the number of a packet queued for retransmission. *)
Definition after (c : Call) : Z :=
  match c with
  | CallGetStopWaitingFrame _ => 0
  | CallReceivedAck ack => Wire.LargestAcked ack + 1
  | CallQueuedRetransmissionForPacketNumber p => p + 1
  end.

(** The frame last sent, if any, carries [largestLeastUnackedSent], which
    does not exceed [nextLeastUnacked]. *)
Definition consistent (s : stopWaitingManager) : Prop :=
  0 <= largestLeastUnackedSent s <= nextLeastUnacked s
  /\ match lastStopWaitingFrame s with
     | Some f => Wire.LeastUnacked f = largestLeastUnackedSent s
                 /\ 0 < largestLeastUnackedSent s
     | None => largestLeastUnackedSent s = 0
     end.

End StopWaiting.

(** ** The path of a packer call *)

Module PackerPaths.

Import Packer.

Section Paths.

Context {G : Type}.

(** The path a call on the packer is made for. *)
Definition pathOf (c : Call (G:=G)) : path G :=
  match c with
  | CallQueueControlFrame _ pth => pth
  | CallPackPacket pth => pth
  | CallPackPacketOfPath pth => pth
  | CallPackPacketOfStream pth _ => pth
  | CallPackAckPacket pth => pth
  | CallPackHandshakeRetransmission _ pth => pth
  | CallPackConnectionClose _ _ pth => pth
  | CallPackPing pth _ => pth
  end.

End Paths.

End PackerPaths.

(** ** The open paths of the session

    What the path manager keeps true of [paths] and [openPaths]. *)

Module OpenPaths.

Import PathManager.

(** The open path IDs are the keys of the paths. *)
Definition tracked (pm : pathManager) : Prop :=
  forall id, id ∈ openPaths pm <-> is_Some (paths pm !! id).

(** Going from [pm] to [pm'] no path is closed or removed. *)
Definition grows (pm pm' : pathManager) : Prop :=
  openPaths pm `prefix_of` openPaths pm'
  /\ (forall id, is_Some (paths pm !! id) -> is_Some (paths pm' !! id))
  /\ (tracked pm -> tracked pm').

End OpenPaths.

(** ** The paths of a PATHS frame

    [createPathsFromRemotePathsFrame] of the path manager: one path per
    entry of the frame of the peer. *)

Module PathsFrame.

Import PathManager.

(** The three slices of [wire.PathsFrame] that the manager reads, entry [i]
    of each describing one path. *)
Record PathsFrame := {
  PathIDs : list Z;
  RemoteAddrsIP : list string;
  RemoteAddrsPort : list string
}.

Inductive FrameError :=
| errParsingPort
| errSanity (e : Error)
| errIndexOutOfRange.  (* the run-time panic of an index past a slice *)

Section Frame.

(** [strconv.Atoi], and the text of the [net.UDPAddr] made of
    [net.ParseIP] of an IP and of a port. *)
Variable Atoi : string -> option Z.
Variable udpAddrString : string -> Z -> string.

(** The loop over [i], with the path IDs from [i] on. *)
Fixpoint createPathsFromIndex (pm : pathManager) (frame : PathsFrame)
  (localPconn : string) (i : nat) (ids : list Z)
  : option FrameError * pathManager :=
  match ids with
  | [] => (None, pm)
  | pathID :: rest =>
    match RemoteAddrsIP frame !! i with
    | None => (Some errIndexOutOfRange, pm)
    | Some remoteIP =>
      match RemoteAddrsPort frame !! i with
      | None => (Some errIndexOutOfRange, pm)
      | Some remotePort =>
        match Atoi remotePort with
        | None => (Some errParsingPort, pm)
        | Some port =>
          (* sanity check: pathID should not exist yet *)
          match paths pm !! pathID with
          | Some _ =>
            (* trying to create already existing path, continue to check
               next path *)
            createPathsFromIndex pm frame localPconn (S i) rest
          | None =>
            (* sanity check: odd is client initiated, even for server
               initiated *)
            if match perspective pm with
               | PerspectiveClient => negb (pathID mod 2 =? 0)
               | PerspectiveServer => false
               end
            then (Some (errSanity errOddFromServer), pm)
            else if match perspective pm with
                    | PerspectiveServer => pathID mod 2 =? 0
                    | PerspectiveClient => false
                    end
            then (Some (errSanity errEvenFromClient), pm)
            else
              let '(rtt, bandwidth) := statisticsFor remoteIP in
              let pth := {| pathID := pathID; localAddr := localPconn;
                            remoteAddr := udpAddrString remoteIP port;
                            initialRTT := rtt;
                            initialBandwidth := bandwidth |} in
              createPathsFromIndex
                (set_paths pm (nxtPathID pm) (<[pathID := pth]> (paths pm))
                   (openPaths pm ++ [pathID]))
                frame localPconn (S i) rest
          end
        end
      end
    end
  end.

Definition createPathsFromRemotePathsFrame (pm : pathManager)
  (frame : PathsFrame) (localPconn : string)
  : option FrameError * pathManager :=
  createPathsFromIndex pm frame localPconn 0 (PathIDs frame).

(** The parity the peer's path IDs have: even on a client, odd on a
    server. *)
Definition peerParity (pm : pathManager) (id : Z) : Prop :=
  id mod 2
  = match perspective pm with PerspectiveClient => 0 | PerspectiveServer => 1 end.

End Frame.

End PathsFrame.

(** ** The scheduler

    The selection of a path of [scheduler.go]. *)

Module Scheduler.

Definition InitialPathID : Z := PathManager.InitialPathID.

(** A path as the scheduler reads it during one call: its ID and the
    answers of [SendingAllowed()], [potentiallyFailed.Get()] and
    [rttStats.SmoothedRTT()]. *)
Record path := {
  pathID : Z;
  SendingAllowed : bool;
  potentiallyFailed : bool;
  SmoothedRTT : Duration
}.

(** The outcome of a call: what it returns, or the run-time panic of
    reading the nil path. *)
Inductive Outcome (A : Type) :=
| Returns (a : A)
| NilPath.

Arguments Returns {A} a.
Arguments NilPath {A}.

(** [^uint(0)], a [uint] having 64 bits. *)
Definition maxUint : Z := 2 ^ 64 - 1.

(** [sch.quotas[pathID]]: the zero value when the map has no entry. *)
Definition quotaOf (quotas : gmap Z Z) (pathID : Z) : Z :=
  default 0 (quotas !! pathID).

(** The read of a quota that enters 0 for a path without one. *)
Definition readQuota (quotas : gmap Z Z) (pathID : Z) : Z * gmap Z Z :=
  match quotas !! pathID with
  | Some currentQuota => (currentQuota, quotas)
  | None => (0, <[pathID := 0]> quotas)
  end.

(** *** The path loops, over the entries of a map in the order a [range]
    statement yields them *)

Fixpoint iterateLoop (entries : list (Z * path)) (selectedPath : option path)
  (lowerQuota : Z) (quotas : gmap Z Z) : option path * gmap Z Z :=
  match entries with
  | [] => (selectedPath, quotas)
  | (pathID, pth) :: rest =>
    let '(currentQuota, quotas) := readQuota quotas pathID in
    if currentQuota <? lowerQuota then
      iterateLoop rest (Some pth) currentQuota quotas
    else iterateLoop rest selectedPath lowerQuota quotas
  end.

Fixpoint roundRobinLoop (hasRetransmission : bool) (entries : list (Z * path))
  (selectedPath : option path) (lowerQuota : Z) (quotas : gmap Z Z)
  : option path * gmap Z Z :=
  match entries with
  | [] => (selectedPath, quotas)
  | (pathID, pth) :: rest =>
    (* don't block path usage if we retransmit, even on another path *)
    if negb hasRetransmission && negb (SendingAllowed pth) then
      roundRobinLoop hasRetransmission rest selectedPath lowerQuota quotas
    (* if this path is potentially failed, do not consider it for sending *)
    else if potentiallyFailed pth then
      roundRobinLoop hasRetransmission rest selectedPath lowerQuota quotas
    (* prevent using initial pathID if multiple paths *)
    else if pathID =? InitialPathID then
      roundRobinLoop hasRetransmission rest selectedPath lowerQuota quotas
    else
      let '(currentQuota, quotas) := readQuota quotas pathID in
      if currentQuota <? lowerQuota then
        roundRobinLoop hasRetransmission rest (Some pth) currentQuota quotas
      else roundRobinLoop hasRetransmission rest selectedPath lowerQuota quotas
  end.

(** The first loop of [selectPathLowLatency]: is there any other path with
    a lower number of packets sent? *)
Fixpoint lessUsedLoop (entries : list (Z * path)) (quotas : gmap Z Z)
  (fromID currentQuota : Z) : option path :=
  match entries with
  | [] => None
  | (pathID, pth) :: rest =>
    if (pathID =? InitialPathID) || (pathID =? fromID) then
      lessUsedLoop rest quotas fromID currentQuota
    else if quotaOf quotas pathID <? currentQuota then Some pth
    else lessUsedLoop rest quotas fromID currentQuota
  end.

Fixpoint selectLowLatencyLoop (hasRetransmission : bool)
  (entries : list (Z * path)) (selectedPath : option path)
  (lowerRTT : Duration) (selectedPathID : Z) (quotas : gmap Z Z)
  : option path * gmap Z Z :=
  match entries with
  | [] => (selectedPath, quotas)
  | (pathID, pth) :: rest =>
    if negb hasRetransmission && negb (SendingAllowed pth) then
      selectLowLatencyLoop hasRetransmission rest selectedPath lowerRTT
        selectedPathID quotas
    else if potentiallyFailed pth then
      selectLowLatencyLoop hasRetransmission rest selectedPath lowerRTT
        selectedPathID quotas
    else if pathID =? InitialPathID then
      selectLowLatencyLoop hasRetransmission rest selectedPath lowerRTT
        selectedPathID quotas
    else
      let currentRTT := SmoothedRTT pth in
      (* prefer staying single-path if not blocked by current path; don't
         consider this sample if the smoothed RTT is 0 *)
      if negb (lowerRTT =? 0) && (currentRTT =? 0) then
        selectLowLatencyLoop hasRetransmission rest selectedPath lowerRTT
          selectedPathID quotas
      else
        (* case if we have multiple paths unprobed *)
        let '(passedOver, quotas) :=
          if currentRTT =? 0 then
            let '(currentQuota, quotas) := readQuota quotas pathID in
            let lowerQuota := quotaOf quotas selectedPathID in
            (bool_decide (is_Some selectedPath) && (currentQuota >? lowerQuota),
             quotas)
          else (false, quotas) in
        if passedOver then
          selectLowLatencyLoop hasRetransmission rest selectedPath lowerRTT
            selectedPathID quotas
        else if negb (currentRTT =? 0) && negb (lowerRTT =? 0)
                && bool_decide (is_Some selectedPath)
                && (currentRTT >=? lowerRTT) then
          selectLowLatencyLoop hasRetransmission rest selectedPath lowerRTT
            selectedPathID quotas
        else
          selectLowLatencyLoop hasRetransmission rest (Some pth) currentRTT
            pathID quotas
  end.

Fixpoint findLowLatencyLoop (entries : list (Z * path))
  (selectedPath : option path) (lowerRTT : Duration) (selectedPathID : Z)
  (quotas : gmap Z Z) : option path * gmap Z Z :=
  match entries with
  | [] => (selectedPath, quotas)
  | (pathID, pth) :: rest =>
    if negb (SendingAllowed pth) then
      findLowLatencyLoop rest selectedPath lowerRTT selectedPathID quotas
    else if potentiallyFailed pth then
      findLowLatencyLoop rest selectedPath lowerRTT selectedPathID quotas
    else if pathID =? InitialPathID then
      findLowLatencyLoop rest selectedPath lowerRTT selectedPathID quotas
    else
      let currentRTT := SmoothedRTT pth in
      if negb (lowerRTT =? 0) && (currentRTT =? 0) then
        findLowLatencyLoop rest selectedPath lowerRTT selectedPathID quotas
      else
        let '(passedOver, quotas) :=
          if currentRTT =? 0 then
            let '(currentQuota, quotas) := readQuota quotas pathID in
            let lowerQuota := quotaOf quotas selectedPathID in
            (bool_decide (is_Some selectedPath) && (currentQuota >? lowerQuota),
             quotas)
          else (false, quotas) in
        if passedOver then
          findLowLatencyLoop rest selectedPath lowerRTT selectedPathID quotas
        else if negb (currentRTT =? 0) && negb (lowerRTT =? 0)
                && bool_decide (is_Some selectedPath)
                && (currentRTT >=? lowerRTT) then
          findLowLatencyLoop rest selectedPath lowerRTT selectedPathID quotas
        else findLowLatencyLoop rest (Some pth) currentRTT pathID quotas
  end.

(** The loop of [findPath] over the available paths, one of which may be
    the nil path. *)
Fixpoint findPathLoop (entries : list (Z * option path))
  (selectedPath : option path) (lowerRTT : Duration) (selectedPathID : Z)
  (quotas : gmap Z Z) : Outcome (option path * gmap Z Z) :=
  match entries with
  | [] => Returns (selectedPath, quotas)
  | (pathID, None) :: rest => NilPath
  | (pathID, Some pth) :: rest =>
    if negb (SendingAllowed pth) then
      findPathLoop rest selectedPath lowerRTT selectedPathID quotas
    else if potentiallyFailed pth then
      findPathLoop rest selectedPath lowerRTT selectedPathID quotas
    else if pathID =? InitialPathID then
      findPathLoop rest selectedPath lowerRTT selectedPathID quotas
    else
      let currentRTT := SmoothedRTT pth in
      if negb (lowerRTT =? 0) && (currentRTT =? 0) then
        findPathLoop rest selectedPath lowerRTT selectedPathID quotas
      else
        let '(passedOver, quotas) :=
          if currentRTT =? 0 then
            let '(currentQuota, quotas) := readQuota quotas pathID in
            let lowerQuota := quotaOf quotas selectedPathID in
            (bool_decide (is_Some selectedPath) && (currentQuota >? lowerQuota),
             quotas)
          else (false, quotas) in
        if passedOver then
          findPathLoop rest selectedPath lowerRTT selectedPathID quotas
        else if negb (currentRTT =? 0) && negb (lowerRTT =? 0)
                && bool_decide (is_Some selectedPath)
                && (currentRTT >=? lowerRTT) then
          findPathLoop rest selectedPath lowerRTT selectedPathID quotas
        else findPathLoop rest (Some pth) currentRTT pathID quotas
  end.

(** *** The loops of [checkPathQuota] *)

Fixpoint registerLoop (entries : list (Z * path)) (numstreams : gmap Z Z)
  : gmap Z Z :=
  match entries with
  | [] => numstreams
  | (pthID, _) :: rest =>
    match numstreams !! pthID with
    | Some _ => registerLoop rest numstreams
    | None => registerLoop rest (<[pthID := 0]> numstreams)
    end
  end.

Fixpoint lowerQuotaLoop (entries : list (Z * Z)) (lowerQuota pathID : Z)
  : Z * Z :=
  match entries with
  | [] => (lowerQuota, pathID)
  | (pthID, quota) :: rest =>
    if pthID =? InitialPathID then lowerQuotaLoop rest lowerQuota pathID
    else if quota <? lowerQuota then lowerQuotaLoop rest quota pthID
    else lowerQuotaLoop rest lowerQuota pathID
  end.

Fixpoint availableLoop (paths : gmap Z path) (entries : list (Z * Z))
  (lowerQuota : Z) (avalPath : gmap Z (option path))
  : gmap Z (option path) :=
  match entries with
  | [] => avalPath
  | (pthID, quota) :: rest =>
    if pthID =? InitialPathID then
      availableLoop paths rest lowerQuota avalPath
    else if quota =? lowerQuota then
      availableLoop paths rest lowerQuota (<[pthID := paths !! pthID]> avalPath)
    else availableLoop paths rest lowerQuota avalPath
  end.

(** *** The functions of the scheduler

    Go leaves the order of a [range] over a map open; each [range]
    statement of a function is given its order as a function from the map
    to the list of its entries.  The paths of the session are [paths]; the
    maps [quotas] and [numstreams] of the scheduler, made by its [setup],
    go in and come out. *)

Section Ranges.

Context {V : Type}.

(** An order of iteration yields every entry of the map once. *)
Definition iterates (range : gmap Z V -> list (Z * V)) : Prop :=
  forall m, range m ≡ₚ map_to_list m.

End Ranges.

Definition iteratePathRoundRobin (range : gmap Z path -> list (Z * path))
  (paths : gmap Z path) (quotas : gmap Z Z) : option path * gmap Z Z :=
  (* max possible value for lowerQuota at the beginning *)
  iterateLoop (range paths) None maxUint quotas.

Definition selectPathRoundRobin (range : gmap Z path -> list (Z * path))
  (paths : gmap Z path) (quotas : gmap Z Z)
  (hasRetransmission hasStreamRetransmission : bool) (fromPth : option path)
  : Outcome (option path * gmap Z Z) :=
  (* avoid using PathID 0 if there is more than 1 path *)
  if Z.of_nat (size paths) <=? 1 then
    if negb hasRetransmission then
      match paths !! InitialPathID with
      | None => NilPath
      | Some pth =>
        if negb (SendingAllowed pth) then Returns (None, quotas)
        else Returns (Some pth, quotas)
      end
    else Returns (paths !! InitialPathID, quotas)
  else
    Returns (roundRobinLoop hasRetransmission (range paths) None maxUint quotas).

Definition selectPathLowLatency (range range' : gmap Z path -> list (Z * path))
  (paths : gmap Z path) (quotas : gmap Z Z)
  (hasRetransmission hasStreamRetransmission : bool) (fromPth : option path)
  : Outcome (option path * gmap Z Z) :=
  if Z.of_nat (size paths) <=? 1 then
    if negb hasRetransmission then
      match paths !! InitialPathID with
      | None => NilPath
      | Some pth =>
        if negb (SendingAllowed pth) then Returns (None, quotas)
        else Returns (Some pth, quotas)
      end
    else Returns (paths !! InitialPathID, quotas)
  else
    let loop :=
      Returns (selectLowLatencyLoop hasRetransmission (range' paths) None 0
                 255 quotas) in
    if hasRetransmission && hasStreamRetransmission then
      match fromPth with
      | None => NilPath
      | Some from =>
        if SmoothedRTT from =? 0 then
          (* is there any other path with a lower number of packet sent? *)
          let currentQuota := quotaOf quotas (pathID from) in
          match lessUsedLoop (range paths) quotas (pathID from) currentQuota with
          | Some pth => Returns (Some pth, quotas)
          | None => loop
          end
        else loop
      end
    else loop.

Definition selectPath := selectPathLowLatency.

Definition findPathLowLatency (range : gmap Z path -> list (Z * path))
  (paths : gmap Z path) (quotas : gmap Z Z)
  : Outcome (option path * gmap Z Z) :=
  if Z.of_nat (size paths) <=? 1 then
    match paths !! InitialPathID with
    | None => NilPath
    | Some pth =>
      if negb (SendingAllowed pth) then Returns (None, quotas)
      else Returns (Some pth, quotas)
    end
  else Returns (findLowLatencyLoop (range paths) None 0 255 quotas).

(** [checkPathQuota]: the available paths, a path of the session or nil
    under each ID, and the stream counts with the paths entered. *)
Definition checkPathQuota (range : gmap Z path -> list (Z * path))
  (rangeStreams rangeStreams' : gmap Z Z -> list (Z * Z))
  (paths : gmap Z path) (numstreams : gmap Z Z)
  : gmap Z (option path) * gmap Z Z :=
  let numstreams := registerLoop (range paths) numstreams in
  (* max possible value for lowerQuota at the beginning *)
  let '(lowerQuota, pathID) :=
    lowerQuotaLoop (rangeStreams numstreams) maxUint 0 in
  let avalPath : gmap Z (option path) := {[ pathID := paths !! pathID ]} in
  let avalPath :=
    availableLoop paths (rangeStreams' numstreams) lowerQuota avalPath in
  (<[InitialPathID := paths !! InitialPathID]> avalPath, numstreams).

Definition findPath (range : gmap Z path -> list (Z * path))
  (rangeStreams rangeStreams' : gmap Z Z -> list (Z * Z))
  (rangeAvailable : gmap Z (option path) -> list (Z * option path))
  (paths : gmap Z path) (quotas numstreams : gmap Z Z)
  : Outcome (option path * gmap Z Z * gmap Z Z) :=
  if Z.of_nat (size paths) <=? 1 then
    match paths !! InitialPathID with
    | None => NilPath
    | Some pth =>
      if negb (SendingAllowed pth) then Returns (None, quotas, numstreams)
      else Returns (Some pth, quotas, numstreams)
    end
  else
    (* more than 1 path, narrow down path set *)
    let '(avalPath, numstreams) :=
      checkPathQuota range rangeStreams rangeStreams' paths numstreams in
    match findPathLoop (rangeAvailable avalPath) None 0 255 quotas with
    | Returns (selectedPath, quotas) =>
      Returns (selectedPath, quotas, numstreams)
    | NilPath => NilPath
    end.

(** *** What a selection looks at *)

(** A path the selection loops consider: it may send (or a retransmission
    is under way), it is not potentially failed, and it is not the initial
    path. *)
Definition eligible (hasRetransmission : bool) (pathID : Z) (pth : path)
  : Prop :=
  (hasRetransmission = false -> SendingAllowed pth = true)
  /\ potentiallyFailed pth = false
  /\ pathID <> InitialPathID.

(** The path the low-latency loops prefer among the paths [among], each
    with its ID: an eligible path; when its smoothed RTT is 0, every
    eligible path has a smoothed RTT of 0 and none has a lower quota;
    otherwise no eligible path has a lower smoothed RTT other than 0.
    No path is preferred when none is eligible. *)
Definition preferred (hasRetransmission : bool) (quota : Z -> Z)
  (among : Z -> path -> Prop) (selected : option (Z * path)) : Prop :=
  match selected with
  | None =>
    forall id pth, among id pth -> ~ eligible hasRetransmission id pth
  | Some (selectedPathID, selectedPath) =>
    among selectedPathID selectedPath
    /\ eligible hasRetransmission selectedPathID selectedPath
    /\ forall id pth, among id pth -> eligible hasRetransmission id pth ->
         if SmoothedRTT selectedPath =? 0 then
           SmoothedRTT pth = 0 /\ quota selectedPathID <= quota id
         else SmoothedRTT pth <> 0 ->
              SmoothedRTT selectedPath <= SmoothedRTT pth
  end.

(** An ID whose stream count is the least of those of the IDs other than
    the initial one. *)
Definition leastStreams (numstreams : gmap Z Z) (id : Z) : Prop :=
  exists count,
    numstreams !! id = Some count
    /\ forall id' count', id' <> InitialPathID ->
         numstreams !! id' = Some count' -> count <= count'.

End Scheduler.

(** ** Packets handed out for retransmission

    What the handler keeps true of the packets it holds, in the history
    and in the retransmission queue. *)

Module Retransmissions.

Import AckHandler.

Section Handler.

Context {C : Type} `{SendAlgorithm C} `{Protocol}.

Implicit Types h : sentPacketHandler C.

(** Every packet of the history and every packet that waits for
    retransmission has a frame. *)
Definition framed h : Prop :=
  Forall (fun e => Frames (Value e) <> []) (elems (packetHistory h))
  /\ Forall (fun p : Packet => Frames p <> []) (retransmissionQueue h).

(** From [h] to [h'] the handler takes no packet in: the history only
    loses packets, and a packet of the queue was in the queue or in the
    history. *)
Definition handsOver h h' : Prop :=
  elems (packetHistory h') `sublist_of` elems (packetHistory h)
  /\ forall p, p ∈ retransmissionQueue h' ->
       p ∈ retransmissionQueue h \/ p ∈ history h.

End Handler.

(** [DuplicatePacket] puts the packet it is given into the retransmission
    queue as it is, and nothing in the sources calls it; a call that
    duplicates a packet duplicates one with a frame. *)
Definition duplicatesFramed (c : Call) : Prop :=
  match c with
  | CallDuplicatePacket packet => Frames packet <> []
  | _ => True
  end.

End Retransmissions.

(** ** Concrete collaborators for the scenarios *)

Module Scenario.

Import Congestion.

(** A send algorithm on a connection that has no RTT sample yet: the
    smoothed RTT and the retransmission delay are 0, and it keeps no
    state. *)
Definition freshAlgorithm : SendAlgorithm unit :=
  {| OnPacketSent c _ _ _ _ _ := c;
     OnPacketAcked c _ _ _ := c;
     OnPacketLost c _ _ _ := c;
     MaybeExitSlowStart c := c;
     OnRetransmissionTimeout c _ := c;
     RetransmissionDelay _ := 0;
     SmoothedRTT _ := 0;
     GetCongestionWindow _ := 32 * 1460;
     UpdateRTT c _ _ _ := c;
     rttSmoothedRTT _ := 0;
     rttLatestRTT _ := 0 |}.

(** Protocol constants for the scenarios; the ceiling on tracked packets
    is the 2^15 the design document gives as an example. *)
Definition exampleProtocol : Protocol :=
  {| MaxTrackedSentPackets := 2 ^ 15;
     MaxTrackedSkippedPackets := 10;
     MaxNonRetransmittablePackets := 19;
     MaxPacketSize := 1350;
     NonForwardSecurePacketSizeReduction := 50 |}.

(** A retransmittable packet: one PING frame. *)
Definition pingPacket (number length : Z) : AckHandler.Packet :=
  {| AckHandler.PacketNumber := number;
     AckHandler.Frames := [Wire.Ping];
     AckHandler.Length := length;
     AckHandler.EncryptionLevel := Wire.EncryptionForwardSecure;
     AckHandler.SendTime := zeroTime |}.

Definition ackOf (largest lowest : Z) (ranges : list Wire.AckRange)
  : Wire.AckFrame :=
  {| Wire.PathID := 0; Wire.LargestAcked := largest;
     Wire.LowestAcked := lowest; Wire.DelayTime := 0;
     Wire.AckRanges := ranges |}.

Definition closePathOf (largest lowest : Z) (ranges : list Wire.AckRange)
  : Wire.ClosePathFrame :=
  {| Wire.cpPathID := 0; Wire.cpLargestAcked := largest;
     Wire.cpLowestAcked := lowest; Wire.cpAckRanges := ranges |}.

Definition range (first last : Z) : Wire.AckRange :=
  {| Wire.First := first; Wire.Last := last |}.

(** The packer's collaborators in the scenarios: a stream framer with
    nothing to send, a packet-number generator that counts, a wire encoding
    of one byte per frame behind an eleven-byte header, and a sealer that
    appends twelve bytes. *)
Definition emptyFramer : Packer.StreamFramer unit :=
  {| Packer.HasCryptoStreamFrame _ := false;
     Packer.PopCryptoStreamFrame sf _ :=
       ({| Wire.StreamID := 1; Wire.Offset := 0; Wire.FinBit := false;
           Wire.DataLenPresent := false; Wire.Data := [] |}, sf);
     Packer.PopStreamFrames sf _ := ([], sf);
     Packer.PopStreamFramesOfOneStream sf _ _ := ([], sf);
     Packer.PopStreamFramesOfPath sf _ _ _ := ([], sf);
     Packer.PopBlockedFrames sf := ([], sf) |}.

Definition countingGenerator : Packer.PacketNumberGenerator Z :=
  {| Packer.Peek g := g; Packer.Pop g := (g, g + 1) |}.

Definition plainCodec : Packer.WireCodec :=
  {| Packer.GetLength _ _ := inr 11;
     Packer.writeHeader _ _ _ := inr (replicate 11 0);
     Packer.MinLength _ _ := inr 1;
     Packer.writeFrame _ _ := inr [0];
     Packer.GetPacketNumberLengthForPublicHeader _ _ := 2 |}.

Definition paddingSealer : Packer.Sealer :=
  {| Packer.Overhead := 12;
     Packer.Seal src _ _ := src ++ replicate 12 0 |}.

Definition exampleCryptoSetup : Packer.CryptoSetup :=
  {| Packer.GetSealer := (Wire.EncryptionForwardSecure, paddingSealer);
     Packer.GetSealerForCryptoStream :=
       (Wire.EncryptionUnencrypted, paddingSealer);
     Packer.GetSealerWithEncryptionLevel _ := inr paddingSealer;
     Packer.csDiversificationNonce := [] |}.

Definition examplePath : Packer.path Z :=
  {| Packer.pathID := 0; Packer.packetNumberGenerator := 1;
     Packer.leastUnacked := 0; Packer.handshakeComplete := None;
     Packer.streamIDs := [] |}.

Definition stopWaitingOf (leastUnacked : Z) : Wire.StopWaitingFrame :=
  {| Wire.LeastUnacked := leastUnacked; Wire.PacketNumber := 0;
     Wire.PacketNumberLen := 0 |}.

(** A handshake packet: an ACK frame and a frame of the crypto stream. *)
Definition handshakePacket : AckHandler.Packet :=
  {| AckHandler.PacketNumber := 1;
     AckHandler.Frames :=
       [Wire.Ack (ackOf 1 1 []);
        Wire.Stream {| Wire.StreamID := 1; Wire.Offset := 0;
                       Wire.FinBit := false; Wire.DataLenPresent := true;
                       Wire.Data := [1; 2; 3] |}];
     AckHandler.Length := 300;
     AckHandler.EncryptionLevel := Wire.EncryptionSecure;
     AckHandler.SendTime := zeroTime |}.

Definition clientAddr : PathManager.UDPAddr :=
  {| PathManager.IP := "10.0.0.1"; PathManager.isIPv4 := true;
     PathManager.Port := "4242" |}.

Definition otherClientAddr : PathManager.UDPAddr :=
  {| PathManager.IP := "10.0.1.1"; PathManager.isIPv4 := true;
     PathManager.Port := "4243" |}.

Definition serverAddr : PathManager.UDPAddr :=
  {| PathManager.IP := "10.0.2.2"; PathManager.isIPv4 := true;
     PathManager.Port := "6121" |}.

(** A probe of a new path that always succeeds. *)
Definition pingSent (pth : PathManager.path) : option PathManager.Error := None.


(** The two byte orders of the wire, for the scenarios of the frames. *)
Definition byteOf (x : Z) : Byte.byte :=
  default Byte.x00 (Byte.of_N (Z.to_N (x mod 256))).

Definition valueOf (b : Byte.byte) : Z := Z.of_N (Byte.to_N b).

Definition bigEndian : FrameCodec.ByteOrder :=
  {| FrameCodec.ReadUint32 r :=
       match r with
       | b1 :: b2 :: b3 :: b4 :: rest =>
         inr (valueOf b1 * 2 ^ 24 + valueOf b2 * 2 ^ 16 + valueOf b3 * 2 ^ 8
              + valueOf b4, rest)
       | _ => inl FrameCodec.EOF
       end;
     FrameCodec.ReadUint16 r :=
       match r with
       | b1 :: b2 :: rest => inr (valueOf b1 * 2 ^ 8 + valueOf b2, rest)
       | _ => inl FrameCodec.EOF
       end;
     FrameCodec.WriteUint32 x :=
       [byteOf (x / 2 ^ 24); byteOf (x / 2 ^ 16); byteOf (x / 2 ^ 8); byteOf x];
     FrameCodec.WriteUint16 x := [byteOf (x / 2 ^ 8); byteOf x] |}.

Definition littleEndian : FrameCodec.ByteOrder :=
  {| FrameCodec.ReadUint32 r :=
       match r with
       | b1 :: b2 :: b3 :: b4 :: rest =>
         inr (valueOf b1 + valueOf b2 * 2 ^ 8 + valueOf b3 * 2 ^ 16
              + valueOf b4 * 2 ^ 24, rest)
       | _ => inl FrameCodec.EOF
       end;
     FrameCodec.ReadUint16 r :=
       match r with
       | b1 :: b2 :: rest => inr (valueOf b1 + valueOf b2 * 2 ^ 8, rest)
       | _ => inl FrameCodec.EOF
       end;
     FrameCodec.WriteUint32 x :=
       [byteOf x; byteOf (x / 2 ^ 8); byteOf (x / 2 ^ 16); byteOf (x / 2 ^ 24)];
     FrameCodec.WriteUint16 x := [byteOf x; byteOf (x / 2 ^ 8)] |}.

(** Little endian up to version 38 and big endian from version 39 on. *)
Definition orderOfVersion (version : Z) : FrameCodec.ByteOrder :=
  if (version =? Version.Version37) || (version =? Version.Version38)
  then littleEndian else bigEndian.

(** A second path of the same connection. *)
Definition secondPath : Packer.path Z :=
  {| Packer.pathID := 1; Packer.packetNumberGenerator := 1;
     Packer.leastUnacked := 0; Packer.handshakeComplete := None;
     Packer.streamIDs := [] |}.

(** The reading of a decimal port and the text of an address, for the
    scenarios of the PATHS frame. *)
Fixpoint digitsOf (s : string) (acc : Z) : option Z :=
  match s with
  | EmptyString => Some acc
  | String c rest =>
    let d := Z.of_N (N_of_ascii c) - 48 in
    if (0 <=? d) && (d <=? 9) then digitsOf rest (10 * acc + d) else None
  end.

Definition decimalAtoi (s : string) : option Z :=
  match s with
  | EmptyString => None
  | _ => digitsOf s 0
  end.

Definition hostPort (ip : string) (port : Z) : string :=
  ip ++ ":" ++ pretty.pretty port.

(** A PATHS frame of a server with an even and an odd path ID. *)
Definition mixedPathsFrame : PathsFrame.PathsFrame :=
  {| PathsFrame.PathIDs := [2; 3];
     PathsFrame.RemoteAddrsIP := ["10.0.0.1"; "10.0.1.1"];
     PathsFrame.RemoteAddrsPort := ["6121"; "6122"] |}.

(** Two orders of iteration over a map, five paths of a session and the
    maps of its scheduler, for the scenarios of the scheduler. *)
Definition forwards {V} (m : gmap Z V) : list (Z * V) := map_to_list m.
Definition backwards {V} (m : gmap Z V) : list (Z * V) :=
  reverse (map_to_list m).

Definition initialPath : Scheduler.path :=
  {| Scheduler.pathID := 0; Scheduler.SendingAllowed := true;
     Scheduler.potentiallyFailed := false;
     Scheduler.SmoothedRTT := 20 * Millisecond |}.

Definition unprobedPath : Scheduler.path :=
  {| Scheduler.pathID := 1; Scheduler.SendingAllowed := true;
     Scheduler.potentiallyFailed := false; Scheduler.SmoothedRTT := 0 |}.

Definition failedPath : Scheduler.path :=
  {| Scheduler.pathID := 3; Scheduler.SendingAllowed := true;
     Scheduler.potentiallyFailed := true; Scheduler.SmoothedRTT := 0 |}.

Definition fastPath : Scheduler.path :=
  {| Scheduler.pathID := 5; Scheduler.SendingAllowed := true;
     Scheduler.potentiallyFailed := false;
     Scheduler.SmoothedRTT := 10 * Millisecond |}.

Definition slowPath : Scheduler.path :=
  {| Scheduler.pathID := 7; Scheduler.SendingAllowed := true;
     Scheduler.potentiallyFailed := false;
     Scheduler.SmoothedRTT := 30 * Millisecond |}.

Definition sessionPaths : gmap Z Scheduler.path :=
  list_to_map [(0, initialPath); (1, unprobedPath); (3, failedPath);
               (5, fastPath); (7, slowPath)].

Definition packetQuotas : gmap Z Z :=
  list_to_map [(0, 9); (1, 4); (3, 2); (5, 6)].

Definition streamCounts : gmap Z Z := list_to_map [(1, 2); (5, 1)].
End Scenario.

(** * Theorems *)

(** ** Machine integers *)

Lemma uint64_range x : 0 <= uint64 x < 2 ^ 64.
Proof. unfold uint64, wrapU. apply Z.mod_pos_bound. lia. Qed.

Lemma uint64_small x : 0 <= x < 2 ^ 64 -> uint64 x = x.
Proof. intros Hx. unfold uint64, wrapU. apply Z.mod_small. exact Hx. Qed.

Lemma uint64_add_l a b : uint64 (uint64 a + b) = uint64 (a + b).
Proof. unfold uint64, wrapU. apply Zplus_mod_idemp_l. Qed.

Lemma uint64_sub_l a b : uint64 (uint64 a - b) = uint64 (a - b).
Proof. unfold uint64, wrapU. apply Zminus_mod_idemp_l. Qed.

(** ** The sent-packet handler *)

Module AckHandlerFacts.

Import Congestion AckHandler.

Section Facts.

Context {C : Type} `{!SendAlgorithm C} `{!Protocol}.

Implicit Types h : sentPacketHandler C.
Implicit Types pl : PacketList.
Implicit Types e : PacketElement.
Implicit Types els : list PacketElement.

(** *** Removal of a cell from the list *)

Lemma remove_absent els e :
  eid e ∉ eid <$> els ->
  List.filter (fun x => negb (Nat.eqb (eid x) (eid e))) els = els.
Proof.
  induction els as [|a els IH]; simpl; intros Hn; [reflexivity|].
  apply not_elem_of_cons in Hn as [Hne Hn].
  destruct (Nat.eqb_spec (eid a) (eid e)) as [Heq|_]; simpl.
  - congruence.
  - f_equal. apply IH, Hn.
Qed.

Lemma remove_present els e :
  NoDup (eid <$> els) -> e ∈ els ->
  exists l1 l2, els = l1 ++ e :: l2
    /\ List.filter (fun x => negb (Nat.eqb (eid x) (eid e))) els = l1 ++ l2.
Proof.
  induction els as [|a els IH]; simpl; intros Hnd Hin.
  - inversion Hin.
  - apply NoDup_cons in Hnd as [Hna Hnd].
    apply elem_of_cons in Hin as [->|Hin].
    + rewrite Nat.eqb_refl. simpl. exists [], els.
      split; [reflexivity|]. apply remove_absent, Hna.
    + destruct (Nat.eqb_spec (eid a) (eid e)) as [Heq|_]; simpl.
      * exfalso. apply Hna. rewrite Heq. by apply list_elem_of_fmap_2.
      * destruct (IH Hnd Hin) as (l1 & l2 & -> & ->).
        by exists (a :: l1), l2.
Qed.

Lemma sumLength_app els1 els2 :
  sumLength (els1 ++ els2) = sumLength els1 + sumLength els2.
Proof. induction els1 as [|a l IH]; simpl; [reflexivity|]. rewrite IH. lia. Qed.

Lemma sumLength_singleton e : sumLength [e] = Length (Value e).
Proof. unfold sumLength. cbn. lia. Qed.

Lemma remove_sum els e :
  NoDup (eid <$> els) -> e ∈ els ->
  sumLength (List.filter (fun x => negb (Nat.eqb (eid x) (eid e))) els)
  = sumLength els - Length (Value e).
Proof.
  intros Hnd Hin. destruct (remove_present els e Hnd Hin) as (l1 & l2 & -> & ->).
  rewrite !sumLength_app. simpl. lia.
Qed.

Lemma filter_sublist (f : PacketElement -> bool) els :
  List.filter f els `sublist_of` els.
Proof.
  induction els as [|a els IH]; simpl; [constructor|].
  destruct (f a); [by apply sublist_skip | by apply sublist_cons].
Qed.

Lemma remove_keeps els e x :
  x ∈ els -> eid x <> eid e ->
  x ∈ List.filter (fun y => negb (Nat.eqb (eid y) (eid e))) els.
Proof.
  intros Hin Hne. apply list_elem_of_In, filter_In. split.
  - by apply list_elem_of_In.
  - apply negb_true_iff, Nat.eqb_neq, Hne.
Qed.

Lemma StronglySorted_sublist {A} (R : A -> A -> Prop) (xs ys : list A) :
  ys `sublist_of` xs -> StronglySorted R xs -> StronglySorted R ys.
Proof.
  intros Hs. induction Hs as [|x l1 l2 Hs IH|x l1 l2 Hs IH]; intros Hsorted.
  - constructor.
  - apply StronglySorted_inv in Hsorted as [Hs2 Hall].
    constructor; [by apply IH|].
    apply Forall_forall. intros y Hy.
    rewrite Forall_forall in Hall. apply Hall.
    eapply elem_of_sublist; eauto.
  - apply StronglySorted_inv in Hsorted as [Hs2 _]. by apply IH.
Qed.

Lemma Forall_sublist {A} (P : A -> Prop) (xs ys : list A) :
  ys `sublist_of` xs -> Forall P xs -> Forall P ys.
Proof.
  intros Hs Hall. apply Forall_forall. intros y Hy.
  rewrite Forall_forall in Hall. apply Hall. eapply elem_of_sublist; eauto.
Qed.

(** *** The core of the state and the invariant *)

(** Replacing the history by a sublist of it while subtracting the lengths
    of what is dropped keeps the invariant. *)
Lemma invariant_shrink h h' :
  invariant h ->
  elems (packetHistory h') `sublist_of` elems (packetHistory h) ->
  nextId (packetHistory h') = nextId (packetHistory h) ->
  lastSentPacketNumber h' = lastSentPacketNumber h ->
  bytesInFlight h' = uint64 (historyLength h') ->
  invariant h'.
Proof.
  intros ((Hnd & Hlt) & Hb & Hs & Hle) Hsub Hn Hl Hb'.
  repeat split.
  - eapply sublist_NoDup; [exact Hnd|by apply fmap_sublist].
  - rewrite Hn. eapply Forall_sublist; eauto.
  - exact Hb'.
  - eapply StronglySorted_sublist; eauto.
  - rewrite Hl. eapply Forall_sublist; eauto.
Qed.

Lemma invariant_same h h' :
  invariant h ->
  packetHistory h' = packetHistory h ->
  bytesInFlight h' = bytesInFlight h ->
  lastSentPacketNumber h' = lastSentPacketNumber h ->
  invariant h'.
Proof.
  intros Hinv Hp Hb Hl. pose proof Hinv as (_ & Hbytes & _).
  apply (invariant_shrink h h' Hinv); rewrite ?Hp; try done.
  unfold historyLength. rewrite Hp, Hb. exact Hbytes.
Qed.

Lemma removing_invariant step h e :
  removing step -> invariant h -> e ∈ elems (packetHistory h) ->
  invariant (step h e).
Proof.
  intros Hstep Hinv Hin. destruct (Hstep h e) as (Hp & Hb & Hl).
  pose proof Hinv as ((Hnd & _) & Hbytes & _).
  apply (invariant_shrink h _ Hinv); rewrite ?Hp; simpl; try done.
  - apply filter_sublist.
  - rewrite Hb, Hbytes, uint64_sub_l. unfold historyLength. rewrite Hp. simpl.
    by rewrite remove_sum.
Qed.

Lemma filter_none els :
  List.filter (fun x => negb (bool_decide (eid x ∈ @nil nat))) els = els.
Proof.
  induction els as [|a l IHl]; [reflexivity|].
  cbn [List.filter]. rewrite bool_decide_eq_false_2 by apply not_elem_of_nil.
  cbn [negb]. by f_equal.
Qed.

Lemma filter_step els e (ids : list nat) :
  List.filter (fun x => negb (bool_decide (eid x ∈ ids)))
    (List.filter (fun x => negb (Nat.eqb (eid x) (eid e))) els)
  = List.filter (fun x => negb (bool_decide (eid x ∈ eid e :: ids))) els.
Proof.
  induction els as [|a l IHl]; [reflexivity|].
  cbn [List.filter].
  destruct (Nat.eqb_spec (eid a) (eid e)) as [Heq|Hne]; cbn [negb].
  - rewrite (bool_decide_eq_true_2 (eid a ∈ eid e :: ids)) by (rewrite Heq; left).
    cbn [negb]. exact IHl.
  - cbn [List.filter]. destruct (decide (eid a ∈ ids)) as [Hin|Hnin].
    + rewrite !bool_decide_eq_true_2; [|by right|done]. cbn [negb]. exact IHl.
    + rewrite !bool_decide_eq_false_2; [|by intros [?|?]%elem_of_cons|done].
      cbn [negb]. by f_equal.
Qed.

Lemma removing_fold step (removed : list PacketElement) h :
  removing step -> invariant h ->
  NoDup (eid <$> removed) ->
  (forall e, e ∈ removed -> e ∈ elems (packetHistory h)) ->
  let h' := fold_left step removed h in
  invariant h'
  /\ elems (packetHistory h') = without removed (elems (packetHistory h))
  /\ lastSentPacketNumber h' = lastSentPacketNumber h.
Proof.
  intros Hstep. revert h.
  induction removed as [|e removed IH]; intros h Hinv Hnd Hin.
  - cbn [fold_left]. split; [exact Hinv|]. split; [|reflexivity].
    symmetry. apply filter_none.
  - rewrite fmap_cons in Hnd. apply NoDup_cons in Hnd as [Hne Hnd].
    destruct (Hstep h e) as (Hp & Hb & Hl).
    assert (Hinv' : invariant (step h e)).
    { apply removing_invariant; auto. apply Hin. left. }
    destruct (IH (step h e) Hinv' Hnd) as (Hi & He & Hls).
    { intros x Hx. rewrite Hp. cbn [elems Remove]. apply remove_keeps.
      - apply Hin. by right.
      - intros Heq. apply Hne. rewrite <- Heq. by apply list_elem_of_fmap_2. }
    cbn [fold_left]. split; [exact Hi|]. split; [|congruence].
    rewrite He, Hp. cbn [elems Remove]. unfold without. rewrite fmap_cons. apply filter_step.
Qed.

(** *** The steps of the loops remove one cell *)

Lemma onPacketAcked_removing : removing (C:=C) onPacketAcked.
Proof. intros h e. by repeat split. Qed.

Lemma queuePacketForRetransmission_removing :
  removing (C:=C) queuePacketForRetransmission.
Proof. intros h e. by repeat split. Qed.

Lemma closePathStep_removing : removing (C:=C) closePathStep.
Proof. intros h e. by repeat split. Qed.

Lemma queueRTO_removing : removing (C:=C) queueRTO.
Proof. intros h e. by repeat split. Qed.

Lemma lostStep_removing :
  removing (C:=C) (fun h p =>
    let h := queuePacketForRetransmission h p in
    set_congestion h
      (OnPacketLost (congestion h) (PacketNumber (Value p))
         (Length (Value p)) (bytesInFlight h))).
Proof. intros h e. by repeat split. Qed.

(** The handler component of the loop of [ReceivedAck] is the loop of
    [ReceivedClosePath]. *)
Lemma ackedStep_handler ackFrame rcvTime acked h flag sentDelay :
  (fold_left (ackedStep ackFrame rcvTime) acked (h, flag, sentDelay)).1.1
  = fold_left closePathStep acked h.
Proof.
  revert h flag sentDelay.
  induction acked as [|e acked IH]; intros h flag sentDelay; [reflexivity|].
  cbn [fold_left]. unfold ackedStep at 2.
  destruct (PacketNumber (Value e) =? Wire.LargestAcked ackFrame); apply IH.
Qed.

(** *** The walks collect cells of the history, in order *)

Lemma newlyAcked_walk_sublist lowest largest hasMissing ranges els idx acc res :
  newlyAcked_walk lowest largest hasMissing ranges els idx acc = inr res ->
  exists sub, res = acc ++ sub /\ sub `sublist_of` els.
Proof.
  revert idx acc.
  induction els as [|e els IH]; intros idx acc; cbn [newlyAcked_walk].
  - intros [= <-]. exists []. by rewrite app_nil_r.
  - destruct (_ <? lowest).
    { intros Hw. destruct (IH _ _ Hw) as (sub & -> & Hs).
      exists sub. split; [done|]. by apply sublist_cons. }
    destruct (_ >? largest).
    { intros [= <-]. exists []. rewrite app_nil_r. split; [done|].
      apply sublist_nil_l. }
    assert (Hkeep : forall idx',
      newlyAcked_walk lowest largest hasMissing ranges els idx' (acc ++ [e])
      = inr res -> exists sub, res = acc ++ sub /\ sub `sublist_of` e :: els).
    { intros idx' Hw. destruct (IH _ _ Hw) as (sub & -> & Hs).
      exists (e :: sub). rewrite <- app_assoc. split; [done|].
      by apply sublist_skip. }
    assert (Hdrop : forall idx',
      newlyAcked_walk lowest largest hasMissing ranges els idx' acc
      = inr res -> exists sub, res = acc ++ sub /\ sub `sublist_of` e :: els).
    { intros idx' Hw. destruct (IH _ _ Hw) as (sub & -> & Hs).
      exists sub. split; [done|]. by apply sublist_cons. }
    destruct hasMissing; [|apply Hkeep].
    destruct (advanceRange _ _ _ _ _) as [idx' r].
    destruct (_ >=? _); [|apply Hdrop].
    destruct (_ >? _); [discriminate|apply Hkeep].
Qed.

Lemma newlyAcked_cells h lowest largest hasMissing ranges res :
  invariant h ->
  newlyAcked_walk lowest largest hasMissing ranges
    (elems (packetHistory h)) 0 [] = inr res ->
  res `sublist_of` elems (packetHistory h)
  /\ NoDup (eid <$> res)
  /\ (forall e, e ∈ res -> e ∈ elems (packetHistory h)).
Proof.
  intros ((Hnd & _) & _) Hw.
  destruct (newlyAcked_walk_sublist _ _ _ _ _ _ _ _ Hw) as (sub & -> & Hs).
  cbn [app]. split; [exact Hs|]. split.
  - eapply sublist_NoDup; [exact Hnd|by apply fmap_sublist].
  - intros e He. eapply elem_of_sublist; eauto.
Qed.

Lemma detectLost_walk_sublist now delay els h acc h' lost :
  detectLost_walk now delay els h acc = (h', lost) ->
  scanKeeps h h' /\ exists sub, lost = acc ++ sub /\ sub `sublist_of` els.
Proof.
  revert h acc.
  induction els as [|e els IH]; intros h acc; cbn [detectLost_walk].
  - intros [= <- <-]. split; [by repeat split|].
    exists []. by rewrite app_nil_r.
  - destruct (_ >? LargestAcked h).
    { intros [= <- <-]. split; [by repeat split|].
      exists []. rewrite app_nil_r. split; [done|]. apply sublist_nil_l. }
    destruct (_ >? delay).
    { intros Hw. destruct (IH _ _ Hw) as (Hk & sub & -> & Hs). split; [exact Hk|].
      exists (e :: sub). rewrite <- app_assoc. split; [done|]. by apply sublist_skip. }
    destruct (IsZero (lossTime h)).
    + intros Hw. destruct (IH _ _ Hw) as (Hk & sub & -> & Hs). split; [exact Hk|].
      exists sub. split; [done|]. by apply sublist_cons.
    + intros Hw. destruct (IH _ _ Hw) as (Hk & sub & -> & Hs). split; [exact Hk|].
      exists sub. split; [done|]. by apply sublist_cons.
Qed.

Lemma inflightLost_walk_spec els h acc h' lost :
  inflightLost_walk els h acc = (h', lost) ->
  scanKeeps h h' /\ lost = acc ++ prefixUpTo (LargestAcked h) els.
Proof.
  revert h acc.
  induction els as [|e els IH]; intros h acc;
    cbn [inflightLost_walk prefixUpTo].
  - intros [= <- <-]. split; [by repeat split|]. by rewrite app_nil_r.
  - unfold packetNumberOf. destruct (_ >? LargestAcked h).
    + intros [= <- <-]. split; [by repeat split|]. by rewrite app_nil_r.
    + intros Hw. destruct (IH _ _ Hw) as (Hk & ->). split; [exact Hk|].
      by rewrite <- app_assoc.
Qed.

Lemma prefixUpTo_sublist largest els : prefixUpTo largest els `sublist_of` els.
Proof.
  induction els as [|e els IH]; cbn [prefixUpTo]; [constructor|].
  destruct (_ >? largest); [apply sublist_nil_l|by apply sublist_skip].
Qed.

(** *** Queueing lost packets *)

Lemma queueLost_queue h lost :
  let h' := queueLost h lost in
  retransmissionQueue h' = retransmissionQueue h ++ (Value <$> lost)
  /\ LargestAcked h' = LargestAcked h
  /\ largestReceivedPacketWithAck h' = largestReceivedPacketWithAck h.
Proof.
  revert h. induction lost as [|e lost IH]; intros h.
  - cbn. by rewrite app_nil_r.
  - unfold queueLost. cbn [fold_left]. fold (queueLost
      (set_congestion (queuePacketForRetransmission h e)
         (OnPacketLost (congestion (queuePacketForRetransmission h e))
            (PacketNumber (Value e)) (Length (Value e))
            (bytesInFlight (queuePacketForRetransmission h e)))) lost).
    destruct (IH (set_congestion (queuePacketForRetransmission h e)
         (OnPacketLost (congestion (queuePacketForRetransmission h e))
            (PacketNumber (Value e)) (Length (Value e))
            (bytesInFlight (queuePacketForRetransmission h e)))))
      as (Hq & Hl & Hr).
    cbn zeta. rewrite Hq, Hl, Hr. cbn. by rewrite <- app_assoc.
Qed.

Lemma queueLost_invariant h lost :
  invariant h -> lost `sublist_of` elems (packetHistory h) ->
  let h' := queueLost h lost in
  invariant h'
  /\ elems (packetHistory h') = without lost (elems (packetHistory h))
  /\ lastSentPacketNumber h' = lastSentPacketNumber h.
Proof.
  intros Hinv Hsub. apply removing_fold; auto using lostStep_removing.
  - destruct Hinv as ((Hnd & _) & _).
    eapply sublist_NoDup; [exact Hnd|by apply fmap_sublist].
  - intros e He. eapply elem_of_sublist; eauto.
Qed.

Lemma scanKeeps_invariant h h' : scanKeeps h h' -> invariant h -> invariant h'.
Proof. intros (Hp & Hb & Hl & _) Hinv. by apply (invariant_same h). Qed.

Lemma detectLostPackets_invariant h now :
  invariant h -> invariant (detectLostPackets h now).
Proof.
  intros Hinv. unfold detectLostPackets.
  destruct (detectLost_walk _ _ _ _ _) as [h1 lost] eqn:Hw.
  apply detectLost_walk_sublist in Hw as (Hk & sub & -> & Hs).
  cbn [app]. apply queueLost_invariant.
  - eapply scanKeeps_invariant; [exact Hk|]. by apply (invariant_same h).
  - destruct Hk as (-> & _). exact Hs.
Qed.

Lemma SetInflightAsLost_invariant h :
  invariant h -> invariant (SetInflightAsLost h).
Proof.
  intros Hinv. unfold SetInflightAsLost.
  destruct (inflightLost_walk _ _ _) as [h1 lost] eqn:Hw.
  apply inflightLost_walk_spec in Hw as (Hk & ->).
  cbn [app]. apply queueLost_invariant.
  - eapply scanKeeps_invariant; eauto.
  - destruct Hk as (-> & _). apply prefixUpTo_sublist.
Qed.

Lemma updateLossDetectionAlarm_invariant h :
  invariant h -> invariant (updateLossDetectionAlarm h).
Proof. intros Hinv. by apply (invariant_same h). Qed.

Lemma garbageCollectSkippedPackets_invariant h :
  invariant h -> invariant (garbageCollectSkippedPackets h).
Proof. intros Hinv. by apply (invariant_same h). Qed.

Lemma closePath_fold_invariant h acked :
  invariant h -> acked `sublist_of` elems (packetHistory h) ->
  let h' := fold_left closePathStep acked h in
  invariant h'
  /\ elems (packetHistory h') = without acked (elems (packetHistory h))
  /\ lastSentPacketNumber h' = lastSentPacketNumber h.
Proof.
  intros Hinv Hsub. apply removing_fold; auto using closePathStep_removing.
  - destruct Hinv as ((Hnd & _) & _).
    eapply sublist_NoDup; [exact Hnd|by apply fmap_sublist].
  - intros e He. eapply elem_of_sublist; eauto.
Qed.

(** *** Each call keeps the invariant *)

Lemma invariant_push h h' (p : Packet) :
  invariant h ->
  lastSentPacketNumber h < PacketNumber p ->
  packetHistory h' = PushBack (packetHistory h) p ->
  bytesInFlight h' = uint64 (bytesInFlight h + Length p) ->
  lastSentPacketNumber h' = PacketNumber p ->
  invariant h'.
Proof.
  intros ((Hnd & Hlt) & Hb & Hs & Hle) Hpn Hp Hb' Hl.
  unfold invariant, cellsDistinct, bytesAccounted, historySorted, historyLength.
  rewrite Hp, Hb', Hl, Hb. cbn [elems nextId PushBack].
  rewrite Forall_forall in Hlt, Hle.
  repeat split.
  - rewrite fmap_app. apply NoDup_app. split; [exact Hnd|]. split.
    + intros x Hx [->|[]%elem_of_nil]%elem_of_cons.
      apply list_elem_of_fmap in Hx as (e & Heq & He).
      specialize (Hlt e He). cbn in Heq. lia.
    + apply NoDup_singleton.
  - apply Forall_app. split.
    + apply Forall_forall. intros e He. specialize (Hlt e He). lia.
    + apply Forall_singleton. cbn. lia.
  - rewrite uint64_add_l, sumLength_app, sumLength_singleton. reflexivity.
  - apply StronglySorted_app_2.
    + intros a b Ha ->%list_elem_of_singleton. specialize (Hle a Ha).
      unfold packetNumberOf in *. cbn. lia.
    + exact Hs.
    + repeat constructor.
  - apply Forall_app. split.
    + apply Forall_forall. intros e He. specialize (Hle e He). lia.
    + apply Forall_singleton. unfold packetNumberOf. cbn. lia.
Qed.

Lemma invariant_raise h h' :
  invariant h ->
  packetHistory h' = packetHistory h ->
  bytesInFlight h' = bytesInFlight h ->
  lastSentPacketNumber h <= lastSentPacketNumber h' ->
  invariant h'.
Proof.
  intros ((Hnd & Hlt) & Hb & Hs & Hle) Hp Hb' Hl.
  unfold invariant, cellsDistinct, bytesAccounted, historySorted, historyLength.
  rewrite Hp, Hb'. repeat split; try done.
  eapply Forall_impl; [exact Hle|]. cbn. intros e He. lia.
Qed.

Lemma SentPacket_invariant h packet now :
  invariant h -> invariant (SentPacket h packet now).2.
Proof.
  intros Hinv. unfold SentPacket.
  destruct (Z.leb_spec (PacketNumber packet) (lastSentPacketNumber h))
    as [_|Hpn]; [exact Hinv|].
  destruct (_ >? MaxTrackedSentPackets); [exact Hinv|].
  cbn [snd]. unfold recordSent. apply updateLossDetectionAlarm_invariant.
  destruct (negb (Z.of_nat (length (stripNonRetransmittableFrames (Frames packet))) =? 0)).
  - eapply (invariant_push h _
      {| PacketNumber := PacketNumber packet;
         Frames := stripNonRetransmittableFrames (Frames packet);
         Length := Length packet; EncryptionLevel := EncryptionLevel packet;
         SendTime := now |}); [exact Hinv|exact Hpn|done..].
  - apply (invariant_raise h); [exact Hinv|done|done|]. cbn. lia.
Qed.

Lemma ReceivedClosePath_invariant h f withPacketNumber rcvTime :
  invariant h -> invariant (ReceivedClosePath h f withPacketNumber rcvTime).2.
Proof.
  intros Hinv. unfold ReceivedClosePath.
  destruct (_ >? lastSentPacketNumber h); [exact Hinv|].
  destruct (_ <=? largestReceivedPacketWithAck h); [exact Hinv|].
  set (h1 := set_largestReceivedPacketWithAck h withPacketNumber).
  assert (Hinv1 : invariant h1) by by apply (invariant_same h).
  destruct (skippedPacketsAckedClosePath h1 f); [exact Hinv1|].
  unfold processClosePath, determineNewlyAckedPacketsClosePath.
  destruct (newlyAcked_walk _ _ _ _ _ _ _) as [e|acked] eqn:Hw; [exact Hinv1|].
  apply (newlyAcked_cells h1) in Hw as (Hsub & _); [|exact Hinv1].
  cbn [snd]. apply garbageCollectSkippedPackets_invariant.
  apply SetInflightAsLost_invariant.
  by apply closePath_fold_invariant.
Qed.

Lemma ReceivedAck_invariant h ackFrame withPacketNumber rcvTime now :
  invariant h ->
  invariant (ReceivedAck h ackFrame withPacketNumber rcvTime now).2.
Proof.
  intros Hinv. unfold ReceivedAck.
  destruct (_ >? lastSentPacketNumber h); [exact Hinv|].
  destruct (_ <=? largestReceivedPacketWithAck h); [exact Hinv|].
  set (h1 := set_largestReceivedPacketWithAck h withPacketNumber).
  assert (Hinv1 : invariant h1) by by apply (invariant_same h).
  destruct (_ <=? largestInOrderAcked h1); [exact Hinv1|].
  set (h2 := set_LargestAcked h1 (Wire.LargestAcked ackFrame)).
  assert (Hinv2 : invariant h2) by by apply (invariant_same h1).
  destruct (skippedPacketsAcked h2 ackFrame); [exact Hinv2|].
  unfold processAck, maybeUpdateRTT.
  destruct (maybeUpdateRTT_walk _ _ _ _ _ _) as [updated c].
  set (h3 := if updated then _ else _).
  assert (Hinv3 : invariant h3).
  { subst h3. destruct updated; by apply (invariant_same h2). }
  unfold determineNewlyAckedPackets.
  destruct (newlyAcked_walk _ _ _ _ _ _ _) as [e|acked] eqn:Hw; [exact Hinv3|].
  apply (newlyAcked_cells h3) in Hw as (Hsub & _); [|exact Hinv3].
  pose proof (ackedStep_handler ackFrame rcvTime acked h3 false 0) as Hfold.
  destruct (fold_left (ackedStep ackFrame rcvTime) acked (h3, false, 0))
    as [[h4 flag] sentDelay] eqn:Hf.
  unfold Duration in *. rewrite Hf in Hfold. cbn [fst] in Hfold.
  assert (Hinv4 : invariant h4).
  { rewrite Hfold. by apply closePath_fold_invariant. }
  clear Hf.
  assert (Hbdw : (if flag
                  then UpdateBDW (bdwStats h4)
                         (uint64 (bytesInFlight h3 - bytesInFlight h4)) sentDelay
                  else Some (bdwStats h4)) = Some (bdwStats h4))
    by (by destruct flag).
  rewrite Hbdw. cbn [snd].
  apply (invariant_same (garbageCollectSkippedPackets
    (updateLossDetectionAlarm
       (detectLostPackets (set_bdwStats h4 (bdwStats h4)) now)))); try done.
  apply garbageCollectSkippedPackets_invariant,
    updateLossDetectionAlarm_invariant, detectLostPackets_invariant.
  by apply (invariant_same h4).
Qed.

Lemma Front_elem h e :
  Front (packetHistory h) = Some e -> e ∈ elems (packetHistory h).
Proof. unfold Front. apply head_Some_elem_of. Qed.

Lemma Back_elem h e :
  Back (packetHistory h) = Some e -> e ∈ elems (packetHistory h).
Proof. unfold Back. apply last_Some_elem_of. Qed.

Lemma retransmitTLP_invariant h : invariant h -> invariant (retransmitTLP h).
Proof.
  intros Hinv. unfold retransmitTLP.
  destruct (Back (packetHistory h)) as [e|] eqn:Hb; [|exact Hinv].
  apply removing_invariant;
    auto using queuePacketForRetransmission_removing, Back_elem.
Qed.

Lemma retransmitOldestPacket_invariant h :
  invariant h -> invariant (retransmitOldestPacket h).
Proof.
  intros Hinv. unfold retransmitOldestPacket.
  destruct (Front (packetHistory h)) as [e|] eqn:Hf; [|exact Hinv].
  apply removing_invariant; auto using queueRTO_removing, Front_elem.
Qed.

Lemma retransmitAll_loop_invariant n h :
  invariant h -> invariant (retransmitAll_loop n h).
Proof.
  revert h. induction n as [|n IH]; intros h Hinv; cbn [retransmitAll_loop].
  - exact Hinv.
  - destruct (Front (packetHistory h)) as [e|] eqn:Hf; [|exact Hinv].
    apply IH, removing_invariant; auto using queueRTO_removing, Front_elem.
Qed.

(** The rounds given to [retransmitAll_loop] suffice: the loop ends with an
    empty history. *)
Lemma retransmitAll_loop_empties n h :
  invariant h -> (length (elems (packetHistory h)) <= n)%nat ->
  elems (packetHistory (retransmitAll_loop n h)) = [].
Proof.
  revert h. induction n as [|n IH]; intros h Hinv Hlen; cbn [retransmitAll_loop].
  - destruct (elems (packetHistory h)); [reflexivity|cbn in Hlen; lia].
  - destruct (Front (packetHistory h)) as [e|] eqn:Hf.
    + apply IH.
      * apply removing_invariant; auto using queueRTO_removing, Front_elem.
      * unfold Front in Hf. destruct Hinv as ((Hnd & _) & _).
        destruct (elems (packetHistory h)) as [|a l] eqn:He; [discriminate|].
        injection Hf as ->. cbn [queueRTO queuePacketForRetransmission].
        cbn. rewrite He. cbn [List.filter]. rewrite Nat.eqb_refl. cbn [negb].
        rewrite fmap_cons in Hnd. apply NoDup_cons in Hnd as [Hne _].
        rewrite remove_absent by exact Hne. cbn in Hlen. lia.
    + unfold Front in Hf. by destruct (elems (packetHistory h)).
Qed.

Lemma OnAlarm_invariant cb h now :
  invariant h -> invariant (OnAlarm cb h now).
Proof.
  intros Hinv. unfold OnAlarm.
  destruct (negb (hasOutstandingRetransmittablePacket h)).
  { by apply (invariant_same h). }
  apply updateLossDetectionAlarm_invariant.
  destruct (negb (IsZero (lossTime h))).
  { by apply detectLostPackets_invariant. }
  destruct (tlpCount h <? maxTailLossProbes).
  { apply (invariant_same (retransmitTLP h)); try done.
    by apply retransmitTLP_invariant. }
  set (failed := match cb with Some f => f (lastSentTime h) | None => false end).
  set (h1 := if failed then _ else _).
  apply (invariant_same h1); try done.
  subst h1. destruct failed.
  - unfold retransmitAllPackets.
    apply (invariant_same
      (retransmitAll_loop (length (elems (packetHistory h))) h)); try done.
    by apply retransmitAll_loop_invariant.
  - unfold retransmitOldestTwoPackets.
    apply (invariant_same (retransmitOldestPacket (retransmitOldestPacket h)));
      try done.
    by apply retransmitOldestPacket_invariant, retransmitOldestPacket_invariant.
Qed.

Lemma New_invariant pid bdw (cong : C) :
  invariant (NewSentPacketHandler pid bdw cong).
Proof.
  repeat split; cbn; try constructor.
Qed.

Lemma call_invariant cb h c : invariant h -> invariant (call cb h c).
Proof.
  intros Hinv. destruct c; cbn [call].
  - by apply SentPacket_invariant.
  - by apply ReceivedAck_invariant.
  - by apply ReceivedClosePath_invariant.
  - by apply OnAlarm_invariant.
  - unfold DequeuePacketForRetransmission.
    destruct (retransmissionQueue h); [exact Hinv|].
    by apply (invariant_same h).
  - by apply (invariant_same h).
  - by apply SetInflightAsLost_invariant.
Qed.

Lemma run_invariant cb h cs : invariant h -> invariant (run cb h cs).
Proof.
  revert h. induction cs as [|c cs IH]; intros h Hinv; [exact Hinv|].
  apply IH, call_invariant, Hinv.
Qed.

(** *** The accounting of bytes in flight *)

(** C1. For every handler and after every sequence of calls (SentPacket,
    ReceivedAck, ReceivedClosePath, OnAlarm, DequeuePacketForRetransmission,
    and also DuplicatePacket and SetInflightAsLost), [bytesInFlight] is the
    sum of the [Length] fields of the packets in the history, computed in
    the 64-bit arithmetic of [ByteCount]; it is the exact sum whenever
    that fits in 64 bits.  Removing a packet of the history, by ack
    ([onPacketAcked]) or by queueing it for retransmission
    ([queuePacketForRetransmission]), takes exactly that packet out and
    subtracts its [Length] once, which keeps the accounting. *)
Theorem bytesInFlight_is_history_sum
  (cb : option (Time -> bool)) pid bdw (cong : C) (cs : list Call) :
  let h := run cb (NewSentPacketHandler pid bdw cong) cs in
  bytesInFlight h = uint64 (historyLength h)
  /\ (0 <= historyLength h < 2 ^ 64 -> bytesInFlight h = historyLength h)
  /\ forall e, e ∈ elems (packetHistory h) ->
       let acked := onPacketAcked h e in
       let queued := queuePacketForRetransmission h e in
       elems (packetHistory h) ≡ₚ e :: elems (packetHistory acked)
       /\ bytesInFlight acked = uint64 (bytesInFlight h - Length (Value e))
       /\ bytesInFlight acked = uint64 (historyLength acked)
       /\ elems (packetHistory h) ≡ₚ e :: elems (packetHistory queued)
       /\ bytesInFlight queued = uint64 (bytesInFlight h - Length (Value e))
       /\ bytesInFlight queued = uint64 (historyLength queued).
Proof.
  intros h.
  assert (Hinv : invariant h) by apply run_invariant, New_invariant.
  pose proof Hinv as ((Hnd & _) & Hb & _).
  split; [exact Hb|]. split.
  { intros Hrange. rewrite Hb. by apply uint64_small. }
  intros e He acked queued.
  pose proof (removing_invariant _ h e onPacketAcked_removing Hinv He)
    as (_ & Hba & _).
  pose proof (removing_invariant _ h e queuePacketForRetransmission_removing
                Hinv He) as (_ & Hbq & _).
  destruct (remove_present _ e Hnd He) as (l1 & l2 & Hsplit & Hrem).
  assert (Hperm : elems (packetHistory h)
                  ≡ₚ e :: List.filter
                       (fun x => negb (Nat.eqb (eid x) (eid e)))
                       (elems (packetHistory h))).
  { rewrite Hrem, Hsplit. symmetry. apply Permutation_middle. }
  repeat split; try done.
Qed.

(** *** The guards of SentPacket *)

(** C7. [SentPacket] fails with PacketNumberNotIncreasing exactly when the
    packet number does not exceed [lastSentPacketNumber]; when it does
    exceed it, the call fails with TooManyTrackedSentPackets exactly when
    the packets of the history and of the retransmission queue, with the
    new one, would be more than [MaxTrackedSentPackets]; a failing call
    leaves the handler as it was, and no other failure exists. *)
Theorem SentPacket_guards h (packet : Packet) (now : Time) :
  let tracked :=
    Z.of_nat (length (retransmissionQueue h))
    + Z.of_nat (length (elems (packetHistory h))) in
  let r := SentPacket h packet now in
  (r.1 = Some errPacketNumberNotIncreasing
   <-> PacketNumber packet <= lastSentPacketNumber h)
  /\ (r.1 = Some ErrTooManyTrackedSentPackets
      <-> lastSentPacketNumber h < PacketNumber packet
          /\ tracked + 1 > MaxTrackedSentPackets)
  /\ (forall failure : Error, r.1 = Some failure ->
        r.2 = h
        /\ (failure = errPacketNumberNotIncreasing
            \/ failure = ErrTooManyTrackedSentPackets))
  /\ (r.1 = None
      <-> lastSentPacketNumber h < PacketNumber packet
          /\ tracked + 1 <= MaxTrackedSentPackets).
Proof.
  intros tracked r. subst tracked r. unfold SentPacket, Len.
  destruct (Z.leb_spec (PacketNumber packet) (lastSentPacketNumber h)) as [Hle|Hlt];
    [|destruct (Z.gtb_spec
                (Z.of_nat (length (retransmissionQueue h))
                 + Z.of_nat (length (elems (packetHistory h))) + 1)
                MaxTrackedSentPackets) as [Hgt|Hok]];
    cbn [fst snd]; split_and!;
    try (split; intros; first [done | discriminate | lia]);
    intros failure [= <-]; split; auto.
Qed.

(** *** The retransmission-timeout alarm *)

Lemma MaxDuration_max a b : MaxDuration a b = Z.max a b.
Proof. unfold MaxDuration. destruct (Z.gtb_spec a b); lia. Qed.

Lemma MinDuration_min a b : MinDuration a b = Z.min a b.
Proof. unfold MinDuration. destruct (Z.gtb_spec a b); lia. Qed.

(** Without overflow the shift of a duration is a multiplication by a
    power of two. *)
Lemma shl64_exact d n :
  0 <= n -> 0 <= d -> d * 2 ^ n < 2 ^ 63 -> shl64 d n = d * 2 ^ n.
Proof.
  intros Hn Hd Hlt. unfold shl64.
  destruct (Z.geb_spec n 64) as [Hge|_].
  - assert (2 ^ 64 <= 2 ^ n) by (apply Z.pow_le_mono_r; lia).
    assert (d = 0) by nia. subst d. lia.
  - rewrite Z.shiftl_mul_pow2 by exact Hn.
    unfold int64, wrapS. assert (0 <= d * 2 ^ n) by nia.
    rewrite Z.mod_small; lia.
Qed.

(** C5, as the code has it. When the alarm is re-armed with a packet in the
    history, no [lossTime], and the TLP branch not applicable, the alarm
    is [lastSentTime + max(RTO, minRetransmissionTime)] where
    [RTO = max(d, 200 ms) << rtoCount] clamped at 60 s, and [d] is
    [congestion.RetransmissionDelay], or the default of 500 ms when that
    delay is 0; [<<] is the shift of a 64-bit duration. *)
Theorem rto_alarm h :
  elems (packetHistory h) <> [] ->
  IsZero (lossTime h) = true ->
  rttSmoothedRTT (congestion h) = 0 \/ maxTailLossProbes <= tlpCount h ->
  let d := if RetransmissionDelay (congestion h) =? 0
           then 500 * Millisecond
           else RetransmissionDelay (congestion h) in
  let rto :=
    Z.min (shl64 (Z.max d (200 * Millisecond)) (rtoCount h)) (60 * Second) in
  alarm (updateLossDetectionAlarm h)
  = lastSentTime h + Z.max rto minRetransmissionTime.
Proof.
  intros Hne Hloss Htlp d rto. subst d rto.
  unfold updateLossDetectionAlarm, Len. cbn [alarm set_alarm].
  destruct (elems (packetHistory h)) as [|e l]; [done|].
  replace (Z.of_nat (length (e :: l)) =? 0) with false
    by (symmetry; apply Z.eqb_neq; cbn [length]; lia).
  rewrite Hloss. cbn [negb].
  replace (negb (rttSmoothedRTT (congestion h) =? 0)
           && (tlpCount h <? maxTailLossProbes)) with false.
  - unfold Add, computeRTOTimeout.
    by rewrite !MaxDuration_max, MinDuration_min.
  - symmetry. apply andb_false_iff. destruct Htlp as [->|Hge].
    + by left.
    + right. apply Z.ltb_ge, Hge.
Qed.

(** *** The watermark of received acknowledgements *)

Lemma closePath_fold_keeps acked h :
  let h' := fold_left closePathStep acked h in
  LargestAcked h' = LargestAcked h
  /\ largestReceivedPacketWithAck h' = largestReceivedPacketWithAck h
  /\ retransmissionQueue h' = retransmissionQueue h.
Proof.
  revert h. induction acked as [|e acked IH]; intros h; [done|].
  cbn [fold_left]. destruct (IH (closePathStep h e)) as (-> & -> & ->). done.
Qed.

Lemma detectLostPackets_keeps h now :
  let h' := detectLostPackets h now in
  LargestAcked h' = LargestAcked h
  /\ largestReceivedPacketWithAck h' = largestReceivedPacketWithAck h.
Proof.
  unfold detectLostPackets.
  destruct (detectLost_walk _ _ _ _ _) as [h1 lost] eqn:Hw.
  apply detectLost_walk_sublist in Hw as ((_ & _ & _ & Hl & _ & Hr) & _).
  destruct (queueLost_queue h1 lost) as (_ & -> & ->). by rewrite Hl, Hr.
Qed.

Lemma SetInflightAsLost_keeps h :
  let h' := SetInflightAsLost h in
  LargestAcked h' = LargestAcked h
  /\ largestReceivedPacketWithAck h' = largestReceivedPacketWithAck h
  /\ retransmissionQueue h'
     = retransmissionQueue h
       ++ (Value <$> prefixUpTo (LargestAcked h) (elems (packetHistory h))).
Proof.
  unfold SetInflightAsLost.
  destruct (inflightLost_walk _ _ _) as [h1 lost] eqn:Hw.
  apply inflightLost_walk_spec in Hw as ((_ & _ & _ & Hl & Hq & Hr) & ->).
  cbn [app].
  destruct (queueLost_queue h1 (prefixUpTo (LargestAcked h) (elems (packetHistory h))))
    as (-> & -> & ->). by rewrite Hl, Hr, Hq.
Qed.

Lemma retransmitAll_loop_keeps n h :
  largestReceivedPacketWithAck (retransmitAll_loop n h)
  = largestReceivedPacketWithAck h.
Proof.
  revert h. induction n as [|n IH]; intros h; cbn [retransmitAll_loop]; [done|].
  destruct (Front (packetHistory h)); [|done]. by rewrite IH.
Qed.

Lemma OnAlarm_watermark cb h now :
  largestReceivedPacketWithAck (OnAlarm cb h now)
  = largestReceivedPacketWithAck h.
Proof.
  unfold OnAlarm.
  destruct (negb (hasOutstandingRetransmittablePacket h)); [done|].
  unfold updateLossDetectionAlarm. cbn [largestReceivedPacketWithAck set_alarm].
  destruct (negb (IsZero (lossTime h))).
  { apply detectLostPackets_keeps. }
  destruct (tlpCount h <? maxTailLossProbes).
  { unfold retransmitTLP. by destruct (Back (packetHistory h)). }
  destruct (match cb with Some f => f (lastSentTime h) | None => false end).
  - unfold retransmitAllPackets. cbn. apply retransmitAll_loop_keeps.
  - unfold retransmitOldestTwoPackets, retransmitOldestPacket.
    cbn [largestReceivedPacketWithAck set_rtoCount set_congestion].
    destruct (Front (packetHistory h)) as [e|] eqn:Hf.
    + by destruct (Front (packetHistory (queueRTO h e))).
    + by rewrite Hf.
Qed.

(** After [ReceivedAck] the watermark is the carrying packet number, unless
    one of the first two guards refused the frame. *)
Lemma ReceivedAck_watermark h ackFrame withPacketNumber rcvTime now :
  largestReceivedPacketWithAck
    (ReceivedAck h ackFrame withPacketNumber rcvTime now).2
  = if (Wire.LargestAcked ackFrame >? lastSentPacketNumber h)
       || (withPacketNumber <=? largestReceivedPacketWithAck h)
    then largestReceivedPacketWithAck h
    else withPacketNumber.
Proof.
  unfold ReceivedAck.
  destruct (_ >? lastSentPacketNumber h); [done|].
  destruct (_ <=? largestReceivedPacketWithAck h); [done|]. cbn [orb].
  set (h1 := set_largestReceivedPacketWithAck h withPacketNumber).
  destruct (_ <=? largestInOrderAcked h1); [done|].
  set (h2 := set_LargestAcked h1 (Wire.LargestAcked ackFrame)).
  destruct (skippedPacketsAcked h2 ackFrame); [done|].
  unfold processAck, maybeUpdateRTT.
  destruct (maybeUpdateRTT_walk _ _ _ _ _ _) as [updated c].
  set (h3 := if updated then _ else _).
  assert (H3 : largestReceivedPacketWithAck h3 = withPacketNumber)
    by (subst h3; by destruct updated).
  destruct (determineNewlyAckedPackets h3 ackFrame) as [e|acked]; [done|].
  pose proof (ackedStep_handler ackFrame rcvTime acked h3 false 0) as Hfold.
  destruct (fold_left (ackedStep ackFrame rcvTime) acked (h3, false, 0))
    as [[h4 flag] sentDelay] eqn:Hf.
  unfold Duration in *. rewrite Hf in Hfold. cbn [fst] in Hfold. clear Hf.
  assert (Hbdw : (if flag
                  then UpdateBDW (bdwStats h4)
                         (uint64 (bytesInFlight h3 - bytesInFlight h4)) sentDelay
                  else Some (bdwStats h4)) = Some (bdwStats h4))
    by (by destruct flag).
  rewrite Hbdw.
  cbn [snd set_swm garbageCollectSkippedPackets set_skippedPackets
       updateLossDetectionAlarm set_alarm largestReceivedPacketWithAck].
  destruct (detectLostPackets_keeps (set_bdwStats h4 (bdwStats h4)) now)
    as (_ & ->).
  cbn. rewrite Hfold.
  destruct (closePath_fold_keeps acked h3) as (_ & -> & _). exact H3.
Qed.

Lemma ReceivedClosePath_watermark h f withPacketNumber rcvTime :
  largestReceivedPacketWithAck
    (ReceivedClosePath h f withPacketNumber rcvTime).2
  = if (Wire.cpLargestAcked f >? lastSentPacketNumber h)
       || (withPacketNumber <=? largestReceivedPacketWithAck h)
    then largestReceivedPacketWithAck h
    else withPacketNumber.
Proof.
  unfold ReceivedClosePath.
  destruct (_ >? lastSentPacketNumber h); [done|].
  destruct (_ <=? largestReceivedPacketWithAck h); [done|]. cbn [orb].
  set (h1 := set_largestReceivedPacketWithAck h withPacketNumber).
  destruct (skippedPacketsAckedClosePath h1 f); [done|].
  unfold processClosePath.
  destruct (determineNewlyAckedPacketsClosePath h1 f) as [e|acked]; [done|].
  cbn [snd garbageCollectSkippedPackets set_skippedPackets
       largestReceivedPacketWithAck].
  destruct (SetInflightAsLost_keeps (fold_left closePathStep acked h1))
    as (_ & -> & _).
  destruct (closePath_fold_keeps acked h1) as (_ & -> & _). done.
Qed.

Lemma call_watermark cb h c :
  largestReceivedPacketWithAck h <= largestReceivedPacketWithAck (call cb h c).
Proof.
  destruct c; cbn [call].
  - unfold SentPacket. destruct (_ <=? _); [done|].
    destruct (_ >? _); [done|]. cbn [snd]. unfold recordSent.
    cbn [updateLossDetectionAlarm set_alarm largestReceivedPacketWithAck
         set_congestion].
    by destruct (negb _).
  - rewrite ReceivedAck_watermark.
    destruct (_ >? _); cbn [orb]; [done|].
    destruct (Z.leb_spec withPacketNumber (largestReceivedPacketWithAck h)); lia.
  - rewrite ReceivedClosePath_watermark.
    destruct (_ >? _); cbn [orb]; [done|].
    destruct (Z.leb_spec withPacketNumber (largestReceivedPacketWithAck h)); lia.
  - by rewrite OnAlarm_watermark.
  - unfold DequeuePacketForRetransmission.
    by destruct (retransmissionQueue h).
  - done.
  - by destruct (SetInflightAsLost_keeps h) as (_ & -> & _).
Qed.

Lemma run_watermark cb h cs :
  largestReceivedPacketWithAck h <= largestReceivedPacketWithAck (run cb h cs).
Proof.
  revert h. induction cs as [|c cs IH]; intros h; [done|].
  etrans; [apply (call_watermark cb h c)|apply IH].
Qed.

(** C10, as the code has it. A stale ACK (LargestAcked not above
    [largestInOrderAcked]) that passes the first two guards returns no
    error and changes nothing but the watermark
    [largestReceivedPacketWithAck], which becomes the carrying packet
    number.  Whatever calls follow, a later [ReceivedAck] carried by a
    packet number at or below that value fails with
    DuplicateOrOutOfOrderAck, provided its LargestAcked does not exceed
    [lastSentPacketNumber]; otherwise the earlier guard answers
    AckForUnsentPacket. *)
Theorem stale_ack_advances_watermark h ackFrame withPacketNumber rcvTime now :
  Wire.LargestAcked ackFrame <= lastSentPacketNumber h ->
  largestReceivedPacketWithAck h < withPacketNumber ->
  Wire.LargestAcked ackFrame <= largestInOrderAcked h ->
  let r := ReceivedAck h ackFrame withPacketNumber rcvTime now in
  r = (None, set_largestReceivedPacketWithAck h withPacketNumber)
  /\ largestReceivedPacketWithAck r.2 = withPacketNumber
  /\ forall cb cs ackFrame' withPacketNumber' rcvTime' now',
       let h' := run cb r.2 cs in
       let r' := ReceivedAck h' ackFrame' withPacketNumber' rcvTime' now' in
       withPacketNumber' <= withPacketNumber ->
       (Wire.LargestAcked ackFrame' <= lastSentPacketNumber h' ->
        r' = (Some ErrDuplicateOrOutOfOrderAck, h'))
       /\ (lastSentPacketNumber h' < Wire.LargestAcked ackFrame' ->
           r' = (Some errAckForUnsentPacket, h')).
Proof.
  intros Hsent Hnew Hstale r.
  assert (Hr : r = (None, set_largestReceivedPacketWithAck h withPacketNumber)).
  { subst r. unfold ReceivedAck.
    destruct (Z.gtb_spec (Wire.LargestAcked ackFrame) (lastSentPacketNumber h));
      [lia|].
    destruct (Z.leb_spec withPacketNumber (largestReceivedPacketWithAck h));
      [lia|].
    replace (largestInOrderAcked (set_largestReceivedPacketWithAck h withPacketNumber))
      with (largestInOrderAcked h) by reflexivity.
    destruct (Z.leb_spec (Wire.LargestAcked ackFrame) (largestInOrderAcked h));
      [done|lia]. }
  split; [exact Hr|]. rewrite Hr. cbn [snd]. split; [done|].
  intros cb cs ackFrame' withPacketNumber' rcvTime' now' Hdup.
  pose proof (run_watermark cb
                (set_largestReceivedPacketWithAck h withPacketNumber) cs) as Hw.
  set (h' := run cb (set_largestReceivedPacketWithAck h withPacketNumber) cs)
    in *.
  cbn in Hw. unfold ReceivedAck. split; intros Hl.
  - destruct (Z.gtb_spec (Wire.LargestAcked ackFrame') (lastSentPacketNumber h'));
      [lia|].
    destruct (Z.leb_spec withPacketNumber' (largestReceivedPacketWithAck h'));
      [done|lia].
  - destruct (Z.gtb_spec (Wire.LargestAcked ackFrame') (lastSentPacketNumber h'));
      [done|lia].
Qed.

(** *** Sending and acknowledging three packets *)

Lemma SentPacket_ok h (packet : Packet) now :
  lastSentPacketNumber h < PacketNumber packet ->
  Z.of_nat (length (retransmissionQueue h))
  + Z.of_nat (length (elems (packetHistory h))) + 1 <= MaxTrackedSentPackets ->
  SentPacket h packet now = (None, recordSent h packet now).
Proof.
  intros Hpn Htracked. unfold SentPacket, Len.
  destruct (Z.leb_spec (PacketNumber packet) (lastSentPacketNumber h)); [lia|].
  destruct (Z.gtb_spec
              (Z.of_nat (length (retransmissionQueue h))
               + Z.of_nat (length (elems (packetHistory h))) + 1)
              MaxTrackedSentPackets); [lia|done].
Qed.

(** The core of the state after a retransmittable packet is recorded. *)
Lemma recordSent_retransmittable h (packet : Packet) now :
  stripNonRetransmittableFrames (Frames packet) <> [] ->
  let h' := recordSent h packet now in
  elems (packetHistory h')
  = elems (packetHistory h)
    ++ [ {| eid := nextId (packetHistory h);
            Value := {| PacketNumber := PacketNumber packet;
                        Frames := stripNonRetransmittableFrames (Frames packet);
                        Length := Length packet;
                        EncryptionLevel := EncryptionLevel packet;
                        SendTime := now |} |} ]
  /\ nextId (packetHistory h') = S (nextId (packetHistory h))
  /\ bytesInFlight h' = uint64 (bytesInFlight h + Length packet)
  /\ lastSentPacketNumber h' = PacketNumber packet
  /\ LargestAcked h' = LargestAcked h
  /\ largestReceivedPacketWithAck h' = largestReceivedPacketWithAck h
  /\ retransmissionQueue h' = retransmissionQueue h
  /\ skippedPackets h'
     = recordSkipped
         (Z.to_nat (PacketNumber packet - (lastSentPacketNumber h + 1)))
         (lastSentPacketNumber h + 1) (skippedPackets h)
  /\ bdwStats h' = bdwStats h.
Proof.
  intros Hne. unfold recordSent.
  destruct (stripNonRetransmittableFrames (Frames packet)) as [|f fs]; [done|].
  replace (negb (Z.of_nat (length (f :: fs)) =? 0)) with true
    by (symmetry; apply negb_true_iff, Z.eqb_neq; cbn [length]; lia).
  by repeat split.
Qed.

Lemma ReceivedAck_fresh h ackFrame withPacketNumber rcvTime now :
  Wire.LargestAcked ackFrame <= lastSentPacketNumber h ->
  largestReceivedPacketWithAck h < withPacketNumber ->
  largestInOrderAcked h < Wire.LargestAcked ackFrame ->
  let h' := set_LargestAcked
              (set_largestReceivedPacketWithAck h withPacketNumber)
              (Wire.LargestAcked ackFrame) in
  ReceivedAck h ackFrame withPacketNumber rcvTime now
  = if existsb (Wire.AcksPacket ackFrame) (skippedPackets h)
    then (Some ErrAckForSkippedPacket, h')
    else processAck h' ackFrame rcvTime now.
Proof.
  intros Hsent Hnew Hfresh h'. unfold ReceivedAck.
  destruct (Z.gtb_spec (Wire.LargestAcked ackFrame) (lastSentPacketNumber h));
    [lia|].
  destruct (Z.leb_spec withPacketNumber (largestReceivedPacketWithAck h));
    [lia|].
  replace (largestInOrderAcked (set_largestReceivedPacketWithAck h withPacketNumber))
    with (largestInOrderAcked h) by reflexivity.
  destruct (Z.leb_spec (Wire.LargestAcked ackFrame) (largestInOrderAcked h));
    [lia|].
  reflexivity.
Qed.

(** C2. On a fresh handler, [SentPacket] of three retransmittable packets
    numbered 1, 2, 3 of [Length] 500 returns no error and leaves
    [bytesInFlight] at 1500; then [ReceivedAck] of an ACK with
    LargestAcked 3, LowestAcked 1 and no ranges, carried by a packet number
    above every earlier one, returns no error, empties the history, brings
    [bytesInFlight] to 0 and sets [LargestAcked] to 3. *)
Theorem three_packets_sent_and_acked pid bdw (cong : C)
  (p1 p2 p3 : Packet) (t1 t2 t3 : Time) :
  3 <= MaxTrackedSentPackets ->
  PacketNumber p1 = 1 -> PacketNumber p2 = 2 -> PacketNumber p3 = 3 ->
  Length p1 = 500 -> Length p2 = 500 -> Length p3 = 500 ->
  stripNonRetransmittableFrames (Frames p1) <> [] ->
  stripNonRetransmittableFrames (Frames p2) <> [] ->
  stripNonRetransmittableFrames (Frames p3) <> [] ->
  let r1 := SentPacket (NewSentPacketHandler pid bdw cong) p1 t1 in
  let r2 := SentPacket r1.2 p2 t2 in
  let r3 := SentPacket r2.2 p3 t3 in
  r1.1 = None /\ r2.1 = None /\ r3.1 = None
  /\ bytesInFlight r3.2 = 1500
  /\ forall ackFrame withPacketNumber rcvTime now,
       Wire.LargestAcked ackFrame = 3 ->
       Wire.LowestAcked ackFrame = 1 ->
       Wire.AckRanges ackFrame = [] ->
       largestReceivedPacketWithAck r3.2 < withPacketNumber ->
       let r := ReceivedAck r3.2 ackFrame withPacketNumber rcvTime now in
       r.1 = None
       /\ history r.2 = []
       /\ bytesInFlight r.2 = 0
       /\ LargestAcked r.2 = 3.
Proof.
  intros Hmax Hn1 Hn2 Hn3 Hl1 Hl2 Hl3 Hf1 Hf2 Hf3 r1 r2 r3.
  set (h0 := NewSentPacketHandler pid bdw cong) in *.
  assert (E1 : r1 = (None, recordSent h0 p1 t1)).
  { apply SentPacket_ok; cbn -[MaxTrackedSentPackets]; lia. }
  destruct (recordSent_retransmittable h0 p1 t1 Hf1)
    as (He1 & Hi1 & Hb1 & Hs1 & Ha1 & Hw1 & Hq1 & Hk1 & _).
  set (h1 := recordSent h0 p1 t1) in *.
  assert (E2 : r2 = (None, recordSent h1 p2 t2)).
  { subst r2. rewrite E1. cbn [snd]. apply SentPacket_ok.
    - rewrite Hs1. lia.
    - rewrite Hq1, He1. cbn -[MaxTrackedSentPackets]. lia. }
  destruct (recordSent_retransmittable h1 p2 t2 Hf2)
    as (He2 & Hi2 & Hb2 & Hs2 & Ha2 & Hw2 & Hq2 & Hk2 & _).
  set (h2 := recordSent h1 p2 t2) in *.
  assert (E3 : r3 = (None, recordSent h2 p3 t3)).
  { subst r3. rewrite E2. cbn [snd]. apply SentPacket_ok.
    - rewrite Hs2. lia.
    - rewrite Hq2, Hq1, He2, He1. cbn -[MaxTrackedSentPackets]. lia. }
  destruct (recordSent_retransmittable h2 p3 t3 Hf3)
    as (He3 & Hi3 & Hb3 & Hs3 & Ha3 & Hw3 & Hq3 & Hk3 & _).
  set (h3 := recordSent h2 p3 t3) in *.
  rewrite E1, E2, E3. cbn [fst snd].
  rewrite He2, He1 in He3. rewrite Hi2, Hi1 in He3.
  rewrite Hb2, Hb1, Hl1, Hl2, Hl3 in Hb3.
  rewrite Ha2, Ha1 in Ha3. rewrite Hw2, Hw1 in Hw3.
  rewrite Hs2, Hn2, Hn3, Hk2, Hs1, Hn1, Hn2, Hk1, Hn1 in Hk3.
  rewrite Hn1, Hn2, Hn3, Hl1, Hl2, Hl3 in He3.
  rewrite Hn3 in Hs3. clearbody h3. clear - He3 Hb3 Ha3 Hw3 Hk3 Hs3.
  cbn in He3, Ha3, Hw3. change (skippedPackets h3 = []) in Hk3.
  change (bytesInFlight h3 = 1500) in Hb3.
  split_and!; [done..|].
  intros ackFrame withPacketNumber rcvTime now HL Hlow Hr Hnew.
  rewrite ReceivedAck_fresh.
  - rewrite Hk3. cbn [existsb]. unfold history.
    destruct ackFrame as [apid la lo dt ranges]. cbn in HL, Hlow, Hr. subst.
    destruct h3 as [ls sk hpid nn hla wm [hels hnext] hswm rq bif cg bw rc tc
                      lt lst al pk rt lo].
    cbn in He3, Hb3, Ha3, Hw3, Hk3, Hs3. subst.
    vm_compute. done.
  - rewrite HL, Hs3. lia.
  - exact Hnew.
  - unfold largestInOrderAcked, Front. rewrite He3, HL. by vm_compute.
Qed.

(** *** ACKs for skipped packet numbers *)

Lemma newlyAcked_walk_error lowest largest hasMissing ranges els idx acc err :
  newlyAcked_walk lowest largest hasMissing ranges els idx acc = inl err ->
  exists n first last, err = errBUG n first last.
Proof.
  revert idx acc.
  induction els as [|e els IH]; intros idx acc; cbn [newlyAcked_walk];
    [discriminate|].
  destruct (_ <? lowest); [apply IH|].
  destruct (_ >? largest); [discriminate|].
  destruct hasMissing; [|apply IH].
  destruct (advanceRange _ _ _ _ _) as [idx' r].
  destruct (_ >=? _); [|apply IH].
  destruct (_ >? _); [|apply IH].
  intros [= <-]. eauto.
Qed.

Lemma processAck_error h ackFrame rcvTime now err :
  (processAck h ackFrame rcvTime now).1 = Some err ->
  exists n first last, err = errBUG n first last.
Proof.
  unfold processAck, maybeUpdateRTT.
  destruct (maybeUpdateRTT_walk _ _ _ _ _ _) as [updated c].
  unfold determineNewlyAckedPackets.
  destruct (newlyAcked_walk _ _ _ _ _ _ _) as [e|acked] eqn:Hw.
  - intros [= <-]. eapply newlyAcked_walk_error, Hw.
  - destruct (fold_left _ _ _) as [[h4 flag] sentDelay].
    by destruct flag.
Qed.

Lemma skipped_covered h ackFrame :
  existsb (Wire.AcksPacket ackFrame) (skippedPackets h) = true
  <-> exists p, p ∈ skippedPackets h /\ Wire.AcksPacket ackFrame p = true.
Proof.
  rewrite existsb_exists. split; intros (p & Hp & Ha); exists p;
    (split; [by apply list_elem_of_In|exact Ha]).
Qed.

Lemma recordSent_numbers h (packet : Packet) now :
  let h' := recordSent h packet now in
  skippedPackets h'
  = recordSkipped
      (Z.to_nat (PacketNumber packet - (lastSentPacketNumber h + 1)))
      (lastSentPacketNumber h + 1) (skippedPackets h)
  /\ lastSentPacketNumber h' = PacketNumber packet
  /\ retransmissionQueue h' = retransmissionQueue h
  /\ (length (elems (packetHistory h'))
      <= S (length (elems (packetHistory h))))%nat.
Proof.
  unfold recordSent.
  destruct (negb _);
    cbn [skippedPackets lastSentPacketNumber retransmissionQueue packetHistory
         elems updateLossDetectionAlarm set_alarm set_congestion PushBack
         set_numNonRetransmittablePackets set_packetHistory set_bytesInFlight
         set_lastSentTime set_packets set_lastSentPacketNumber
         set_skippedPackets];
    split_and!; try done.
  - rewrite length_app. cbn [length]. lia.
  - lia.
Qed.

(** While the cap on skipped packet numbers is not reached, the loop of
    [SentPacket] appends the numbers it passes over. *)
Lemma recordSkipped_fits n p skipped :
  Z.of_nat (length skipped) + Z.of_nat n <= MaxTrackedSkippedPackets ->
  recordSkipped n p skipped = skipped ++ seqZ p (Z.of_nat n).
Proof.
  revert p skipped. induction n as [|n IH]; intros p skipped Hfit.
  - cbn. by rewrite app_nil_r.
  - cbn [recordSkipped].
    destruct (Z.gtb_spec (Z.of_nat (length (skipped ++ [p])))
                MaxTrackedSkippedPackets) as [Hgt|_].
    { rewrite length_app in Hgt. cbn [length] in Hgt. lia. }
    rewrite IH by (rewrite length_app; cbn [length]; lia).
    rewrite (seqZ_cons p) by lia. rewrite <- app_assoc. cbn [app].
    do 3 f_equal. lia.
Qed.

(** C3, as the code has it. A [ReceivedAck] that passes the unsent, duplicate and
    stale checks returns AckForSkippedPacket when a recorded skipped packet
    number is covered by the frame, and the call returns that error in no
    other case.  [SentPacket] of packet 1 and then of packet 5 records the
    skipped numbers 2, 3, 4; an ACK with LargestAcked 5 and the ranges
    [5,5] and [1,1] covers none of them, so [ReceivedAck] of it does not
    return AckForSkippedPacket. *)
Theorem ack_for_skipped_packet :
  (forall h ackFrame withPacketNumber rcvTime now,
     let r := ReceivedAck h ackFrame withPacketNumber rcvTime now in
     (r.1 = Some ErrAckForSkippedPacket ->
      exists p, p ∈ skippedPackets h /\ Wire.AcksPacket ackFrame p = true)
     /\ (Wire.LargestAcked ackFrame <= lastSentPacketNumber h ->
         largestReceivedPacketWithAck h < withPacketNumber ->
         largestInOrderAcked h < Wire.LargestAcked ackFrame ->
         (exists p, p ∈ skippedPackets h /\ Wire.AcksPacket ackFrame p = true) ->
         r.1 = Some ErrAckForSkippedPacket))
  /\ (forall pid bdw (cong : C) (p1 p5 : Packet) (t1 t5 : Time),
        2 <= MaxTrackedSentPackets -> 3 <= MaxTrackedSkippedPackets ->
        PacketNumber p1 = 1 -> PacketNumber p5 = 5 ->
        let r1 := SentPacket (NewSentPacketHandler pid bdw cong) p1 t1 in
        let r5 := SentPacket r1.2 p5 t5 in
        r1.1 = None /\ r5.1 = None
        /\ skippedPackets r5.2 = [2; 3; 4]
        /\ forall ackFrame withPacketNumber rcvTime now,
             Wire.LargestAcked ackFrame = 5 ->
             Wire.AckRanges ackFrame
             = [ {| Wire.First := 5; Wire.Last := 5 |};
                 {| Wire.First := 1; Wire.Last := 1 |} ] ->
             Forall (fun p => Wire.AcksPacket ackFrame p = false) [2; 3; 4]
             /\ (ReceivedAck r5.2 ackFrame withPacketNumber rcvTime now).1
                <> Some ErrAckForSkippedPacket).
Proof.
  assert (Hgeneral : forall h ackFrame withPacketNumber rcvTime now,
     let r := ReceivedAck h ackFrame withPacketNumber rcvTime now in
     (r.1 = Some ErrAckForSkippedPacket ->
      exists p, p ∈ skippedPackets h /\ Wire.AcksPacket ackFrame p = true)
     /\ (Wire.LargestAcked ackFrame <= lastSentPacketNumber h ->
         largestReceivedPacketWithAck h < withPacketNumber ->
         largestInOrderAcked h < Wire.LargestAcked ackFrame ->
         (exists p, p ∈ skippedPackets h /\ Wire.AcksPacket ackFrame p = true) ->
         r.1 = Some ErrAckForSkippedPacket)).
  { intros h ackFrame withPacketNumber rcvTime now r. split.
    - subst r. unfold ReceivedAck.
      destruct (_ >? lastSentPacketNumber h); [discriminate|].
      destruct (_ <=? largestReceivedPacketWithAck h); [discriminate|].
      destruct (_ <=? largestInOrderAcked _); [discriminate|].
      unfold skippedPacketsAcked. cbn [skippedPackets set_LargestAcked
        set_largestReceivedPacketWithAck].
      destruct (existsb _ _) eqn:Hex; [intros _; by apply skipped_covered|].
      intros Herr. apply processAck_error in Herr as (? & ? & ? & [=]).
    - intros Hsent Hnew Hfresh Hcov. subst r.
      rewrite ReceivedAck_fresh by assumption.
      apply skipped_covered in Hcov. by rewrite Hcov. }
  split; [exact Hgeneral|].
  intros pid bdw cong p1 p5 t1 t5 Hmax Hskip Hn1 Hn5 r1 r5.
  set (h0 := NewSentPacketHandler pid bdw cong) in *.
  assert (E1 : r1 = (None, recordSent h0 p1 t1)).
  { apply SentPacket_ok; cbn -[MaxTrackedSentPackets]; lia. }
  destruct (recordSent_numbers h0 p1 t1) as (Hk1 & Hs1 & Hq1 & Hlen1).
  set (h1 := recordSent h0 p1 t1) in *.
  assert (E5 : r5 = (None, recordSent h1 p5 t5)).
  { subst r5. rewrite E1. cbn [snd]. apply SentPacket_ok.
    - rewrite Hs1. lia.
    - rewrite Hq1. cbn -[MaxTrackedSentPackets] in Hlen1 |- *. lia. }
  destruct (recordSent_numbers h1 p5 t5) as (Hk5 & _).
  rewrite E1, E5. cbn [fst snd].
  assert (Hskipped : skippedPackets (recordSent h1 p5 t5) = [2; 3; 4]).
  { rewrite Hk5, Hs1, Hk1, Hn1, Hn5.
    change (lastSentPacketNumber h0) with 0.
    change (skippedPackets h0) with (@nil Z).
    change (Z.to_nat (1 - (0 + 1))) with 0%nat.
    change (Z.to_nat (5 - (1 + 1))) with 3%nat.
    change (recordSkipped 0 (0 + 1) []) with (@nil Z).
    rewrite recordSkipped_fits by (cbn [length]; lia). reflexivity. }
  split_and!; try done.
  intros ackFrame withPacketNumber rcvTime now HL Hr.
  assert (Hnone : Forall (fun p => Wire.AcksPacket ackFrame p = false) [2; 3; 4]).
  { unfold Wire.AcksPacket, Wire.HasMissingRanges. rewrite Hr, HL.
    repeat constructor; by destruct (_ || _). }
  split; [exact Hnone|].
  intros Herr. apply Hgeneral in Herr as (p & Hp & Hcov).
  rewrite Hskipped in Hp. rewrite Forall_forall in Hnone.
  specialize (Hnone p Hp). congruence.
Qed.

(** *** CLOSE_PATH: what is acked, what is lost *)

Lemma cell_by_id els x y :
  NoDup (eid <$> els) -> x ∈ els -> y ∈ els -> eid x = eid y -> x = y.
Proof.
  induction els as [|a els IH]; intros Hnd Hx Hy Heq; [by inversion Hx|].
  rewrite fmap_cons in Hnd. apply NoDup_cons in Hnd as [Hna Hnd].
  apply elem_of_cons in Hx as [->|Hx]; apply elem_of_cons in Hy as [->|Hy].
  - done.
  - exfalso. apply Hna. rewrite Heq. by apply list_elem_of_fmap_2.
  - exfalso. apply Hna. rewrite <- Heq. by apply list_elem_of_fmap_2.
  - by apply IH.
Qed.

Lemma id_in_sublist els sub x :
  NoDup (eid <$> els) -> sub `sublist_of` els -> x ∈ els ->
  eid x ∈ eid <$> sub <-> x ∈ sub.
Proof.
  intros Hnd Hsub Hx. split.
  - intros (y & Heq & Hy)%list_elem_of_fmap.
    assert (x = y) as ->; [|done].
    eapply cell_by_id; eauto. eapply elem_of_sublist; eauto.
  - apply list_elem_of_fmap_2.
Qed.

Lemma without_filter els sub (keep : PacketElement -> bool) :
  NoDup (eid <$> els) -> sub `sublist_of` els ->
  (forall x, x ∈ els -> (x ∈ sub <-> keep x = false)) ->
  without sub els = List.filter keep els.
Proof.
  intros Hnd Hsub Hkeep. unfold without. apply filter_ext_in.
  intros x Hx%list_elem_of_In.
  destruct (keep x) eqn:Hk.
  - apply negb_true_iff, bool_decide_eq_false.
    rewrite id_in_sublist by eauto. rewrite Hkeep by done. congruence.
  - apply negb_false_iff, bool_decide_eq_true.
    rewrite id_in_sublist by eauto. by apply Hkeep.
Qed.

Lemma sumLength_cons e els :
  sumLength (e :: els) = Length (Value e) + sumLength els.
Proof. reflexivity. Qed.

Lemma filter_nothing (f : PacketElement -> bool) els :
  (forall x, x ∈ els -> f x = false) -> List.filter f els = [].
Proof.
  induction els as [|e els IH]; intros Hf; [reflexivity|].
  cbn [List.filter]. rewrite (Hf e) by left.
  apply IH. intros x Hx. apply Hf. by right.
Qed.

Lemma sum_without els sub :
  NoDup (eid <$> els) -> sub `sublist_of` els ->
  sumLength els = sumLength sub + sumLength (without sub els).
Proof.
  intros Hnd Hsub.
  induction Hsub as [|x l1 l2 Hsub IH|x l1 l2 Hsub IH].
  - reflexivity.
  - rewrite fmap_cons in Hnd. pose proof Hnd as [Hna Hnd']%NoDup_cons.
    unfold without. cbn [List.filter]. rewrite fmap_cons.
    rewrite bool_decide_eq_true_2 by left. cbn [negb].
    replace (List.filter _ l2) with (without l1 l2).
    + rewrite !sumLength_cons, (IH Hnd'). lia.
    + unfold without. apply filter_ext_in. intros y Hy%list_elem_of_In.
      f_equal. apply bool_decide_ext. rewrite elem_of_cons.
      split; [by right|]. intros [Heq|?]; [|done].
      exfalso. apply Hna. rewrite <- Heq. by apply list_elem_of_fmap_2.
  - rewrite fmap_cons in Hnd. pose proof Hnd as [Hna Hnd']%NoDup_cons.
    unfold without. cbn [List.filter].
    rewrite bool_decide_eq_false_2.
    + cbn [negb]. fold (without l1 l2).
      rewrite !sumLength_cons, (IH Hnd'). lia.
    + intros Hin. apply Hna.
      eapply elem_of_sublist; [exact Hin|by apply fmap_sublist].
Qed.

Lemma gtb_false a b : (a >? b) = false <-> a <= b.
Proof. destruct (Z.gtb_spec a b); split; intros; try lia; congruence. Qed.

Lemma prefixUpTo_elem largest els x :
  StronglySorted (fun a b => packetNumberOf a < packetNumberOf b) els ->
  x ∈ els ->
  x ∈ prefixUpTo largest els <-> (packetNumberOf x >? largest) = false.
Proof.
  rewrite gtb_false.
  induction els as [|e els IH]; intros Hs Hx; [by inversion Hx|].
  apply StronglySorted_inv in Hs as [Hs Hall]. rewrite Forall_forall in Hall.
  cbn [prefixUpTo].
  destruct (Z.gtb_spec (packetNumberOf e) largest) as [Hgt|Hle].
  - split; [by intros ?%elem_of_nil|]. intros Hle.
    apply elem_of_cons in Hx as [->|Hx]; [lia|]. specialize (Hall x Hx). lia.
  - apply elem_of_cons in Hx as [->|Hx].
    + split; [done|by left].
    + rewrite elem_of_cons, IH by done. split; [|by right].
      intros [->|?]; done.
Qed.

Lemma prefixUpTo_filter largest els :
  StronglySorted (fun a b => packetNumberOf a < packetNumberOf b) els ->
  prefixUpTo largest els
  = List.filter (fun e => packetNumberOf e <=? largest) els.
Proof.
  induction els as [|e els IH]; intros Hs; [reflexivity|].
  apply StronglySorted_inv in Hs as [Hs Hall]. rewrite Forall_forall in Hall.
  cbn [prefixUpTo List.filter].
  destruct (Z.gtb_spec (packetNumberOf e) largest) as [Hgt|Hle];
    destruct (Z.leb_spec (packetNumberOf e) largest); try lia.
  - symmetry. apply filter_nothing.
    intros x Hx. specialize (Hall x Hx). apply Z.leb_gt. lia.
  - f_equal. by apply IH.
Qed.

Lemma SetInflightAsLost_history h :
  invariant h ->
  elems (packetHistory (SetInflightAsLost h))
  = without (prefixUpTo (LargestAcked h) (elems (packetHistory h)))
      (elems (packetHistory h)).
Proof.
  intros Hinv. unfold SetInflightAsLost.
  destruct (inflightLost_walk _ _ _) as [h1 lost] eqn:Hw.
  apply inflightLost_walk_spec in Hw as (Hk & ->). cbn [app].
  pose proof (scanKeeps_invariant _ _ Hk Hinv) as Hinv1.
  destruct Hk as (Hp & _).
  destruct (queueLost_invariant h1
              (prefixUpTo (LargestAcked h) (elems (packetHistory h))) Hinv1)
    as (_ & -> & _).
  - rewrite Hp. apply prefixUpTo_sublist.
  - by rewrite Hp.
Qed.

(** C4, as the code has it. After a successful [ReceivedClosePath] the packets
    acked by the frame are out of the history, and of the packets that
    remain, every one whose number does not exceed the handler's own
    [LargestAcked] (which this call does not raise to the frame's
    LargestAcked) has been removed from the history and appended, in order,
    to the retransmission queue; the others stay.  [bytesInFlight] has
    lost the lengths of the acked and of the queued packets. *)
Theorem close_path_marks_lost h f withPacketNumber rcvTime h' :
  invariant h ->
  ReceivedClosePath h f withPacketNumber rcvTime = (None, h') ->
  exists acked,
    determineNewlyAckedPacketsClosePath h f = inr acked
    /\ acked `sublist_of` elems (packetHistory h)
    /\ let remaining := without acked (elems (packetHistory h)) in
       let lost :=
         List.filter (fun e => packetNumberOf e <=? LargestAcked h) remaining in
       elems (packetHistory h')
       = List.filter (fun e => packetNumberOf e >? LargestAcked h) remaining
       /\ retransmissionQueue h' = retransmissionQueue h ++ (Value <$> lost)
       /\ bytesInFlight h'
          = uint64 (bytesInFlight h - sumLength acked - sumLength lost)
       /\ LargestAcked h' = LargestAcked h
       /\ invariant h'.
Proof.
  intros Hinv. unfold ReceivedClosePath.
  destruct (_ >? lastSentPacketNumber h); [discriminate|].
  destruct (_ <=? largestReceivedPacketWithAck h); [discriminate|].
  set (h1 := set_largestReceivedPacketWithAck h withPacketNumber).
  assert (Hinv1 : invariant h1) by by apply (invariant_same h).
  destruct (skippedPacketsAckedClosePath h1 f); [discriminate|].
  unfold processClosePath.
  change (determineNewlyAckedPacketsClosePath h1 f)
    with (determineNewlyAckedPacketsClosePath h f).
  destruct (determineNewlyAckedPacketsClosePath h f) as [e|acked] eqn:Hw;
    [discriminate|].
  intros [= <-]. exists acked. split; [done|].
  apply (newlyAcked_cells h) in Hw as (Hsub & _); [|exact Hinv].
  split; [exact Hsub|].
  destruct (closePath_fold_invariant h1 acked Hinv1 Hsub) as (Hinv2 & He2 & _).
  destruct (closePath_fold_keeps acked h1) as (Hla2 & _ & Hq2).
  set (h2 := fold_left closePathStep acked h1) in *.
  change (elems (packetHistory h1)) with (elems (packetHistory h)) in He2.
  change (LargestAcked h1) with (LargestAcked h) in Hla2.
  change (retransmissionQueue h1) with (retransmissionQueue h) in Hq2.
  pose proof (SetInflightAsLost_invariant h2 Hinv2) as Hinv3.
  pose proof (SetInflightAsLost_history h2 Hinv2) as He3.
  destruct (SetInflightAsLost_keeps h2) as (Hla3 & _ & Hq3).
  set (h3 := SetInflightAsLost h2) in *.
  rewrite Hla2, He2 in He3, Hq3. rewrite Hq2 in Hq3. rewrite Hla2 in Hla3.
  pose proof Hinv as ((Hnd & _) & Hb & _).
  pose proof Hinv2 as ((Hnd2 & _) & _ & Hs2 & _). rewrite He2 in Hnd2, Hs2.
  pose proof Hinv3 as (_ & Hb3 & _).
  set (remaining := without acked (elems (packetHistory h))) in *.
  rewrite prefixUpTo_filter in Hq3 by exact Hs2.
  assert (Hrest : without (prefixUpTo (LargestAcked h) remaining) remaining
                  = List.filter (fun e => packetNumberOf e >? LargestAcked h)
                      remaining).
  { apply without_filter; [exact Hnd2|apply prefixUpTo_sublist|].
    intros x Hx. by apply prefixUpTo_elem. }
  cbn zeta. split_and!.
  - change (elems (packetHistory (garbageCollectSkippedPackets h3)))
      with (elems (packetHistory h3)). by rewrite He3, Hrest.
  - exact Hq3.
  - change (bytesInFlight (garbageCollectSkippedPackets h3))
      with (bytesInFlight h3).
    rewrite Hb3, Hb. unfold historyLength. rewrite He3.
    rewrite (sum_without _ acked Hnd Hsub). fold remaining.
    rewrite (sum_without remaining (prefixUpTo (LargestAcked h) remaining) Hnd2)
      by apply prefixUpTo_sublist.
    rewrite <- (prefixUpTo_filter _ _ Hs2).
    replace (uint64 (sumLength acked
                     + (sumLength (prefixUpTo (LargestAcked h) remaining)
                        + sumLength (without (prefixUpTo (LargestAcked h) remaining)
                                       remaining)))
             - sumLength acked
             - sumLength (prefixUpTo (LargestAcked h) remaining))
      with (uint64 (sumLength acked
                     + (sumLength (prefixUpTo (LargestAcked h) remaining)
                        + sumLength (without (prefixUpTo (LargestAcked h) remaining)
                                       remaining)))
            - (sumLength acked
               + sumLength (prefixUpTo (LargestAcked h) remaining))) by lia.
    rewrite uint64_sub_l. f_equal. lia.
  - exact Hla3.
  - by apply garbageCollectSkippedPackets_invariant.
Qed.

End Facts.
End AckHandlerFacts.

Section HandlerScenarios.

Import Congestion AckHandler Scenario AckHandlerFacts.

#[local] Existing Instance freshAlgorithm.
#[local] Existing Instance exampleProtocol.

Lemma bytesInFlight_is_history_sum_witness :
  let h := run None (NewSentPacketHandler 0 (NewBDWStats 0) tt)
             [CallSentPacket (pingPacket 1 500) 10;
              CallSentPacket (pingPacket 2 500) 20;
              CallReceivedAck (ackOf 1 1 []) 1 30 30] in
  0 <= historyLength h < 2 ^ 64 /\ bytesInFlight h = historyLength h.
Proof.
  intros h.
  assert (Hr : 0 <= historyLength h < 2 ^ 64) by (vm_compute; split; congruence).
  split; [exact Hr|].
  exact (proj1 (proj2 (bytesInFlight_is_history_sum None 0 (NewBDWStats 0) tt _)) Hr).
Defined.

Lemma SentPacket_guards_witness :
  let h := (SentPacket (NewSentPacketHandler 0 (NewBDWStats 0) tt)
              (pingPacket 4 500) 10).2 in
  let r := SentPacket h (pingPacket 3 500) 20 in
  r.1 = Some errPacketNumberNotIncreasing /\ r.2 = h.
Proof.
  intros h r.
  assert (Hr : r.1 = Some errPacketNumberNotIncreasing) by reflexivity.
  split; [exact Hr|].
  exact (proj1 (proj1 (proj2 (proj2 (SentPacket_guards h (pingPacket 3 500) 20)))
                  _ Hr)).
Defined.

Lemma rto_alarm_witness :
  let h := (SentPacket (NewSentPacketHandler 0 (NewBDWStats 0) tt)
              (pingPacket 1 500) 10).2 in
  alarm (updateLossDetectionAlarm h) = 10 + 500 * Millisecond.
Proof.
  intros h.
  refine (eq_trans (rto_alarm h _ _ _) _).
  - vm_compute. discriminate.
  - reflexivity.
  - left. reflexivity.
  - reflexivity.
Defined.

(** C5 as stated fails: right after the first packet of a connection is
    sent there is no RTT sample, the retransmission delay is 0, and the
    alarm is 500 ms after the send, not the 200 ms the formula gives. *)
Lemma rto_alarm_ignores_default :
  let h := (SentPacket (NewSentPacketHandler 0 (NewBDWStats 0) tt)
              (pingPacket 1 500) 10).2 in
  let rto :=
    Z.min (shl64 (Z.max (RetransmissionDelay (congestion h)) (200 * Millisecond))
             (rtoCount h)) (60 * Second) in
  elems (packetHistory h) <> []
  /\ IsZero (lossTime h) = true
  /\ rttSmoothedRTT (congestion h) = 0
  /\ alarm (updateLossDetectionAlarm h) = lastSentTime h + 500 * Millisecond
  /\ lastSentTime h + Z.max rto minRetransmissionTime
     = lastSentTime h + 200 * Millisecond
  /\ alarm (updateLossDetectionAlarm h)
     <> lastSentTime h + Z.max rto minRetransmissionTime.
Proof. vm_compute. repeat split; congruence. Qed.

Lemma three_packets_sent_and_acked_witness :
  let r1 := SentPacket (NewSentPacketHandler 0 (NewBDWStats 0) tt)
              (pingPacket 1 500) 10 in
  let r2 := SentPacket r1.2 (pingPacket 2 500) 20 in
  let r3 := SentPacket r2.2 (pingPacket 3 500) 30 in
  let r := ReceivedAck r3.2 (ackOf 3 1 []) 1 40 40 in
  bytesInFlight r3.2 = 1500
  /\ r.1 = None /\ history r.2 = [] /\ bytesInFlight r.2 = 0
  /\ LargestAcked r.2 = 3.
Proof.
  intros r1 r2 r3 r.
  assert (Hmax : 3 <= MaxTrackedSentPackets) by (vm_compute; discriminate).
  assert (Hf : forall n,
    stripNonRetransmittableFrames (Frames (pingPacket n 500)) <> [])
    by (intros n; discriminate).
  pose proof (three_packets_sent_and_acked 0 (NewBDWStats 0) tt
                (pingPacket 1 500) (pingPacket 2 500) (pingPacket 3 500)
                10 20 30 Hmax eq_refl eq_refl eq_refl eq_refl eq_refl eq_refl
                (Hf 1) (Hf 2) (Hf 3)) as (_ & _ & _ & Hb & Hack).
  split; [exact Hb|].
  apply (Hack (ackOf 3 1 []) 1 40 40); try reflexivity.
Defined.

Lemma ack_for_skipped_packet_witness :
  let r1 := SentPacket (NewSentPacketHandler 0 (NewBDWStats 0) tt)
              (pingPacket 1 500) 10 in
  let r5 := SentPacket r1.2 (pingPacket 5 500) 20 in
  skippedPackets r5.2 = [2; 3; 4]
  /\ (ReceivedAck r5.2 (ackOf 5 1 []) 1 30 30).1
     = Some ErrAckForSkippedPacket
  /\ (ReceivedAck r5.2 (ackOf 5 1 [range 5 5; range 1 1]) 1 30 30).1
     <> Some ErrAckForSkippedPacket.
Proof.
  intros r1 r5.
  destruct ack_for_skipped_packet as (Hgeneral & Hscenario).
  assert (H2 : 2 <= MaxTrackedSentPackets) by (vm_compute; discriminate).
  assert (H3 : 3 <= MaxTrackedSkippedPackets) by (vm_compute; discriminate).
  destruct (Hscenario 0 (NewBDWStats 0) tt (pingPacket 1 500)
              (pingPacket 5 500) 10 20 H2 H3 eq_refl eq_refl)
    as (_ & _ & Hskipped & Hranges).
  split; [exact Hskipped|]. split.
  - apply (Hgeneral r5.2 (ackOf 5 1 []) 1 30 30).
    + vm_compute. discriminate.
    + reflexivity.
    + reflexivity.
    + exists 2. split; [|reflexivity]. unfold r5, r1. rewrite Hskipped. left.
  - apply (Hranges (ackOf 5 1 [range 5 5; range 1 1]) 1 30 30); reflexivity.
Defined.

(** C3 as stated fails on its scenario: after packets 1 and 5 the skipped
    numbers are 2, 3, 4, and [ReceivedAck] of the ACK with LargestAcked 5
    and the ranges [5,5], [1,1] returns no error and acks packets 1 and 5,
    whether LowestAcked is 1 or is left at 0. *)
Lemma scenario_ack_is_accepted :
  let r1 := SentPacket (NewSentPacketHandler 0 (NewBDWStats 0) tt)
              (pingPacket 1 500) 10 in
  let r5 := SentPacket r1.2 (pingPacket 5 500) 20 in
  let r := ReceivedAck r5.2 (ackOf 5 1 [range 5 5; range 1 1]) 1 30 30 in
  let r' := ReceivedAck r5.2 (ackOf 5 0 [range 5 5; range 1 1]) 1 30 30 in
  skippedPackets r5.2 = [2; 3; 4]
  /\ r.1 = None /\ history r.2 = []
  /\ r'.1 = None /\ history r'.2 = []
  /\ r.1 <> Some ErrAckForSkippedPacket.
Proof. vm_compute. repeat split; congruence. Qed.

Lemma stale_ack_advances_watermark_witness :
  let h := (SentPacket (NewSentPacketHandler 0 (NewBDWStats 0) tt)
              (pingPacket 1 500) 10).2 in
  let r := ReceivedAck h (ackOf 0 0 []) 5 20 20 in
  let h' := run None r.2 [CallSentPacket (pingPacket 2 500) 30] in
  r.1 = None
  /\ ReceivedAck h' (ackOf 2 1 []) 3 40 40
     = (Some ErrDuplicateOrOutOfOrderAck, h').
Proof.
  intros h r h'.
  assert (H1 : Wire.LargestAcked (ackOf 0 0 []) <= lastSentPacketNumber h)
    by (vm_compute; discriminate).
  assert (H2 : largestReceivedPacketWithAck h < 5) by reflexivity.
  assert (H3 : Wire.LargestAcked (ackOf 0 0 []) <= largestInOrderAcked h)
    by (vm_compute; discriminate).
  destruct (stale_ack_advances_watermark h (ackOf 0 0 []) 5 20 20 H1 H2 H3)
    as (Hr & _ & Hlater).
  split; [unfold r; by rewrite Hr|].
  apply (Hlater None [CallSentPacket (pingPacket 2 500) 30]
           (ackOf 2 1 []) 3 40 40).
  - vm_compute. discriminate.
  - vm_compute. discriminate.
Defined.

(** C10 as stated fails for a later ACK that names a packet never sent:
    the guard on unsent packets comes first, and the call fails with
    AckForUnsentPacket although its carrying packet number, 3, is below
    the watermark 5 left by the stale ACK. *)
Lemma later_ack_for_unsent_packet :
  let h := (SentPacket (NewSentPacketHandler 0 (NewBDWStats 0) tt)
              (pingPacket 1 500) 10).2 in
  let r := ReceivedAck h (ackOf 0 0 []) 5 20 20 in
  let r' := ReceivedAck r.2 (ackOf 7 1 []) 3 30 30 in
  Wire.LargestAcked (ackOf 0 0 []) <= largestInOrderAcked h
  /\ r.1 = None
  /\ largestReceivedPacketWithAck r.2 = 5
  /\ r'.1 = Some errAckForUnsentPacket
  /\ r'.1 <> Some ErrDuplicateOrOutOfOrderAck.
Proof. vm_compute. repeat split; congruence. Qed.

Lemma close_path_marks_lost_witness :
  let h := run None (NewSentPacketHandler 0 (NewBDWStats 0) tt)
             [CallSentPacket (pingPacket 1 500) 10;
              CallSentPacket (pingPacket 2 500) 10;
              CallSentPacket (pingPacket 3 500) 10;
              CallSentPacket (pingPacket 4 500) 10;
              CallReceivedAck (ackOf 3 3 []) 1 10 10] in
  let r := ReceivedClosePath h (closePathOf 4 4 []) 2 10 in
  LargestAcked h = 3
  /\ (PacketNumber <$> history h) = [1; 2; 4]
  /\ r.1 = None
  /\ (PacketNumber <$> history r.2) = []
  /\ (PacketNumber <$> retransmissionQueue r.2) = [1; 2]
  /\ bytesInFlight r.2 = 0
  /\ exists acked,
       determineNewlyAckedPacketsClosePath h (closePathOf 4 4 []) = inr acked
       /\ bytesInFlight r.2
          = uint64 (bytesInFlight h - sumLength acked
                    - sumLength
                        (List.filter
                           (fun e => packetNumberOf e <=? LargestAcked h)
                           (without acked (elems (packetHistory h))))).
Proof.
  intros h r.
  assert (Hinv : invariant h) by apply run_invariant, New_invariant.
  assert (Hr : ReceivedClosePath h (closePathOf 4 4 []) 2 10 = (None, r.2))
    by reflexivity.
  destruct (close_path_marks_lost h (closePathOf 4 4 []) 2 10 r.2 Hinv Hr)
    as (acked & Hacked & _ & _ & _ & Hbytes & _).
  split_and!; try reflexivity.
  exists acked. split; [exact Hacked|exact Hbytes].
Defined.

(** C4 as stated fails: the handler's [LargestAcked] is what bounds the
    packets marked lost, and [ReceivedClosePath] does not raise it to the
    frame's.  On a handler that has seen no ACK, a CLOSE_PATH with
    LargestAcked 3 that acks packet 3 alone leaves packets 1 and 2 in the
    history; nothing is queued for retransmission. *)
Lemma close_path_keeps_packets_below_frame_largest :
  let h := run None (NewSentPacketHandler 0 (NewBDWStats 0) tt)
             [CallSentPacket (pingPacket 1 500) 10;
              CallSentPacket (pingPacket 2 500) 20;
              CallSentPacket (pingPacket 3 500) 30] in
  let r := ReceivedClosePath h (closePathOf 3 3 []) 1 40 in
  r.1 = None
  /\ LargestAcked h = 0
  /\ (PacketNumber <$> history r.2) = [1; 2]
  /\ retransmissionQueue r.2 = []
  /\ bytesInFlight r.2 = 1000.
Proof. vm_compute. repeat split; congruence. Qed.

End HandlerScenarios.

(** ** The packet packer *)

Module PackerFacts.

Import Wire Packer.

Section Facts.

Context {SF G : Type} `{!StreamFramer SF} `{!PacketNumberGenerator G}
        `{!WireCodec} `{!Protocol}.

Implicit Types p : packetPacker SF.
Implicit Types pth : path G.

Lemma writeAndSealPacket_path p ph fs sealer pth r pth' :
  writeAndSealPacket p ph fs sealer pth = (r, pth') -> pathID pth' = pathID pth.
Proof.
  unfold writeAndSealPacket.
  destruct (writeHeader _ _ _); [by intros [= _ <-]|].
  destruct (writeFrames _ _); [by intros [= _ <-]|].
  destruct (_ >? MaxPacketSize); [by intros [= _ <-]|].
  destruct (Pop _) as [num g].
  destruct (negb _); by intros [= _ <-].
Qed.

(** The loop over the control frames moves frames of the queue to the
    payload and keeps the rest of the queue. *)
Lemma popControlFrames_frames ver maxFrameSize queue len payload e queue' len' payload' :
  popControlFrames ver maxFrameSize queue len payload = (e, queue', len', payload') ->
  exists moved, payload' = payload ++ moved /\ queue = moved ++ queue'.
Proof.
  revert len payload.
  induction queue as [|f queue IH]; intros len payload; cbn [popControlFrames].
  - intros [= <- <- <- <-]. exists []. by rewrite app_nil_r.
  - destruct (MinLength f ver) as [e0|minLength].
    { intros [= <- <- <- <-]. exists []. by rewrite app_nil_r. }
    destruct (_ >? maxFrameSize).
    { intros [= <- <- <- <-]. exists []. by rewrite app_nil_r. }
    intros Hw. destruct (IH _ _ Hw) as (moved & -> & ->).
    exists (f :: moved). by rewrite <- app_assoc.
Qed.

Lemma clean_rev (fs : list Frame) :
  Forall (fun f => isStopWaiting f = false) fs ->
  Forall (fun f => isStopWaiting f = false) (rev fs).
Proof. intros Hf. apply Forall_rev, Hf. Qed.

Lemma streams_clean (fs : list StreamFrame) :
  Forall (fun f => isStopWaiting f = false) (map Stream fs).
Proof.
  apply Forall_forall. by intros f (x & <- & _)%list_elem_of_In%in_map_iff.
Qed.

Lemma blocked_clean (bs : list BlockedFrame) :
  Forall (fun f => isStopWaiting f = false) (map Blocked bs).
Proof.
  apply Forall_forall. by intros f (x & <- & _)%list_elem_of_In%in_map_iff.
Qed.

(** What a composed payload is made of: the queued STOP_WAITING of the
    path if there is one, then frames that are no STOP_WAITING. *)
Lemma composeWith_frames popStream p maxFrameSize canSend pth fs p' :
  controlClean p ->
  composeWith popStream p maxFrameSize canSend pth = (inr fs, p') ->
  (exists rest,
     fs = match stopWaiting p !! pathID pth with
          | Some swf => StopWaiting swf :: rest
          | None => rest
          end
     /\ Forall (fun f => isStopWaiting f = false) rest)
  /\ stopWaiting p' = stopWaiting p
  /\ controlClean p'.
Proof.
  intros Hclean. unfold composeWith.
  assert (Hrev : Forall (fun f => isStopWaiting f = false) (rev (controlFrames p)))
    by apply Forall_rev, Hclean.
  destruct (stopWaiting p !! pathID pth) as [swf|];
    [destruct (MinLength (StopWaiting swf) (version p)) as [e|l];
       [discriminate|]|];
    (destruct (ackFrame p !! pathID pth) as [ack|];
       [destruct (MinLength (Ack ack) (version p)) as [e|l'];
          [discriminate|]|]);
    (destruct (popControlFrames _ _ _ _ _) as [[[e queue] len2] payload] eqn:Hpop;
     apply popControlFrames_frames in Hpop as (moved & -> & Hqueue);
     rewrite Hqueue in Hrev; apply Forall_app in Hrev as [Hmoved Hleft];
     (destruct e as [e|]; [discriminate|]);
     (destruct (_ >? maxFrameSize); [discriminate|]);
     destruct (negb canSend);
       [|destruct (popStream _ _) as [streams sf];
         destruct (PopBlockedFrames sf) as [bs sf']];
     intros [= <- <-]; split_and!; try done;
     try (eexists; split; [cbn [app]; reflexivity|];
          repeat first [apply Forall_app; split
                       |apply List.Forall_cons; [reflexivity|]];
          try done; by auto using streams_clean);
     unfold controlClean; cbn [controlFrames set_controlFrames set_streamFramer];
     repeat (apply Forall_app; split);
     auto using blocked_clean, Forall_rev).
Qed.

Lemma composeWith_clean popStream p maxFrameSize canSend pth r p' :
  controlClean p ->
  composeWith popStream p maxFrameSize canSend pth = (r, p') ->
  controlClean p'.
Proof.
  intros Hclean. unfold composeWith.
  assert (Hrev : Forall (fun f => isStopWaiting f = false) (rev (controlFrames p)))
    by apply Forall_rev, Hclean.
  destruct (stopWaiting p !! pathID pth) as [swf|];
    [destruct (MinLength (StopWaiting swf) (version p)) as [e|l];
       [by intros [= _ <-]|]|];
    (destruct (ackFrame p !! pathID pth) as [ack|];
       [destruct (MinLength (Ack ack) (version p)) as [e|l'];
          [by intros [= _ <-]|]|]);
    (destruct (popControlFrames _ _ _ _ _) as [[[e queue] len2] payload] eqn:Hpop;
     apply popControlFrames_frames in Hpop as (moved & -> & Hqueue);
     rewrite Hqueue in Hrev; apply Forall_app in Hrev as [Hmoved Hleft];
     destruct e as [e|];
       [|destruct (_ >? maxFrameSize);
          [|destruct (negb canSend);
             [|destruct (popStream _ _) as [streams sf];
               destruct (PopBlockedFrames sf) as [bs sf']]]];
     intros [= _ <-];
     unfold controlClean; cbn [controlFrames set_controlFrames set_streamFramer];
     repeat (apply Forall_app; split);
     auto using blocked_clean, Forall_rev).
Qed.

Lemma sealAndReturn_result p ph fs sealer level pth :
  let r := sealAndReturn p ph fs sealer level pth in
  packerAfter r = p /\ exists pkt, packet r = Some pkt /\ frames pkt = fs.
Proof.
  unfold sealAndReturn. destruct (writeAndSealPacket _ _ _ _ _) as [r pth'].
  cbn. eauto.
Qed.

Lemma finishPacket_sendable p ph fs sealer level pth :
  (forall swf, fs = [StopWaiting swf] -> is_Some (stopWaiting p !! pathID pth)) ->
  controlClean p ->
  let r := finishPacket p ph fs sealer level pth in
  controlClean (packerAfter r)
  /\ forall pkt, packet r = Some pkt -> err r = None /\ sendable (frames pkt).
Proof.
  intros Hsw Hclean. unfold finishPacket.
  destruct (Z.eqb_spec (Z.of_nat (length fs)) 0) as [|Hlen0]; [by split|].
  destruct ((Z.of_nat (length fs) =? 1)
            && bool_decide (is_Some (stopWaiting p !! pathID pth))) eqn:Hone;
    [by split|].
  destruct (writeAndSealPacket _ _ _ _ _) as [[e|bytes] pth']; [by split|].
  cbn. split; [exact Hclean|]. intros pkt [= <-]. cbn. split; [done|]. split.
  - intros ->. by cbn in Hlen0.
  - intros swf ->. cbn in Hone.
    rewrite bool_decide_eq_true_2 in Hone by eauto. discriminate.
Qed.

(** The body shared by the three packing entry points: a packet that comes
    out is sendable, and the control frames stay free of STOP_WAITING. *)
Lemma packWith_sendable popStream p pth :
  controlClean p ->
  let r := packWith (composeWith popStream) p pth in
  controlClean (packerAfter r)
  /\ forall pkt, packet r = Some pkt -> err r = None /\ sendable (frames pkt).
Proof.
  intros Hclean. unfold packWith.
  destruct (HasCryptoStreamFrame (streamFramer p)).
  { unfold packCryptoPacket.
    destruct (GetSealerForCryptoStream _) as [level sealer].
    destruct (GetLength _ _) as [e|len]; [by split|].
    destruct (PopCryptoStreamFrame _ _) as [f sf].
    destruct (writeAndSealPacket _ _ _ _ _) as [[e|bytes] pth']; [by split|].
    cbn. split; [exact Hclean|]. intros pkt [= <-]. by repeat split. }
  destruct (GetSealer _) as [level sealer].
  destruct (GetLength _ _) as [e|len]; [by split|].
  set (p1 := match stopWaiting p !! pathID pth with
             | Some swf => _
             | None => p
             end).
  assert (Hclean1 : controlClean p1) by (subst p1; by destruct (_ !! _)).
  destruct (match controlFrames p1 with f :: _ => isPing f | [] => false end)
    eqn:Hping.
  - destruct (controlFrames p1) as [|f fs] eqn:Hcf; [discriminate|].
    cbn [take drop]. apply finishPacket_sendable.
    + intros swf [= ->]. discriminate.
    + unfold controlClean in *. cbn. rewrite Hcf in Hclean1.
      by apply Forall_cons in Hclean1 as [_ ?].
  - destruct (composeWith popStream p1 _ _ pth) as [[e|fs] q] eqn:Hc.
    + apply composeWith_clean in Hc; [|exact Hclean1]. by split.
    + apply composeWith_frames in Hc as ((rest & Hshape & Hrest) & Hsw & Hq);
        [|exact Hclean1].
      apply finishPacket_sendable; [|exact Hq].
      intros swf ->. rewrite Hsw.
      destruct (stopWaiting p1 !! pathID pth); [eauto|].
      subst rest. by apply Forall_cons in Hrest as [[=] _].
Qed.

Lemma QueueControlFrame_clean p frame pth :
  controlClean p -> controlClean (QueueControlFrame p frame pth).
Proof.
  intros Hclean. unfold controlClean.
  destruct frame; cbn; try exact Hclean;
    apply Forall_app; split; try exact Hclean; by repeat constructor.
Qed.

Lemma PackAckPacket_frames p pth :
  let r := PackAckPacket p pth in
  (controlClean p -> controlClean (packerAfter r))
  /\ forall pkt, packet r = Some pkt -> sendable (frames pkt).
Proof.
  unfold PackAckPacket.
  destruct (ackFrame p !! pathID pth) as [ack|]; [|by split].
  destruct (GetSealer _) as [level sealer].
  destruct (stopWaiting p !! pathID pth) as [swf|];
    (match goal with
     | |- context [sealAndReturn ?q ?ph ?fs ?s ?l ?t] =>
       destruct (sealAndReturn_result q ph fs s l t) as (-> & pkt & -> & Hf)
     end;
     split; [done|]; intros ? [= <-]; rewrite Hf; by split).
Qed.

Lemma PackHandshakeRetransmission_frames p (retransmitted : AckHandler.Packet) pth :
  let r := PackHandshakeRetransmission p retransmitted pth in
  (controlClean p -> controlClean (packerAfter r))
  /\ forall pkt, packet r = Some pkt ->
       exists swf,
         frames pkt = StopWaiting swf :: AckHandler.Frames retransmitted.
Proof.
  unfold PackHandshakeRetransmission.
  destruct (AckHandler.EncryptionLevel retransmitted); try (by split);
    (destruct (GetSealerWithEncryptionLevel _ _) as [e|sealer]; [by split|];
     destruct (stopWaiting p !! pathID pth) as [swf|]; [|by split];
     match goal with
     | |- context [sealAndReturn ?q ?ph ?fs ?s ?l ?t] =>
       destruct (sealAndReturn_result q ph fs s l t) as (-> & pkt & -> & Hf)
     end;
     split; [done|]; intros ? [= <-]; rewrite Hf; eauto).
Qed.

Lemma call_clean p (c : Call) : controlClean p -> controlClean (call p c).
Proof.
  intros Hclean. destruct c; cbn [call].
  - by apply QueueControlFrame_clean.
  - by apply packWith_sendable.
  - by apply (packWith_sendable
                (fun sf n => PopStreamFramesOfPath sf n (pathID pth) (streamIDs pth))).
  - by apply (packWith_sendable
                (fun sf n => PopStreamFramesOfOneStream sf n streamID)).
  - by apply PackAckPacket_frames.
  - by apply PackHandshakeRetransmission_frames.
  - unfold PackConnectionClose. destruct (GetSealer _) as [level sealer].
    match goal with
    | |- context [sealAndReturn ?q ?ph ?fs ?s ?l ?t] =>
      destruct (sealAndReturn_result q ph fs s l t) as (-> & _)
    end. exact Hclean.
  - unfold PackPing. apply packWith_sendable.
    unfold controlClean. cbn. by constructor.
Qed.

Lemma run_clean p (cs : list Call) : controlClean p -> controlClean (run p cs).
Proof.
  revert p. induction cs as [|c cs IH]; intros p Hclean; [exact Hclean|].
  apply IH, call_clean, Hclean.
Qed.

(** The packer on its own.  Whatever calls a packer has served since it
    was created, a packet returned by [PackPacket], [PackPacketOfPath] or
    [PackPacketOfStream] comes without error, and its frame list, like that
    of a packet returned by [PackAckPacket], is neither empty nor a single
    STOP_WAITING frame.  A packet returned by
    [PackHandshakeRetransmission] carries the queued STOP_WAITING followed
    by the frames of the retransmitted packet: it is sendable exactly when
    the retransmitted packet has a frame.  With nothing queued but a
    STOP_WAITING frame, no crypto stream frame and no stream frame to pop,
    [PackPacket] returns no packet. *)
Lemma packed_frames_sendable
  (cid : Z) (cs : CryptoSetup) (truncate : bool) (sf : SF)
  (persp : Perspective) (ver : Z) (calls : list Call) :
  let fresh := newPacketPacker cid cs truncate sf persp ver in
  let p := run fresh calls in
  (forall pth pkt,
     packet (PackPacket p pth) = Some pkt ->
     err (PackPacket p pth) = None /\ sendable (frames pkt))
  /\ (forall pth pkt,
        packet (PackPacketOfPath p pth) = Some pkt ->
        err (PackPacketOfPath p pth) = None /\ sendable (frames pkt))
  /\ (forall pth streamID pkt,
        packet (PackPacketOfStream p pth streamID) = Some pkt ->
        err (PackPacketOfStream p pth streamID) = None
        /\ sendable (frames pkt))
  /\ (forall pth pkt,
        packet (PackAckPacket p pth) = Some pkt -> sendable (frames pkt))
  /\ (forall retransmitted pth pkt,
        packet (PackHandshakeRetransmission p retransmitted pth) = Some pkt ->
        frames pkt <> []
        /\ (sendable (frames pkt) <-> AckHandler.Frames retransmitted <> []))
  /\ (forall pth swf,
        HasCryptoStreamFrame sf = false ->
        (forall n, (PopStreamFrames sf n).1 = []) ->
        packet (PackPacket (QueueControlFrame fresh (StopWaiting swf) pth) pth)
        = None).
Proof.
  intros fresh p.
  assert (Hclean : controlClean p).
  { apply run_clean. unfold controlClean. cbn. constructor. }
  split_and!.
  - intros pth pkt. by apply packWith_sendable.
  - intros pth pkt.
    by apply (packWith_sendable
                (fun sf n => PopStreamFramesOfPath sf n (pathID pth) (streamIDs pth))).
  - intros pth streamID pkt.
    by apply (packWith_sendable
                (fun sf n => PopStreamFramesOfOneStream sf n streamID)).
  - intros pth pkt. by apply PackAckPacket_frames.
  - intros retransmitted pth pkt Hpkt.
    apply PackHandshakeRetransmission_frames in Hpkt as (swf & ->).
    split; [done|]. split.
    + intros [_ Hsingle] Hnil. apply (Hsingle swf). by rewrite Hnil.
    + intros Hne. split; [done|]. intros swf' [= _ Hnil]. done.
  - intros pth swf Hcrypto Hstreams. clear p Hclean. subst fresh.
    unfold PackPacket, packWith, newPacketPacker.
    cbn [QueueControlFrame set_stopWaiting streamFramer cryptoSetup
         perspective stopWaiting controlFrames].
    rewrite Hcrypto. destruct (GetSealer cs) as [level sealer].
    destruct (GetLength _ _) as [e|len]; [done|].
    rewrite lookup_insert_eq. cbn [controlFrames set_stopWaiting].
    unfold composeNextPacket, composeWith.
    cbn [stopWaiting ackFrame set_stopWaiting controlFrames version
         streamFramer rev popControlFrames set_controlFrames].
    rewrite lookup_insert_eq, lookup_empty.
    destruct (MinLength _ _) as [e|l]; [done|].
    destruct (_ >? _); [done|].
    destruct (negb _).
    + unfold finishPacket. cbn. rewrite lookup_insert_eq.
      rewrite bool_decide_eq_true_2 by eauto. done.
    + match goal with
      | |- context [PopStreamFrames sf ?n] =>
        specialize (Hstreams n); destruct (PopStreamFrames sf n) as [streams sf1]
      end.
      cbn in Hstreams. subst streams.
      destruct (PopBlockedFrames sf1) as [bs sf2].
      unfold finishPacket. cbn. rewrite lookup_insert_eq.
      rewrite bool_decide_eq_true_2 by eauto. done.
Qed.

End Facts.
End PackerFacts.


(** ** The path manager *)

Module PathManagerFacts.

Import PathManager.

Lemma uint8_parity n : uint8 (n + 2) mod 2 = n mod 2.
Proof.
  unfold uint8, wrapU.
  rewrite Z.mod_mod_divide by (exists (2 ^ 7); reflexivity).
  replace (n + 2) with (n + 1 * 2) by lia. apply Z.mod_add. lia.
Qed.

Section Facts.

Variable sendPing : path -> option Error.

Lemma kept_refl pm : kept pm pm.
Proof. by repeat split. Qed.

Lemma kept_trans pm1 pm2 pm3 : kept pm1 pm2 -> kept pm2 pm3 -> kept pm1 pm3.
Proof.
  intros (Hp1 & Hc1 & Hi1) (Hp2 & Hc2 & Hi2). split_and!.
  - congruence.
  - auto.
  - intros Hc Hcl pth Hpth. apply Hi2; [auto|congruence|auto].
Qed.

Lemma createPath_kept pm loc rem : kept pm (createPath sendPing pm loc rem).2.
Proof.
  unfold createPath. destruct (pathExists pm _ _); [apply kept_refl|].
  destruct (statisticsFor _) as [rtt bw]. cbn. split_and!.
  - done.
  - unfold counterParity. cbn. unfold PathID. by rewrite uint8_parity.
  - intros Hc Hcl pth Hpth. cbn [paths set_paths]. rewrite lookup_insert_ne; [done|].
    unfold counterParity in Hc. rewrite Hcl in Hc. intros Heq.
    rewrite Heq in Hc. discriminate.
Qed.

Lemma createPathsTo_kept pm loc remotes :
  kept pm (createPathsTo sendPing pm loc remotes).2.
Proof.
  revert pm. induction remotes as [|rem remotes IH]; intros pm;
    cbn [createPathsTo]; [apply kept_refl|].
  pose proof (createPath_kept pm loc rem) as Hk.
  destruct (createPath sendPing pm loc rem) as [[e|] pm']; [exact Hk|].
  eapply kept_trans; [exact Hk|apply IH].
Qed.

Lemma createPathsFrom_kept pm locals :
  kept pm (createPathsFrom sendPing pm locals).2.
Proof.
  revert pm. induction locals as [|loc locals IH]; intros pm;
    cbn [createPathsFrom]; [apply kept_refl|].
  pose proof (createPathsTo_kept pm loc
    (if getIPVersion loc =? 4 then remoteAddrs4 pm else remoteAddrs6 pm)) as Hk.
  destruct (createPathsTo sendPing pm loc _) as [[e|] pm']; [exact Hk|].
  eapply kept_trans; [exact Hk|apply IH].
Qed.

Lemma createPaths_kept pm : kept pm (createPaths sendPing pm).2.
Proof.
  unfold createPaths. destruct (perspective pm) eqn:Hp.
  - by repeat split.
  - apply createPathsFrom_kept.
Qed.

Lemma createPathFromRemote_kept pm rcvLocal remote id :
  kept pm (createPathFromRemote pm rcvLocal remote id).2.
Proof.
  unfold createPathFromRemote.
  destruct (paths pm !! id) eqn:Hl; [apply kept_refl|].
  destruct (perspective pm) eqn:Hp.
  - destruct (id mod 2 =? 0); [apply kept_refl|].
    destruct (statisticsFor _) as [rtt bw]. cbn. split_and!; try done.
    rewrite Hp. intros _ [=].
  - destruct (negb (id mod 2 =? 0)); [apply kept_refl|].
    destruct (statisticsFor _) as [rtt bw]. cbn. split_and!; try done.
    intros _ _ pth Hpth. cbn [paths set_paths].
    rewrite lookup_insert_ne; [done|]. congruence.
Qed.

Lemma call_kept pm c : kept pm (call sendPing pm c).
Proof.
  destruct c; cbn [call].
  - apply createPath_kept.
  - apply createPaths_kept.
  - apply createPathFromRemote_kept.
  - unfold handleAddAddressFrame.
    destruct (ipVersion =? 4); [|destruct (ipVersion =? 6)];
      try apply kept_refl;
      (destruct (createPathsAllowed _);
       [eapply kept_trans; [|apply createPaths_kept]|]; by repeat split).
Qed.

Lemma run_kept pm cs : kept pm (run sendPing pm cs).
Proof.
  revert pm. induction cs as [|c cs IH]; intros pm; [apply kept_refl|].
  eapply kept_trans; [apply call_kept|apply IH].
Qed.

Lemma setup_parity persp allowed locals connLocal connRemote :
  counterParity (setup persp allowed locals connLocal connRemote).
Proof. by destruct persp. Qed.

(** C8, as the code has it.  The path manager is set up with the initial
    path at ID 0 and the counter of local path IDs at 1 on a client and at
    2 on a server.  After any sequence of calls the counter is odd on a
    client and even on a server, and a client still has its path 0.
    [createPath] gives a new path the counter as its ID and advances the
    counter by 2 modulo 256, so the paths a client creates have odd IDs; a
    server's [createPaths] creates no path.  [createPathFromRemote]
    changes nothing when it fails, and it fails exactly for an ID that
    exists already, for an odd ID on a client and for an even ID on a
    server; otherwise the new path is stored under the received ID. *)
Theorem path_id_parity persp allowed locals connLocal connRemote cs :
  let pm0 := setup persp allowed locals connLocal connRemote in
  let pm := run sendPing pm0 cs in
  (pathID <$> paths pm0 !! 0 = Some 0
   /\ nxtPathID pm0
      = match persp with PerspectiveClient => 1 | PerspectiveServer => 2 end)
  /\ perspective pm = persp
  /\ nxtPathID pm mod 2
     = match persp with PerspectiveClient => 1 | PerspectiveServer => 0 end
  /\ match persp with
     | PerspectiveClient => paths pm !! 0 = paths pm0 !! 0
     | PerspectiveServer =>
       paths (createPaths sendPing pm).2 = paths pm
       /\ nxtPathID (createPaths sendPing pm).2 = nxtPathID pm
     end
  /\ (forall locAddr remAddr,
        let pm' := (createPath sendPing pm locAddr remAddr).2 in
        if pathExists pm (addrString locAddr) (addrString remAddr)
        then pm' = pm
        else pathID <$> paths pm' !! nxtPathID pm = Some (nxtPathID pm)
             /\ nxtPathID pm' = uint8 (nxtPathID pm + 2))
  /\ (forall rcvLocal remote id,
        let r := createPathFromRemote pm rcvLocal remote id in
        match r.1 with
        | inl e =>
          r.2 = pm
          /\ match paths pm !! id with
             | Some _ => e = errPathExists
             | None =>
               match persp with
               | PerspectiveClient => e = errOddFromServer /\ id mod 2 = 1
               | PerspectiveServer => e = errEvenFromClient /\ id mod 2 = 0
               end
             end
        | inr pth =>
          paths pm !! id = None
          /\ id mod 2
             = match persp with PerspectiveClient => 0 | PerspectiveServer => 1 end
          /\ pathID pth = id
          /\ paths r.2 !! id = Some pth
          /\ nxtPathID r.2 = nxtPathID pm
        end).
Proof.
  intros pm0 pm.
  destruct (run_kept pm0 cs) as (Hp & Hc & Hi). fold pm in Hp, Hc, Hi.
  pose proof (setup_parity persp allowed locals connLocal connRemote) as Hc0.
  fold pm0 in Hc0. specialize (Hc Hc0). specialize (Hi Hc0).
  assert (Hpersp : perspective pm = persp) by (rewrite Hp; reflexivity).
  split_and!.
  - reflexivity.
  - reflexivity.
  - exact Hpersp.
  - unfold counterParity in Hc. by rewrite Hpersp in Hc.
  - destruct persp.
    + unfold createPaths. rewrite Hpersp. by split.
    + rewrite (Hi eq_refl _ eq_refl). reflexivity.
  - intros locAddr remAddr. unfold createPath.
    destruct (pathExists pm _ _); [reflexivity|].
    destruct (statisticsFor _) as [rtt bw]. cbn [snd set_paths paths nxtPathID].
    split; [|reflexivity]. by rewrite lookup_insert_eq.
  - intros rcvLocal remote id. unfold createPathFromRemote.
    destruct (paths pm !! id) eqn:Hl; [by split|].
    rewrite Hpersp.
    pose proof (Z.mod_pos_bound id 2 ltac:(lia)) as Hb.
    destruct persp.
    + destruct (id mod 2 =? 0) eqn:Hm.
      * cbn. split_and!; try done. lia.
      * destruct (statisticsFor _) as [rtt bw].
        cbn [fst snd set_paths paths nxtPathID pathID].
        split_and!; try done; [lia|by rewrite lookup_insert_eq].
    + destruct (id mod 2 =? 0) eqn:Hm; cbn [negb].
      * destruct (statisticsFor _) as [rtt bw].
        cbn [fst snd set_paths paths nxtPathID pathID].
        split_and!; try done; [lia|by rewrite lookup_insert_eq].
      * cbn. split_and!; try done. lia.
Qed.

End Facts.
End PathManagerFacts.

Section PathManagerScenarios.

Import PathManager Scenario PathManagerFacts.

(** C8 on a client that created one path and then receives a packet on
    path 2. *)
Lemma path_id_parity_witness :
  let pm := run pingSent (setup PerspectiveClient true [clientAddr] "10.0.0.1:4242" (Some serverAddr))
              [CallCreatePath otherClientAddr serverAddr] in
  nxtPathID pm mod 2 = 1
  /\ (createPathFromRemote pm "10.0.0.1:4242" serverAddr 2).1
     = inr {| pathID := 2; localAddr := "10.0.0.1:4242";
              remoteAddr := "10.0.2.2:6121";
              initialRTT := 0; initialBandwidth := 0 |}.
Proof.
  pose proof (path_id_parity pingSent PerspectiveClient true [clientAddr]
                "10.0.0.1:4242" (Some serverAddr)
                [CallCreatePath otherClientAddr serverAddr]) as H.
  cbv zeta in H. destruct H as (_ & _ & Hn & _ & _ & _).
  split; [exact Hn|]. vm_compute. reflexivity.
Defined.

(** C8 fails as stated: the first path a client creates has ID 1, an odd
    number, and its counter goes on to 3; a server refuses ID 2 from its
    client and accepts ID 1. *)
Lemma client_creates_odd_path_ids :
  let client := setup PerspectiveClient true [clientAddr] "10.0.0.1:4242"
                  (Some serverAddr) in
  let server := setup PerspectiveServer true [serverAddr] "10.0.2.2:6121"
                  None in
  let created := createPath pingSent client otherClientAddr serverAddr in
  nxtPathID client = 1
  /\ created.1 = None
  /\ pathID <$> paths created.2 !! 1 = Some 1
  /\ Z.even 1 = false
  /\ nxtPathID created.2 = 3
  /\ (createPathFromRemote server "10.0.2.2:6121" clientAddr 2).1
     = inl errEvenFromClient
  /\ pathID <$> sum_rect (fun _ => option path) (fun _ => None) Some
                  (createPathFromRemote server "10.0.2.2:6121" clientAddr 1).1
     = Some 1.
Proof. vm_compute. by repeat split. Qed.

End PathManagerScenarios.

(** ** The bandwidth statistics *)

Module BandwidthFacts.

Import Congestion.

Lemma raiseToWindow_bounds window : forall bw,
  bw <= raiseToWindow bw window
  /\ Forall (fun x => x <= raiseToWindow bw window) window
  /\ (raiseToWindow bw window = bw \/ raiseToWindow bw window ∈ window).
Proof.
  unfold raiseToWindow.
  induction window as [|x window IH]; intros bw; cbn [fold_left].
  - split_and!; [lia|constructor|by left].
  - destruct (IH (if bw <? x then x else bw)) as (Hle & Hall & Hin).
    destruct (Z.ltb_spec bw x) as [Hlt|Hge].
    + split_and!; [lia|by constructor|].
      destruct Hin as [->|Hin]; right; [left|by right].
    + split_and!; [lia|constructor; [lia|done]|].
      destruct Hin as [Hin|Hin]; [by left|right; by right].
Qed.

(** C9, as the code has it.  [UpdateBDW] returns with the statistics
    unchanged, whatever the sample, because its update is behind a flag
    that is set to disable it; [GetBandwidth] is the estimate divided by
    2^20.  The update behind the flag, on a ring of 10 entries, fails only
    for a zero delay; otherwise it stores the sample (bytes times one
    second over the delay, times 8 for bits, in 64-bit arithmetic) at the
    ring index, keeps 10 entries, moves the index on by one modulo 10, and
    raises the estimate to the largest ring entry when that exceeds it, so
    the estimate never falls. *)
Theorem UpdateBDW_is_disabled (b : BDWStats) (sentDelta : Z)
  (sentDelay : Duration)
  (Hring : length (compareWindow b) = 10%nat) :
  UpdateBDW b sentDelta sentDelay = Some b
  /\ GetBandwidth b = bandwidth b / 2 ^ 20
  /\ match updateBlock b sentDelta sentDelay with
     | None => uint64 sentDelay = 0
     | Some b' =>
       let sample :=
         uint64 (uint64 (uint64 sentDelta * uint64 Second) / uint64 sentDelay
                 * 8) in
       uint64 sentDelay <> 0
       /\ length (compareWindow b') = 10%nat
       /\ compareWindow b' !! Z.to_nat (roundRobinIndex b mod 10) = Some sample
       /\ (forall i, i <> Z.to_nat (roundRobinIndex b mod 10) ->
           compareWindow b' !! i = compareWindow b !! i)
       /\ roundRobinIndex b' = uint8 (roundRobinIndex b + 1) mod 10
       /\ bandwidth b <= bandwidth b'
       /\ Forall (fun x => x <= bandwidth b') (compareWindow b')
       /\ (bandwidth b' = bandwidth b \/ bandwidth b' ∈ compareWindow b')
     end.
Proof.
  split_and!; [reflexivity|reflexivity|].
  unfold updateBlock. destruct (uint64 sentDelay =? 0) eqn:Hz; [lia|].
  rewrite Hring. change (uint8 (Z.of_nat 10)) with 10.
  cbn [compareWindow roundRobinIndex bandwidth].
  pose proof (Z.mod_pos_bound (roundRobinIndex b) 10 ltac:(lia)) as Hb.
  destruct (raiseToWindow_bounds
              (<[Z.to_nat (roundRobinIndex b mod 10) :=
                   uint64 (uint64 (uint64 sentDelta * uint64 Second)
                           / uint64 sentDelay * BytesPerSecond)]>
                 (compareWindow b)) (bandwidth b)) as (Hle & Hall & Hin).
  split_and!; try done.
  - lia.
  - by rewrite length_insert.
  - apply list_lookup_insert_eq. rewrite Hring. lia.
  - intros i Hi. by apply list_lookup_insert_ne.
Qed.

End BandwidthFacts.

Section BandwidthScenarios.

Import Congestion Scenario BandwidthFacts.

(** C9 on fresh statistics of 20 Mbit/s and a sample of 1000 bytes in one
    millisecond. *)
Lemma UpdateBDW_is_disabled_witness :
  UpdateBDW (NewBDWStats (20 * 1048576)) 1000 Millisecond
  = Some (NewBDWStats (20 * 1048576))
  /\ GetBandwidth (NewBDWStats (20 * 1048576)) = 20.
Proof.
  destruct (UpdateBDW_is_disabled (NewBDWStats (20 * 1048576)) 1000
              Millisecond eq_refl) as (Hu & Hg & _).
  split; [exact Hu|]. rewrite Hg. reflexivity.
Defined.

(** C9 fails as stated: after an update with a sample of 8,000,000 bit/s
    on fresh statistics, the ring holds only zeros and the reported
    bandwidth is 0, where the maximum over a ring with the sample would
    be reported as 7. *)
Lemma UpdateBDW_stores_no_sample :
  UpdateBDW (NewBDWStats 0) 1000 Millisecond
  = Some {| bandwidth := 0;
            compareWindow := [0; 0; 0; 0; 0; 0; 0; 0; 0; 0];
            roundRobinIndex := 0 |}
  /\ 1000 * Second / Millisecond * BytesPerSecond = 8000000
  /\ 8000000 / 1048576 = 7
  /\ GetBandwidth <$> UpdateBDW (NewBDWStats 0) 1000 Millisecond = Some 0.
Proof. vm_compute. by repeat split. Qed.

End BandwidthScenarios.

(** ** Protocol versions *)

Module VersionFacts.

Import Version.

Lemma tag_of_digits d2 d1 d0 :
  0 <= d2 < 10 -> 0 <= d1 < 10 -> 0 <= d0 < 10 ->
  VersionTagToNumber
    (uint32 (uint32 (uint32 (81 + shl32 (uint32 (d2 + 48)) 8)
                     + shl32 (uint32 (d1 + 48)) 16)
             + shl32 (uint32 (d0 + 48)) 24))
  = 100 * d2 + 10 * d1 + d0.
Proof.
  intros H2 H1 H0.
  assert (Hd : forall d, 0 <= d < 10 ->
            d = 0 \/ d = 1 \/ d = 2 \/ d = 3 \/ d = 4 \/ d = 5 \/ d = 6
            \/ d = 7 \/ d = 8 \/ d = 9) by (intros; lia).
  destruct (Hd d2 H2) as [->|[->|[->|[->|[->|[->|[->|[->|[->| ->]]]]]]]]];
  destruct (Hd d1 H1) as [->|[->|[->|[->|[->|[->|[->|[->|[->| ->]]]]]]]]];
  destruct (Hd d0 H0) as [->|[->|[->|[->|[->|[->|[->|[->|[->| ->]]]]]]]]];
  vm_compute; reflexivity.
Qed.

Lemma decimal_digits v :
  0 <= v -> 100 * (v / 100 mod 10) + 10 * (v / 10 mod 10) + v mod 10
            = v mod 1000.
Proof.
  intros Hv.
  pose proof (Z.div_mod v 10 ltac:(lia)).
  pose proof (Z.div_mod (v / 10) 10 ltac:(lia)).
  pose proof (Z.div_mod (v / 100) 10 ltac:(lia)).
  pose proof (Z.div_mod v 1000 ltac:(lia)).
  assert (v / 10 / 10 = v / 100) by (rewrite Z.div_div by lia; reflexivity).
  assert (v / 100 / 10 = v / 1000) by (rewrite Z.div_div by lia; reflexivity).
  pose proof (Z.mod_pos_bound v 10 ltac:(lia)).
  pose proof (Z.mod_pos_bound (v / 10) 10 ltac:(lia)).
  pose proof (Z.mod_pos_bound (v / 100) 10 ltac:(lia)).
  pose proof (Z.mod_pos_bound v 1000 ltac:(lia)).
  lia.
Qed.

(** The tag of a version number names its last three decimal digits:
    [VersionTagToNumber] gives back the number's low 32 bits modulo 1000,
    so a version from 0 to 999 comes back as it was, and two such versions
    with the same tag are the same. *)
Theorem version_tag_round_trip :
  (forall vn, VersionTagToNumber (VersionNumberToTag vn) = uint32 vn mod 1000)
  /\ (forall vn, 0 <= vn < 1000 ->
        VersionTagToNumber (VersionNumberToTag vn) = vn)
  /\ (forall vn vn', 0 <= vn < 1000 -> 0 <= vn' < 1000 ->
        VersionNumberToTag vn = VersionNumberToTag vn' -> vn = vn').
Proof.
  assert (Hgen : forall vn,
            VersionTagToNumber (VersionNumberToTag vn) = uint32 vn mod 1000).
  { intros vn. unfold VersionNumberToTag.
    assert (Hv : 0 <= uint32 vn) by (apply Z.mod_pos_bound; lia).
    rewrite tag_of_digits by (apply Z.mod_pos_bound; lia).
    by apply decimal_digits. }
  assert (Hsmall : forall vn, 0 <= vn < 1000 ->
            VersionTagToNumber (VersionNumberToTag vn) = vn).
  { intros vn Hvn. rewrite Hgen. unfold uint32, wrapU.
    rewrite (Z.mod_small vn (2 ^ 32)) by lia. apply Z.mod_small. lia. }
  split_and!; [exact Hgen|exact Hsmall|].
  intros vn vn' Hvn Hvn' Heq.
  rewrite <- (Hsmall vn Hvn), <- (Hsmall vn' Hvn'). by rewrite Heq.
Qed.

Lemma IsSupportedVersion_In supported v :
  IsSupportedVersion supported v = true <-> v ∈ supported.
Proof.
  induction supported as [|t rest IH]; cbn [IsSupportedVersion].
  - split; [discriminate|]. by intros ?%elem_of_nil.
  - rewrite elem_of_cons. destruct (Z.eqb_spec t v) as [->|Hne].
    + split; [by left|done].
    + rewrite IH. split; [by right|]. by intros [?|?]; [congruence|].
Qed.

Lemma offeredBy_spec theirs ourVer :
  match offeredBy theirs ourVer with
  | Some v => v = ourVer /\ ourVer ∈ theirs
  | None => ourVer ∉ theirs
  end.
Proof.
  induction theirs as [|t rest IH]; cbn [offeredBy].
  - apply not_elem_of_nil.
  - destruct (Z.eqb_spec ourVer t) as [->|Hne].
    + split; [done|left].
    + destruct (offeredBy rest ourVer).
      * destruct IH as [-> Hin]. split; [done|by right].
      * by intros [?|?]%elem_of_cons.
Qed.

(** [ChooseSupportedVersion] returns the first of our versions that the
    peer offers: everything before it in our list is not offered, and it
    is supported by both sides.  When no version of ours is offered it
    returns [VersionUnsupported]. *)
Theorem ChooseSupportedVersion_first_common ours theirs :
  let v := ChooseSupportedVersion ours theirs in
  (exists pre post,
     ours = pre ++ v :: post
     /\ Forall (fun x => x ∉ theirs) pre
     /\ IsSupportedVersion ours v = true
     /\ IsSupportedVersion theirs v = true)
  \/ (v = VersionUnsupported /\ Forall (fun x => x ∉ theirs) ours).
Proof.
  induction ours as [|o rest IH]; cbn [ChooseSupportedVersion].
  - right. by split.
  - pose proof (offeredBy_spec theirs o) as Ho.
    destruct (offeredBy theirs o) as [v|].
    + destruct Ho as [-> Hin]. left. exists [], rest. split_and!; try done.
      * apply IsSupportedVersion_In. left.
      * by apply IsSupportedVersion_In.
    + destruct IH as [(pre & post & Heq & Hpre & Hs1 & Hs2)|[Hun Hall]].
      * left. exists (o :: pre), post. split_and!.
        -- cbn. by rewrite <- Heq.
        -- by constructor.
        -- apply IsSupportedVersion_In. right.
           by apply IsSupportedVersion_In.
        -- exact Hs2.
      * right. split; [exact Hun|by constructor].
Qed.

(** The order of the peer's versions does not matter, nor do repetitions:
    two offers with the same versions give the same choice. *)
Lemma ChooseSupportedVersion_offer_order ours theirs theirs' :
  (forall v, v ∈ theirs <-> v ∈ theirs') ->
  ChooseSupportedVersion ours theirs = ChooseSupportedVersion ours theirs'.
Proof.
  intros Hsame. induction ours as [|o rest IH]; cbn [ChooseSupportedVersion];
    [done|].
  pose proof (offeredBy_spec theirs o) as Ho.
  pose proof (offeredBy_spec theirs' o) as Ho'.
  destruct (offeredBy theirs o) as [v|], (offeredBy theirs' o) as [v'|].
  - destruct Ho as [-> _], Ho' as [-> _]. done.
  - destruct Ho as [_ Hin]. by apply Hsame in Hin.
  - destruct Ho' as [_ Hin]. by apply Hsame in Hin.
  - exact IH.
Qed.

End VersionFacts.

Section VersionScenarios.

Import Version VersionFacts.

Lemma version_tag_round_trip_witness :
  VersionTagToNumber (VersionNumberToTag VersionMP) = VersionMP
  /\ VersionNumberToTag Version39 <> VersionNumberToTag VersionMP.
Proof.
  destruct version_tag_round_trip as (_ & Hsmall & Hinj).
  split.
  - apply Hsmall. unfold VersionMP. lia.
  - intros Heq. apply Hinj in Heq; [discriminate| |];
      unfold Version39, Version37, VersionMP; lia.
Defined.

End VersionScenarios.

(** ** Frames on the wire *)

Lemma Zgtb_le x y : x <= y -> (x >? y) = false.
Proof. intros. destruct (Z.gtb_spec x y); [lia|done]. Qed.

Lemma Zgtb_gt x y : y < x -> (x >? y) = true.
Proof. intros. destruct (Z.gtb_spec x y); [done|lia]. Qed.

Module FrameCodecFacts.

Import FrameCodec.

Lemma ReadFull_exact phrase rest :
  ReadFull (phrase ++ rest) (length phrase) = inr (phrase, rest).
Proof.
  unfold ReadFull. destruct phrase as [|b phrase]; [done|].
  cbn [length Nat.eqb app].
  replace (S (length (phrase ++ rest)) <? S (length phrase))%nat with false.
  - change (b :: phrase ++ rest) with ((b :: phrase) ++ rest).
    change (S (length phrase)) with (length (b :: phrase)).
    by rewrite take_app_length, drop_app_length.
  - symmetry. apply Nat.ltb_ge. rewrite length_app. lia.
Qed.

Lemma ReadFull_short r n :
  (length r < n)%nat -> exists e, ReadFull r n = inl e.
Proof.
  intros Hlt. unfold ReadFull.
  destruct (Nat.eqb_spec n 0); [lia|].
  destruct (length r =? 0)%nat; [by eexists|].
  apply Nat.ltb_lt in Hlt. rewrite Hlt. by eexists.
Qed.

Section Facts.

Variable GetByteOrder : Z -> ByteOrder.
Context `{!Protocol}.
Hypothesis orders_lawful : forall version, lawful (GetByteOrder version).

(** A BLOCKED frame is written without error in the five bytes of its
    [MinLength], and parsing those bytes gives the frame back and leaves
    the reader after them; on fewer than five bytes the parser fails. *)
Theorem blocked_frame_round_trip (f : Wire.BlockedFrame) (version : Z)
  (rest : list Byte.byte) :
  0 <= Wire.blockedStreamID f < 2 ^ 32 ->
  let written := WriteBlockedFrame GetByteOrder f version in
  written.1 = None
  /\ Z.of_nat (length written.2) = (BlockedFrameMinLength f version).1
  /\ ParseBlockedFrame GetByteOrder (written.2 ++ rest) version = inr (f, rest)
  /\ forall r, (length r < 5)%nat ->
       exists e, ParseBlockedFrame GetByteOrder r version = inl e.
Proof.
  intros Hsid written. destruct (orders_lawful version) as [H32 _ Hl32 _ Hs32 _].
  subst written. unfold WriteBlockedFrame, ParseBlockedFrame. cbn [fst snd].
  split_and!.
  - reflexivity.
  - rewrite length_app, Hl32. reflexivity.
  - cbn [app ReadByte]. unfold uint32, wrapU.
    rewrite Z.mod_small by exact Hsid. rewrite H32 by exact Hsid.
    by destruct f.
  - intros r Hr. destruct r as [|b r]; cbn [ReadByte]; [by eexists|].
    destruct (Hs32 r) as [e ->]; [cbn [length] in Hr; lia|]. by eexists.
Qed.

(** A CONNECTION_CLOSE frame whose reason phrase has at most 65535 bytes
    and at most [uint16(MaxPacketSize)] bytes is written without error in
    the bytes of its [MinLength], and parsing those bytes gives the frame
    back and leaves the reader after them. *)
Theorem connection_close_round_trip (f : ConnectionCloseFrame) (version : Z)
  (rest : list Byte.byte) :
  0 <= ErrorCode f < 2 ^ 32 ->
  Z.of_nat (length (list_byte_of_string (ReasonPhrase f))) <= MaxUint16 ->
  Z.of_nat (length (list_byte_of_string (ReasonPhrase f)))
  <= wrapU 16 MaxPacketSize ->
  let written := WriteConnectionCloseFrame GetByteOrder f version in
  written.1 = None
  /\ Z.of_nat (length written.2) = (ConnectionCloseMinLength f version).1
  /\ ParseConnectionCloseFrame GetByteOrder (written.2 ++ rest) version
     = inr (f, rest).
Proof.
  intros Hcode Hlen Hmax written.
  destruct (orders_lawful version) as [H32 H16 Hl32 Hl16 _ _].
  subst written. unfold WriteConnectionCloseFrame, ParseConnectionCloseFrame.
  set (phrase := list_byte_of_string (ReasonPhrase f)) in *.
  unfold MaxUint16 in *.
  assert (Hu : uint32 (ErrorCode f) = ErrorCode f)
    by (apply Z.mod_small; exact Hcode).
  assert (Hw : wrapU 16 (Z.of_nat (length phrase)) = Z.of_nat (length phrase))
    by (apply Z.mod_small; lia).
  rewrite Hu, Hw, Zgtb_le by lia.
  cbn [fst snd]. split_and!.
  - reflexivity.
  - rewrite !length_app, Hl32, Hl16. unfold ConnectionCloseMinLength.
    cbn [fst length]. fold phrase. unfold uint64, wrapU.
    rewrite Z.mod_small by lia. lia.
  - rewrite <- !app_assoc. cbn [app ReadByte].
    rewrite H32 by exact Hcode. rewrite H16 by lia.
    rewrite Zgtb_le by lia.
    rewrite Nat2Z.id, ReadFull_exact. subst phrase.
    rewrite string_of_list_byte_of_string. by destruct f.
Qed.

(** The limits of CONNECTION_CLOSE.  [Write] fails for a reason phrase of
    more than 65535 bytes, after it has put the type byte and the error
    code, five bytes, into the buffer.  The parser refuses a frame whose
    reason phrase is longer than [uint16(MaxPacketSize)], also one that
    [Write] has written without error, and it fails on every input that
    stops before the end of a written frame. *)
Theorem connection_close_limits (f : ConnectionCloseFrame) (version : Z) :
  0 <= ErrorCode f < 2 ^ 32 ->
  let phraseLen := Z.of_nat (length (list_byte_of_string (ReasonPhrase f))) in
  let written := WriteConnectionCloseFrame GetByteOrder f version in
  (MaxUint16 < phraseLen ->
   written.1 = Some errReasonPhraseTooLong /\ length written.2 = 5%nat)
  /\ (phraseLen <= MaxUint16 -> wrapU 16 MaxPacketSize < phraseLen ->
      forall rest,
        written.1 = None
        /\ ParseConnectionCloseFrame GetByteOrder (written.2 ++ rest) version
           = inl InvalidConnectionCloseData)
  /\ (phraseLen <= MaxUint16 ->
      forall n, (n < length written.2)%nat ->
        exists e,
          ParseConnectionCloseFrame GetByteOrder (take n written.2) version
          = inl e).
Proof.
  intros Hcode phraseLen written.
  destruct (orders_lawful version) as [H32 H16 Hl32 Hl16 Hs32 Hs16].
  subst written phraseLen.
  unfold WriteConnectionCloseFrame, ParseConnectionCloseFrame.
  set (phrase := list_byte_of_string (ReasonPhrase f)) in *.
  unfold MaxUint16 in *.
  assert (Hu : uint32 (ErrorCode f) = ErrorCode f)
    by (apply Z.mod_small; exact Hcode).
  rewrite Hu.
  assert (Hw : Z.of_nat (length phrase) <= 65535 ->
               wrapU 16 (Z.of_nat (length phrase)) = Z.of_nat (length phrase))
    by (intros; apply Z.mod_small; lia).
  split_and!.
  - intros Hlong. rewrite Zgtb_gt by lia.
    cbn [fst snd]. split; [reflexivity|]. by rewrite length_app, Hl32.
  - intros Hlen Hmax rest. rewrite Zgtb_le by lia. rewrite (Hw Hlen).
    cbn [fst snd]. split; [reflexivity|].
    rewrite <- !app_assoc. cbn [app ReadByte]. rewrite H32 by exact Hcode.
    rewrite H16 by lia. by rewrite Zgtb_gt by lia.
  - intros Hlen n. rewrite Zgtb_le by lia. rewrite (Hw Hlen).
    cbn [fst snd].
    set (code := WriteUint32 (ErrorCode f)).
    set (len := WriteUint16 (Z.of_nat (length phrase))).
    assert (Hcl : length code = 4%nat) by apply Hl32.
    assert (Hll : length len = 2%nat) by apply Hl16.
    rewrite !length_app, Hcl, Hll. cbn [length]. intros Hn.
    destruct n as [|n]; [by eexists|].
    cbn [app take ReadByte].
    destruct (decide (n < 4)%nat) as [Hn4|Hn4].
    { destruct (Hs32 (take n (code ++ len ++ phrase))) as [e ->];
        [rewrite length_take; lia|by eexists]. }
    rewrite take_app_ge by lia. rewrite Hcl. unfold code.
    rewrite H32 by exact Hcode.
    destruct (decide (n - 4 < 2)%nat) as [Hn2|Hn2].
    { destruct (Hs16 (take (n - 4) (len ++ phrase))) as [e ->];
        [rewrite length_take; lia|by eexists]. }
    rewrite take_app_ge by lia. rewrite Hll. unfold len. rewrite H16 by lia.
    destruct (_ >? wrapU 16 MaxPacketSize); [by eexists|].
    destruct (ReadFull_short (take (n - 4 - 2) phrase)
                (Z.to_nat (Z.of_nat (length phrase)))) as [e ->];
      [rewrite length_take, Nat2Z.id; lia|by eexists].
Qed.

End Facts.
End FrameCodecFacts.

Section FrameCodecScenarios.

Import FrameCodec Scenario FrameCodecFacts.

#[local] Existing Instance exampleProtocol.

Lemma valueOf_byteOf x : valueOf (byteOf x) = x mod 256.
Proof.
  unfold valueOf, byteOf.
  pose proof (Z.mod_pos_bound x 256 ltac:(lia)) as Hb.
  destruct (Byte.of_N (Z.to_N (x mod 256))) as [b|] eqn:Hof.
  - apply Byte.to_of_N in Hof. unfold default. cbn [from_option id].
    rewrite Hof. lia.
  - apply Byte.of_N_None_iff in Hof. lia.
Qed.

Lemma four_bytes x :
  0 <= x < 2 ^ 32 ->
  (x / 2 ^ 24) mod 256 * 2 ^ 24 + (x / 2 ^ 16) mod 256 * 2 ^ 16
  + (x / 2 ^ 8) mod 256 * 2 ^ 8 + x mod 256 = x.
Proof.
  intros Hx.
  pose proof (Z.div_mod x 256 ltac:(lia)).
  pose proof (Z.div_mod (x / 256) 256 ltac:(lia)).
  pose proof (Z.div_mod (x / 65536) 256 ltac:(lia)).
  assert (x / 256 / 256 = x / 65536) by (rewrite Z.div_div by lia; done).
  assert (x / 65536 / 256 = x / 16777216) by (rewrite Z.div_div by lia; done).
  assert (0 <= x / 16777216 < 256)
    by (split; [apply Z.div_pos; lia|apply Z.div_lt_upper_bound; lia]).
  change (2 ^ 24) with 16777216. change (2 ^ 16) with 65536.
  change (2 ^ 8) with 256.
  rewrite (Z.mod_small (x / 16777216)) by lia. lia.
Qed.

Lemma two_bytes x :
  0 <= x < 2 ^ 16 -> (x / 2 ^ 8) mod 256 * 2 ^ 8 + x mod 256 = x.
Proof.
  intros Hx. change (2 ^ 8) with 256.
  pose proof (Z.div_mod x 256 ltac:(lia)).
  assert (0 <= x / 256 < 256)
    by (split; [apply Z.div_pos; lia|apply Z.div_lt_upper_bound; lia]).
  rewrite (Z.mod_small (x / 256)) by lia. lia.
Qed.

Lemma bigEndian_lawful : lawful bigEndian.
Proof.
  split; cbn.
  - intros x rest Hx. rewrite !valueOf_byteOf.
    by rewrite (four_bytes x Hx).
  - intros x rest Hx. rewrite !valueOf_byteOf. by rewrite (two_bytes x Hx).
  - done.
  - done.
  - intros [|?[|?[|?[|? r]]]] Hr; cbn [length] in Hr; try lia; by eexists.
  - intros [|?[|? r]] Hr; cbn [length] in Hr; try lia; by eexists.
Qed.

Lemma littleEndian_lawful : lawful littleEndian.
Proof.
  split; cbn.
  - intros x rest Hx. rewrite !valueOf_byteOf.
    pose proof (four_bytes x Hx). do 2 f_equal. lia.
  - intros x rest Hx. rewrite !valueOf_byteOf.
    pose proof (two_bytes x Hx). do 2 f_equal. lia.
  - done.
  - done.
  - intros [|?[|?[|?[|? r]]]] Hr; cbn [length] in Hr; try lia; by eexists.
  - intros [|?[|? r]] Hr; cbn [length] in Hr; try lia; by eexists.
Qed.

Lemma orderOfVersion_lawful version : lawful (orderOfVersion version).
Proof.
  unfold orderOfVersion.
  destruct (_ || _); [apply littleEndian_lawful|apply bigEndian_lawful].
Qed.

Lemma blocked_frame_round_trip_witness :
  ParseBlockedFrame orderOfVersion
    ((WriteBlockedFrame orderOfVersion {| Wire.blockedStreamID := 5 |} 39).2
     ++ [Byte.x07]) 39
  = inr ({| Wire.blockedStreamID := 5 |}, [Byte.x07]).
Proof.
  apply (blocked_frame_round_trip orderOfVersion orderOfVersion_lawful
           {| Wire.blockedStreamID := 5 |} 39 [Byte.x07]).
  cbn. lia.
Defined.

Lemma connection_close_round_trip_witness :
  ParseConnectionCloseFrame orderOfVersion
    ((WriteConnectionCloseFrame orderOfVersion
        {| ErrorCode := 25; ReasonPhrase := "no recent network activity" |}
        37).2 ++ [Byte.x07]) 37
  = inr ({| ErrorCode := 25; ReasonPhrase := "no recent network activity" |},
         [Byte.x07]).
Proof.
  apply (connection_close_round_trip orderOfVersion orderOfVersion_lawful
           {| ErrorCode := 25; ReasonPhrase := "no recent network activity" |}
           37 [Byte.x07]); [cbn; lia|vm_compute; congruence..].
Defined.

Lemma connection_close_limits_witness :
  exists e,
    ParseConnectionCloseFrame orderOfVersion
      (take 9 (WriteConnectionCloseFrame orderOfVersion
                 {| ErrorCode := 25; ReasonPhrase := "timeout" |} 39).2) 39
    = inl e.
Proof.
  assert (Hcode : 0 <= ErrorCode {| ErrorCode := 25; ReasonPhrase := "timeout" |}
                  < 2 ^ 32) by (cbn; lia).
  destruct (connection_close_limits orderOfVersion orderOfVersion_lawful
              {| ErrorCode := 25; ReasonPhrase := "timeout" |} 39 Hcode)
    as (_ & _ & Hcut).
  apply Hcut; vm_compute; [congruence|lia].
Defined.

End FrameCodecScenarios.

(** ** The stop-waiting manager *)

Module StopWaitingFacts.

Import AckHandler StopWaiting.

Lemma call_consistent s c :
  0 <= after c < 2 ^ 64 -> consistent s ->
  consistent (call s c)
  /\ nextLeastUnacked (call s c) = Z.max (nextLeastUnacked s) (after c).
Proof.
  intros Hc Hs. pose proof Hs as ((Hl & Hn) & Hf).
  destruct c as [force|ack|p]; cbn [call after] in *.
  - unfold swmGetStopWaitingFrame.
    destruct (Z.leb_spec (nextLeastUnacked s) (largestLeastUnackedSent s)).
    + assert (largestLeastUnackedSent s = nextLeastUnacked s) by lia.
      destruct force; [|cbn; split; [exact Hs|lia]].
      destruct (lastStopWaitingFrame s) as [f|] eqn:Hlast;
        [cbn; split; [exact Hs|lia]|].
      rewrite Hf. cbn. split; [exact Hs|lia].
    + cbn. split; [|lia]. unfold consistent. cbn. lia.
  - unfold swmReceivedAck.
    destruct (Z.geb_spec (Wire.LargestAcked ack) (nextLeastUnacked s)).
    + cbn. rewrite uint64_small by lia. split; [|lia].
      unfold consistent. cbn. split; [lia|exact Hf].
    + split; [exact Hs|lia].
  - unfold QueuedRetransmissionForPacketNumber.
    destruct (Z.geb_spec p (nextLeastUnacked s)).
    + cbn. rewrite uint64_small by lia. split; [|lia].
      unfold consistent. cbn. split; [lia|exact Hf].
    + split; [exact Hs|lia].
Qed.

Lemma run_consistent cs : forall s,
  Forall (fun c => 0 <= after c < 2 ^ 64) cs -> consistent s ->
  consistent (run s cs)
  /\ nextLeastUnacked (run s cs)
     = Z.max (nextLeastUnacked s) (foldr Z.max 0 (after <$> cs)).
Proof.
  induction cs as [|c cs IH]; intros s Hcs Hs.
  - cbn. split; [exact Hs|]. destruct Hs as ((? & ?) & _). lia.
  - apply Forall_cons in Hcs as [Hc Hcs].
    destruct (call_consistent s c Hc Hs) as [Hs' Hn'].
    destruct (IH (call s c) Hcs Hs') as [Hr Hn]. split; [exact Hr|].
    change (run s (c :: cs)) with (run (call s c) cs).
    rewrite Hn, Hn'. cbn [fmap list_fmap foldr]. lia.
Qed.

(** From a new manager, and as long as packet numbers stay below 2^64 - 1:
    [nextLeastUnacked] is one more than the largest packet number that an
    ACK has acknowledged or that was queued for retransmission; every
    STOP_WAITING frame that [GetStopWaitingFrame] returns, forced or not,
    carries exactly that value; an unforced call returns no frame exactly
    when that value was sent already; and right after a call that returned
    a frame, an unforced call returns none while a forced one returns the
    same frame again. *)
Theorem stop_waiting_least_unacked (cs : list Call) :
  Forall (fun c => 0 <= after c < 2 ^ 64) cs ->
  let s := run zero cs in
  nextLeastUnacked s = foldr Z.max 0 (after <$> cs)
  /\ (forall force f,
        (swmGetStopWaitingFrame s force).1 = Some f ->
        Wire.LeastUnacked f = nextLeastUnacked s
        /\ let s' := (swmGetStopWaitingFrame s force).2 in
           swmGetStopWaitingFrame s' false = (None, s')
           /\ swmGetStopWaitingFrame s' true = (Some f, s'))
  /\ ((swmGetStopWaitingFrame s false).1 = None
      <-> largestLeastUnackedSent s = nextLeastUnacked s).
Proof.
  intros Hcs s.
  assert (Hzero : consistent zero) by (unfold consistent; cbn; lia).
  destruct (run_consistent cs zero Hcs Hzero) as [((Hl & Hn) & Hf) Hnext].
  fold s in Hl, Hn, Hf, Hnext. split_and!.
  - rewrite Hnext. cbn.
    assert (0 <= foldr Z.max 0 (after <$> cs)); [|lia].
    clear. induction cs; cbn; lia.
  - intros force f. unfold swmGetStopWaitingFrame.
    destruct (Z.leb_spec (nextLeastUnacked s) (largestLeastUnackedSent s))
      as [Hle|Hlt].
    + assert (Heq : largestLeastUnackedSent s = nextLeastUnacked s) by lia.
      destruct force; [|discriminate].
      destruct (lastStopWaitingFrame s) as [f'|] eqn:Hlast.
      * intros [= <-]. cbn [fst snd]. split; [lia|].
        rewrite Heq, Z.leb_refl, Hlast. done.
      * rewrite Hf. cbn. discriminate.
    + intros [= <-]. cbn [fst snd nextLeastUnacked largestLeastUnackedSent
                          lastStopWaitingFrame].
      split; [done|]. by rewrite Z.leb_refl.
  - unfold swmGetStopWaitingFrame.
    destruct (Z.leb_spec (nextLeastUnacked s) (largestLeastUnackedSent s)).
    + cbn. split; [lia|done].
    + cbn. split; [discriminate|lia].
Qed.

End StopWaitingFacts.

Section StopWaitingScenarios.

Import AckHandler StopWaiting Scenario StopWaitingFacts.

Lemma stop_waiting_least_unacked_witness :
  let s := run zero [CallReceivedAck (ackOf 7 1 []);
                     CallGetStopWaitingFrame false;
                     CallQueuedRetransmissionForPacketNumber 9] in
  nextLeastUnacked s = 10
  /\ (swmGetStopWaitingFrame s false).1 = Some (newStopWaitingFrame 10).
Proof.
  intros s.
  assert (Hcs : Forall (fun c => 0 <= after c < 2 ^ 64)
                  [CallReceivedAck (ackOf 7 1 []);
                   CallGetStopWaitingFrame false;
                   CallQueuedRetransmissionForPacketNumber 9])
    by (repeat constructor; cbn; lia).
  destruct (stop_waiting_least_unacked _ Hcs) as (Hnext & _ & _).
  split; [exact Hnext|reflexivity].
Defined.

End StopWaitingScenarios.

(** ** More on the sent-packet handler *)

Module HandlerFacts.

Import Congestion AckHandler AckHandlerFacts.

Section Facts.

Context {C : Type} `{!SendAlgorithm C} `{!Protocol}.

Implicit Types h : sentPacketHandler C.
Implicit Types e : PacketElement.
Implicit Types els : list PacketElement.

(** *** The order of the history *)

(** After any sequence of calls on a new handler the packets of the
    history are in strictly ascending order of packet number, none above
    [lastSentPacketNumber]; so no packet number is in the history twice. *)
Theorem history_sorted_by_packet_number
  (cb : option (Time -> bool)) pid bdw (cong : C) (cs : list Call) :
  let h := run cb (NewSentPacketHandler pid bdw cong) cs in
  StronglySorted Z.lt (PacketNumber <$> history h)
  /\ Forall (fun p => PacketNumber p <= lastSentPacketNumber h) (history h)
  /\ NoDup (PacketNumber <$> history h).
Proof.
  intros h.
  assert (Hinv : invariant h) by apply run_invariant, New_invariant.
  destruct Hinv as (_ & _ & Hsorted & Hbound). unfold history.
  assert (Hs : StronglySorted Z.lt
                 (PacketNumber <$> (Value <$> elems (packetHistory h)))).
  { clear Hbound. induction Hsorted as [|e l _ IH Hall]; [constructor|].
    cbn. constructor; [exact IH|].
    rewrite Forall_fmap, Forall_fmap. exact Hall. }
  split_and!.
  - exact Hs.
  - rewrite Forall_fmap. exact Hbound.
  - clear -Hs. induction Hs as [|x l _ IH Hall]; [constructor|].
    constructor; [|exact IH]. rewrite Forall_forall in Hall.
    intros Hin. apply Hall in Hin. lia.
Qed.

(** *** The guards of the acknowledgement calls *)

(** [ReceivedAck] and [ReceivedClosePath] refuse a frame that acknowledges
    a packet number above [lastSentPacketNumber] with AckForUnsentPacket,
    and otherwise a frame carried by a packet number that is not above
    every earlier one with DuplicateOrOutOfOrderAck; these are the only
    cases of the two errors, and a call that fails with one of them leaves
    the handler as it was. *)
Theorem acknowledgement_guards h (ackFrame : Wire.AckFrame)
  (f : Wire.ClosePathFrame) (withPacketNumber : Z) (rcvTime now : Time) :
  let r := ReceivedAck h ackFrame withPacketNumber rcvTime now in
  let r' := ReceivedClosePath h f withPacketNumber rcvTime in
  (r.1 = Some errAckForUnsentPacket
   <-> lastSentPacketNumber h < Wire.LargestAcked ackFrame)
  /\ (r.1 = Some ErrDuplicateOrOutOfOrderAck
      <-> Wire.LargestAcked ackFrame <= lastSentPacketNumber h
          /\ withPacketNumber <= largestReceivedPacketWithAck h)
  /\ (r.1 = Some errAckForUnsentPacket \/ r.1 = Some ErrDuplicateOrOutOfOrderAck
      -> r.2 = h)
  /\ (r'.1 = Some errAckForUnsentPacket
      <-> lastSentPacketNumber h < Wire.cpLargestAcked f)
  /\ (r'.1 = Some ErrDuplicateOrOutOfOrderAck
      <-> Wire.cpLargestAcked f <= lastSentPacketNumber h
          /\ withPacketNumber <= largestReceivedPacketWithAck h)
  /\ (r'.1 = Some errAckForUnsentPacket
      \/ r'.1 = Some ErrDuplicateOrOutOfOrderAck -> r'.2 = h).
Proof.
  intros r r'.
  assert (Hack : forall err,
            (processAck (set_LargestAcked
                           (set_largestReceivedPacketWithAck h withPacketNumber)
                           (Wire.LargestAcked ackFrame)) ackFrame rcvTime now).1
            = Some err ->
            err <> errAckForUnsentPacket /\ err <> ErrDuplicateOrOutOfOrderAck).
  { intros err Herr. apply processAck_error in Herr as (? & ? & ? & ->).
    by split. }
  assert (Hclose : forall err,
            (processClosePath (set_largestReceivedPacketWithAck h withPacketNumber)
               f).1 = Some err ->
            err <> errAckForUnsentPacket /\ err <> ErrDuplicateOrOutOfOrderAck).
  { intros err. unfold processClosePath, determineNewlyAckedPacketsClosePath.
    destruct (newlyAcked_walk _ _ _ _ _ _ _) as [e|acked] eqn:Hw;
      [|discriminate].
    apply newlyAcked_walk_error in Hw as (? & ? & ? & ->).
    intros [= <-]. by split. }
  subst r r'. unfold ReceivedAck, ReceivedClosePath.
  destruct (Z.gtb_spec (Wire.LargestAcked ackFrame) (lastSentPacketNumber h));
  destruct (Z.gtb_spec (Wire.cpLargestAcked f) (lastSentPacketNumber h));
  destruct (Z.leb_spec withPacketNumber (largestReceivedPacketWithAck h));
  cbn [fst snd];
  repeat match goal with
  | |- _ /\ _ => split
  | |- _ <-> _ => split
  | |- _ -> _ => intros ?
  end;
  try done; try lia;
  repeat match goal with
  | H : _ /\ _ |- _ => destruct H
  | H : _ \/ _ |- _ => destruct H
  end; try lia; try discriminate;
  repeat match goal with
  | H : (if ?b then _ else _).1 = _ |- _ => destruct b; cbn [fst] in H
  | H : (processAck _ _ _ _).1 = Some _ |- _ => apply Hack in H as [? ?]
  | H : (processClosePath _ _).1 = Some _ |- _ => apply Hclose in H as [? ?]
  end; try done.
Qed.

(** *** Tracking and sending *)

(** [SendingAllowed] holds exactly when fewer than
    [MaxTrackedSentPackets] packets are tracked, in the history and the
    retransmission queue together, and the bytes in flight do not exceed
    the congestion window or a retransmission is waiting.  When it holds,
    [SentPacket] of a packet with a fresh number does not fail. *)
Theorem SendingAllowed_then_SentPacket h :
  let tracked :=
    Z.of_nat (length (retransmissionQueue h))
    + Z.of_nat (length (elems (packetHistory h))) in
  (SendingAllowed h = true
   <-> tracked < MaxTrackedSentPackets
       /\ (bytesInFlight h <= GetCongestionWindow (congestion h)
           \/ retransmissionQueue h <> []))
  /\ (SendingAllowed h = true ->
      forall (packet : Packet) now,
        lastSentPacketNumber h < PacketNumber packet ->
        (SentPacket h packet now).1 = None).
Proof.
  intros tracked.
  assert (Hiff : SendingAllowed h = true
     <-> tracked < MaxTrackedSentPackets
         /\ (bytesInFlight h <= GetCongestionWindow (congestion h)
             \/ retransmissionQueue h <> [])).
  { subst tracked. unfold SendingAllowed, Len.
    rewrite andb_true_iff, orb_true_iff, !negb_true_iff.
    rewrite Z.geb_leb, Z.leb_gt, gtb_false.
    assert (Hq : (Z.of_nat (length (retransmissionQueue h)) >? 0) = true
                 <-> retransmissionQueue h <> []).
    { destruct (retransmissionQueue h); cbn [length]; split; try done;
        try (intros _; apply Z.gtb_lt; lia). }
    by rewrite Hq. }
  split; [exact Hiff|].
  intros Hallowed packet now Hpn. apply Hiff in Hallowed as [Htracked _].
  rewrite SentPacket_ok; [done|exact Hpn|]. subst tracked. lia.
Qed.

(** A packet that carries nothing but ACK and STOP_WAITING frames is sent
    without being tracked: [SentPacket] returns no error, the history, the
    retransmission queue and [bytesInFlight] stay as they were, and the
    count of packets sent since the last retransmittable one goes up by
    one; a packet with a retransmittable frame resets that count, so
    that no retransmittable packet is due while the limit is positive. *)
Theorem SentPacket_of_acknowledgements h (packet : Packet) (now : Time) :
  lastSentPacketNumber h < PacketNumber packet ->
  Z.of_nat (length (retransmissionQueue h))
  + Z.of_nat (length (elems (packetHistory h))) + 1 <= MaxTrackedSentPackets ->
  let r := SentPacket h packet now in
  r.1 = None
  /\ lastSentPacketNumber r.2 = PacketNumber packet
  /\ packets r.2 = uint64 (packets h + 1)
  /\ (stripNonRetransmittableFrames (Frames packet) = [] ->
      packetHistory r.2 = packetHistory h
      /\ retransmissionQueue r.2 = retransmissionQueue h
      /\ bytesInFlight r.2 = bytesInFlight h
      /\ numNonRetransmittablePackets r.2
         = int64 (numNonRetransmittablePackets h + 1))
  /\ (stripNonRetransmittableFrames (Frames packet) <> [] ->
      numNonRetransmittablePackets r.2 = 0
      /\ (0 < MaxNonRetransmittablePackets ->
          ShouldSendRetransmittablePacket r.2 = false)).
Proof.
  intros Hpn Htracked r. subst r. rewrite SentPacket_ok by done.
  cbn [fst snd]. unfold recordSent.
  set (frames := stripNonRetransmittableFrames (Frames packet)).
  destruct (decide (frames = [])) as [Hnone|Hsome].
  - rewrite Hnone. cbn [length Z.of_nat Z.eqb negb]. by split_and!.
  - replace (negb (Z.of_nat (length frames) =? 0)) with true
      by (destruct frames; [done|]; cbn [length]; symmetry;
          apply negb_true_iff, Z.eqb_neq; lia).
    split_and!; try done. intros _.
    unfold ShouldSendRetransmittablePacket. cbn. split; [done|].
    intros Hmax. destruct (Z.geb_spec 0 MaxNonRetransmittablePackets); [lia|done].
Qed.

(** *** Garbage collection of skipped packet numbers *)

Lemma gcDeleteIndex_spec lioa (skipped : list Z) : forall i d,
  (d <= i)%nat ->
  let k := gcDeleteIndex lioa skipped i d in
  (d <= k <= i + length skipped)%nat
  /\ Forall (fun p => lioa < p) (drop (k - i) skipped).
Proof.
  induction skipped as [|p rest IH]; intros i d Hd; cbn [gcDeleteIndex].
  - cbn [length]. split; [lia|]. rewrite drop_nil. constructor.
  - destruct (Z.leb_spec p lioa) as [Hle|Hgt].
    + destruct (IH (S i) (S i) ltac:(lia)) as [Hk Hall].
      cbn [length]. split; [lia|].
      replace (gcDeleteIndex lioa rest (S i) (S i) - i)%nat
        with (S (gcDeleteIndex lioa rest (S i) (S i) - S i))%nat by lia.
      exact Hall.
    + destruct (IH (S i) d ltac:(lia)) as [Hk Hall].
      cbn [length]. split; [lia|].
      destruct (decide (gcDeleteIndex lioa rest (S i) d <= i)%nat) as [Hs|Hs].
      * replace (gcDeleteIndex lioa rest (S i) d - i)%nat with 0%nat by lia.
        replace (gcDeleteIndex lioa rest (S i) d - S i)%nat with 0%nat
          in Hall by lia.
        cbn [drop] in *. by constructor.
      * replace (gcDeleteIndex lioa rest (S i) d - i)%nat
          with (S (gcDeleteIndex lioa rest (S i) d - S i))%nat by lia.
        exact Hall.
Qed.

(** [garbageCollectSkippedPackets] keeps a tail of the skipped packet
    numbers in which every number is above [largestInOrderAcked], whatever
    the order of the list; a call of [ReceivedAck] that processes its
    frame, and every successful [ReceivedClosePath], ends with the list in
    that state. *)
Theorem skipped_packets_garbage_collected h :
  (exists k,
     skippedPackets (garbageCollectSkippedPackets h)
     = drop k (skippedPackets h)
     /\ Forall (fun p => largestInOrderAcked h < p)
               (skippedPackets (garbageCollectSkippedPackets h)))
  /\ (forall ackFrame withPacketNumber rcvTime now h',
        ReceivedAck h ackFrame withPacketNumber rcvTime now = (None, h') ->
        largestInOrderAcked h < Wire.LargestAcked ackFrame ->
        Forall (fun p => largestInOrderAcked h' < p) (skippedPackets h'))
  /\ (forall f withPacketNumber rcvTime h',
        ReceivedClosePath h f withPacketNumber rcvTime = (None, h') ->
        Forall (fun p => largestInOrderAcked h' < p) (skippedPackets h')).
Proof.
  assert (Hgc : forall h0 : sentPacketHandler C,
            Forall (fun p => largestInOrderAcked h0 < p)
              (skippedPackets (garbageCollectSkippedPackets h0))).
  { intros h0. unfold garbageCollectSkippedPackets. cbn [skippedPackets set_skippedPackets].
    destruct (gcDeleteIndex_spec (largestInOrderAcked h0) (skippedPackets h0)
                0 0 ltac:(lia)) as [_ Hall].
    by rewrite Nat.sub_0_r in Hall. }
  split_and!.
  - eexists. split; [reflexivity|apply Hgc].
  - intros ackFrame withPacketNumber rcvTime now h'. unfold ReceivedAck.
    destruct (_ >? lastSentPacketNumber h); [discriminate|].
    destruct (_ <=? largestReceivedPacketWithAck h); [discriminate|].
    change (largestInOrderAcked
              (set_largestReceivedPacketWithAck h withPacketNumber))
      with (largestInOrderAcked h).
    destruct (Z.leb_spec (Wire.LargestAcked ackFrame) (largestInOrderAcked h));
      [intros; lia|].
    destruct (skippedPacketsAcked _ _); [discriminate|].
    unfold processAck.
    destruct (maybeUpdateRTT _ _ _ _ _) as [updated h1].
    destruct (determineNewlyAckedPackets _ _); [discriminate|].
    destruct (fold_left _ _ _) as [[h2 flag] sentDelay].
    destruct (if flag then _ else _); [|discriminate].
    intros [= <-] _.
    apply (Hgc (updateLossDetectionAlarm
                  (detectLostPackets (set_bdwStats h2 b) now))).
  - intros f withPacketNumber rcvTime h'. unfold ReceivedClosePath.
    destruct (_ >? lastSentPacketNumber h); [discriminate|].
    destruct (_ <=? largestReceivedPacketWithAck h); [discriminate|].
    destruct (skippedPacketsAckedClosePath _ _); [discriminate|].
    unfold processClosePath.
    destruct (determineNewlyAckedPacketsClosePath _ _); [discriminate|].
    intros [= <-].
    match goal with
    | |- Forall _ (skippedPackets (garbageCollectSkippedPackets ?x)) =>
      exact (Hgc x)
    end.
Qed.

(** *** How the calls change the history *)

Lemma without_sublist removed els : without removed els `sublist_of` els.
Proof. apply filter_sublist. Qed.

Lemma elem_of_without els removed x :
  NoDup (eid <$> els) -> removed `sublist_of` els ->
  x ∈ without removed els <-> x ∈ els /\ x ∉ removed.
Proof.
  intros Hnd Hsub. unfold without.
  rewrite list_elem_of_In, filter_In, <- list_elem_of_In, negb_true_iff,
    bool_decide_eq_false.
  split; intros [Hin Hout]; split; try done.
  - by rewrite <- (id_in_sublist els removed x Hnd Hsub Hin).
  - by rewrite (id_in_sublist els removed x Hnd Hsub Hin).
Qed.

Lemma newlyAcked_walk_bounds lowest largest hasMissing ranges els :
  forall idx acc res,
  newlyAcked_walk lowest largest hasMissing ranges els idx acc = inr res ->
  exists sub, res = acc ++ sub
    /\ Forall (fun e => lowest <= packetNumberOf e <= largest) sub.
Proof.
  induction els as [|e els IH]; intros idx acc res; cbn [newlyAcked_walk].
  - intros [= <-]. exists []. by rewrite app_nil_r.
  - destruct (Z.ltb_spec (PacketNumber (Value e)) lowest); [apply IH|].
    destruct (Z.gtb_spec (PacketNumber (Value e)) largest).
    { intros [= <-]. exists []. by rewrite app_nil_r. }
    assert (Hpush : forall idx' res',
      newlyAcked_walk lowest largest hasMissing ranges els idx' (acc ++ [e])
      = inr res' ->
      exists sub, res' = acc ++ sub
        /\ Forall (fun e => lowest <= packetNumberOf e <= largest) sub).
    { intros idx' res' Hw. apply IH in Hw as (sub & -> & Hall).
      exists (e :: sub). rewrite <- app_assoc. split; [done|].
      constructor; [unfold packetNumberOf; lia|exact Hall]. }
    destruct hasMissing; [|apply Hpush].
    destruct (advanceRange _ _ _ _ _) as [idx' range'].
    destruct (_ >=? _); [|apply IH].
    destruct (_ >? Wire.Last range'); [discriminate|apply Hpush].
Qed.

Lemma newlyAcked_walk_plain lowest largest ranges els :
  StronglySorted (fun a b => packetNumberOf a < packetNumberOf b) els ->
  forall idx acc,
  newlyAcked_walk lowest largest false ranges els idx acc
  = inr (acc ++ List.filter
                  (fun e => (lowest <=? packetNumberOf e)
                            && (packetNumberOf e <=? largest)) els).
Proof.
  induction 1 as [|e els _ IH Hall]; intros idx acc;
    cbn [newlyAcked_walk List.filter].
  - by rewrite app_nil_r.
  - unfold packetNumberOf at 1 2.
    destruct (Z.ltb_spec (PacketNumber (Value e)) lowest).
    { rewrite IH. replace (lowest <=? _) with false
        by (symmetry; apply Z.leb_gt; lia). done. }
    replace (lowest <=? PacketNumber (Value e)) with true
      by (symmetry; apply Z.leb_le; lia).
    destruct (Z.gtb_spec (PacketNumber (Value e)) largest).
    + replace (PacketNumber (Value e) <=? largest) with false
        by (symmetry; apply Z.leb_gt; lia).
      cbn [andb]. rewrite filter_nothing; [by rewrite app_nil_r|].
      intros x Hx. rewrite Forall_forall in Hall. apply Hall in Hx.
      apply andb_false_iff. right. apply Z.leb_gt.
      unfold packetNumberOf in *. lia.
    + replace (PacketNumber (Value e) <=? largest) with true
        by (symmetry; apply Z.leb_le; lia).
      cbn [andb]. rewrite IH. by rewrite <- app_assoc.
Qed.

Lemma detectLost_walk_bound now delay els : forall h acc h' lost,
  detectLost_walk now delay els h acc = (h', lost) ->
  exists sub, lost = acc ++ sub
    /\ Forall (fun e => packetNumberOf e <= LargestAcked h) sub.
Proof.
  induction els as [|e els IH]; intros h acc h' lost;
    cbn [detectLost_walk].
  - intros [= <- <-]. exists []. by rewrite app_nil_r.
  - destruct (Z.gtb_spec (PacketNumber (Value e)) (LargestAcked h)).
    { intros [= <- <-]. exists []. by rewrite app_nil_r. }
    destruct (_ >? delay).
    { intros Hw. apply IH in Hw as (sub & -> & Hall).
      exists (e :: sub). rewrite <- app_assoc. split; [done|].
      constructor; [unfold packetNumberOf; lia|exact Hall]. }
    destruct (IsZero (lossTime h)); intros Hw;
      apply IH in Hw as (sub & -> & Hall); by exists sub.
Qed.

Lemma detectLostPackets_history h now :
  invariant h ->
  exists lost,
    lost `sublist_of` elems (packetHistory h)
    /\ Forall (fun e => packetNumberOf e <= LargestAcked h) lost
    /\ elems (packetHistory (detectLostPackets h now))
       = without lost (elems (packetHistory h))
    /\ retransmissionQueue (detectLostPackets h now)
       = retransmissionQueue h ++ (Value <$> lost).
Proof.
  intros Hinv. unfold detectLostPackets.
  destruct (detectLost_walk _ _ _ _ _) as [h1 lost] eqn:Hw.
  pose proof (detectLost_walk_bound _ _ _ _ _ _ _ Hw) as (sub' & Heq & Hall).
  apply detectLost_walk_sublist in Hw as (Hk & sub & -> & Hs).
  cbn [app] in *. subst sub'. exists sub.
  assert (Hinv1 : invariant h1).
  { eapply scanKeeps_invariant; [exact Hk|]. by apply (invariant_same h). }
  destruct Hk as (Hp & _ & _ & _ & Hq & _). cbn in Hp, Hq.
  split_and!.
  - exact Hs.
  - exact Hall.
  - rewrite <- Hp. apply queueLost_invariant; [exact Hinv1|by rewrite Hp].
  - rewrite <- Hq. apply queueLost_queue.
Qed.

(** What a call of [ReceivedAck] does to the history: cells are taken out,
    none of them above the largest acked of the frame. *)
Lemma ReceivedAck_history h ackFrame withPacketNumber rcvTime now :
  invariant h ->
  let h' := (ReceivedAck h ackFrame withPacketNumber rcvTime now).2 in
  elems (packetHistory h') `sublist_of` elems (packetHistory h)
  /\ (forall e, e ∈ elems (packetHistory h) ->
        Wire.LargestAcked ackFrame < packetNumberOf e ->
        e ∈ elems (packetHistory h'))
  /\ ((ReceivedAck h ackFrame withPacketNumber rcvTime now).1 = None ->
      largestInOrderAcked h < Wire.LargestAcked ackFrame ->
      Wire.HasMissingRanges ackFrame = false ->
      forall e, e ∈ elems (packetHistory h') ->
        packetNumberOf e < Wire.LowestAcked ackFrame
        \/ Wire.LargestAcked ackFrame < packetNumberOf e).
Proof.
  intros Hinv. unfold ReceivedAck.
  destruct (_ >? lastSentPacketNumber h); [by split_and!|].
  destruct (_ <=? largestReceivedPacketWithAck h); [by split_and!|].
  set (h1 := set_largestReceivedPacketWithAck h withPacketNumber).
  assert (Hinv1 : invariant h1) by by apply (invariant_same h).
  change (largestInOrderAcked h1) with (largestInOrderAcked h).
  destruct (Z.leb_spec (Wire.LargestAcked ackFrame) (largestInOrderAcked h));
    [cbn [fst snd]; split_and!; try done; intros; lia|].
  set (h2 := set_LargestAcked h1 (Wire.LargestAcked ackFrame)).
  assert (Hinv2 : invariant h2) by by apply (invariant_same h1).
  destruct (skippedPacketsAcked h2 ackFrame); [by split_and!|].
  unfold processAck, maybeUpdateRTT.
  destruct (maybeUpdateRTT_walk _ _ _ _ _ _) as [updated c].
  set (h3 := if updated then _ else _).
  assert (Hinv3 : invariant h3).
  { subst h3. destruct updated; by apply (invariant_same h2). }
  assert (Hh3 : packetHistory h3 = packetHistory h
                /\ LargestAcked h3 = Wire.LargestAcked ackFrame)
    by (subst h3; by destruct updated).
  destruct Hh3 as [Hh3 Hla3].
  unfold determineNewlyAckedPackets.
  destruct (newlyAcked_walk _ _ _ _ _ _ _) as [err|acked] eqn:Hw.
  { cbn [fst snd]. rewrite Hh3. by split_and!. }
  pose proof (newlyAcked_walk_bounds _ _ _ _ _ _ _ _ Hw)
    as (sub & Hsub & Hbounds). cbn [app] in Hsub. subst sub.
  pose proof Hw as Hw'.
  apply (newlyAcked_cells h3) in Hw as (Hsub & _); [|exact Hinv3].
  pose proof (ackedStep_handler ackFrame rcvTime acked h3 false 0) as Hfold.
  destruct (fold_left (ackedStep ackFrame rcvTime) acked (h3, false, 0))
    as [[h4 flag] sentDelay] eqn:Hf.
  unfold Duration in *. rewrite Hf in Hfold. cbn [fst] in Hfold.
  destruct (closePath_fold_invariant h3 acked Hinv3 Hsub)
    as (Hinv4 & Hel4 & _).
  destruct (closePath_fold_keeps acked h3) as (Hla4 & _).
  rewrite <- Hfold in Hinv4, Hel4, Hla4. clear Hf.
  assert (Hbdw : (if flag
                  then UpdateBDW (bdwStats h4)
                         (uint64 (bytesInFlight h3 - bytesInFlight h4)) sentDelay
                  else Some (bdwStats h4)) = Some (bdwStats h4))
    by (by destruct flag).
  rewrite Hbdw. cbn [fst snd].
  set (h5 := set_bdwStats h4 (bdwStats h4)).
  assert (Hinv5 : invariant h5) by by apply (invariant_same h4).
  destruct (detectLostPackets_history h5 now Hinv5)
    as (lost & Hlost & Hlostb & Hel6 & _).
  change (elems (packetHistory h5)) with (elems (packetHistory h4)) in *.
  change (LargestAcked h5) with (LargestAcked h4) in Hlostb.
  rewrite Hla4, Hla3 in Hlostb.
  change (elems (packetHistory (set_swm _ _)))
    with (elems (packetHistory (detectLostPackets h5 now))).
  rewrite Hel6, Hel4, Hh3.
  rewrite Hel4, Hh3 in Hlost. rewrite Hh3 in Hsub.
  pose proof Hinv as ((Hnd & _) & _ & Hsorted & _).
  assert (Hnd4 : NoDup (eid <$> without acked (elems (packetHistory h)))).
  { eapply sublist_NoDup; [exact Hnd|]. apply fmap_sublist, without_sublist. }
  split_and!.
  - etrans; [apply without_sublist|apply without_sublist].
  - intros e He Hlater.
    apply elem_of_without; [exact Hnd4|exact Hlost|]. split.
    + apply elem_of_without; [exact Hnd|exact Hsub|]. split; [exact He|].
      intros Hin. rewrite Forall_forall in Hbounds. apply Hbounds in Hin. lia.
    + intros Hin. rewrite Forall_forall in Hlostb. apply Hlostb in Hin. lia.
  - intros _ _ Hplain e He.
    apply elem_of_without in He as [He _]; [|exact Hnd4|exact Hlost].
    apply elem_of_without in He as [He Hout]; [|exact Hnd|exact Hsub].
    rewrite Hplain, Hh3 in Hw'.
    rewrite (newlyAcked_walk_plain _ _ _ _ Hsorted) in Hw'.
    injection Hw' as <-. cbn [app] in Hout.
    rewrite list_elem_of_In, filter_In, <- list_elem_of_In in Hout.
    destruct (Z.leb_spec (Wire.LowestAcked ackFrame) (packetNumberOf e));
      [|lia].
    destruct (Z.leb_spec (packetNumberOf e) (Wire.LargestAcked ackFrame));
      [|lia].
    exfalso. apply Hout. by split.
Qed.

(** [ReceivedAck] never takes out of the history a packet sent after the
    largest packet its frame acknowledges, neither as acknowledged nor as
    lost.  When the frame has no missing ranges and is processed without
    error, no packet numbered from [LowestAcked] to [LargestAcked] is in
    the history afterwards. *)
Theorem ReceivedAck_spares_later_packets
  h ackFrame withPacketNumber rcvTime now :
  invariant h ->
  let r := ReceivedAck h ackFrame withPacketNumber rcvTime now in
  (forall p, p ∈ history h ->
     Wire.LargestAcked ackFrame < PacketNumber p -> p ∈ history r.2)
  /\ (r.1 = None ->
      largestInOrderAcked h < Wire.LargestAcked ackFrame ->
      Wire.HasMissingRanges ackFrame = false ->
      forall p, p ∈ history r.2 ->
        PacketNumber p < Wire.LowestAcked ackFrame
        \/ Wire.LargestAcked ackFrame < PacketNumber p).
Proof.
  intros Hinv r.
  destruct (ReceivedAck_history h ackFrame withPacketNumber rcvTime now Hinv)
    as (_ & Hkeep & Hclear).
  split.
  - intros p Hp Hlater. unfold history in *.
    apply list_elem_of_fmap in Hp as (e & -> & He).
    apply list_elem_of_fmap_2. by apply Hkeep.
  - intros Hok Hfresh Hplain p Hp. unfold history in Hp.
    apply list_elem_of_fmap in Hp as (e & -> & He).
    by apply (Hclear Hok Hfresh Hplain e).
Qed.

Lemma removing_sublist step h e :
  removing step ->
  elems (packetHistory (step h e)) `sublist_of` elems (packetHistory h).
Proof. intros Hr. destruct (Hr h e) as (-> & _). apply filter_sublist. Qed.

Lemma retransmitOldestPacket_sublist h :
  elems (packetHistory (retransmitOldestPacket h))
  `sublist_of` elems (packetHistory h).
Proof.
  unfold retransmitOldestPacket. destruct (Front (packetHistory h)); [|done].
  apply removing_sublist, queueRTO_removing.
Qed.

Lemma retransmitAll_loop_sublist n : forall h,
  elems (packetHistory (retransmitAll_loop n h))
  `sublist_of` elems (packetHistory h).
Proof.
  induction n as [|n IH]; intros h; cbn [retransmitAll_loop]; [done|].
  destruct (Front (packetHistory h)); [|done].
  etrans; [apply IH|]. apply removing_sublist, queueRTO_removing.
Qed.

Lemma OnAlarm_sublist cb h now :
  invariant h ->
  elems (packetHistory (OnAlarm cb h now)) `sublist_of` elems (packetHistory h).
Proof.
  intros Hinv. unfold OnAlarm.
  destruct (negb (hasOutstandingRetransmittablePacket h)); [done|].
  change (elems (packetHistory (updateLossDetectionAlarm ?x)))
    with (elems (packetHistory x)).
  destruct (negb (IsZero (lossTime h))).
  { destruct (detectLostPackets_history h now Hinv) as (lost & _ & _ & -> & _).
    apply without_sublist. }
  destruct (tlpCount h <? maxTailLossProbes).
  { change (elems (packetHistory (set_tlpCount ?x _)))
      with (elems (packetHistory x)).
    unfold retransmitTLP. destruct (Back (packetHistory h)); [|done].
    apply removing_sublist, queuePacketForRetransmission_removing. }
  change (elems (packetHistory (set_rtoCount ?x _)))
    with (elems (packetHistory x)).
  destruct (match cb with Some f => f (lastSentTime h) | None => false end).
  - apply retransmitAll_loop_sublist.
  - unfold retransmitOldestTwoPackets.
    change (elems (packetHistory (set_congestion ?x _)))
      with (elems (packetHistory x)).
    etrans; apply retransmitOldestPacket_sublist.
Qed.

Lemma ReceivedClosePath_sublist h f withPacketNumber rcvTime :
  invariant h ->
  elems (packetHistory (ReceivedClosePath h f withPacketNumber rcvTime).2)
  `sublist_of` elems (packetHistory h).
Proof.
  intros Hinv. unfold ReceivedClosePath.
  destruct (_ >? lastSentPacketNumber h); [done|].
  destruct (_ <=? largestReceivedPacketWithAck h); [done|].
  set (h1 := set_largestReceivedPacketWithAck h withPacketNumber).
  assert (Hinv1 : invariant h1) by by apply (invariant_same h).
  destruct (skippedPacketsAckedClosePath h1 f); [done|].
  unfold processClosePath, determineNewlyAckedPacketsClosePath.
  destruct (newlyAcked_walk _ _ _ _ _ _ _) as [e|acked] eqn:Hw; [done|].
  apply (newlyAcked_cells h1) in Hw as (Hsub & _); [|exact Hinv1].
  cbn [snd].
  destruct (closePath_fold_invariant h1 acked Hinv1 Hsub) as (Hinv2 & Hel & _).
  change (elems (packetHistory (garbageCollectSkippedPackets ?x)))
    with (elems (packetHistory x)).
  rewrite SetInflightAsLost_history by exact Hinv2.
  etrans; [apply without_sublist|]. rewrite Hel. apply without_sublist.
Qed.

Lemma SetInflightAsLost_sublist h :
  invariant h ->
  elems (packetHistory (SetInflightAsLost h))
  `sublist_of` elems (packetHistory h).
Proof.
  intros Hinv. rewrite SetInflightAsLost_history by exact Hinv.
  apply without_sublist.
Qed.

Lemma recordSent_plain h (packet : Packet) now :
  stripNonRetransmittableFrames (Frames packet) = [] ->
  packetHistory (recordSent h packet now) = packetHistory h.
Proof. intros Hnone. unfold recordSent. rewrite Hnone. reflexivity. Qed.

(** One call on the cells of the history: cells are taken out, or the
    cell of the packet sent is put at the back. *)
Lemma call_history cb h c :
  invariant h ->
  elems (packetHistory (call cb h c)) `sublist_of` elems (packetHistory h)
  \/ exists (packet : Packet) now,
       c = CallSentPacket packet now
       /\ lastSentPacketNumber h < PacketNumber packet
       /\ lastSentPacketNumber (call cb h c) = PacketNumber packet
       /\ stripNonRetransmittableFrames (Frames packet) <> []
       /\ elems (packetHistory (call cb h c))
          = elems (packetHistory h)
            ++ [ {| eid := nextId (packetHistory h);
                    Value :=
                      {| PacketNumber := PacketNumber packet;
                         Frames := stripNonRetransmittableFrames (Frames packet);
                         Length := Length packet;
                         EncryptionLevel := EncryptionLevel packet;
                         SendTime := now |} |} ].
Proof.
  intros Hinv. destruct c; cbn [call].
  - unfold SentPacket.
    destruct (Z.leb_spec (PacketNumber packet) (lastSentPacketNumber h));
      [by left|].
    destruct (_ >? MaxTrackedSentPackets); [by left|]. cbn [snd].
    destruct (decide (stripNonRetransmittableFrames (Frames packet) = []))
      as [Hnone|Hsome].
    + left. by rewrite recordSent_plain.
    + right. exists packet, now.
      destruct (recordSent_retransmittable h packet now Hsome)
        as (Hel & _ & _ & Hl & _).
      by split_and!.
  - left. by apply ReceivedAck_history.
  - left. by apply ReceivedClosePath_sublist.
  - left. by apply OnAlarm_sublist.
  - left. unfold DequeuePacketForRetransmission.
    by destruct (retransmissionQueue h).
  - by left.
  - left. by apply SetInflightAsLost_sublist.
Qed.

(** A call takes packets out of the history or, if it is a [SentPacket]
    of a packet with a retransmittable frame, puts that packet at the
    back, with the frames that are left after stripping and the time of
    the call; no call reorders the history.  So, after any sequence of
    calls on a new handler, every packet of the history has a frame. *)
Theorem history_grows_by_SentPacket
  (cb : option (Time -> bool)) pid bdw (cong : C) (cs : list Call) (c : Call) :
  let h := run cb (NewSentPacketHandler pid bdw cong) cs in
  (history (call cb h c) `sublist_of` history h
   \/ exists (packet : Packet) now,
        c = CallSentPacket packet now
        /\ lastSentPacketNumber h < PacketNumber packet
        /\ history (call cb h c)
           = history h
             ++ [ {| PacketNumber := PacketNumber packet;
                     Frames := stripNonRetransmittableFrames (Frames packet);
                     Length := Length packet;
                     EncryptionLevel := EncryptionLevel packet;
                     SendTime := now |} ])
  /\ Forall (fun p => Frames p <> []) (history h).
Proof.
  intros h. split.
  - assert (Hinv : invariant h) by apply run_invariant, New_invariant.
    destruct (call_history cb h c Hinv)
      as [Hsub|(packet & now & -> & Hpn & _ & _ & Heq)].
    + left. by apply fmap_sublist.
    + right. exists packet, now. split_and!; try done.
      unfold history. rewrite Heq, fmap_app. reflexivity.
  - subst h. induction cs as [|c' cs IH] using rev_ind; [constructor|].
    unfold run. rewrite fold_left_app. cbn [fold_left].
    fold (run cb (NewSentPacketHandler pid bdw cong) cs).
    set (h := run cb (NewSentPacketHandler pid bdw cong) cs) in *.
    assert (Hinv : invariant h) by apply run_invariant, New_invariant.
    destruct (call_history cb h c' Hinv)
      as [Hsub|(packet & now & -> & _ & _ & Hsome & Heq)].
    + eapply Forall_sublist; [|exact IH]. by apply fmap_sublist.
    + unfold history. rewrite Heq, fmap_app. apply Forall_app. split; [exact IH|].
      by repeat constructor.
Qed.

(** *** The skipped packet numbers *)

Lemma fold_left_field {A X} (field : sentPacketHandler C -> A)
  (step : sentPacketHandler C -> X -> sentPacketHandler C) (l : list X) :
  (forall h x, field (step h x) = field h) ->
  forall h, field (fold_left step l h) = field h.
Proof.
  intros Hstep. induction l as [|x l IH]; intros h; cbn [fold_left]; [done|].
  by rewrite IH.
Qed.

Lemma detectLost_walk_skipped now delay els : forall h acc h' lost,
  detectLost_walk now delay els h acc = (h', lost) ->
  skippedPackets h' = skippedPackets h.
Proof.
  induction els as [|e els IH]; intros h acc h' lost; cbn [detectLost_walk].
  - by intros [= <- _].
  - destruct (_ >? LargestAcked h); [by intros [= <- _]|].
    destruct (_ >? delay); [intros Hw; by rewrite (IH _ _ _ _ Hw)|].
    destruct (IsZero (lossTime h)); intros Hw; by rewrite (IH _ _ _ _ Hw).
Qed.

Lemma inflightLost_walk_skipped els : forall h acc h' lost,
  inflightLost_walk els h acc = (h', lost) ->
  skippedPackets h' = skippedPackets h.
Proof.
  induction els as [|e els IH]; intros h acc h' lost; cbn [inflightLost_walk].
  - by intros [= <- _].
  - destruct (_ >? LargestAcked h); [by intros [= <- _]|].
    intros Hw. by rewrite (IH _ _ _ _ Hw).
Qed.

Lemma queueLost_skipped h lost :
  skippedPackets (queueLost h lost) = skippedPackets h.
Proof. unfold queueLost. by apply (fold_left_field (@skippedPackets C)). Qed.

Lemma detectLostPackets_skipped h now :
  skippedPackets (detectLostPackets h now) = skippedPackets h.
Proof.
  unfold detectLostPackets.
  destruct (detectLost_walk _ _ _ _ _) as [h1 lost] eqn:Hw.
  rewrite queueLost_skipped. by rewrite (detectLost_walk_skipped _ _ _ _ _ _ _ Hw).
Qed.

Lemma SetInflightAsLost_skipped h :
  skippedPackets (SetInflightAsLost h) = skippedPackets h.
Proof.
  unfold SetInflightAsLost.
  destruct (inflightLost_walk _ _ _) as [h1 lost] eqn:Hw.
  rewrite queueLost_skipped. by rewrite (inflightLost_walk_skipped _ _ _ _ _ Hw).
Qed.

Lemma retransmitAll_loop_skipped n : forall h,
  skippedPackets (retransmitAll_loop n h) = skippedPackets h.
Proof.
  induction n as [|n IH]; intros h; cbn [retransmitAll_loop]; [done|].
  destruct (Front (packetHistory h)); [|done]. by rewrite IH.
Qed.

Lemma OnAlarm_skipped cb h now :
  skippedPackets (OnAlarm cb h now) = skippedPackets h
  /\ lastSentPacketNumber (OnAlarm cb h now) = lastSentPacketNumber h.
Proof.
  split.
  - unfold OnAlarm.
    destruct (negb (hasOutstandingRetransmittablePacket h)); [done|].
    change (skippedPackets (updateLossDetectionAlarm ?x))
      with (skippedPackets x).
    destruct (negb (IsZero (lossTime h))); [apply detectLostPackets_skipped|].
    destruct (tlpCount h <? maxTailLossProbes).
    { unfold retransmitTLP. by destruct (Back (packetHistory h)). }
    destruct (match cb with Some f => f (lastSentTime h) | None => false end).
    + apply retransmitAll_loop_skipped.
    + unfold retransmitOldestTwoPackets, retransmitOldestPacket.
      destruct (Front (packetHistory h)); cbn;
        by destruct (Front _).
  - assert (Hinv : forall h0 : sentPacketHandler C, True) by done.
    unfold OnAlarm.
    destruct (negb (hasOutstandingRetransmittablePacket h)); [done|].
    change (lastSentPacketNumber (updateLossDetectionAlarm ?x))
      with (lastSentPacketNumber x).
    destruct (negb (IsZero (lossTime h))).
    { unfold detectLostPackets.
      destruct (detectLost_walk _ _ _ _ _) as [h1 lost] eqn:Hw.
      apply detectLost_walk_sublist in Hw as ((_ & _ & Hl & _) & _).
      unfold queueLost.
      rewrite (fold_left_field (@lastSentPacketNumber C)) by done. exact Hl. }
    destruct (tlpCount h <? maxTailLossProbes).
    { unfold retransmitTLP. by destruct (Back (packetHistory h)). }
    destruct (match cb with Some f => f (lastSentTime h) | None => false end).
    + cbn. generalize (length (elems (packetHistory h))). intros n.
      revert h. clear. induction n as [|n IH]; intros h;
        cbn [retransmitAll_loop]; [done|].
      destruct (Front (packetHistory h)); [|done]. by rewrite IH.
    + unfold retransmitOldestTwoPackets, retransmitOldestPacket.
      destruct (Front (packetHistory h)); cbn;
        by destruct (Front _).
Qed.

Lemma ReceivedAck_skipped h ackFrame withPacketNumber rcvTime now :
  let h' := (ReceivedAck h ackFrame withPacketNumber rcvTime now).2 in
  (exists k, skippedPackets h' = drop k (skippedPackets h))
  /\ lastSentPacketNumber h' = lastSentPacketNumber h.
Proof.
  assert (Hsame : exists k, skippedPackets h = drop k (skippedPackets h))
    by (by exists 0%nat).
  unfold ReceivedAck.
  destruct (_ >? lastSentPacketNumber h); [by split|].
  destruct (_ <=? largestReceivedPacketWithAck h); [by split|].
  destruct (_ <=? largestInOrderAcked _); [by split|].
  destruct (skippedPacketsAcked _ _); [by split|].
  unfold processAck, maybeUpdateRTT.
  destruct (maybeUpdateRTT_walk _ _ _ _ _ _) as [updated c].
  set (h3 := if updated then _ else _).
  assert (Hh3 : skippedPackets h3 = skippedPackets h
                /\ lastSentPacketNumber h3 = lastSentPacketNumber h)
    by (subst h3; by destruct updated).
  destruct Hh3 as [Hs3 Hl3].
  destruct (determineNewlyAckedPackets h3 ackFrame) as [err|acked];
    [cbn [snd]; rewrite Hs3, Hl3; by split|].
  pose proof (ackedStep_handler ackFrame rcvTime acked h3 false 0) as Hfold.
  destruct (fold_left (ackedStep ackFrame rcvTime) acked (h3, false, 0))
    as [[h4 flag] sentDelay] eqn:Hf.
  unfold Duration in *. rewrite Hf in Hfold. cbn [fst] in Hfold.
  assert (Hs4 : skippedPackets h4 = skippedPackets h).
  { rewrite Hfold, (fold_left_field (@skippedPackets C)) by done. exact Hs3. }
  assert (Hl4 : lastSentPacketNumber h4 = lastSentPacketNumber h).
  { rewrite Hfold, (fold_left_field (@lastSentPacketNumber C)) by done. exact Hl3. }
  assert (Hbdw : (if flag
                  then UpdateBDW (bdwStats h4)
                         (uint64 (bytesInFlight h3 - bytesInFlight h4)) sentDelay
                  else Some (bdwStats h4)) = Some (bdwStats h4))
    by (by destruct flag).
  rewrite Hbdw. cbn [snd]. split.
  - eexists. unfold garbageCollectSkippedPackets.
    cbn [skippedPackets set_swm set_skippedPackets updateLossDetectionAlarm
         set_alarm].
    rewrite detectLostPackets_skipped. cbn [skippedPackets set_bdwStats].
    rewrite Hs4. reflexivity.
  - cbn [lastSentPacketNumber set_swm garbageCollectSkippedPackets
         set_skippedPackets updateLossDetectionAlarm set_alarm].
    unfold detectLostPackets.
    destruct (detectLost_walk _ _ _ _ _) as [h6 lost] eqn:Hw.
    apply detectLost_walk_sublist in Hw as ((_ & _ & Hl & _) & _).
    unfold queueLost.
    rewrite (fold_left_field (@lastSentPacketNumber C)) by done.
    rewrite Hl. exact Hl4.
Qed.

Lemma ReceivedClosePath_skipped h f withPacketNumber rcvTime :
  let h' := (ReceivedClosePath h f withPacketNumber rcvTime).2 in
  (exists k, skippedPackets h' = drop k (skippedPackets h))
  /\ lastSentPacketNumber h' = lastSentPacketNumber h.
Proof.
  assert (Hsame : exists k, skippedPackets h = drop k (skippedPackets h))
    by (by exists 0%nat).
  unfold ReceivedClosePath.
  destruct (_ >? lastSentPacketNumber h); [by split|].
  destruct (_ <=? largestReceivedPacketWithAck h); [by split|].
  destruct (skippedPacketsAckedClosePath _ _); [by split|].
  unfold processClosePath.
  destruct (determineNewlyAckedPacketsClosePath _ _) as [err|acked];
    [by split|].
  cbn [snd]. split.
  - eexists. unfold garbageCollectSkippedPackets.
    cbn [skippedPackets set_skippedPackets].
    rewrite SetInflightAsLost_skipped.
    rewrite (fold_left_field (@skippedPackets C)) by done. reflexivity.
  - cbn [lastSentPacketNumber garbageCollectSkippedPackets set_skippedPackets].
    unfold SetInflightAsLost.
    destruct (inflightLost_walk _ _ _) as [h6 lost] eqn:Hw.
    apply inflightLost_walk_spec in Hw as ((_ & _ & Hl & _) & _).
    unfold queueLost.
    rewrite (fold_left_field (@lastSentPacketNumber C)) by done.
    rewrite Hl. by rewrite (fold_left_field (@lastSentPacketNumber C)) by done.
Qed.

Lemma SetInflightAsLost_lastSent h :
  lastSentPacketNumber (SetInflightAsLost h) = lastSentPacketNumber h.
Proof.
  unfold SetInflightAsLost.
  destruct (inflightLost_walk _ _ _) as [h6 lost] eqn:Hw.
  apply inflightLost_walk_spec in Hw as ((_ & _ & Hl & _) & _).
  unfold queueLost.
  by rewrite (fold_left_field (@lastSentPacketNumber C)) by done.
Qed.

(** One call on the skipped packet numbers: a front part of the list is
    dropped, or [SentPacket] records the numbers it passes over. *)
Lemma call_skipped cb h c :
  ((exists k, skippedPackets (call cb h c) = drop k (skippedPackets h))
   /\ lastSentPacketNumber (call cb h c) = lastSentPacketNumber h)
  \/ exists (packet : Packet) now,
       c = CallSentPacket packet now
       /\ lastSentPacketNumber h < PacketNumber packet
       /\ lastSentPacketNumber (call cb h c) = PacketNumber packet
       /\ skippedPackets (call cb h c)
          = recordSkipped
              (Z.to_nat (PacketNumber packet - (lastSentPacketNumber h + 1)))
              (lastSentPacketNumber h + 1) (skippedPackets h).
Proof.
  assert (Hsame : exists k, skippedPackets h = drop k (skippedPackets h))
    by (by exists 0%nat).
  destruct c; cbn [call].
  - unfold SentPacket.
    destruct (Z.leb_spec (PacketNumber packet) (lastSentPacketNumber h));
      [by left|].
    destruct (_ >? MaxTrackedSentPackets); [by left|]. cbn [snd].
    right. exists packet, now.
    destruct (recordSent_numbers h packet now) as (Hs & Hl & _).
    by split_and!.
  - left. apply ReceivedAck_skipped.
  - left. apply ReceivedClosePath_skipped.
  - left. destruct (OnAlarm_skipped cb h now) as [-> ->]. by split.
  - left. unfold DequeuePacketForRetransmission.
    by destruct (retransmissionQueue h).
  - by left.
  - left. rewrite SetInflightAsLost_skipped, SetInflightAsLost_lastSent.
    by split.
Qed.

Lemma recordSkipped_spec n : forall p skipped,
  0 <= MaxTrackedSkippedPackets ->
  Z.of_nat (length skipped) <= MaxTrackedSkippedPackets ->
  StronglySorted Z.lt skipped ->
  Forall (fun x => x < p) skipped ->
  let r := recordSkipped n p skipped in
  Z.of_nat (length r) <= MaxTrackedSkippedPackets
  /\ StronglySorted Z.lt r
  /\ Forall (fun x => x < p + Z.of_nat n) r
  /\ Forall (fun x => x ∈ skipped \/ p <= x < p + Z.of_nat n) r.
Proof.
  induction n as [|n IH]; intros p skipped Hmax Hlen Hsorted Hbelow;
    cbn [recordSkipped].
  - split_and!; try done.
    + eapply Forall_impl; [exact Hbelow|]. intros; cbn in *; lia.
    + apply Forall_forall. intros x Hx. by left.
  - set (skipped1 := skipped ++ [p]).
    assert (Hs1 : StronglySorted Z.lt skipped1).
    { apply StronglySorted_app_2; [|exact Hsorted|repeat constructor].
      intros x y Hx ->%list_elem_of_singleton.
      rewrite Forall_forall in Hbelow. by apply Hbelow. }
    assert (Hb1 : Forall (fun x => x < p + 1) skipped1).
    { apply Forall_app. split; [|repeat constructor; lia].
      eapply Forall_impl; [exact Hbelow|]. intros; cbn in *; lia. }
    assert (Hl1 : length skipped1 = S (length skipped))
      by (unfold skipped1; rewrite length_app; cbn; lia).
    set (skipped2 := if Z.of_nat (length skipped1) >? MaxTrackedSkippedPackets
                     then tail skipped1 else skipped1).
    assert (Hsub : skipped2 `sublist_of` skipped1).
    { subst skipped2. destruct (_ >? _); [|done].
      destruct skipped1; [done|]. cbn. by apply sublist_cons. }
    assert (Hl2 : Z.of_nat (length skipped2) <= MaxTrackedSkippedPackets).
    { subst skipped2. destruct (Z.gtb_spec (Z.of_nat (length skipped1))
                                  MaxTrackedSkippedPackets); [|lia].
      destruct skipped1; cbn [tail length] in *; lia. }
    destruct (IH (p + 1) skipped2 Hmax Hl2) as (Hlen' & Hsorted' & Hbelow' & Hin').
    + eapply StronglySorted_sublist; [exact Hsub|exact Hs1].
    + eapply Forall_sublist; [exact Hsub|exact Hb1].
    + split_and!; try done.
      * eapply Forall_impl; [exact Hbelow'|]. intros; cbn in *; lia.
      * eapply Forall_impl; [exact Hin'|]. intros x [Hx|Hx]; cbn in *; [|lia].
        apply (elem_of_sublist _ _ _ Hx) in Hsub.
        apply elem_of_app in Hsub as [?| ->%list_elem_of_singleton];
          [by left|right; lia].
Qed.

(** After any sequence of calls on a new handler, with a cap that is not
    negative: the list of skipped packet numbers has at most
    [MaxTrackedSkippedPackets] entries, it is in strictly ascending order,
    every entry is below [lastSentPacketNumber], and no entry is the number
    of a packet in the history. *)
Theorem skipped_packets_are_not_sent
  (cb : option (Time -> bool)) pid bdw (cong : C) (cs : list Call) :
  0 <= MaxTrackedSkippedPackets ->
  let h := run cb (NewSentPacketHandler pid bdw cong) cs in
  Z.of_nat (length (skippedPackets h)) <= MaxTrackedSkippedPackets
  /\ StronglySorted Z.lt (skippedPackets h)
  /\ Forall (fun s => s < lastSentPacketNumber h) (skippedPackets h)
  /\ Forall (fun p => PacketNumber p ∉ skippedPackets h) (history h).
Proof.
  intros Hmax h. subst h.
  induction cs as [|c cs IH] using rev_ind.
  { cbn. split_and!; try constructor. cbn. lia. }
  unfold run. rewrite fold_left_app. cbn [fold_left].
  fold (run cb (NewSentPacketHandler pid bdw cong) cs).
  set (h := run cb (NewSentPacketHandler pid bdw cong) cs) in *.
  destruct IH as (Hlen & Hsorted & Hbelow & Hapart).
  assert (Hinv : invariant h) by apply run_invariant, New_invariant.
  pose proof Hinv as (_ & _ & _ & Hbound).
  assert (Hcells : Forall (fun e => packetNumberOf e ∉ skippedPackets h)
                     (elems (packetHistory h))).
  { unfold history in Hapart. by rewrite Forall_fmap in Hapart. }
  assert (Hgoal :
    Z.of_nat (length (skippedPackets (call cb h c))) <= MaxTrackedSkippedPackets
    /\ StronglySorted Z.lt (skippedPackets (call cb h c))
    /\ Forall (fun s => s < lastSentPacketNumber (call cb h c))
         (skippedPackets (call cb h c))
    /\ Forall (fun e => packetNumberOf e ∉ skippedPackets (call cb h c))
         (elems (packetHistory (call cb h c)))).
  { destruct (call_skipped cb h c)
      as [[[k Hdrop] Hlast]|(packet & now & -> & Hpn & Hlast & Hrec)].
    - assert (Hsub : skippedPackets (call cb h c) `sublist_of` skippedPackets h)
        by (rewrite Hdrop; apply sublist_drop).
      assert (Hhist : elems (packetHistory (call cb h c))
                      `sublist_of` elems (packetHistory h)).
      { destruct (call_history cb h c Hinv)
          as [Hs|(packet & now & -> & Hpn & Hl & _)]; [exact Hs|]. lia. }
      split_and!.
      + rewrite Hdrop, length_drop. lia.
      + eapply StronglySorted_sublist; [exact Hsub|exact Hsorted].
      + rewrite Hlast. eapply Forall_sublist; [exact Hsub|exact Hbelow].
      + eapply Forall_sublist; [exact Hhist|].
        eapply Forall_impl; [exact Hcells|]. intros e He Hin. apply He.
        eapply elem_of_sublist; [exact Hin|exact Hsub].
    - assert (Hb1 : Forall (fun x => x < lastSentPacketNumber h + 1)
                      (skippedPackets h)).
      { eapply Forall_impl; [exact Hbelow|]. intros; cbn in *; lia. }
      destruct (recordSkipped_spec
                  (Z.to_nat (PacketNumber packet - (lastSentPacketNumber h + 1)))
                  (lastSentPacketNumber h + 1) (skippedPackets h)
                  Hmax Hlen Hsorted Hb1) as (Hlen' & Hsorted' & Hbelow' & Hin').
      rewrite <- Hrec in Hlen', Hsorted', Hbelow', Hin'.
      rewrite Z2Nat.id in Hbelow', Hin' by lia.
      split_and!; try done.
      + rewrite Hlast. eapply Forall_impl; [exact Hbelow'|].
        intros; cbn in *; lia.
      + assert (Hold : Forall
                  (fun e => packetNumberOf e
                            ∉ skippedPackets (call cb h (CallSentPacket packet now)))
                  (elems (packetHistory h))).
        { apply Forall_forall. intros e He Hin.
          rewrite Forall_forall in Hin'. rewrite Forall_forall in Hcells.
          rewrite Forall_forall in Hbound.
          destruct (Hin' _ Hin) as [Hs|Hs]; [by apply (Hcells e He)|].
          specialize (Hbound e He). cbn in Hbound. lia. }
        destruct (call_history cb h (CallSentPacket packet now) Hinv)
          as [Hs|(packet' & now' & [= <- <-] & _ & _ & _ & Heq)].
        * eapply Forall_sublist; [exact Hs|exact Hold].
        * rewrite Heq. apply Forall_app. split; [exact Hold|].
          repeat constructor. unfold packetNumberOf. cbn [Value PacketNumber].
          intros Hin. rewrite Forall_forall in Hbelow'.
          apply Hbelow' in Hin. lia. }
  destruct Hgoal as (? & ? & ? & Hc). split_and!; try done.
  unfold history. by rewrite Forall_fmap.
Qed.

(** *** The alarm *)

Lemma Remove_front h e rest :
  invariant h -> elems (packetHistory h) = e :: rest ->
  elems (Remove (packetHistory h) e) = rest.
Proof.
  intros ((Hnd & _) & _) Heq. unfold Remove. cbn [elems]. rewrite Heq in *.
  cbn [List.filter]. rewrite Nat.eqb_refl. cbn [negb].
  apply remove_absent. rewrite fmap_cons in Hnd.
  by apply NoDup_cons in Hnd as [? _].
Qed.

Lemma Remove_back h e older :
  invariant h -> elems (packetHistory h) = older ++ [e] ->
  elems (Remove (packetHistory h) e) = older.
Proof.
  intros ((Hnd & _) & _) Heq. unfold Remove. cbn [elems]. rewrite Heq in *.
  rewrite List.filter_app. cbn [List.filter]. rewrite Nat.eqb_refl. cbn [negb].
  rewrite app_nil_r. apply remove_absent.
  rewrite fmap_app in Hnd. apply NoDup_app in Hnd as (_ & Hout & _).
  intros Hin. apply (Hout _ Hin). cbn. left.
Qed.

Lemma queueRTO_front h e rest :
  invariant h -> elems (packetHistory h) = e :: rest ->
  let h' := queueRTO h e in
  invariant h'
  /\ elems (packetHistory h') = rest
  /\ retransmissionQueue h' = retransmissionQueue h ++ [Value e]
  /\ bytesInFlight h' = uint64 (bytesInFlight h - Length (Value e))
  /\ rtoCount h' = rtoCount h /\ tlpCount h' = tlpCount h
  /\ lastSentTime h' = lastSentTime h.
Proof.
  intros Hinv Heq h'. split_and!; try done.
  - apply removing_invariant; [apply queueRTO_removing|exact Hinv|].
    rewrite Heq. left.
  - subst h'. unfold queueRTO, queuePacketForRetransmission.
    cbn [packetHistory set_congestion set_losses set_swm set_packetHistory
         set_retransmissionQueue set_bytesInFlight].
    by apply Remove_front.
Qed.

Lemma retransmitAll_loop_queue n : forall h,
  invariant h -> (length (elems (packetHistory h)) <= n)%nat ->
  let h' := retransmitAll_loop n h in
  elems (packetHistory h') = []
  /\ retransmissionQueue h'
     = retransmissionQueue h ++ (Value <$> elems (packetHistory h))
  /\ bytesInFlight h' = uint64 (bytesInFlight h - historyLength h)
  /\ rtoCount h' = rtoCount h /\ tlpCount h' = tlpCount h.
Proof.
  induction n as [|n IH]; intros h Hinv Hlen; cbn [retransmitAll_loop].
  - destruct (elems (packetHistory h)) as [|e rest] eqn:Heq;
      [|cbn [length] in Hlen; lia].
    destruct Hinv as (_ & Hb & _). unfold bytesAccounted in Hb.
    unfold historyLength in *. rewrite Heq in *. cbn [fmap list_fmap sumLength foldr] in *.
    rewrite app_nil_r, Z.sub_0_r. split_and!; try done.
    by rewrite Hb, uint64_small by (cbn; lia).
  - unfold Front. destruct (elems (packetHistory h)) as [|e rest] eqn:Heq;
      cbn [head].
    + destruct Hinv as (_ & Hb & _). unfold bytesAccounted in Hb.
      unfold historyLength in *. rewrite Heq in *.
      cbn [fmap list_fmap sumLength foldr] in *.
      rewrite app_nil_r, Z.sub_0_r. split_and!; try done.
      by rewrite Hb, uint64_small by (cbn; lia).
    + destruct (queueRTO_front h e rest Hinv Heq)
        as (Hinv' & Hel & Hq & Hb & Hr & Ht & _).
      destruct (IH (queueRTO h e) Hinv') as (Hel' & Hq' & Hb' & Hr' & Ht').
      { rewrite Hel. cbn [length] in Hlen. lia. }
      split_and!; try done.
      * rewrite Hq', Hq, Hel. cbn [fmap list_fmap]. by rewrite <- app_assoc.
      * rewrite Hb', Hb. unfold historyLength. rewrite Hel, Heq.
        rewrite sumLength_cons, uint64_sub_l. f_equal. lia.
Qed.

(** A tail loss probe.  When the alarm fires with a retransmittable packet
    in the history, no loss time set and fewer than two probes sent, the
    newest packet of the history, and no other, moves to the end of the
    retransmission queue, [bytesInFlight] loses its length, and the probe
    count goes up by one while the RTO count stays. *)
Theorem OnAlarm_tail_loss_probe (cb : option (Time -> bool)) h (now : Time) :
  invariant h ->
  hasOutstandingRetransmittablePacket h = true ->
  IsZero (lossTime h) = true ->
  tlpCount h < maxTailLossProbes ->
  let h' := OnAlarm cb h now in
  exists older newest,
    history h = older ++ [newest]
    /\ history h' = older
    /\ retransmissionQueue h' = retransmissionQueue h ++ [newest]
    /\ bytesInFlight h' = uint64 (bytesInFlight h - Length newest)
    /\ tlpCount h' = uint32 (tlpCount h + 1)
    /\ rtoCount h' = rtoCount h.
Proof.
  intros Hinv Hout Hloss Htlp h'. subst h'. unfold OnAlarm.
  rewrite Hout, Hloss. cbn [negb].
  replace (tlpCount h <? maxTailLossProbes) with true
    by (symmetry; by apply Z.ltb_lt).
  unfold hasOutstandingRetransmittablePacket in Hout.
  destruct (elems (packetHistory h)) as [|e0 rest0] eqn:Heq; [discriminate|].
  assert (Hsnoc : exists older e, e0 :: rest0 = older ++ [e]).
  { clear. induction rest0 as [|y l _] using rev_ind; [by exists [], e0|].
    by exists (e0 :: l), y. }
  destruct Hsnoc as (older & e & Hsnoc). rewrite Hsnoc in Heq. clear Hsnoc Hout.
  exists (Value <$> older), (Value e).
  unfold retransmitTLP, Back. rewrite Heq, last_snoc.
  unfold history. rewrite Heq, fmap_app.
  cbn [updateLossDetectionAlarm set_alarm set_tlpCount packetHistory
       retransmissionQueue bytesInFlight tlpCount rtoCount
       queuePacketForRetransmission set_swm set_packetHistory
       set_retransmissionQueue set_bytesInFlight].
  rewrite (Remove_back h e older Hinv Heq). by split_and!.
Qed.

(** A retransmission timeout.  When the alarm fires with a retransmittable
    packet in the history, no loss time set and both probes used, the RTO
    count goes up by one and packets move from the front of the history to
    the end of the retransmission queue, in their order: the two oldest,
    or every packet of the history when the RTO callback reports the path
    as potentially failed. *)
Theorem OnAlarm_retransmission_timeout
  (cb : option (Time -> bool)) h (now : Time) :
  invariant h ->
  hasOutstandingRetransmittablePacket h = true ->
  IsZero (lossTime h) = true ->
  maxTailLossProbes <= tlpCount h ->
  let potentiallyFailed :=
    match cb with Some f => f (lastSentTime h) | None => false end in
  let n := if potentiallyFailed then length (history h) else 2%nat in
  let h' := OnAlarm cb h now in
  history h' = drop n (history h)
  /\ retransmissionQueue h' = retransmissionQueue h ++ take n (history h)
  /\ rtoCount h' = uint32 (rtoCount h + 1)
  /\ tlpCount h' = tlpCount h.
Proof.
  intros Hinv Hout Hloss Htlp failed n h'. subst h' n. unfold OnAlarm.
  rewrite Hout, Hloss. cbn [negb].
  replace (tlpCount h <? maxTailLossProbes) with false
    by (symmetry; by apply Z.ltb_ge).
  fold failed. unfold history.
  change (elems (packetHistory (updateLossDetectionAlarm ?x)))
    with (elems (packetHistory x)).
  cbn [updateLossDetectionAlarm set_alarm set_rtoCount packetHistory
       retransmissionQueue rtoCount tlpCount].
  destruct failed.
  - unfold retransmitAllPackets.
    cbn [set_congestion packetHistory retransmissionQueue rtoCount tlpCount].
    destruct (retransmitAll_loop_queue (length (elems (packetHistory h))) h
                Hinv ltac:(lia)) as (Hel & Hq & _ & Hr & Ht).
    rewrite Hel, Hq, Hr, Ht, drop_all, firstn_all.
    by split_and!.
  - unfold retransmitOldestTwoPackets.
    cbn [set_congestion packetHistory retransmissionQueue rtoCount tlpCount].
    destruct (elems (packetHistory h)) as [|e1 rest] eqn:Heq.
    { unfold hasOutstandingRetransmittablePacket in Hout.
      rewrite Heq in Hout. discriminate. }
    assert (H1 : retransmitOldestPacket h = queueRTO h e1)
      by (unfold retransmitOldestPacket, Front; by rewrite Heq).
    rewrite H1.
    destruct (queueRTO_front h e1 rest Hinv Heq)
      as (Hinv1 & Hel1 & Hq1 & _ & Hr1 & Ht1 & _).
    destruct rest as [|e2 rest].
    { assert (H2 : retransmitOldestPacket (queueRTO h e1) = queueRTO h e1)
        by (unfold retransmitOldestPacket, Front; by rewrite Hel1).
      rewrite H2, Hel1, Hq1, Hr1, Ht1. by split_and!. }
    assert (H2 : retransmitOldestPacket (queueRTO h e1)
                 = queueRTO (queueRTO h e1) e2)
      by (unfold retransmitOldestPacket, Front; by rewrite Hel1).
    rewrite H2.
    destruct (queueRTO_front (queueRTO h e1) e2 rest Hinv1 Hel1)
      as (_ & Hel2 & Hq2 & _ & Hr2 & Ht2 & _).
    rewrite Hel2, Hq2, Hq1, Hr2, Hr1, Ht2, Ht1, <- app_assoc. by split_and!.
Qed.

End Facts.
End HandlerFacts.

Section MoreHandlerScenarios.

Import Congestion AckHandler Scenario AckHandlerFacts HandlerFacts.

#[local] Existing Instance freshAlgorithm.
#[local] Existing Instance exampleProtocol.

(** Packets 1 to 4 in flight and an ACK for 2 and 3: packet 4 stays. *)
Lemma ReceivedAck_spares_later_packets_witness :
  let h := run None (NewSentPacketHandler 0 (NewBDWStats 0) tt)
             [CallSentPacket (pingPacket 1 500) 10;
              CallSentPacket (pingPacket 2 500) 10;
              CallSentPacket (pingPacket 3 500) 10;
              CallSentPacket (pingPacket 4 500) 10] in
  let r := ReceivedAck h (ackOf 3 2 []) 1 10 10 in
  (PacketNumber <$> history r.2) = [1; 4]
  /\ forall p, p ∈ history h -> 3 < PacketNumber p -> p ∈ history r.2.
Proof.
  intros h r.
  assert (Hinv : invariant h) by apply run_invariant, New_invariant.
  destruct (ReceivedAck_spares_later_packets h (ackOf 3 2 []) 1 10 10 Hinv)
    as [Hkeep _].
  split; [reflexivity|exact Hkeep].
Defined.

(** Packets 1 and 5 sent with a cap of ten skipped packet numbers. *)
Lemma skipped_packets_are_not_sent_witness :
  let h := run None (NewSentPacketHandler 0 (NewBDWStats 0) tt)
             [CallSentPacket (pingPacket 1 500) 10;
              CallSentPacket (pingPacket 5 500) 20] in
  skippedPackets h = [2; 3; 4]
  /\ Forall (fun p => PacketNumber p ∉ skippedPackets h) (history h).
Proof.
  intros h.
  assert (Hmax : 0 <= MaxTrackedSkippedPackets) by (vm_compute; discriminate).
  destruct (skipped_packets_are_not_sent None 0 (NewBDWStats 0) tt
              [CallSentPacket (pingPacket 1 500) 10;
               CallSentPacket (pingPacket 5 500) 20] Hmax)
    as (_ & _ & _ & Hapart).
  split; [reflexivity|exact Hapart].
Defined.

(** An ACK-only packet after a tracked one. *)
Lemma SentPacket_of_acknowledgements_witness :
  let h := run None (NewSentPacketHandler 0 (NewBDWStats 0) tt)
             [CallSentPacket (pingPacket 1 500) 10] in
  let ackOnly :=
    {| PacketNumber := 2; Frames := [Wire.Ack (ackOf 7 1 [])]; Length := 40;
       EncryptionLevel := Wire.EncryptionForwardSecure; SendTime := 0 |} in
  let r := SentPacket h ackOnly 20 in
  r.1 = None /\ lastSentPacketNumber r.2 = 2
  /\ packetHistory r.2 = packetHistory h /\ bytesInFlight r.2 = 500.
Proof.
  intros h ackOnly r.
  assert (Hpn : lastSentPacketNumber h < PacketNumber ackOnly)
    by (vm_compute; reflexivity).
  assert (Htracked :
    Z.of_nat (length (retransmissionQueue h))
    + Z.of_nat (length (elems (packetHistory h))) + 1 <= MaxTrackedSentPackets)
    by (vm_compute; discriminate).
  destruct (SentPacket_of_acknowledgements h ackOnly 20 Hpn Htracked)
    as (Hok & Hlast & _ & Hplain & _).
  destruct (Hplain eq_refl) as (Hhist & _ & Hbytes & _).
  split_and!; [exact Hok|exact Hlast|exact Hhist|].
  unfold r. rewrite Hbytes. reflexivity.
Defined.

(** Two packets in flight, no RTT sample: the first alarm probes with
    packet 2. *)
Lemma OnAlarm_tail_loss_probe_witness :
  let h := run None (NewSentPacketHandler 0 (NewBDWStats 0) tt)
             [CallSentPacket (pingPacket 1 500) 10;
              CallSentPacket (pingPacket 2 700) 20] in
  let h' := OnAlarm None h 600 in
  (PacketNumber <$> history h') = [1]
  /\ (PacketNumber <$> retransmissionQueue h') = [2]
  /\ bytesInFlight h' = 500 /\ tlpCount h' = 1.
Proof.
  intros h h'.
  assert (Hinv : invariant h) by apply run_invariant, New_invariant.
  assert (Htlp : tlpCount h < maxTailLossProbes) by reflexivity.
  destruct (OnAlarm_tail_loss_probe None h 600 Hinv eq_refl eq_refl Htlp)
    as (older & newest & _ & _ & _ & _ & Hcount & _).
  split_and!; [reflexivity|reflexivity|reflexivity|].
  unfold h'. rewrite Hcount. reflexivity.
Defined.

(** Three packets in flight and two probes sent: the third alarm is a
    retransmission timeout, which queues the packet that is left. *)
Lemma OnAlarm_retransmission_timeout_witness :
  let h := run None (NewSentPacketHandler 0 (NewBDWStats 0) tt)
             [CallSentPacket (pingPacket 1 500) 10;
              CallSentPacket (pingPacket 2 500) 20;
              CallSentPacket (pingPacket 3 500) 30;
              CallOnAlarm 600; CallOnAlarm 1200] in
  let h' := OnAlarm None h 1800 in
  (PacketNumber <$> history h) = [1]
  /\ history h' = []
  /\ (PacketNumber <$> retransmissionQueue h') = [3; 2; 1]
  /\ rtoCount h' = 1.
Proof.
  intros h h'.
  assert (Hinv : invariant h) by apply run_invariant, New_invariant.
  assert (Htlp : maxTailLossProbes <= tlpCount h)
    by (vm_compute; discriminate).
  destruct (OnAlarm_retransmission_timeout None h 1800 Hinv eq_refl eq_refl
              Htlp) as (_ & _ & Hcount & _).
  split_and!; [reflexivity|reflexivity|reflexivity|].
  unfold h'. rewrite Hcount. reflexivity.
Defined.

End MoreHandlerScenarios.

(** ** More on the packet packer *)

Module PackerMoreFacts.

Import Wire Packer PackerPaths PackerFacts.

Section Facts.

Context {SF G : Type} `{!StreamFramer SF} `{!PacketNumberGenerator G}
        `{!WireCodec} `{!Protocol}.

Implicit Types p : packetPacker SF.
Implicit Types pth : path G.

(** Splits a goal made of conjunctions, equivalences and implications,
    and closes what the hypotheses decide. *)
Ltac unravel :=
  repeat match goal with
         | |- _ /\ _ => split
         | |- _ <-> _ => split
         | |- _ -> _ => intro
         | |- forall _, _ => intro
         | H : _ /\ _ |- _ => destruct H
         | H : exists _, _ |- _ => destruct H
         | H : is_Some _ |- _ => destruct H
         end;
  simplify_eq; try done; eauto.

(** *** The order of the frames in a packet *)

Lemma composeWith_order popStream p maxFrameSize canSend pth fs p' :
  composeWith popStream p maxFrameSize canSend pth = (inr fs, p') ->
  exists kept moved streams blocked,
    controlFrames p = kept ++ rev moved
    /\ fs = match stopWaiting p !! pathID pth with
            | Some swf => [StopWaiting swf]
            | None => []
            end
            ++ match ackFrame p !! pathID pth with
               | Some ack => [Ack ack]
               | None => []
               end
            ++ moved ++ map Stream streams
    /\ controlFrames p' = kept ++ map Blocked blocked
    /\ stopWaiting p' = stopWaiting p
    /\ ackFrame p' = ackFrame p
    /\ (canSend = false ->
        streams = [] /\ blocked = [] /\ streamFramer p' = streamFramer p).
Proof.
  unfold composeWith.
  destruct (stopWaiting p !! pathID pth) as [swf|];
    [destruct (MinLength (StopWaiting swf) (version p)) as [e|l];
       [discriminate|]|];
    (destruct (ackFrame p !! pathID pth) as [ack|];
       [destruct (MinLength (Ack ack) (version p)) as [e|l'];
          [discriminate|]|]);
    (destruct (popControlFrames _ _ _ _ _) as [[[e queue] len2] payload] eqn:Hpop;
     apply popControlFrames_frames in Hpop as (moved & -> & Hqueue);
     (destruct e as [e|]; [discriminate|]);
     (destruct (_ >? maxFrameSize); [discriminate|]);
     assert (Hcf : controlFrames p = rev queue ++ rev moved)
       by (rewrite <- rev_app_distr, <- Hqueue; by rewrite rev_involutive);
     destruct canSend; cbn [negb];
       [destruct (popStream _ _) as [streams sf];
        destruct (PopBlockedFrames sf) as [bs sf'];
        intros [= <- <-];
        exists (rev queue), moved, (clearLastDataLen streams), bs
       |intros [= <- <-]; exists (rev queue), moved, [], []];
     cbn [map app]; rewrite ?app_nil_r, <- ?app_assoc;
     by split_and!).
Qed.

(** A composed payload has its frames in this order: the STOP_WAITING
    frame queued for the path, the ACK frame queued for the path, control
    frames taken from the end of the queue, last queued first, and then
    stream frames.  The control frames that are not taken stay in the
    queue as they were, before the BLOCKED frames the framer gives; no
    control frame is lost or sent twice.  When stream frames may not be
    sent, the framer is not asked. *)
Theorem composed_frames_in_order p maxFrameSize canSend pth streamID fs p' :
  composeNextPacket p maxFrameSize canSend pth = (inr fs, p')
  \/ composeNextPacketOfPath p maxFrameSize canSend pth = (inr fs, p')
  \/ composeNextPacketOfStream p maxFrameSize canSend pth streamID
     = (inr fs, p') ->
  exists kept moved streams blocked,
    controlFrames p = kept ++ rev moved
    /\ fs = match stopWaiting p !! pathID pth with
            | Some swf => [StopWaiting swf]
            | None => []
            end
            ++ match ackFrame p !! pathID pth with
               | Some ack => [Ack ack]
               | None => []
               end
            ++ moved ++ map Stream streams
    /\ controlFrames p' = kept ++ map Blocked blocked
    /\ stopWaiting p' = stopWaiting p
    /\ ackFrame p' = ackFrame p
    /\ (canSend = false ->
        streams = [] /\ blocked = [] /\ streamFramer p' = streamFramer p).
Proof. intros [Hc|[Hc|Hc]]; eapply composeWith_order; exact Hc. Qed.

(** *** ACK packets *)


(** *** One path's frames and another path's calls *)

Lemma composeWith_maps popStream p maxFrameSize canSend pth r p' :
  composeWith popStream p maxFrameSize canSend pth = (r, p') ->
  stopWaiting p' = stopWaiting p /\ ackFrame p' = ackFrame p.
Proof.
  unfold composeWith.
  destruct (stopWaiting p !! pathID pth) as [swf|];
    [destruct (MinLength (StopWaiting swf) (version p)) as [e|l];
       [by intros [= _ <-]|]|];
    (destruct (ackFrame p !! pathID pth) as [ack|];
       [destruct (MinLength (Ack ack) (version p)) as [e|l'];
          [by intros [= _ <-]|]|]);
    (destruct (popControlFrames _ _ _ _ _) as [[[e queue] len2] payload];
     (destruct e as [e|]; [by intros [= _ <-]|]);
     (destruct (_ >? maxFrameSize); [by intros [= _ <-]|]);
     destruct (negb canSend);
       [|destruct (popStream _ _) as [streams sf];
         destruct (PopBlockedFrames sf) as [bs sf']];
     by intros [= _ <-]).
Qed.

Lemma finishPacket_others p ph fs sealer level pth id :
  id <> pathID pth ->
  let p' := packerAfter (finishPacket p ph fs sealer level pth) in
  stopWaiting p' !! id = stopWaiting p !! id
  /\ ackFrame p' !! id = ackFrame p !! id.
Proof.
  intros Hid. unfold finishPacket.
  destruct (_ =? 0); [done|]. destruct (_ && _); [done|].
  destruct (writeAndSealPacket _ _ _ _ _) as [[e|bytes] pth'];
    cbn [packerAfter failed ackFrame stopWaiting set_ackFrame set_stopWaiting];
    by rewrite !lookup_delete_ne.
Qed.

Lemma packWith_others popStream p pth id :
  id <> pathID pth ->
  let p' := packerAfter (packWith (composeWith popStream) p pth) in
  stopWaiting p' !! id = stopWaiting p !! id
  /\ ackFrame p' !! id = ackFrame p !! id.
Proof.
  intros Hid. unfold packWith.
  destruct (HasCryptoStreamFrame (streamFramer p)).
  { unfold packCryptoPacket.
    destruct (GetSealerForCryptoStream _) as [level sealer].
    destruct (GetLength _ _) as [e|len]; [done|].
    destruct (PopCryptoStreamFrame _ _) as [f sf].
    by destruct (writeAndSealPacket _ _ _ _ _) as [[e|bytes] pth']. }
  destruct (GetSealer _) as [level sealer].
  destruct (GetLength _ _) as [e|len]; [done|].
  set (p1 := match stopWaiting p !! pathID pth with
             | Some swf => _
             | None => p
             end).
  assert (H1 : stopWaiting p1 !! id = stopWaiting p !! id
               /\ ackFrame p1 !! id = ackFrame p !! id).
  { subst p1. destruct (stopWaiting p !! pathID pth); [|done].
    cbn [stopWaiting ackFrame set_stopWaiting].
    by rewrite lookup_insert_ne. }
  destruct H1 as [Hs1 Ha1].
  destruct (match controlFrames p1 with f :: _ => isPing f | [] => false end).
  - destruct (finishPacket_others
                (set_controlFrames p1 (drop 1 (controlFrames p1)))
                (getPublicHeader p level pth) (take 1 (controlFrames p1))
                sealer level pth id Hid) as [-> ->].
    by split.
  - destruct (composeWith popStream p1 _ _ pth) as [[e|fs] q] eqn:Hc;
      apply composeWith_maps in Hc as [Hsq Haq].
    + cbn [packerAfter failed]. by rewrite Hsq, Haq.
    + destruct (finishPacket_others q (getPublicHeader p level pth) fs
                  sealer level pth id Hid) as [-> ->].
      by rewrite Hsq, Haq.
Qed.

Lemma call_others p (c : Call) id :
  id <> pathID (pathOf c) ->
  stopWaiting (call p c) !! id = stopWaiting p !! id
  /\ ackFrame (call p c) !! id = ackFrame p !! id.
Proof.
  intros Hid. destruct c; cbn [call pathOf] in *.
  - unfold QueueControlFrame.
    destruct frame; cbn [stopWaiting ackFrame set_stopWaiting set_ackFrame
                         set_controlFrames];
      by rewrite ?lookup_insert_ne.
  - by apply packWith_others.
  - by apply (packWith_others
                (fun sf n => PopStreamFramesOfPath sf n (pathID pth)
                               (streamIDs pth))).
  - by apply (packWith_others
                (fun sf n => PopStreamFramesOfOneStream sf n streamID)).
  - unfold PackAckPacket.
    destruct (ackFrame p !! pathID pth); [|done].
    destruct (GetSealer _) as [level sealer].
    destruct (stopWaiting p !! pathID pth); unfold sealAndReturn;
      destruct (writeAndSealPacket _ _ _ _ _) as [res pth'];
      cbn [packerAfter stopWaiting ackFrame set_stopWaiting set_ackFrame];
      by rewrite ?lookup_delete_ne.
  - unfold PackHandshakeRetransmission.
    destruct (AckHandler.EncryptionLevel pkt); try done;
      (destruct (GetSealerWithEncryptionLevel _ _); [done|]);
      (destruct (stopWaiting p !! pathID pth); [|done]);
      unfold sealAndReturn;
      destruct (writeAndSealPacket _ _ _ _ _) as [res pth'];
      cbn [packerAfter stopWaiting ackFrame set_stopWaiting set_ackFrame];
      by rewrite ?lookup_delete_ne.
  - unfold PackConnectionClose.
    destruct (GetSealer _) as [level sealer]. unfold sealAndReturn.
    by destruct (writeAndSealPacket _ _ _ _ _) as [res pth'].
  - unfold PackPing, PackPacket.
    by apply (packWith_others PopStreamFrames
                (set_controlFrames p (Ping :: controlFrames p))
                (SetLeastUnacked pth lu) id).
Qed.

(** The STOP_WAITING and ACK frames queued for a path stay queued,
    unchanged, through every sequence of calls that are made for other
    paths: packing for one path neither sends nor drops what waits for
    another. *)
Theorem queued_frames_wait_for_their_path p (cs : list Call) (id : Z) :
  Forall (fun c => pathID (pathOf c) <> id) cs ->
  stopWaiting (run p cs) !! id = stopWaiting p !! id
  /\ ackFrame (run p cs) !! id = ackFrame p !! id.
Proof.
  revert p. induction cs as [|c cs IH]; intros p Hcs; [done|].
  apply Forall_cons in Hcs as [Hc Hcs].
  change (run p (c :: cs)) with (run (call p c) cs).
  destruct (IH (call p c) Hcs) as [-> ->]. by apply call_others.
Qed.

(** *** PING packets *)

Lemma PackPing_unfold p pth (lu : Z) :
  HasCryptoStreamFrame (streamFramer p) = false ->
  PackPing p pth lu
  = let pth1 := SetLeastUnacked pth lu in
    let ph := getPublicHeader p (GetSealer (cryptoSetup p)).1 pth1 in
    match GetLength ph (perspective p) with
    | inl e => failed e (set_controlFrames p (Ping :: controlFrames p)) pth1
    | inr _ =>
      match stopWaiting p !! pathID pth with
      | Some swf =>
        noPacket (set_stopWaiting p
                    (<[pathID pth := stampStopWaiting swf ph]> (stopWaiting p)))
                 pth1
      | None =>
        finishPacket p ph [Ping] (GetSealer (cryptoSetup p)).2
          (GetSealer (cryptoSetup p)).1 pth1
      end
    end.
Proof.
  intros Hcrypto. unfold PackPing, PackPacket, packWith.
  cbn [streamFramer cryptoSetup perspective version stopWaiting
       set_controlFrames].
  rewrite Hcrypto.
  destruct (GetSealer (cryptoSetup p)) as [level sealer]. cbn [fst snd].
  change (getPublicHeader (set_controlFrames p (Ping :: controlFrames p)))
    with (getPublicHeader p).
  destruct (GetLength _ _) as [e|len]; [reflexivity|].
  cbn [stopWaiting pathID SetLeastUnacked].
  destruct (stopWaiting p !! pathID pth) as [swf|] eqn:Hsw.
  - cbn [controlFrames set_stopWaiting set_controlFrames isPing take drop].
    unfold finishPacket. rewrite take_0, drop_0. cbn [length].
    change (Z.of_nat 1) with 1. cbn [Z.eqb Pos.eqb].
    cbn [stopWaiting set_controlFrames set_stopWaiting pathID SetLeastUnacked].
    rewrite lookup_insert_eq.
    rewrite bool_decide_eq_true_2 by eauto. cbn [andb].
    unfold noPacket; f_equal; by destruct p.
  - cbn [controlFrames set_controlFrames isPing take drop].
    rewrite take_0, drop_0; f_equal; by destruct p.
Qed.

(** [PackPing], when no crypto stream frame is waiting: a packet it
    returns comes without error and carries the PING frame and nothing
    else, the queue of control frames is left as it was before the call,
    and the ACK frame queued for the path is dropped unsent.  It returns
    neither a packet nor an error exactly when a STOP_WAITING frame is
    queued for the path; the PING frame is then dropped. *)
Theorem PackPing_sends_the_ping_alone p pth (lu : Z) :
  HasCryptoStreamFrame (streamFramer p) = false ->
  let r := PackPing p pth lu in
  (forall pkt, packet r = Some pkt ->
     err r = None /\ frames pkt = [Ping]
     /\ stopWaiting p !! pathID pth = None
     /\ controlFrames (packerAfter r) = controlFrames p
     /\ ackFrame (packerAfter r) !! pathID pth = None)
  /\ (packet r = None /\ err r = None
      <-> is_Some (stopWaiting p !! pathID pth)
          /\ exists len,
               GetLength
                 (getPublicHeader p (GetSealer (cryptoSetup p)).1
                    (SetLeastUnacked pth lu)) (perspective p) = inr len)
  /\ (packet r = None -> err r = None ->
      controlFrames (packerAfter r) = controlFrames p).
Proof.
  intros Hcrypto r. subst r. rewrite PackPing_unfold by exact Hcrypto.
  cbn zeta.
  destruct (GetSealer (cryptoSetup p)) as [level sealer]. cbn [fst snd].
  destruct (GetLength _ _) as [e|len]; [cbn; unravel|].
  destruct (stopWaiting p !! pathID pth) as [swf|] eqn:Hsw; [cbn; unravel|].
  unfold finishPacket. cbn [length].
  change (Z.of_nat 1) with 1. cbn [Z.eqb Pos.eqb].
  cbn [pathID SetLeastUnacked]. rewrite Hsw.
  rewrite bool_decide_eq_false_2 by (by intros [? [=]]).
  cbn [andb].
  destruct (writeAndSealPacket _ _ _ _ _) as [[e|bytes] pth'];
    cbn [packet err packerAfter failed frames controlFrames ackFrame
         set_ackFrame set_stopWaiting set_controlFrames pathID];
    rewrite ?lookup_delete_eq; unravel.
Qed.

End Facts.
End PackerMoreFacts.

Section MorePackerScenarios.

Import Wire Packer PackerPaths Scenario PackerFacts PackerMoreFacts.

#[local] Existing Instance emptyFramer.
#[local] Existing Instance countingGenerator.
#[local] Existing Instance plainCodec.
#[local] Existing Instance exampleProtocol.

(** An ACK, a STOP_WAITING and two control frames queued for a path. *)
Lemma composed_frames_in_order_witness :
  let fresh := newPacketPacker 4919 exampleCryptoSetup false tt
                 PerspectiveServer 0 in
  let p := run fresh
             [CallQueueControlFrame (WindowUpdate 5 1000) examplePath;
              CallQueueControlFrame (Ack (ackOf 7 1 [])) examplePath;
              CallQueueControlFrame (RstStream 7 0 0) examplePath;
              CallQueueControlFrame (StopWaiting (stopWaitingOf 8)) examplePath] in
  (composeNextPacket p 1000 true examplePath).1
  = inr [StopWaiting (stopWaitingOf 8); Ack (ackOf 7 1 []);
         RstStream 7 0 0; WindowUpdate 5 1000]
  /\ exists kept moved blocked,
       controlFrames p = kept ++ rev moved
       /\ controlFrames (composeNextPacket p 1000 true examplePath).2
          = kept ++ map Blocked blocked.
Proof.
  intros fresh p. split; [reflexivity|].
  assert (Hc : composeNextPacket p 1000 true examplePath
               = (inr [StopWaiting (stopWaitingOf 8); Ack (ackOf 7 1 []);
                       RstStream 7 0 0; WindowUpdate 5 1000],
                  (composeNextPacket p 1000 true examplePath).2))
    by (vm_compute; reflexivity).
  destruct (composed_frames_in_order p 1000 true examplePath 0 _ _
              (or_introl Hc))
    as (kept & moved & streams & blocked & Hq & _ & Hq' & _).
  by exists kept, moved, blocked.
Defined.

(** An ACK queued for path 1 and packets packed for path 0. *)
Lemma queued_frames_wait_for_their_path_witness :
  let fresh := newPacketPacker 4919 exampleCryptoSetup false tt
                 PerspectiveServer 0 in
  let p := QueueControlFrame fresh (Ack (ackOf 7 1 [])) secondPath in
  let calls := [CallQueueControlFrame (Ack (ackOf 3 1 [])) examplePath;
                CallPackPacket examplePath;
                CallPackPing examplePath 1] in
  ackFrame (run p calls) !! 1 = Some (ackOf 7 1 [])
  /\ ackFrame (run p calls) !! 0 = None.
Proof.
  intros fresh p calls.
  assert (Hcalls : Forall (fun c => pathID (pathOf c) <> 1) calls)
    by (repeat constructor; discriminate).
  destruct (queued_frames_wait_for_their_path p calls 1 Hcalls) as [_ Hack].
  split; [rewrite Hack; reflexivity|reflexivity].
Defined.

(** A PING on a path with an ACK queued. *)
Lemma PackPing_sends_the_ping_alone_witness :
  let fresh := newPacketPacker 4919 exampleCryptoSetup false tt
                 PerspectiveServer 0 in
  let p := QueueControlFrame fresh (Ack (ackOf 7 1 [])) examplePath in
  let r := PackPing p examplePath 1 in
  (frames <$> packet r) = Some [Ping]
  /\ ackFrame (packerAfter r) !! 0 = None.
Proof.
  intros fresh p r.
  assert (Hcrypto : HasCryptoStreamFrame (streamFramer p) = false)
    by (vm_compute; reflexivity).
  destruct (PackPing_sends_the_ping_alone p examplePath 1 Hcrypto)
    as (Hpkt & _ & _).
  destruct (packet (PackPing p examplePath 1)) as [pkt|] eqn:Hp;
    [|vm_compute in Hp; discriminate].
  destruct (Hpkt pkt eq_refl) as (_ & Hframes & _ & _ & Hack).
  split; [|exact Hack]. unfold r. rewrite Hp. cbn. by rewrite Hframes.
Defined.

End MorePackerScenarios.

(** ** The packets a handler hands out, and the handshake retransmission *)

Module RetransmissionFacts.

Import Congestion AckHandler AckHandlerFacts HandlerFacts Retransmissions.

Section Facts.

Context {C : Type} `{!SendAlgorithm C} `{!Protocol}.

Implicit Types h : sentPacketHandler C.
Implicit Types e : PacketElement.

Lemma handsOver_refl h : handsOver h h.
Proof. split; [done|]. intros p Hp. by left. Qed.

Lemma handsOver_trans h1 h2 h3 :
  handsOver h1 h2 -> handsOver h2 h3 -> handsOver h1 h3.
Proof.
  intros [Hs1 Hq1] [Hs2 Hq2]. split; [by etrans|].
  intros p [Hp|Hp]%Hq2; [by apply Hq1|]. right.
  unfold history in *. apply list_elem_of_fmap in Hp as (e & -> & He).
  apply list_elem_of_fmap_2. by eapply elem_of_sublist.
Qed.

(** Only the history and the queue matter. *)
Lemma handsOver_fields h h1 h2 :
  packetHistory h2 = packetHistory h1 ->
  retransmissionQueue h2 = retransmissionQueue h1 ->
  handsOver h h1 -> handsOver h h2.
Proof. unfold handsOver. by intros -> ->. Qed.

Lemma handsOver_framed h h' : framed h -> handsOver h h' -> framed h'.
Proof.
  intros [Hh Hq] [Hs Hin]. split.
  - eapply Forall_sublist; [exact Hs|exact Hh].
  - apply Forall_forall. intros p [Hp|Hp]%Hin.
    + rewrite Forall_forall in Hq. by apply Hq.
    + unfold history in Hp. apply list_elem_of_fmap in Hp as (e & -> & He).
      rewrite Forall_forall in Hh. by apply Hh.
Qed.

(** A step that takes a cell of the history into the queue. *)
Lemma queueing_handsOver
  (step : sentPacketHandler C -> PacketElement -> sentPacketHandler C) h e :
  removing step ->
  retransmissionQueue (step h e) = retransmissionQueue h ++ [Value e] ->
  e ∈ elems (packetHistory h) ->
  handsOver h (step h e).
Proof.
  intros Hr Hq He. split; [by apply removing_sublist|].
  intros p. rewrite Hq, elem_of_app, list_elem_of_singleton.
  intros [Hp| ->]; [by left|right]. by apply list_elem_of_fmap_2.
Qed.

Lemma queuePacketForRetransmission_handsOver h e :
  e ∈ elems (packetHistory h) -> handsOver h (queuePacketForRetransmission h e).
Proof.
  apply queueing_handsOver; [apply queuePacketForRetransmission_removing|done].
Qed.

Lemma queueRTO_handsOver h e :
  e ∈ elems (packetHistory h) -> handsOver h (queueRTO h e).
Proof. apply queueing_handsOver; [apply queueRTO_removing|done]. Qed.

Lemma retransmitTLP_handsOver h : handsOver h (retransmitTLP h).
Proof.
  unfold retransmitTLP.
  destruct (Back (packetHistory h)) as [e|] eqn:Hb; [|apply handsOver_refl].
  by apply queuePacketForRetransmission_handsOver, Back_elem.
Qed.

Lemma retransmitOldestPacket_handsOver h :
  handsOver h (retransmitOldestPacket h).
Proof.
  unfold retransmitOldestPacket.
  destruct (Front (packetHistory h)) as [e|] eqn:Hf; [|apply handsOver_refl].
  by apply queueRTO_handsOver, Front_elem.
Qed.

Lemma retransmitAll_loop_handsOver n : forall h,
  handsOver h (retransmitAll_loop n h).
Proof.
  induction n as [|n IH]; intros h; cbn [retransmitAll_loop];
    [apply handsOver_refl|].
  destruct (Front (packetHistory h)) as [e|] eqn:Hf; [|apply handsOver_refl].
  eapply handsOver_trans; [|apply IH]. by apply queueRTO_handsOver, Front_elem.
Qed.

(** Cells of the history that went to the end of the queue. *)
Lemma lost_handsOver h h' (lost : list PacketElement) :
  elems (packetHistory h') `sublist_of` elems (packetHistory h) ->
  lost `sublist_of` elems (packetHistory h) ->
  retransmissionQueue h' = retransmissionQueue h ++ (Value <$> lost) ->
  handsOver h h'.
Proof.
  intros Hs Hlost Hq. split; [exact Hs|].
  intros p. rewrite Hq, elem_of_app. intros [Hp|Hp]; [by left|right].
  apply list_elem_of_fmap in Hp as (e & -> & He).
  apply list_elem_of_fmap_2. by eapply elem_of_sublist.
Qed.

Lemma detectLostPackets_handsOver h now :
  invariant h -> handsOver h (detectLostPackets h now).
Proof.
  intros Hinv.
  destruct (detectLostPackets_history h now Hinv) as (lost & Hlost & _ & Hel & Hq).
  apply (lost_handsOver h _ lost); [|exact Hlost|exact Hq].
  rewrite Hel. apply without_sublist.
Qed.

Lemma SetInflightAsLost_handsOver h :
  invariant h -> handsOver h (SetInflightAsLost h).
Proof.
  intros Hinv. destruct (SetInflightAsLost_keeps h) as (_ & _ & Hq).
  eapply lost_handsOver; [by apply SetInflightAsLost_sublist| |exact Hq].
  apply prefixUpTo_sublist.
Qed.

Lemma OnAlarm_handsOver cb h now :
  invariant h -> handsOver h (OnAlarm cb h now).
Proof.
  intros Hinv. unfold OnAlarm.
  destruct (negb (hasOutstandingRetransmittablePacket h));
    [by apply (handsOver_fields h h), handsOver_refl|].
  apply (handsOver_fields h
           (if negb (IsZero (lossTime h)) then detectLostPackets h now
            else if tlpCount h <? maxTailLossProbes
                 then retransmitTLP h
                 else if match cb with
                         | Some f => f (lastSentTime h)
                         | None => false
                         end
                      then retransmitAll_loop
                             (length (elems (packetHistory h))) h
                      else retransmitOldestPacket (retransmitOldestPacket h))).
  - destruct (negb (IsZero (lossTime h))); [done|].
    destruct (tlpCount h <? maxTailLossProbes); [done|].
    by destruct (match cb with Some f => f (lastSentTime h) | None => false end).
  - destruct (negb (IsZero (lossTime h))); [done|].
    destruct (tlpCount h <? maxTailLossProbes); [done|].
    by destruct (match cb with Some f => f (lastSentTime h) | None => false end).
  - destruct (negb (IsZero (lossTime h)));
      [by apply detectLostPackets_handsOver|].
    destruct (tlpCount h <? maxTailLossProbes);
      [apply retransmitTLP_handsOver|].
    destruct (match cb with Some f => f (lastSentTime h) | None => false end).
    + apply retransmitAll_loop_handsOver.
    + eapply handsOver_trans; apply retransmitOldestPacket_handsOver.
Qed.

Lemma ReceivedAck_handsOver h ackFrame withPacketNumber rcvTime now :
  invariant h ->
  handsOver h (ReceivedAck h ackFrame withPacketNumber rcvTime now).2.
Proof.
  intros Hinv.
  split; [by apply ReceivedAck_history|].
  unfold ReceivedAck.
  destruct (_ >? lastSentPacketNumber h); [by left|].
  destruct (_ <=? largestReceivedPacketWithAck h); [by left|].
  set (h1 := set_largestReceivedPacketWithAck h withPacketNumber).
  assert (Hinv1 : invariant h1) by by apply (invariant_same h).
  destruct (_ <=? largestInOrderAcked h1); [by left|].
  set (h2 := set_LargestAcked h1 (Wire.LargestAcked ackFrame)).
  assert (Hinv2 : invariant h2) by by apply (invariant_same h1).
  destruct (skippedPacketsAcked h2 ackFrame); [by left|].
  unfold processAck, maybeUpdateRTT.
  destruct (maybeUpdateRTT_walk _ _ _ _ _ _) as [updated c].
  set (h3 := if updated then _ else _).
  assert (Hinv3 : invariant h3).
  { subst h3. destruct updated; by apply (invariant_same h2). }
  assert (Hh3 : packetHistory h3 = packetHistory h
                /\ retransmissionQueue h3 = retransmissionQueue h)
    by (subst h3; by destruct updated).
  destruct Hh3 as [Hh3 Hq3].
  unfold determineNewlyAckedPackets.
  destruct (newlyAcked_walk _ _ _ _ _ _ _) as [err|acked] eqn:Hw.
  { cbn [snd]. rewrite Hq3. by left. }
  apply (newlyAcked_cells h3) in Hw as (Hsub & _); [|exact Hinv3].
  pose proof (ackedStep_handler ackFrame rcvTime acked h3 false 0) as Hfold.
  destruct (fold_left (ackedStep ackFrame rcvTime) acked (h3, false, 0))
    as [[h4 flag] sentDelay] eqn:Hf.
  unfold Duration in *. rewrite Hf in Hfold. cbn [fst] in Hfold.
  destruct (closePath_fold_invariant h3 acked Hinv3 Hsub)
    as (Hinv4 & Hel4 & _).
  destruct (closePath_fold_keeps acked h3) as (_ & _ & Hq4).
  rewrite <- Hfold in Hinv4, Hel4, Hq4. clear Hf.
  assert (Hbdw : (if flag
                  then UpdateBDW (bdwStats h4)
                         (uint64 (bytesInFlight h3 - bytesInFlight h4)) sentDelay
                  else Some (bdwStats h4)) = Some (bdwStats h4))
    by (by destruct flag).
  rewrite Hbdw. cbn [snd].
  set (h5 := set_bdwStats h4 (bdwStats h4)).
  assert (Hinv5 : invariant h5) by by apply (invariant_same h4).
  destruct (detectLostPackets_history h5 now Hinv5)
    as (lost & Hlost & _ & _ & Hq6).
  change (elems (packetHistory h5)) with (elems (packetHistory h4)) in Hlost.
  change (retransmissionQueue h5) with (retransmissionQueue h4) in Hq6.
  change (retransmissionQueue (set_swm _ _))
    with (retransmissionQueue (detectLostPackets h5 now)).
  rewrite Hq6, Hq4, Hq3. rewrite Hel4, Hh3 in Hlost.
  intros p [Hp|Hp]%elem_of_app; [by left|right].
  apply list_elem_of_fmap in Hp as (e & -> & He).
  apply list_elem_of_fmap_2.
  eapply elem_of_sublist; [exact He|].
  etrans; [exact Hlost|apply without_sublist].
Qed.

Lemma ReceivedClosePath_handsOver h f withPacketNumber rcvTime :
  invariant h ->
  handsOver h (ReceivedClosePath h f withPacketNumber rcvTime).2.
Proof.
  intros Hinv.
  split; [by apply ReceivedClosePath_sublist|].
  unfold ReceivedClosePath.
  destruct (_ >? lastSentPacketNumber h); [by left|].
  destruct (_ <=? largestReceivedPacketWithAck h); [by left|].
  set (h1 := set_largestReceivedPacketWithAck h withPacketNumber).
  assert (Hinv1 : invariant h1) by by apply (invariant_same h).
  destruct (skippedPacketsAckedClosePath h1 f); [by left|].
  unfold processClosePath, determineNewlyAckedPacketsClosePath.
  destruct (newlyAcked_walk _ _ _ _ _ _ _) as [e|acked] eqn:Hw; [by left|].
  apply (newlyAcked_cells h1) in Hw as (Hsub & _); [|exact Hinv1].
  cbn [snd].
  destruct (closePath_fold_invariant h1 acked Hinv1 Hsub) as (Hinv2 & Hel & _).
  destruct (closePath_fold_keeps acked h1) as (_ & _ & Hq2).
  change (retransmissionQueue (garbageCollectSkippedPackets ?x))
    with (retransmissionQueue x).
  destruct (SetInflightAsLost_handsOver _ Hinv2) as [_ Hin].
  intros p [Hp|Hp]%Hin.
  - left. by rewrite Hq2 in Hp.
  - right. unfold history in *.
    apply list_elem_of_fmap in Hp as (e & -> & He).
    apply list_elem_of_fmap_2. rewrite Hel in He.
    eapply elem_of_sublist; [exact He|apply without_sublist].
Qed.

(** One call keeps the packets framed. *)
Lemma call_framed cb h c :
  invariant h -> framed h -> duplicatesFramed c -> framed (call cb h c).
Proof.
  intros Hinv Hfr Hdup. destruct c; cbn [call].
  - destruct Hfr as [Hh Hq]. split.
    + destruct (call_history cb h (CallSentPacket packet now) Hinv)
        as [Hsub|(packet' & now' & [= <- <-] & _ & _ & Hsome & Heq)];
        cbn [call] in *.
      * eapply Forall_sublist; [exact Hsub|exact Hh].
      * rewrite Heq. apply Forall_app. split; [exact Hh|].
        by repeat constructor.
    + unfold SentPacket.
      destruct (_ <=? lastSentPacketNumber h); [exact Hq|].
      destruct (_ >? MaxTrackedSentPackets); [exact Hq|]. cbn [snd].
      destruct (recordSent_numbers h packet now) as (_ & _ & Hsame & _).
      change (retransmissionQueue (updateLossDetectionAlarm ?x))
        with (retransmissionQueue x).
      by rewrite Hsame.
  - eapply handsOver_framed; [exact Hfr|by apply ReceivedAck_handsOver].
  - eapply handsOver_framed; [exact Hfr|by apply ReceivedClosePath_handsOver].
  - eapply handsOver_framed; [exact Hfr|by apply OnAlarm_handsOver].
  - unfold DequeuePacketForRetransmission. destruct Hfr as [Hh Hq].
    destruct (retransmissionQueue h) as [|p rest] eqn:Hqueue; cbn [snd].
    + split; [exact Hh|]. by rewrite Hqueue.
    + split; [exact Hh|]. cbn. by inversion Hq.
  - destruct Hfr as [Hh Hq]. split; [exact Hh|].
    cbn. apply Forall_app. split; [exact Hq|]. by repeat constructor.
  - eapply handsOver_framed; [exact Hfr|by apply SetInflightAsLost_handsOver].
Qed.

(** From a new handler on, every packet of the history and of the
    retransmission queue has a frame. *)
Lemma run_framed cb pid bdw (cong : C) (cs : list Call) :
  Forall duplicatesFramed cs ->
  framed (run cb (NewSentPacketHandler pid bdw cong) cs).
Proof.
  induction cs as [|c cs IH] using rev_ind; intros Hdup.
  - split; constructor.
  - apply Forall_app in Hdup as [Hcs Hc]. apply Forall_inv in Hc.
    unfold run. rewrite fold_left_app. cbn [fold_left].
    apply call_framed; [apply run_invariant, New_invariant|by apply IH|done].
Qed.

(** What [DequeuePacketForRetransmission] hands out has a frame. *)
Lemma dequeued_has_frame cb pid bdw (cong : C) (cs : list Call)
  (retransmitted : Packet) :
  Forall duplicatesFramed cs ->
  (DequeuePacketForRetransmission
     (run cb (NewSentPacketHandler pid bdw cong) cs)).1 = Some retransmitted ->
  Frames retransmitted <> [].
Proof.
  intros Hdup. destruct (run_framed cb pid bdw cong cs Hdup) as [_ Hq].
  unfold DequeuePacketForRetransmission.
  destruct (retransmissionQueue _) as [|p rest]; [done|].
  intros [= <-]. by inversion Hq.
Qed.

End Facts.

End RetransmissionFacts.

(** ** No packet of only a STOP_WAITING frame *)

Module SendableFacts.

Import Wire Packer PackerFacts Retransmissions.

Section Facts.

Context {C : Type} `{!Congestion.SendAlgorithm C}
        {SF G : Type} `{!StreamFramer SF} `{!PacketNumberGenerator G}
        `{!WireCodec} `{!Protocol}.

Implicit Types p : packetPacker SF.
Implicit Types pth : path G.

(** C6. No entry point of the packer produces a packet whose frames are
    none or a single STOP_WAITING frame.  Whatever calls a packer has
    served since it was created, a packet returned by [PackPacket],
    [PackPacketOfPath] or [PackPacketOfStream] comes without error, and its
    frame list, like that of a packet returned by [PackAckPacket], is
    neither empty nor a single STOP_WAITING frame.  The same holds of a
    packet returned by [PackHandshakeRetransmission] for a packet that a
    sent-packet handler hands out with [DequeuePacketForRetransmission],
    whatever calls that handler has served since it was created (a packet
    given to [DuplicatePacket], which the sources do not call, having a
    frame): the handler keeps a packet only with a frame.  With nothing
    queued but a STOP_WAITING frame, no crypto stream frame and no stream
    frame to pop, [PackPacket] returns no packet. *)
Theorem packets_are_sendable
  (cid : Z) (cs : CryptoSetup) (truncate : bool) (sf : SF)
  (persp : Perspective) (ver : Z) (calls : list Call)
  (cb : option (Time -> bool)) (pid : Z) (bdw : Congestion.BDWStats)
  (cong : C) (handlerCalls : list AckHandler.Call)
  (Hdup : Forall duplicatesFramed handlerCalls) :
  let fresh := newPacketPacker cid cs truncate sf persp ver in
  let p := run fresh calls in
  let h := AckHandler.run cb (AckHandler.NewSentPacketHandler pid bdw cong)
             handlerCalls in
  (forall pth pkt,
     packet (PackPacket p pth) = Some pkt ->
     err (PackPacket p pth) = None /\ sendable (frames pkt))
  /\ (forall pth pkt,
        packet (PackPacketOfPath p pth) = Some pkt ->
        err (PackPacketOfPath p pth) = None /\ sendable (frames pkt))
  /\ (forall pth streamID pkt,
        packet (PackPacketOfStream p pth streamID) = Some pkt ->
        err (PackPacketOfStream p pth streamID) = None
        /\ sendable (frames pkt))
  /\ (forall pth pkt,
        packet (PackAckPacket p pth) = Some pkt -> sendable (frames pkt))
  /\ (forall retransmitted pth pkt,
        (AckHandler.DequeuePacketForRetransmission h).1 = Some retransmitted ->
        packet (PackHandshakeRetransmission p retransmitted pth) = Some pkt ->
        sendable (frames pkt))
  /\ (forall pth swf,
        HasCryptoStreamFrame sf = false ->
        (forall n, (PopStreamFrames sf n).1 = []) ->
        packet (PackPacket (QueueControlFrame fresh (StopWaiting swf) pth) pth)
        = None).
Proof.
  intros fresh p h.
  destruct (packed_frames_sendable cid cs truncate sf persp ver calls)
    as (Hpack & Hpath & Hstream & Hack & Hhandshake & Honly).
  split_and!; [done..| |done].
  intros retransmitted pth pkt Hdeq Hpkt.
  apply (Hhandshake retransmitted pth pkt Hpkt).
  exact (RetransmissionFacts.dequeued_has_frame cb pid bdw cong handlerCalls
           retransmitted Hdup Hdeq).
Qed.

End Facts.

End SendableFacts.

Section SendableScenarios.

Import Wire Packer Scenario SendableFacts.

#[local] Existing Instance freshAlgorithm.
#[local] Existing Instance emptyFramer.
#[local] Existing Instance countingGenerator.
#[local] Existing Instance plainCodec.
#[local] Existing Instance exampleProtocol.

(** C6 on a handshake packet that was sent with an ACK frame and a frame
    of the crypto stream and is retransmitted as a tail loss probe: the
    handler hands it out with the frame of the crypto stream, and the
    packet packed for it carries the STOP_WAITING frame before that frame.
    With only the STOP_WAITING frame queued, [PackPacket] returns no
    packet. *)
Lemma packets_are_sendable_witness :
  let fresh := newPacketPacker 4919 exampleCryptoSetup false tt
                 PerspectiveServer 0 in
  let p := run fresh
             [CallQueueControlFrame (StopWaiting (stopWaitingOf 10))
                examplePath] in
  let h := AckHandler.run None
             (AckHandler.NewSentPacketHandler 0 (Congestion.NewBDWStats 0) tt)
             [AckHandler.CallSentPacket handshakePacket 10;
              AckHandler.CallOnAlarm 600] in
  exists retransmitted pkt,
    (AckHandler.DequeuePacketForRetransmission h).1 = Some retransmitted
    /\ AckHandler.Frames retransmitted
       = [Stream {| StreamID := 1; Offset := 0; FinBit := false;
                    DataLenPresent := true; Data := [1; 2; 3] |}]
    /\ packet (PackHandshakeRetransmission p retransmitted examplePath)
       = Some pkt
    /\ frames pkt
       = [StopWaiting {| LeastUnacked := 10; PacketNumber := 1;
                         PacketNumberLen := 2 |};
          Stream {| StreamID := 1; Offset := 0; FinBit := false;
                    DataLenPresent := true; Data := [1; 2; 3] |}]
    /\ sendable (frames pkt)
    /\ packet (PackPacket p examplePath) = None.
Proof.
  intros fresh p h.
  assert (Hdup : Forall Retransmissions.duplicatesFramed
                   [AckHandler.CallSentPacket handshakePacket 10;
                    AckHandler.CallOnAlarm 600])
    by (repeat constructor).
  destruct (packets_are_sendable 4919 exampleCryptoSetup false tt
              PerspectiveServer 0
              [CallQueueControlFrame (StopWaiting (stopWaitingOf 10))
                 examplePath]
              None 0 (Congestion.NewBDWStats 0) tt
              [AckHandler.CallSentPacket handshakePacket 10;
               AckHandler.CallOnAlarm 600] Hdup)
    as (_ & _ & _ & _ & Hhandshake & _).
  destruct (AckHandler.DequeuePacketForRetransmission h).1
    as [retransmitted|] eqn:Hdeq; [|vm_compute in Hdeq; discriminate].
  destruct (packet (PackHandshakeRetransmission p retransmitted examplePath))
    as [pkt|] eqn:Hpkt.
  - exists retransmitted, pkt.
    split_and!; [reflexivity| |exact Hpkt| |
                 exact (Hhandshake retransmitted examplePath pkt Hdeq Hpkt)|
                 vm_compute; reflexivity].
    + vm_compute in Hdeq. injection Hdeq as <-. reflexivity.
    + vm_compute in Hdeq. injection Hdeq as <-.
      vm_compute in Hpkt. injection Hpkt as <-. reflexivity.
  - vm_compute in Hdeq. injection Hdeq as <-. vm_compute in Hpkt.
    discriminate.
Defined.

End SendableScenarios.

(** ** The path manager: open paths, repeated creation, PATHS frames *)

Module PathManagerMoreFacts.

Import PathManager OpenPaths PathsFrame.

Lemma grows_refl pm : grows pm pm.
Proof. unfold grows. by split_and!. Qed.

Lemma grows_trans pm1 pm2 pm3 : grows pm1 pm2 -> grows pm2 pm3 -> grows pm1 pm3.
Proof.
  intros (Hp1 & Hk1 & Ht1) (Hp2 & Hk2 & Ht2). unfold grows.
  split_and!; [by etrans|auto..].
Qed.

(** A path stored under [id] and opened last. *)
Lemma grows_insert pm nxt id pth :
  grows pm (set_paths pm nxt (<[id := pth]> (paths pm)) (openPaths pm ++ [id])).
Proof.
  unfold grows, tracked. cbn [openPaths paths set_paths]. split_and!.
  - by apply prefix_app_r.
  - intros k Hk. destruct (decide (id = k)) as [->|Hne].
    + by rewrite lookup_insert_eq.
    + by rewrite lookup_insert_ne.
  - intros Ht k. rewrite elem_of_app, list_elem_of_singleton.
    destruct (decide (id = k)) as [->|Hne].
    + rewrite lookup_insert_eq. split; [done|by right].
    + rewrite lookup_insert_ne by done. rewrite <- Ht.
      split; [intros [?|?]; [done|congruence]|by left].
Qed.

Lemma grows_remoteAddrs pm r4 r6 : grows pm (set_remoteAddrs pm r4 r6).
Proof. unfold grows. by split_and!. Qed.

Lemma grows_advertised pm adv : grows pm (set_advertised pm adv).
Proof. unfold grows. by split_and!. Qed.

Section Facts.

Variable sendPing : path -> option Error.

Lemma createPath_grows pm loc rem : grows pm (createPath sendPing pm loc rem).2.
Proof.
  unfold createPath. destruct (pathExists _ _ _); [apply grows_refl|].
  destruct (statisticsFor _) as [rtt bw]. cbn [snd]. apply grows_insert.
Qed.

Lemma createPathsTo_grows loc remotes : forall pm,
  grows pm (createPathsTo sendPing pm loc remotes).2.
Proof.
  induction remotes as [|r rest IH]; intros pm; cbn [createPathsTo];
    [apply grows_refl|].
  pose proof (createPath_grows pm loc r) as Hc.
  destruct (createPath sendPing pm loc r) as [[e|] pm1]; cbn [snd] in *;
    [done|].
  eapply grows_trans; [exact Hc|apply IH].
Qed.

Lemma createPathsFrom_grows locals : forall pm,
  grows pm (createPathsFrom sendPing pm locals).2.
Proof.
  induction locals as [|l rest IH]; intros pm; cbn [createPathsFrom];
    [apply grows_refl|].
  set (remotes := if getIPVersion l =? 4 then _ else _).
  pose proof (createPathsTo_grows l remotes pm) as Hc.
  destruct (createPathsTo sendPing pm l remotes) as [[e|] pm1];
    cbn [snd] in *; [done|].
  eapply grows_trans; [exact Hc|apply IH].
Qed.

Lemma createPaths_grows pm : grows pm (createPaths sendPing pm).2.
Proof.
  unfold createPaths. destruct (perspective pm).
  - apply grows_advertised.
  - apply createPathsFrom_grows.
Qed.

Lemma createPathFromRemote_grows pm rcvLocal remote id :
  grows pm (createPathFromRemote pm rcvLocal remote id).2.
Proof.
  unfold createPathFromRemote.
  destruct (paths pm !! id); [apply grows_refl|].
  destruct (perspective pm).
  - destruct (id mod 2 =? 0); [apply grows_refl|].
    destruct (statisticsFor _). apply grows_insert.
  - destruct (negb _); [apply grows_refl|].
    destruct (statisticsFor _). apply grows_insert.
Qed.

Lemma handleAddAddressFrame_grows pm v addr :
  grows pm (handleAddAddressFrame sendPing pm v addr).2.
Proof.
  unfold handleAddAddressFrame.
  destruct (v =? 4); [|destruct (v =? 6); [|apply grows_refl]].
  all: match goal with
       | |- context [createPathsAllowed ?pm'] =>
         destruct (createPathsAllowed pm');
           [eapply grows_trans; [|apply createPaths_grows]|];
           apply grows_remoteAddrs
       end.
Qed.

Lemma call_grows pm c : grows pm (call sendPing pm c).
Proof.
  destruct c; cbn [call].
  - apply createPath_grows.
  - apply createPaths_grows.
  - apply createPathFromRemote_grows.
  - apply handleAddAddressFrame_grows.
Qed.

Lemma run_grows cs : forall pm, grows pm (run sendPing pm cs).
Proof.
  unfold run. induction cs as [|c cs IH]; intros pm; cbn [fold_left];
    [apply grows_refl|].
  eapply grows_trans; [apply call_grows|apply IH].
Qed.

(** From [setup] on, after any calls, the open path IDs of the session are
    exactly the IDs that have a path, and the first of them is the initial
    path 0.  No later call closes a path: the open path IDs stay the first
    open path IDs, in their order, and every ID that has a path keeps
    one. *)
Theorem open_paths_are_the_paths persp allowed locals connLocal connRemote
  cs later :
  let pm := run sendPing (setup persp allowed locals connLocal connRemote) cs in
  let pm' := run sendPing pm later in
  (forall id, id ∈ openPaths pm <-> is_Some (paths pm !! id))
  /\ head (openPaths pm) = Some InitialPathID
  /\ openPaths pm `prefix_of` openPaths pm'
  /\ forall id, is_Some (paths pm !! id) -> is_Some (paths pm' !! id).
Proof.
  intros pm pm'.
  destruct (run_grows cs (setup persp allowed locals connLocal connRemote))
    as ([more Hp] & _ & Ht).
  destruct (run_grows later pm) as (Hprefix & Hkeep & _).
  split_and!; [|by unfold pm; rewrite Hp|done..].
  apply Ht. intros id. cbn [setup openPaths paths].
  rewrite list_elem_of_singleton. split.
  - intros ->. by rewrite lookup_singleton_eq.
  - intros [p Hp']. by apply lookup_singleton_Some in Hp' as [? _].
Qed.

(** The path a manager stores under its next ID for an address pair makes
    the pair exist. *)
Lemma pathExists_insert pm nxt id pth open :
  pathExists (set_paths pm nxt (<[id := pth]> (paths pm)) open)
    (localAddr pth) (remoteAddr pth) = true.
Proof.
  unfold pathExists. cbn [paths set_paths]. apply existsb_exists.
  exists (id, pth). split.
  - apply list_elem_of_In, elem_of_map_to_list. by rewrite lookup_insert_eq.
  - cbn [snd]. by rewrite !String.eqb_refl.
Qed.

(** A path is created once for a pair of addresses: after [createPath] for
    a pair, whatever the ping of the new path returned, [createPath] for
    the same pair returns no error, sends no ping and leaves the manager as
    it is. *)
Theorem createPath_only_once pm locAddr remAddr :
  let pm1 := (createPath sendPing pm locAddr remAddr).2 in
  pathExists pm1 (addrString locAddr) (addrString remAddr) = true
  /\ createPath sendPing pm1 locAddr remAddr = (None, pm1).
Proof.
  intros pm1.
  assert (Hex : pathExists pm1 (addrString locAddr) (addrString remAddr) = true).
  { unfold pm1, createPath.
    destruct (pathExists pm _ _) eqn:Hex; [exact Hex|].
    destruct (statisticsFor _) as [rtt bw]. cbn [snd].
    match goal with
    | |- pathExists (set_paths _ _ (<[_ := ?p]> _) _) _ _ = _ =>
      exact (pathExists_insert pm _ _ p _)
    end. }
  split; [exact Hex|]. unfold createPath at 1. by rewrite Hex.
Qed.

End Facts.

Section FrameFacts.

Variable Atoi : string -> option Z.
Variable udpAddrString : string -> Z -> string.

Lemma createPathsFromIndex_spec frame localPconn ids : forall pm i,
  let r := createPathsFromIndex Atoi udpAddrString pm frame localPconn i ids in
  perspective r.2 = perspective pm
  /\ nxtPathID r.2 = nxtPathID pm
  /\ (forall id pth, paths pm !! id = Some pth -> paths r.2 !! id = Some pth)
  /\ (forall id, is_Some (paths r.2 !! id) ->
        is_Some (paths pm !! id) \/ (id ∈ ids /\ peerParity pm id))
  /\ (r.1 = None -> forall id, id ∈ ids -> is_Some (paths r.2 !! id))
  /\ grows pm r.2.
Proof.
  induction ids as [|pathID rest IH]; intros pm i; cbn [createPathsFromIndex].
  { cbn. split_and!; try done; try apply grows_refl; [by left|].
    by intros _ id ?%elem_of_nil. }
  assert (Hstop : forall e : FrameError,
    let r : option FrameError * pathManager := (Some e, pm) in
    perspective r.2 = perspective pm
    /\ nxtPathID r.2 = nxtPathID pm
    /\ (forall id pth, paths pm !! id = Some pth -> paths r.2 !! id = Some pth)
    /\ (forall id, is_Some (paths r.2 !! id) ->
          is_Some (paths pm !! id) \/ (id ∈ pathID :: rest /\ peerParity pm id))
    /\ (r.1 = None -> forall id, id ∈ pathID :: rest -> is_Some (paths r.2 !! id))
    /\ grows pm r.2).
  { intros e. cbn. split_and!; try done; try apply grows_refl. by left. }
  destruct (RemoteAddrsIP frame !! i) as [remoteIP|]; [|apply Hstop].
  destruct (RemoteAddrsPort frame !! i) as [remotePort|]; [|apply Hstop].
  destruct (Atoi remotePort) as [port|]; [|apply Hstop].
  destruct (paths pm !! pathID) as [old|] eqn:Hold.
  { specialize (IH pm (S i)). cbv zeta in IH |- *.
    destruct IH as (Hp & Hn & Hk & Hnew & Hall & Hg).
    split_and!; try done.
    - intros id Hid. destruct (Hnew id Hid) as [?|[? ?]]; [by left|].
      right. split; [by right|done].
    - intros Hnone id [->|Hin]%elem_of_cons; [|by apply Hall].
      rewrite (Hk _ _ Hold). done. }
  destruct (match perspective pm with
            | PerspectiveClient => negb (pathID mod 2 =? 0)
            | PerspectiveServer => false
            end) eqn:Hodd; [apply Hstop|].
  destruct (match perspective pm with
            | PerspectiveServer => pathID mod 2 =? 0
            | PerspectiveClient => false
            end) eqn:Heven; [apply Hstop|].
  assert (Hpar : peerParity pm pathID).
  { unfold peerParity. pose proof (Z.mod_pos_bound pathID 2 ltac:(lia)).
    destruct (perspective pm).
    - apply Z.eqb_neq in Heven. lia.
    - apply negb_false_iff, Z.eqb_eq in Hodd. lia. }
  destruct (statisticsFor remoteIP) as [rtt bw].
  match goal with
  | |- context [createPathsFromIndex _ _ ?pm' _ _ _ _] =>
    specialize (IH pm' (S i)); pose proof (grows_insert pm (nxtPathID pm) pathID
      {| pathID := pathID; localAddr := localPconn;
         remoteAddr := udpAddrString remoteIP port;
         initialRTT := rtt; initialBandwidth := bw |}) as Hg1
  end.
  cbv zeta in IH |- *.
  destruct IH as (Hp & Hn & Hk & Hnew & Hall & Hg).
  cbn [perspective nxtPathID paths set_paths] in Hp, Hn, Hk, Hnew.
  split_and!; try done.
  - intros id pth Hid. apply Hk. rewrite lookup_insert_ne; [done|].
    intros ->. congruence.
  - intros id Hid. destruct (Hnew id Hid) as [Hin|[Hin Hpar']].
    + destruct (decide (pathID = id)) as [->|Hne].
      * right. split; [by left|done].
      * left. by rewrite lookup_insert_ne in Hin.
    + right. split; [by right|]. exact Hpar'.
  - intros Hnone id [->|Hin]%elem_of_cons; [|by apply Hall].
    erewrite Hk; [done|]. by rewrite lookup_insert_eq.
  - eapply grows_trans; [exact Hg1|exact Hg].
Qed.

(** The paths of a PATHS frame: whether or not the frame is read to its
    end, the paths the session had are kept as they are, an ID of the frame
    that already has a path being passed over; a new path has an ID of the
    frame with the parity of the peer (even on a client, odd on a server);
    the counter of local path IDs is not moved; and when no error is
    returned every ID of the frame has a path. *)
Theorem paths_frame_adds_peer_paths pm frame localPconn :
  let r := createPathsFromRemotePathsFrame Atoi udpAddrString pm frame
             localPconn in
  nxtPathID r.2 = nxtPathID pm
  /\ (forall id pth, paths pm !! id = Some pth -> paths r.2 !! id = Some pth)
  /\ (forall id, is_Some (paths r.2 !! id) ->
        is_Some (paths pm !! id) \/ (id ∈ PathIDs frame /\ peerParity pm id))
  /\ (r.1 = None ->
      forall id, id ∈ PathIDs frame -> is_Some (paths r.2 !! id))
  /\ openPaths pm `prefix_of` openPaths r.2.
Proof.
  intros r.
  destruct (createPathsFromIndex_spec frame localPconn (PathIDs frame) pm 0%nat)
    as (_ & Hn & Hk & Hnew & Hall & Hp & _).
  by split_and!.
Qed.

(** A frame is not taken as a whole: the path of a first entry that is in
    order (a port that parses, an ID without a path and of the parity of
    the peer) is created with the statistics of its IP, and it stays
    created whatever the later entries of the frame lead to. *)
Theorem paths_frame_first_entry pm frame localPconn id rest ip remotePort port
  (Hids : PathIDs frame = id :: rest)
  (Hip : RemoteAddrsIP frame !! 0%nat = Some ip)
  (Hport : RemoteAddrsPort frame !! 0%nat = Some remotePort)
  (Hatoi : Atoi remotePort = Some port)
  (Hnew : paths pm !! id = None)
  (Hpar : peerParity pm id) :
  paths (createPathsFromRemotePathsFrame Atoi udpAddrString pm frame
           localPconn).2 !! id
  = Some {| pathID := id; localAddr := localPconn;
            remoteAddr := udpAddrString ip port;
            initialRTT := (statisticsFor ip).1;
            initialBandwidth := (statisticsFor ip).2 |}.
Proof.
  unfold createPathsFromRemotePathsFrame. rewrite Hids.
  cbn [createPathsFromIndex]. rewrite Hip, Hport, Hatoi, Hnew.
  unfold peerParity in Hpar.
  replace (match perspective pm with
           | PerspectiveClient => negb (id mod 2 =? 0)
           | PerspectiveServer => false
           end) with false
    by (destruct (perspective pm); [done|by rewrite Hpar]).
  replace (match perspective pm with
           | PerspectiveServer => id mod 2 =? 0
           | PerspectiveClient => false
           end) with false
    by (destruct (perspective pm); [by rewrite Hpar|done]).
  destruct (statisticsFor ip) as [rtt bw]. cbn [fst snd].
  match goal with
  | |- context [createPathsFromIndex _ _ ?pm' _ _ ?i ?ids] =>
    destruct (createPathsFromIndex_spec frame localPconn ids pm' i)
      as (_ & _ & Hk & _)
  end.
  apply Hk. cbn [paths set_paths]. by rewrite lookup_insert_eq.
Qed.

End FrameFacts.

End PathManagerMoreFacts.

Section MorePathManagerScenarios.

Import PathManager OpenPaths PathsFrame Scenario PathManagerMoreFacts.

(** A client reads a frame whose second entry has an odd path ID: the call
    fails and the path of the first entry is there. *)
Lemma paths_frame_first_entry_witness :
  let pm := setup PerspectiveClient true [clientAddr] "10.0.0.1:4242"
              (Some serverAddr) in
  let r := createPathsFromRemotePathsFrame decimalAtoi hostPort pm
             mixedPathsFrame "10.0.0.1:4242" in
  r.1 = Some (errSanity errOddFromServer)
  /\ paths r.2 !! 2
     = Some {| pathID := 2; localAddr := "10.0.0.1:4242";
               remoteAddr := "10.0.0.1:6121";
               initialRTT := 1 * Millisecond;
               initialBandwidth := 1048576 |}.
Proof.
  intros pm r. split; [vm_compute; reflexivity|].
  exact (paths_frame_first_entry decimalAtoi hostPort pm mixedPathsFrame
           "10.0.0.1:4242" 2 [3] "10.0.0.1" "6121" 6121
           eq_refl eq_refl eq_refl eq_refl eq_refl eq_refl).
Defined.

End MorePathManagerScenarios.

(** ** The scheduler: which path a selection returns *)

Module SchedulerFacts.

Import Scheduler.

Lemma readQuota_fst quotas id : (readQuota quotas id).1 = quotaOf quotas id.
Proof. unfold readQuota, quotaOf. by destruct (quotas !! id). Qed.

Lemma readQuota_quotaOf quotas id k :
  quotaOf (readQuota quotas id).2 k = quotaOf quotas k.
Proof.
  unfold readQuota, quotaOf. destruct (quotas !! id) eqn:Hq; [done|].
  cbn [snd]. destruct (decide (id = k)) as [->|Hne].
  - by rewrite lookup_insert_eq, Hq.
  - by rewrite lookup_insert_ne.
Qed.

Lemma readQuota_entered quotas id : is_Some ((readQuota quotas id).2 !! id).
Proof.
  unfold readQuota. destruct (quotas !! id) eqn:Hq; cbn [snd].
  - by rewrite Hq.
  - by rewrite lookup_insert_eq.
Qed.

Lemma readQuota_keeps quotas id k :
  is_Some (quotas !! k) -> is_Some ((readQuota quotas id).2 !! k).
Proof.
  unfold readQuota. destruct (quotas !! id) eqn:Hq; cbn [snd]; [done|].
  intros Hk. destruct (decide (id = k)) as [->|Hne].
  - by rewrite lookup_insert_eq.
  - by rewrite lookup_insert_ne.
Qed.

Lemma iterates_elem_of {V} (range : gmap Z V -> list (Z * V)) m id v :
  iterates range -> (id, v) ∈ range m <-> m !! id = Some v.
Proof. intros Hr. rewrite (Hr m). apply elem_of_map_to_list. Qed.

(** The round-robin loop without conditions: the quota it ends with is the
    least of the one it starts with and of those of the entries. *)
Lemma iterateLoop_spec entries : forall selectedPath lowerQuota quotas,
  let r := iterateLoop entries selectedPath lowerQuota quotas in
  (forall k, quotaOf r.2 k = quotaOf quotas k)
  /\ (forall k, is_Some (quotas !! k) -> is_Some (r.2 !! k))
  /\ (forall id pth, (id, pth) ∈ entries -> is_Some (r.2 !! id))
  /\ exists low,
       low <= lowerQuota
       /\ (forall id pth, (id, pth) ∈ entries -> low <= quotaOf quotas id)
       /\ ((r.1 = selectedPath /\ low = lowerQuota)
           \/ exists id pth, (id, pth) ∈ entries /\ r.1 = Some pth
                             /\ quotaOf quotas id = low /\ low < lowerQuota).
Proof.
  induction entries as [|[pathID pth] rest IH]; intros sel low quotas;
    cbn [iterateLoop].
  { cbn. split_and!; try done; [by intros ? ? ?%elem_of_nil|].
    exists low. split_and!; [lia|by intros ? ? ?%elem_of_nil|by left]. }
  pose proof (readQuota_fst quotas pathID) as Hcur.
  pose proof (readQuota_quotaOf quotas pathID) as Hsame.
  pose proof (readQuota_entered quotas pathID) as Hent.
  pose proof (readQuota_keeps quotas pathID) as Hkeep.
  destruct (readQuota quotas pathID) as [currentQuota quotas1].
  cbn [fst snd] in Hcur, Hsame, Hent, Hkeep. subst currentQuota.
  destruct (quotaOf quotas pathID <? low) eqn:Hlt;
    [apply Z.ltb_lt in Hlt|apply Z.ltb_ge in Hlt].
  - specialize (IH (Some pth) (quotaOf quotas pathID) quotas1).
    cbv zeta in IH |- *.
    destruct IH as (Hq & Hk & He & low' & Hle & Hall & Hsel).
    split_and!.
    + intros k. by rewrite Hq.
    + intros k Hin. by apply Hk, Hkeep.
    + intros id p [[= -> ->]|Hin]%elem_of_cons; [by apply Hk|by eapply He].
    + exists low'. split_and!; [lia| |].
      * intros id p [[= -> ->]|Hin]%elem_of_cons; [lia|].
        rewrite <- Hsame. by eapply Hall.
      * right. destruct Hsel as [[Hr ->]|(id & p & Hin & Hr & Hid & Hlow)].
        -- exists pathID, pth. split_and!; [by left|done|done|lia].
        -- exists id, p. rewrite Hsame in Hid.
           split_and!; [by right|done|done|lia].
  - specialize (IH sel low quotas1). cbv zeta in IH |- *.
    destruct IH as (Hq & Hk & He & low' & Hle & Hall & Hsel).
    split_and!.
    + intros k. by rewrite Hq.
    + intros k Hin. by apply Hk, Hkeep.
    + intros id p [[= -> ->]|Hin]%elem_of_cons; [by apply Hk|by eapply He].
    + exists low'. split_and!; [lia| |].
      * intros id p [[= -> ->]|Hin]%elem_of_cons; [lia|].
        rewrite <- Hsame. by eapply Hall.
      * destruct Hsel as [[Hr ->]|(id & p & Hin & Hr & Hid & Hlow)];
          [by left|].
        right. exists id, p. rewrite Hsame in Hid.
        split_and!; [by right|done|done|lia].
Qed.

(** Round robin over all paths: whatever the order of the iteration, the
    path returned is a path of the session whose packet quota is the least
    of all, a path without a quota counting for 0 and being entered with
    0; nil is returned only when no path has a quota under the largest
    [uint].  No quota changes. *)
Theorem iteratePathRoundRobin_least_quota
  (range : gmap Z path -> list (Z * path)) (Hrange : iterates range)
  (paths : gmap Z path) (quotas : gmap Z Z) :
  let r := iteratePathRoundRobin range paths quotas in
  (forall id, quotaOf r.2 id = quotaOf quotas id)
  /\ (forall id, is_Some (paths !! id) -> is_Some (r.2 !! id))
  /\ match r.1 with
     | Some pth =>
       exists id, paths !! id = Some pth
                  /\ quotaOf quotas id < maxUint
                  /\ forall id' pth', paths !! id' = Some pth' ->
                                      quotaOf quotas id <= quotaOf quotas id'
     | None =>
       forall id pth, paths !! id = Some pth -> maxUint <= quotaOf quotas id
     end.
Proof.
  intros r. unfold r, iteratePathRoundRobin.
  destruct (iterateLoop_spec (range paths) None maxUint quotas)
    as (Hq & _ & He & low & Hle & Hall & Hsel).
  split_and!; [done| |].
  - intros id [pth Hp]. eapply He. by apply iterates_elem_of.
  - destruct Hsel as [[-> ->]|(id & pth & Hin & -> & Hid & Hlow)].
    + intros id pth Hp. eapply Hall. by apply iterates_elem_of.
    + exists id. split_and!; [by apply iterates_elem_of in Hin|lia|].
      intros id' pth' Hp'. rewrite Hid. eapply Hall.
      by apply iterates_elem_of.
Qed.

(** The three tests at the head of a selection loop pass over the paths
    that are not eligible. *)
Lemma eligible_tests hasRetransmission pathID pth :
  (negb hasRetransmission && negb (SendingAllowed pth) = false
   /\ potentiallyFailed pth = false
   /\ (pathID =? InitialPathID) = false)
  <-> eligible hasRetransmission pathID pth.
Proof.
  unfold eligible. rewrite Z.eqb_neq.
  destruct hasRetransmission, (SendingAllowed pth); cbn; intuition congruence.
Qed.

Lemma roundRobinLoop_spec hasRetransmission entries :
  forall selectedPath lowerQuota quotas,
  let r := roundRobinLoop hasRetransmission entries selectedPath lowerQuota
             quotas in
  (forall k, quotaOf r.2 k = quotaOf quotas k)
  /\ exists low,
       low <= lowerQuota
       /\ (forall id pth, (id, pth) ∈ entries ->
              eligible hasRetransmission id pth -> low <= quotaOf quotas id)
       /\ ((r.1 = selectedPath /\ low = lowerQuota)
           \/ exists id pth, (id, pth) ∈ entries
                             /\ eligible hasRetransmission id pth
                             /\ r.1 = Some pth
                             /\ quotaOf quotas id = low /\ low < lowerQuota).
Proof.
  induction entries as [|[pathID pth] rest IH]; intros sel low quotas;
    cbn [roundRobinLoop].
  { cbn. split; [done|]. exists low.
    split_and!; [lia|by intros ? ? ?%elem_of_nil|by left]. }
  pose proof (eligible_tests hasRetransmission pathID pth) as Hel.
  assert (Hskip : ~ eligible hasRetransmission pathID pth ->
    let r := roundRobinLoop hasRetransmission rest sel low quotas in
    (forall k, quotaOf r.2 k = quotaOf quotas k)
    /\ exists low',
       low' <= low
       /\ (forall id p, (id, p) ∈ (pathID, pth) :: rest ->
              eligible hasRetransmission id p -> low' <= quotaOf quotas id)
       /\ ((r.1 = sel /\ low' = low)
           \/ exists id p, (id, p) ∈ (pathID, pth) :: rest
                           /\ eligible hasRetransmission id p
                           /\ r.1 = Some p
                           /\ quotaOf quotas id = low' /\ low' < low)).
  { intros Hno. specialize (IH sel low quotas). cbv zeta in IH |- *.
    destruct IH as (Hq & low' & Hle & Hall & Hsel). split; [done|].
    exists low'. split_and!; [done| |].
    - intros id p [[= -> ->]|Hin]%elem_of_cons; [done|by eapply Hall].
    - destruct Hsel as [?|(id & p & Hin & ? & ? & ? & ?)]; [by left|].
      right. exists id, p. split_and!; [by right|done..]. }
  destruct (negb hasRetransmission && negb (SendingAllowed pth)) eqn:H1;
    [apply Hskip; rewrite <- Hel; intros (? & ? & ?); congruence|].
  destruct (potentiallyFailed pth) eqn:H2;
    [apply Hskip; rewrite <- Hel; intros (? & ? & ?); congruence|].
  destruct (pathID =? InitialPathID) eqn:H3;
    [apply Hskip; rewrite <- Hel; intros (? & ? & ?); congruence|].
  assert (Helig : eligible hasRetransmission pathID pth) by by apply Hel.
  clear Hskip Hel.
  pose proof (readQuota_fst quotas pathID) as Hcur.
  pose proof (readQuota_quotaOf quotas pathID) as Hsame.
  destruct (readQuota quotas pathID) as [currentQuota quotas1].
  cbn [fst snd] in Hcur, Hsame. subst currentQuota.
  destruct (quotaOf quotas pathID <? low) eqn:Hlt;
    [apply Z.ltb_lt in Hlt|apply Z.ltb_ge in Hlt].
  - specialize (IH (Some pth) (quotaOf quotas pathID) quotas1).
    cbv zeta in IH |- *. destruct IH as (Hq & low' & Hle & Hall & Hsel).
    split; [intros k; by rewrite Hq|].
    exists low'. split_and!; [lia| |].
    + intros id p [[= -> ->]|Hin]%elem_of_cons ?; [lia|].
      rewrite <- Hsame. by eapply Hall.
    + right. destruct Hsel as [[Hr ->]|(id & p & Hin & ? & Hr & Hid & Hlow)].
      * exists pathID, pth. split_and!; [by left|done|done|done|lia].
      * exists id, p. rewrite Hsame in Hid.
        split_and!; [by right|done|done|done|lia].
  - specialize (IH sel low quotas1). cbv zeta in IH |- *.
    destruct IH as (Hq & low' & Hle & Hall & Hsel).
    split; [intros k; by rewrite Hq|].
    exists low'. split_and!; [lia| |].
    + intros id p [[= -> ->]|Hin]%elem_of_cons ?; [lia|].
      rewrite <- Hsame. by eapply Hall.
    + destruct Hsel as [[Hr ->]|(id & p & Hin & ? & Hr & Hid & Hlow)];
        [by left|].
      right. exists id, p. rewrite Hsame in Hid.
      split_and!; [by right|done|done|done|lia].
Qed.

(** Round robin with more than one path: whatever the order of the
    iteration, the path selected is never the initial path, never a path
    that is potentially failed, and, unless a retransmission is under way,
    never a path that may not send; of the paths left it has the least
    packet quota.  Nil is returned only when none of them has a quota
    under the largest [uint]. *)
Theorem selectPathRoundRobin_least_quota
  (range : gmap Z path -> list (Z * path)) (Hrange : iterates range)
  (paths : gmap Z path) (quotas : gmap Z Z)
  (hasRetransmission hasStreamRetransmission : bool) (fromPth : option path)
  (Hmulti : (1 < size paths)%nat) :
  exists selectedPath quotas',
    selectPathRoundRobin range paths quotas hasRetransmission
      hasStreamRetransmission fromPth = Returns (selectedPath, quotas')
    /\ (forall id, quotaOf quotas' id = quotaOf quotas id)
    /\ match selectedPath with
       | Some pth =>
         exists id, paths !! id = Some pth
                    /\ eligible hasRetransmission id pth
                    /\ quotaOf quotas id < maxUint
                    /\ forall id' pth', paths !! id' = Some pth' ->
                         eligible hasRetransmission id' pth' ->
                         quotaOf quotas id <= quotaOf quotas id'
       | None =>
         forall id pth, paths !! id = Some pth ->
                        eligible hasRetransmission id pth ->
                        maxUint <= quotaOf quotas id
       end.
Proof.
  unfold selectPathRoundRobin.
  replace (Z.of_nat (size paths) <=? 1) with false
    by (symmetry; apply Z.leb_gt; lia).
  destruct (roundRobinLoop_spec hasRetransmission (range paths) None maxUint
              quotas) as (Hq & low & Hle & Hall & Hsel).
  destruct (roundRobinLoop hasRetransmission (range paths) None maxUint quotas)
    as [selectedPath quotas'].
  exists selectedPath, quotas'. cbn [fst snd] in *. split_and!; [done..|].
  destruct Hsel as [[-> ->]|(id & pth & Hin & Hel & -> & Hid & Hlow)].
  - intros id pth Hp. eapply Hall. by apply iterates_elem_of.
  - exists id. split_and!; [by apply iterates_elem_of in Hin|done|lia|].
    intros id' pth' Hp'. rewrite Hid. eapply Hall.
    by apply iterates_elem_of.
Qed.

End SchedulerFacts.


Module LowLatencyFacts.

Import Scheduler SchedulerFacts.

Lemma preferred_among hasRetransmission quota among among' selected :
  (forall id pth, among id pth <-> among' id pth) ->
  preferred hasRetransmission quota among selected ->
  preferred hasRetransmission quota among' selected.
Proof.
  intros Heq. unfold preferred. destruct selected as [[selID sel]|].
  - intros (Hin & Hel & Hall). split_and!; [by apply Heq|done|].
    intros id pth Hin'. apply Hall. by apply Heq.
  - intros Hall id pth Hin'. apply Hall. by apply Heq.
Qed.

(** A path that is not eligible changes nothing. *)
Lemma preferred_pass hasRetransmission quota seen pathID pth selected :
  ~ eligible hasRetransmission pathID pth ->
  preferred hasRetransmission quota (fun id p => (id, p) ∈ seen) selected ->
  preferred hasRetransmission quota
    (fun id p => (id, p) ∈ seen ++ [(pathID, pth)]) selected.
Proof.
  intros Hno. unfold preferred. destruct selected as [[selID sel]|].
  - intros (Hin & Hel & Hall). split_and!; [apply elem_of_app; by left|done|].
    intros id p [Hin'|[= -> ->]%list_elem_of_singleton]%elem_of_app Hel';
      [by apply Hall|done].
  - intros Hall id p [Hin'|[= -> ->]%list_elem_of_singleton]%elem_of_app;
      [by apply Hall|done].
Qed.

Lemma selectLowLatencyLoop_spec hasRetransmission (quota : Z -> Z) entries :
  forall seen selectedPath lowerRTT selectedPathID quotas,
  (forall k, quotaOf quotas k = quota k) ->
  lowerRTT = from_option SmoothedRTT 0 selectedPath ->
  preferred hasRetransmission quota (fun id p => (id, p) ∈ seen)
    (pair selectedPathID <$> selectedPath) ->
  let r := selectLowLatencyLoop hasRetransmission entries selectedPath
             lowerRTT selectedPathID quotas in
  (forall k, quotaOf r.2 k = quota k)
  /\ exists id,
       preferred hasRetransmission quota
         (fun id p => (id, p) ∈ seen ++ entries) (pair id <$> r.1).
Proof.
  induction entries as [|[pathID pth] rest IH];
    intros seen sel lowerRTT selID quotas Hquota Hrtt Hpref;
    cbn [selectLowLatencyLoop].
  { cbn. split; [done|]. exists selID. by rewrite app_nil_r. }
  assert (Hgo : forall sel' lowerRTT' selID' quotas',
    (forall k, quotaOf quotas' k = quota k) ->
    lowerRTT' = from_option SmoothedRTT 0 sel' ->
    preferred hasRetransmission quota
      (fun id p => (id, p) ∈ seen ++ [(pathID, pth)])
      (pair selID' <$> sel') ->
    let r := selectLowLatencyLoop hasRetransmission rest sel' lowerRTT'
               selID' quotas' in
    (forall k, quotaOf r.2 k = quota k)
    /\ exists id,
         preferred hasRetransmission quota
           (fun id p => (id, p) ∈ seen ++ (pathID, pth) :: rest)
           (pair id <$> r.1)).
  { intros sel' lowerRTT' selID' quotas' H1 H2 H3.
    specialize (IH (seen ++ [(pathID, pth)]) sel' lowerRTT' selID' quotas'
                  H1 H2 H3).
    by rewrite <- app_assoc in IH. }
  clear IH.
  pose proof (eligible_tests hasRetransmission pathID pth) as Hel.
  assert (Hskip : ~ eligible hasRetransmission pathID pth ->
    let r := selectLowLatencyLoop hasRetransmission rest sel lowerRTT
               selID quotas in
    (forall k, quotaOf r.2 k = quota k)
    /\ exists id,
         preferred hasRetransmission quota
           (fun id p => (id, p) ∈ seen ++ (pathID, pth) :: rest)
           (pair id <$> r.1)).
  { intros Hno. apply Hgo; [done..|]. by apply preferred_pass. }
  destruct (negb hasRetransmission && negb (SendingAllowed pth)) eqn:H1;
    [apply Hskip; rewrite <- Hel; intros (? & ? & ?); congruence|].
  destruct (potentiallyFailed pth) eqn:H2;
    [apply Hskip; rewrite <- Hel; intros (? & ? & ?); congruence|].
  destruct (pathID =? InitialPathID) eqn:H3;
    [apply Hskip; rewrite <- Hel; intros (? & ? & ?); congruence|].
  assert (Helig : eligible hasRetransmission pathID pth) by by apply Hel.
  clear Hskip Hel H1 H2 H3. cbv zeta.
  (* what the state says of the paths seen *)
  assert (Hseen : forall id p, (id, p) ∈ seen ++ [(pathID, pth)] ->
            (id, p) ∈ seen \/ (id = pathID /\ p = pth)).
  { intros id p [?|[= -> ->]%list_elem_of_singleton]%elem_of_app; auto. }
  assert (Hhead : (pathID, pth) ∈ seen ++ [(pathID, pth)])
    by (apply elem_of_app; right; by apply list_elem_of_singleton).
  destruct (SmoothedRTT pth =? 0) eqn:Hcur;
    [apply Z.eqb_eq in Hcur|apply Z.eqb_neq in Hcur].
  - (* an unprobed path *)
    rewrite andb_true_r.
    destruct (lowerRTT =? 0) eqn:Hlow;
      [apply Z.eqb_eq in Hlow|apply Z.eqb_neq in Hlow]; cbn [negb].
    + pose proof (readQuota_fst quotas pathID) as Hcq.
      pose proof (readQuota_quotaOf quotas pathID) as Hsame.
      destruct (readQuota quotas pathID) as [currentQuota quotas1].
      cbn [fst snd] in Hcq, Hsame. subst currentQuota.
      assert (Hquota1 : forall k, quotaOf quotas1 k = quota k)
        by (intros k; by rewrite Hsame).
      rewrite Hquota1, Hquota.
      destruct sel as [p|]; cbn [from_option fmap option_fmap option_map] in *.
      * rewrite bool_decide_eq_true_2 by done. cbn [andb].
        destruct Hpref as (Hin & Help & Hall).
        subst lowerRTT. rewrite Hlow in Hall. cbn [Z.eqb] in Hall.
        destruct (Z.gtb_spec (quota pathID) (quota selID)) as [Hgt|Hgt].
        -- apply Hgo; [done|done|].
           cbn. split_and!; [apply elem_of_app; by left|done|].
           rewrite Hlow. cbn [Z.eqb].
           intros id p' [Hin'|[-> ->]]%Hseen Hel'; [by apply Hall|].
           split; [done|lia].
        -- cbn [negb andb]. apply Hgo; [done|done|].
           cbn. split_and!; [done|done|]. rewrite Hcur. cbn [Z.eqb].
           intros id p' [Hin'|[-> ->]]%Hseen Hel'; [|by split; [|lia]].
           destruct (Hall id p' Hin' Hel') as [? ?]. split; [done|lia].
      * rewrite bool_decide_eq_false_2 by (by intros [? ?]). cbn [andb].
        cbn [negb andb]. apply Hgo; [done|done|].
        cbn. split_and!; [done|done|]. rewrite Hcur. cbn [Z.eqb].
        intros id p' [Hin'|[-> ->]]%Hseen Hel'; [|by split; [|lia]].
        by destruct (Hpref id p' Hin').
    + (* a probed path is selected: the unprobed one is passed over *)
      destruct sel as [p|]; cbn [from_option fmap option_fmap option_map] in *;
        [|done].
      apply Hgo; [done|done|]. destruct Hpref as (Hin & Help & Hall).
      cbn. split_and!; [apply elem_of_app; by left|done|].
      subst lowerRTT. apply Z.eqb_neq in Hlow. rewrite Hlow in Hall |- *.
      intros id p' [Hin'|[-> ->]]%Hseen Hel';
        [exact (Hall id p' Hin' Hel')|intros ?; lia].
  - (* a probed path *)
    rewrite andb_false_r. cbn [negb andb].
    destruct (lowerRTT =? 0) eqn:Hlow;
      [apply Z.eqb_eq in Hlow|apply Z.eqb_neq in Hlow]; cbn [negb andb].
    + (* nothing probed so far *)
      apply Hgo; [done|done|]. apply Z.eqb_neq in Hcur.
      cbn. split_and!; [done|done|]. rewrite Hcur.
      intros id p' [Hin'|[-> ->]]%Hseen Hel' Hrtt'; [|lia].
      destruct sel as [p|]; cbn [from_option fmap option_fmap option_map] in *.
      * destruct Hpref as (_ & _ & Hall). subst lowerRTT.
        rewrite Hlow in Hall. cbn [Z.eqb] in Hall.
        by destruct (Hall id p' Hin' Hel').
      * by destruct (Hpref id p' Hin').
    + destruct sel as [p|]; cbn [from_option fmap option_fmap option_map] in *;
        [|done].
      rewrite bool_decide_eq_true_2 by done. cbn [andb].
      destruct Hpref as (Hin & Help & Hall). subst lowerRTT.
      apply Z.eqb_neq in Hlow. rewrite Hlow in Hall.
      destruct (SmoothedRTT pth >=? SmoothedRTT p) eqn:Hge.
      * apply Z.geb_le in Hge. apply Hgo; [done|done|].
        cbn. split_and!; [apply elem_of_app; by left|done|]. rewrite Hlow.
        intros id p' [Hin'|[-> ->]]%Hseen Hel' Hrtt';
          [exact (Hall id p' Hin' Hel' Hrtt')|lia].
      * assert (SmoothedRTT pth < SmoothedRTT p).
        { destruct (Z.geb_spec (SmoothedRTT pth) (SmoothedRTT p)); [done|lia]. }
        apply Hgo; [done|done|]. apply Z.eqb_neq in Hcur.
        cbn. split_and!; [done|done|]. rewrite Hcur.
        intros id p' [Hin'|[-> ->]]%Hseen Hel' Hrtt'; [|lia].
        specialize (Hall id p' Hin' Hel' Hrtt'). lia.
Qed.

(** [findPathLowLatency] has the loop of [selectPathLowLatency] without a
    retransmission. *)
Lemma findLowLatencyLoop_select entries :
  forall selectedPath lowerRTT selectedPathID quotas,
  findLowLatencyLoop entries selectedPath lowerRTT selectedPathID quotas
  = selectLowLatencyLoop false entries selectedPath lowerRTT selectedPathID
      quotas.
Proof.
  induction entries as [|[pathID pth] rest IH]; intros sel lowerRTT selID quotas;
    cbn [findLowLatencyLoop selectLowLatencyLoop negb andb]; [done|].
  rewrite !IH. destruct (SmoothedRTT pth =? 0).
  - destruct (readQuota quotas pathID) as [currentQuota quotas1].
    by rewrite !IH.
  - by rewrite !IH.
Qed.

Lemma lessUsedLoop_spec entries quotas fromID currentQuota :
  match lessUsedLoop entries quotas fromID currentQuota with
  | Some pth =>
    exists id, (id, pth) ∈ entries /\ id <> InitialPathID /\ id <> fromID
               /\ quotaOf quotas id < currentQuota
  | None =>
    forall id pth, (id, pth) ∈ entries -> id <> InitialPathID ->
                   id <> fromID -> currentQuota <= quotaOf quotas id
  end.
Proof.
  induction entries as [|[pathID pth] rest IH]; cbn [lessUsedLoop].
  { by intros ? ? ?%elem_of_nil. }
  destruct ((pathID =? InitialPathID) || (pathID =? fromID)) eqn:Hskip.
  - apply orb_true_iff in Hskip.
    destruct (lessUsedLoop rest quotas fromID currentQuota) as [p|].
    + destruct IH as (id & ? & ? & ? & ?). exists id.
      split_and!; [by right|done..].
    + intros id p [[= -> ->]|Hin]%elem_of_cons ? ?; [|by eapply IH].
      destruct Hskip as [?%Z.eqb_eq|?%Z.eqb_eq]; done.
  - apply orb_false_iff in Hskip.
    destruct Hskip as [?%Z.eqb_neq ?%Z.eqb_neq].
    destruct (Z.ltb_spec (quotaOf quotas pathID) currentQuota).
    + exists pathID. split_and!; [by left|done..].
    + destruct (lessUsedLoop rest quotas fromID currentQuota) as [p|].
      * destruct IH as (id & ? & ? & ? & ?). exists id.
        split_and!; [by right|done..].
      * intros id p [[= -> ->]|Hin]%elem_of_cons ? ?; [done|by eapply IH].
Qed.

(** The low-latency loop over the paths of a session. *)
Lemma selectLowLatencyLoop_paths hasRetransmission
  (range : gmap Z path -> list (Z * path)) (Hrange : iterates range)
  (paths : gmap Z path) (quotas : gmap Z Z) :
  let r := selectLowLatencyLoop hasRetransmission (range paths) None 0 255
             quotas in
  (forall id, quotaOf r.2 id = quotaOf quotas id)
  /\ exists selected,
       snd <$> selected = r.1
       /\ preferred hasRetransmission (quotaOf quotas)
            (fun id pth => paths !! id = Some pth) selected.
Proof.
  intros r.
  destruct (selectLowLatencyLoop_spec hasRetransmission (quotaOf quotas)
              (range paths) [] None 0 255 quotas) as (Hq & id & Hpref);
    [done|done|by intros ? ? ?%elem_of_nil|].
  split; [done|]. exists (pair id <$> r.1). split.
  - unfold r. by destruct (selectLowLatencyLoop _ _ _ _ _ _).1.
  - eapply preferred_among; [|exact Hpref].
    intros k p. cbn [app]. by apply iterates_elem_of.
Qed.

(** Lowest latency with more than one path: whatever the order of the
    iteration, the path found may send, is not potentially failed and is
    not the initial path; it has the lowest smoothed RTT other than 0 of
    such paths, or, when all of them have a smoothed RTT of 0, the lowest
    packet quota.  Nil is returned only when there is no such path.  No
    quota changes. *)
Theorem findPathLowLatency_preferred
  (range : gmap Z path -> list (Z * path)) (Hrange : iterates range)
  (paths : gmap Z path) (quotas : gmap Z Z)
  (Hmulti : (1 < size paths)%nat) :
  exists (selected : option (Z * path)) quotas',
    findPathLowLatency range paths quotas = Returns (snd <$> selected, quotas')
    /\ (forall id, quotaOf quotas' id = quotaOf quotas id)
    /\ preferred false (quotaOf quotas)
         (fun id pth => paths !! id = Some pth) selected.
Proof.
  unfold findPathLowLatency.
  replace (Z.of_nat (size paths) <=? 1) with false
    by (symmetry; apply Z.leb_gt; lia).
  rewrite findLowLatencyLoop_select.
  destruct (selectLowLatencyLoop_paths false range Hrange paths quotas)
    as (Hq & selected & Hsel & Hpref).
  exists selected, (selectLowLatencyLoop false (range paths) None 0 255 quotas).2.
  split_and!; [|done..]. rewrite Hsel. by rewrite <- surjective_pairing.
Qed.

(** Without a retransmission, [selectPathLowLatency] is
    [findPathLowLatency]: the path it comes from and the flag of a stream
    retransmission are not read. *)
Lemma selectPathLowLatency_without_retransmission
  (range range' : gmap Z path -> list (Z * path))
  (paths : gmap Z path) (quotas : gmap Z Z)
  (hasStreamRetransmission : bool) (fromPth : option path) :
  selectPathLowLatency range range' paths quotas false hasStreamRetransmission
    fromPth
  = findPathLowLatency range' paths quotas.
Proof.
  unfold selectPathLowLatency, findPathLowLatency. cbn [negb andb].
  destruct (Z.of_nat (size paths) <=? 1); [done|].
  by rewrite findLowLatencyLoop_select.
Qed.

(** Lowest latency while retransmitting, with more than one path.  When
    the retransmission is of a stream and comes from a path with a
    smoothed RTT of 0, a path other than that one and the initial one that
    has a lower packet quota is returned, if there is one; it is returned
    whether or not it is potentially failed.  In every other case the path
    returned is the preferred one of the eligible paths. *)
Theorem selectPathLowLatency_retransmission
  (range range' : gmap Z path -> list (Z * path))
  (Hrange : iterates range) (Hrange' : iterates range')
  (paths : gmap Z path) (quotas : gmap Z Z)
  (hasStreamRetransmission : bool) (from : path)
  (Hmulti : (1 < size paths)%nat) :
  exists selectedPath quotas',
    selectPathLowLatency range range' paths quotas true
      hasStreamRetransmission (Some from) = Returns (selectedPath, quotas')
    /\ (forall id, quotaOf quotas' id = quotaOf quotas id)
    /\ ((hasStreamRetransmission = true /\ SmoothedRTT from = 0
         /\ exists id pth,
              selectedPath = Some pth /\ paths !! id = Some pth
              /\ id <> InitialPathID /\ id <> pathID from
              /\ quotaOf quotas id < quotaOf quotas (pathID from))
        \/ ((hasStreamRetransmission = true -> SmoothedRTT from = 0 ->
             forall id pth, paths !! id = Some pth -> id <> InitialPathID ->
               id <> pathID from ->
               quotaOf quotas (pathID from) <= quotaOf quotas id)
            /\ exists selected,
                 snd <$> selected = selectedPath
                 /\ preferred true (quotaOf quotas)
                      (fun id pth => paths !! id = Some pth) selected)).
Proof.
  unfold selectPathLowLatency.
  replace (Z.of_nat (size paths) <=? 1) with false
    by (symmetry; apply Z.leb_gt; lia).
  destruct (selectLowLatencyLoop_paths true range' Hrange' paths quotas)
    as (Hq & selected & Hsel & Hpref).
  destruct (selectLowLatencyLoop true (range' paths) None 0 255 quotas)
    as [selectedPath quotas'] eqn:Hloop.
  cbn [fst snd] in Hq, Hsel. cbn [andb].
  assert (Hmain : forall P : Prop, P ->
    exists sel q',
      Returns (selectedPath, quotas') = Returns (sel, q')
      /\ (forall id, quotaOf q' id = quotaOf quotas id)
      /\ ((hasStreamRetransmission = true /\ SmoothedRTT from = 0
           /\ exists id pth,
                sel = Some pth /\ paths !! id = Some pth
                /\ id <> InitialPathID /\ id <> pathID from
                /\ quotaOf quotas id < quotaOf quotas (pathID from))
          \/ (P /\ exists selected,
                     snd <$> selected = sel
                     /\ preferred true (quotaOf quotas)
                          (fun id pth => paths !! id = Some pth) selected))).
  { intros P HP. exists selectedPath, quotas'. split_and!; [done..|].
    right. split; [done|]. by exists selected. }
  destruct hasStreamRetransmission; [|by apply Hmain].
  destruct (SmoothedRTT from =? 0) eqn:Hrtt;
    [apply Z.eqb_eq in Hrtt|apply Z.eqb_neq in Hrtt; by apply Hmain].
  pose proof (lessUsedLoop_spec (range paths) quotas (pathID from)
                (quotaOf quotas (pathID from))) as Hless.
  destruct (lessUsedLoop (range paths) quotas (pathID from)
              (quotaOf quotas (pathID from))) as [pth|].
  - destruct Hless as (id & Hin & ? & ? & ?).
    exists (Some pth), quotas. split_and!; [done..|]. left.
    split_and!; [done..|]. exists id, pth.
    split_and!; [done|by apply iterates_elem_of in Hin|done..].
  - apply Hmain. intros _ _ id pth Hp ? ?. eapply Hless; [|done..].
    by apply iterates_elem_of.
Qed.

End LowLatencyFacts.


Module PathQuotaFacts.

Import Scheduler SchedulerFacts.

Lemma registerLoop_spec entries : forall numstreams k,
  registerLoop entries numstreams !! k
  = match numstreams !! k with
    | Some q => Some q
    | None => if bool_decide (k ∈ entries.*1) then Some 0 else None
    end.
Proof.
  induction entries as [|[pthID pth] rest IH]; intros numstreams k;
    cbn [registerLoop].
  { cbn. rewrite bool_decide_eq_false_2 by apply not_elem_of_nil.
    by destruct (numstreams !! k). }
  cbn [fmap list_fmap fst].
  destruct (numstreams !! pthID) as [q|] eqn:Hp; rewrite IH.
  - destruct (decide (pthID = k)) as [->|Hne]; [by rewrite Hp|].
    destruct (numstreams !! k); [done|].
    rewrite (bool_decide_ext (k ∈ pthID :: rest.*1) (k ∈ rest.*1)); [done|].
    rewrite elem_of_cons. split; [intros [?|?]; [congruence|done]|by right].
  - destruct (decide (pthID = k)) as [->|Hne].
    + rewrite lookup_insert_eq, Hp.
      by rewrite bool_decide_eq_true_2 by (by left).
    + rewrite lookup_insert_ne by done.
      destruct (numstreams !! k); [done|].
      rewrite (bool_decide_ext (k ∈ pthID :: rest.*1) (k ∈ rest.*1)); [done|].
      rewrite elem_of_cons. split; [intros [?|?]; [congruence|done]|by right].
Qed.

Lemma lowerQuotaLoop_spec entries : forall lowerQuota pathID,
  let r := lowerQuotaLoop entries lowerQuota pathID in
  (forall id q, (id, q) ∈ entries -> id <> InitialPathID -> r.1 <= q)
  /\ ((r.1 = lowerQuota /\ r.2 = pathID)
      \/ (r.1 < lowerQuota /\ r.2 <> InitialPathID /\ (r.2, r.1) ∈ entries)).
Proof.
  induction entries as [|[pthID quota] rest IH]; intros low pid;
    cbn [lowerQuotaLoop].
  { cbn. split; [by intros ? ? ?%elem_of_nil|by left]. }
  destruct (Z.eqb_spec pthID InitialPathID) as [->|Hne].
  { specialize (IH low pid). cbv zeta in IH |- *. destruct IH as [Hall Hsel].
    split.
    - intros id q [[= -> ->]|Hin]%elem_of_cons ?; [done|by eapply Hall].
    - destruct Hsel as [?|(? & ? & ?)]; [by left|right].
      split_and!; [done..|by right]. }
  destruct (Z.ltb_spec quota low) as [Hlt|Hge].
  - specialize (IH quota pthID). cbv zeta in IH |- *.
    destruct IH as [Hall Hsel].
    assert (Hle : (lowerQuotaLoop rest quota pthID).1 <= quota)
      by (destruct Hsel as [[-> _]|(? & _)]; lia).
    split.
    + intros id q [[= -> ->]|Hin]%elem_of_cons ?; [done|by eapply Hall].
    + right. destruct Hsel as [[-> ->]|(? & ? & ?)].
      * split_and!; [done..|by left].
      * split_and!; [lia|done|by right].
  - specialize (IH low pid). cbv zeta in IH |- *. destruct IH as [Hall Hsel].
    assert (Hle : (lowerQuotaLoop rest low pid).1 <= low)
      by (destruct Hsel as [[-> _]|(? & _)]; lia).
    split.
    + intros id q [[= -> ->]|Hin]%elem_of_cons ?; [lia|by eapply Hall].
    + destruct Hsel as [?|(? & ? & ?)]; [by left|right].
      split_and!; [done..|by right].
Qed.

Lemma availableLoop_keeps paths entries lowerQuota : forall avalPath k,
  avalPath !! k = Some (paths !! k) ->
  availableLoop paths entries lowerQuota avalPath !! k = Some (paths !! k).
Proof.
  induction entries as [|[pthID quota] rest IH]; intros avalPath k Hk;
    cbn [availableLoop]; [done|].
  destruct (pthID =? InitialPathID); [by apply IH|].
  destruct (quota =? lowerQuota); [|by apply IH].
  apply IH. destruct (decide (pthID = k)) as [->|Hne].
  - by rewrite lookup_insert_eq.
  - by rewrite lookup_insert_ne.
Qed.

Lemma availableLoop_adds paths entries lowerQuota : forall avalPath k,
  (k, lowerQuota) ∈ entries -> k <> InitialPathID ->
  availableLoop paths entries lowerQuota avalPath !! k = Some (paths !! k).
Proof.
  induction entries as [|[pthID quota] rest IH]; intros avalPath k Hin Hk;
    cbn [availableLoop]; [by apply elem_of_nil in Hin|].
  apply elem_of_cons in Hin as [[= <- <-]|Hin].
  - replace (k =? InitialPathID) with false by (symmetry; by apply Z.eqb_neq).
    rewrite Z.eqb_refl. apply availableLoop_keeps. by rewrite lookup_insert_eq.
  - destruct (pthID =? InitialPathID); [by apply IH|].
    destruct (quota =? lowerQuota); by apply IH.
Qed.

Lemma availableLoop_only paths entries lowerQuota : forall avalPath k v,
  availableLoop paths entries lowerQuota avalPath !! k = Some v ->
  avalPath !! k = Some v
  \/ (v = paths !! k /\ k <> InitialPathID /\ (k, lowerQuota) ∈ entries).
Proof.
  induction entries as [|[pthID quota] rest IH]; intros avalPath k v;
    cbn [availableLoop]; [by left|].
  destruct (Z.eqb_spec pthID InitialPathID) as [->|Hne].
  { intros [?|(? & ? & ?)]%IH; [by left|right]. split_and!; [done..|by right]. }
  destruct (Z.eqb_spec quota lowerQuota) as [->|Hq].
  - intros [Hk|(? & ? & ?)]%IH.
    + destruct (decide (pthID = k)) as [->|Hne'].
      * rewrite lookup_insert_eq in Hk. injection Hk as <-.
        right. split_and!; [done..|by left].
      * rewrite lookup_insert_ne in Hk by done. by left.
    + right. split_and!; [done..|by right].
  - intros [?|(? & ? & ?)]%IH; [by left|right]. split_and!; [done..|by right].
Qed.

(** What [checkPathQuota] returns, for orders that yield every entry. *)
Lemma checkPathQuota_available
  (range : gmap Z path -> list (Z * path))
  (rangeStreams rangeStreams' : gmap Z Z -> list (Z * Z))
  (Hrange : iterates range) (HrangeStreams : iterates rangeStreams)
  (HrangeStreams' : iterates rangeStreams')
  (paths : gmap Z path) (numstreams : gmap Z Z)
  (Huint : map_Forall (fun _ count => count <= maxUint) numstreams) :
  let r := checkPathQuota range rangeStreams rangeStreams' paths numstreams in
  r.2 = numstreams ∪ ((fun _ => 0) <$> paths)
  /\ r.1 !! InitialPathID = Some (paths !! InitialPathID)
  /\ (forall id v, r.1 !! id = Some v -> v = paths !! id)
  /\ forall id, id <> InitialPathID ->
       (is_Some (r.1 !! id) <-> leastStreams r.2 id).
Proof.
  unfold checkPathQuota, leastStreams.
  set (counts := registerLoop (range paths) numstreams).
  assert (Hcounts : counts = numstreams ∪ ((fun _ => 0) <$> paths)).
  { apply map_eq. intros k. unfold counts. rewrite registerLoop_spec.
    rewrite lookup_union, lookup_fmap.
    destruct (numstreams !! k) as [q|]; [by destruct (paths !! k)|].
    destruct (paths !! k) as [p|] eqn:Hp; cbn.
    - rewrite bool_decide_eq_true_2; [done|].
      apply list_elem_of_fmap. exists (k, p). split; [done|].
      by apply iterates_elem_of.
    - rewrite bool_decide_eq_false_2; [done|].
      intros ([k' p] & -> & Hin)%list_elem_of_fmap.
      apply iterates_elem_of in Hin; [|done]. cbn in Hp. congruence. }
  assert (Hbound : forall id q, counts !! id = Some q -> q <= maxUint).
  { intros id q. rewrite Hcounts, lookup_union, lookup_fmap.
    destruct (numstreams !! id) as [q'|] eqn:Hq'.
    - destruct (paths !! id); cbn; intros [= <-]; by eapply Huint.
    - destruct (paths !! id); cbn; [|done]. intros [= <-]. done. }
  pose proof (lowerQuotaLoop_spec (rangeStreams counts) maxUint 0)
    as [Hall Hsel].
  destruct (lowerQuotaLoop (rangeStreams counts) maxUint 0)
    as [lowerQuota pathID].
  cbn [fst snd] in Hall, Hsel |- *.
  set (loop := availableLoop paths (rangeStreams' counts) lowerQuota
                 {[pathID := paths !! pathID]}).
  assert (Hleast : forall id q, id <> InitialPathID ->
            counts !! id = Some q -> lowerQuota <= q).
  { intros id q Hid Hq. eapply Hall; [|done]. by apply iterates_elem_of. }
  split_and!; [done|by rewrite lookup_insert_eq| |].
  - intros id v. destruct (decide (InitialPathID = id)) as [<-|Hne].
    { rewrite lookup_insert_eq. by intros [= <-]. }
    rewrite lookup_insert_ne by done.
    intros [Hs|(-> & _)]%availableLoop_only; [|done].
    by apply lookup_singleton_Some in Hs as [<- <-].
  - intros id Hid. rewrite lookup_insert_ne by done. split.
    + intros [v [Hs|(_ & _ & Hin)]%availableLoop_only].
      * apply lookup_singleton_Some in Hs as [<- _].
        destruct Hsel as [[_ ->]|(_ & _ & Hin)]; [done|].
        exists lowerQuota. split; [by apply iterates_elem_of in Hin|done].
      * exists lowerQuota. split; [by apply iterates_elem_of in Hin|done].
    + intros (count & Hcount & Hmin).
      assert (count = lowerQuota) as ->.
      { pose proof (Hleast id count Hid Hcount).
        destruct Hsel as [[-> _]|(_ & ? & Hin)].
        - pose proof (Hbound id count Hcount). lia.
        - apply iterates_elem_of in Hin; [|done].
          pose proof (Hmin pathID lowerQuota ltac:(done) Hin). lia. }
      unfold loop. rewrite availableLoop_adds; [done| |done].
      by apply iterates_elem_of.
Qed.

(** The available paths: whatever the orders of the three iterations, they
    are the initial path and, of the other IDs with a stream count, those
    with the least count, each with the path the session has under it.
    The paths of the session have been entered with a count of 0 where
    they had none. *)
Theorem checkPathQuota_least_streams
  (range : gmap Z path -> list (Z * path))
  (rangeStreams rangeStreams' : gmap Z Z -> list (Z * Z))
  (Hrange : iterates range) (HrangeStreams : iterates rangeStreams)
  (HrangeStreams' : iterates rangeStreams')
  (paths : gmap Z path) (numstreams : gmap Z Z)
  (Huint : map_Forall (fun _ count => count <= maxUint) numstreams) :
  let r := checkPathQuota range rangeStreams rangeStreams' paths numstreams in
  r.2 = numstreams ∪ ((fun _ => 0) <$> paths)
  /\ r.1 !! InitialPathID = Some (paths !! InitialPathID)
  /\ (forall id v, r.1 !! id = Some v -> v = paths !! id)
  /\ forall id, id <> InitialPathID ->
       (is_Some (r.1 !! id) <-> leastStreams r.2 id).
Proof.
  exact (checkPathQuota_available range rangeStreams rangeStreams' Hrange
           HrangeStreams HrangeStreams' paths numstreams Huint).
Qed.

(** Over available paths that are all there, the loop of [findPath] is
    the loop of [findPathLowLatency]. *)
Lemma findPathLoop_find entries :
  forall selectedPath lowerRTT selectedPathID quotas,
  findPathLoop (prod_map id Some <$> entries) selectedPath lowerRTT
    selectedPathID quotas
  = Returns (findLowLatencyLoop entries selectedPath lowerRTT selectedPathID
               quotas).
Proof.
  induction entries as [|[pathID pth] rest IH]; intros sel lowerRTT selID quotas;
    cbn [fmap list_fmap prod_map fst snd id findPathLoop findLowLatencyLoop];
    [done|].
  repeat case_match; by rewrite ?IH.
Qed.

Lemma all_there (entries : list (Z * option path)) :
  Forall (fun e => is_Some e.2) entries ->
  exists there, entries = prod_map id Some <$> there.
Proof.
  induction 1 as [|[k v] rest [p Hp] _ [there ->]]; [by exists []|].
  cbn in Hp. subst v. by exists ((k, p) :: there).
Qed.

(** [findPath] with more than one path, when the initial path is there and
    every ID with a stream count has a path: whatever the orders of the
    iterations, a path is returned without reading the nil path, and it is
    the path the low-latency loop prefers among the paths with the least
    stream count.  The paths are entered in the stream counts and no quota
    changes. *)
Theorem findPath_preferred_of_least_streams
  (range : gmap Z path -> list (Z * path))
  (rangeStreams rangeStreams' : gmap Z Z -> list (Z * Z))
  (rangeAvailable : gmap Z (option path) -> list (Z * option path))
  (Hrange : iterates range) (HrangeStreams : iterates rangeStreams)
  (HrangeStreams' : iterates rangeStreams')
  (HrangeAvailable : iterates rangeAvailable)
  (paths : gmap Z path) (quotas numstreams : gmap Z Z)
  (Hmulti : (1 < size paths)%nat)
  (Huint : map_Forall (fun _ count => count <= maxUint) numstreams)
  (Hinitial : is_Some (paths !! InitialPathID))
  (Hknown : forall id, is_Some (numstreams !! id) -> is_Some (paths !! id)) :
  let counts := numstreams ∪ ((fun _ => 0) <$> paths) in
  exists (selected : option (Z * path)) quotas',
    findPath range rangeStreams rangeStreams' rangeAvailable paths quotas
      numstreams = Returns (snd <$> selected, quotas', counts)
    /\ (forall id, quotaOf quotas' id = quotaOf quotas id)
    /\ preferred false (quotaOf quotas)
         (fun id pth => paths !! id = Some pth /\ leastStreams counts id)
         selected.
Proof.
  intros counts. unfold findPath.
  replace (Z.of_nat (size paths) <=? 1) with false
    by (symmetry; apply Z.leb_gt; lia).
  pose proof (checkPathQuota_available range rangeStreams rangeStreams'
                Hrange HrangeStreams HrangeStreams' paths numstreams Huint)
    as Hcheck.
  cbv zeta in Hcheck.
  destruct (checkPathQuota range rangeStreams rangeStreams' paths numstreams)
    as [avalPath counts'].
  cbn [fst snd] in Hcheck. destruct Hcheck as (-> & Hzero & Hval & Hleast).
  fold counts in Hleast |- *.
  (* every available path is there *)
  assert (Hthere : forall id v, avalPath !! id = Some v -> is_Some v).
  { intros id v Hv. rewrite (Hval id v Hv).
    destruct (decide (id = InitialPathID)) as [->|Hne]; [done|].
    destruct (proj1 (Hleast id Hne) (mk_is_Some _ _ Hv)) as (count & Hc & _).
    unfold counts in Hc. rewrite lookup_union, lookup_fmap in Hc.
    destruct (paths !! id) eqn:Hp; [done|].
    destruct (numstreams !! id) eqn:Hn; [|done].
    rewrite <- Hp. apply Hknown. by rewrite Hn. }
  destruct (all_there (rangeAvailable avalPath)) as [there Heq].
  { apply Forall_forall. intros [id v] Hin.
    apply iterates_elem_of in Hin; [|done]. by eapply Hthere. }
  rewrite Heq, findPathLoop_find, LowLatencyFacts.findLowLatencyLoop_select.
  destruct (LowLatencyFacts.selectLowLatencyLoop_spec false (quotaOf quotas)
              there [] None 0 255 quotas) as (Hq & id & Hpref);
    [done|done|by intros ? ? ?%elem_of_nil|].
  destruct (selectLowLatencyLoop false there None 0 255 quotas)
    as [selectedPath quotas'].
  cbn [fst snd] in Hq, Hpref.
  exists (pair id <$> selectedPath), quotas'. split_and!.
  - by destruct selectedPath.
  - done.
  - assert (Hin : forall k p, (k, p) ∈ there <-> avalPath !! k = Some (Some p)).
    { intros k p. rewrite <- (iterates_elem_of rangeAvailable) by done.
      rewrite Heq, list_elem_of_fmap. split.
      - intros Hin. by exists (k, p).
      - intros ([k' p'] & [= -> ->] & Hin). done. }
    assert (Hfilter : preferred false (quotaOf quotas)
              (fun k p => avalPath !! k = Some (Some p)) (pair id <$> selectedPath)).
    { eapply LowLatencyFacts.preferred_among; [|exact Hpref].
      intros k p. cbn [app]. apply Hin. }
    clear Hpref Hin.
    (* the initial path is not eligible, the others are those of the least
       stream count *)
    unfold preferred in *.
    destruct (pair id <$> selectedPath) as [[selID sel]|].
    + destruct Hfilter as (Hsel & Hel & Hall).
      assert (selID <> InitialPathID) by apply Hel.
      split; [split|split; [done|]].
      * pose proof (Hval _ _ Hsel) as Hp. by rewrite <- Hp.
      * apply Hleast; [done|]. by rewrite Hsel.
      * intros k p [Hp Hk] Hel'. apply Hall; [|done].
        assert (k <> InitialPathID) by apply Hel'.
        destruct (proj2 (Hleast k ltac:(done)) Hk) as [v Hv].
        rewrite Hv. f_equal. by rewrite (Hval _ _ Hv).
    + intros k p [Hp Hk] Hel'. eapply Hfilter; [|done].
      assert (k <> InitialPathID) by apply Hel'.
      destruct (proj2 (Hleast k ltac:(done)) Hk) as [v Hv].
      rewrite Hv. f_equal. by rewrite (Hval _ _ Hv).
Qed.

End PathQuotaFacts.


Section SchedulerScenarios.

Import Scheduler Scenario SchedulerFacts LowLatencyFacts PathQuotaFacts.

Lemma forwards_iterates {V} : iterates (@forwards V).
Proof. by intros m. Qed.

Lemma backwards_iterates {V} : iterates (@backwards V).
Proof. intros m. unfold backwards. by rewrite reverse_Permutation. Qed.

Lemma sessionPaths_multi : (1 < size sessionPaths)%nat.
Proof. vm_compute. lia. Qed.

Lemma streamCounts_uint :
  map_Forall (fun _ count => count <= maxUint) streamCounts.
Proof. apply (bool_decide_unpack _). by vm_compute. Qed.

Lemma streamCounts_known id :
  is_Some (streamCounts !! id) -> is_Some (sessionPaths !! id).
Proof.
  assert (Hall : map_Forall (fun k _ => is_Some (sessionPaths !! k))
                   streamCounts)
    by (apply (bool_decide_unpack _); by vm_compute).
  intros [count Hcount]. exact (Hall id count Hcount).
Qed.

(** Five paths, of which path 7 has no packet quota yet. *)
Lemma iteratePathRoundRobin_least_quota_witness :
  let r := iteratePathRoundRobin backwards sessionPaths packetQuotas in
  r.1 = Some slowPath
  /\ r.2 !! 7 = Some 0
  /\ forall id, quotaOf r.2 id = quotaOf packetQuotas id.
Proof.
  intros r. split; [vm_compute; reflexivity|].
  split; [vm_compute; reflexivity|].
  apply (iteratePathRoundRobin_least_quota backwards backwards_iterates
           sessionPaths packetQuotas).
Defined.

(** The same paths without a retransmission: path 3 with the quota 2 is
    potentially failed and path 7 is selected. *)
Lemma selectPathRoundRobin_least_quota_witness :
  exists quotas',
    selectPathRoundRobin backwards sessionPaths packetQuotas false false None
    = Returns (Some slowPath, quotas')
    /\ forall id, quotaOf quotas' id = quotaOf packetQuotas id.
Proof.
  destruct (selectPathRoundRobin_least_quota backwards backwards_iterates
              sessionPaths packetQuotas false false None sessionPaths_multi)
    as (selectedPath & quotas' & Heq & Hq & _).
  exists quotas'. split; [|exact Hq].
  rewrite Heq. f_equal. f_equal.
  assert (Hsel : match selectPathRoundRobin backwards sessionPaths packetQuotas
                         false false None with
                 | Returns r => r.1 = Some slowPath
                 | NilPath => False
                 end) by (vm_compute; reflexivity).
  rewrite Heq in Hsel. exact Hsel.
Defined.

(** The same paths: path 5 with the lowest smoothed RTT is found. *)
Lemma findPathLowLatency_preferred_witness :
  exists quotas',
    findPathLowLatency forwards sessionPaths packetQuotas
    = Returns (Some fastPath, quotas')
    /\ forall id, quotaOf quotas' id = quotaOf packetQuotas id.
Proof.
  destruct (findPathLowLatency_preferred forwards forwards_iterates
              sessionPaths packetQuotas sessionPaths_multi)
    as (selected & quotas' & Heq & Hq & _).
  exists quotas'. split; [|exact Hq].
  rewrite Heq. f_equal. f_equal.
  assert (Hsel : match findPathLowLatency forwards sessionPaths packetQuotas with
                 | Returns r => r.1 = Some fastPath
                 | NilPath => False
                 end) by (vm_compute; reflexivity).
  rewrite Heq in Hsel. exact Hsel.
Defined.

(** The retransmission of a stream from the unprobed path 1, whose quota is
    4: path 3 with the quota 2 is returned, a path that is potentially
    failed. *)
Lemma selectPathLowLatency_retransmission_witness :
  selectPathLowLatency backwards forwards sessionPaths packetQuotas true true
    (Some unprobedPath) = Returns (Some failedPath, packetQuotas)
  /\ potentiallyFailed failedPath = true
  /\ exists selectedPath quotas',
       selectPathLowLatency backwards forwards sessionPaths packetQuotas true
         true (Some unprobedPath) = Returns (selectedPath, quotas')
       /\ forall id, quotaOf quotas' id = quotaOf packetQuotas id.
Proof.
  split; [vm_compute; reflexivity|]. split; [reflexivity|].
  destruct (selectPathLowLatency_retransmission backwards forwards
              backwards_iterates forwards_iterates sessionPaths packetQuotas
              true unprobedPath sessionPaths_multi)
    as (selectedPath & quotas' & Heq & Hq & _).
  by exists selectedPath, quotas'.
Defined.

(** Streams counted on the paths 1 and 5: the paths 3 and 7 are available
    beside the initial path. *)
Lemma checkPathQuota_least_streams_witness :
  let r := checkPathQuota forwards backwards forwards sessionPaths
             streamCounts in
  r.1 = {[ 0 := Some initialPath; 3 := Some failedPath; 7 := Some slowPath ]}
  /\ r.2 = streamCounts ∪ ((fun _ => 0) <$> sessionPaths).
Proof.
  intros r. split; [vm_compute; reflexivity|].
  apply (checkPathQuota_least_streams forwards backwards forwards
           forwards_iterates backwards_iterates forwards_iterates
           sessionPaths streamCounts streamCounts_uint).
Defined.

(** The same streams: of the available paths 3 and 7, path 7 is found. *)
Lemma findPath_preferred_of_least_streams_witness :
  exists quotas',
    findPath forwards backwards forwards backwards sessionPaths packetQuotas
      streamCounts
    = Returns (Some slowPath, quotas',
               streamCounts ∪ ((fun _ => 0) <$> sessionPaths))
    /\ forall id, quotaOf quotas' id = quotaOf packetQuotas id.
Proof.
  destruct (findPath_preferred_of_least_streams forwards backwards forwards
              backwards forwards_iterates backwards_iterates forwards_iterates
              backwards_iterates sessionPaths packetQuotas streamCounts
              sessionPaths_multi streamCounts_uint
              ltac:(vm_compute; eauto) streamCounts_known)
    as (selected & quotas' & Heq & Hq & _).
  exists quotas'. split; [|exact Hq].
  rewrite Heq. f_equal. f_equal. f_equal.
  assert (Hsel : match findPath forwards backwards forwards backwards
                         sessionPaths packetQuotas streamCounts with
                 | Returns r => r.1.1 = Some slowPath
                 | NilPath => False
                 end) by (vm_compute; reflexivity).
  rewrite Heq in Hsel. exact Hsel.
Defined.

End SchedulerScenarios.
